(* ===== verification/_CoqProject ===== *)
-Q . S2P
Prelude.v
Lru.v
Breaker.v
Balancer.v
RateLimiters.v
LimiterRace.v
GoStrings.v
Http.v
Json.v
Upstream.v
DbPool.v
Auth.v
Guards.v
Observers.v
Compress.v
Sha256.v
CacheMW.v
CacheKey.v
Pools.v
Proxy.v
Routing.v
ProxyRace.v
Config.v
Router.v
Fanout.v
Telemetry.v
Process.v
Loadtest.v
Scenario.v
Compose.v
EndToEnd.v
Isolation.v
Uncached.v
