(* ===== verification/Prelude.v ===== *)
(** * Go API gateway: verification development

    The program is an HTTP gateway. [cmd/gateway] reads a YAML configuration,
    builds one handler per configured service and serves requests through a
    chain of middleware: panic recovery, request identifiers, logging, body
    limit, metrics, tracing and concurrency limit around everything, then
    per service authentication, role check, rate limit, response cache and
    compression, and innermost a reverse proxy that picks an upstream with a
    round-robin balancer, asks its circuit breaker for admission and reports
    the outcome back to it. A health checker polls the upstreams beside it.
    [upstream/orders] and [upstream/catalog] are the services behind it, over
    one PostgreSQL database; [loadtest] signs tokens and drives simulated users
    through gateway and services.

    ** Files and sources (paths under [src/])

    - [Prelude]: results of fallible functions, machine integers with their
      wrap-around, the fuelled [while] loop with its rules, reachability and
      lenses, the shared lemmas, tactics and hint databases.
    - [Lru]: [internal/cache/lru.go].  [Module LRU] keeps the linked list of
      element identifiers, the heap of elements, the index and the byte
      counter apart, as the code does; [Module LRUSpec] is a bounded recency
      list of key/entry pairs; [Module LRURefinement] relates the two.
    - [Breaker]: [internal/circuitbreaker/breaker.go], each method with the
      clock reading as an argument, and the system of one breaker with the
      requests that are in flight as a step relation.
    - [Balancer]: [internal/health/checker.go] ([Module Health]) and
      [internal/loadbalancer/roundrobin.go] ([Module RoundRobin]); the balancer
      sees the checker through the class [HealthChecker].  Concurrent calls of
      [Next] are a step relation on the shared 64-bit counter.
    - [RateLimiters]: [internal/ratelimit/limiter.go] and [redis.go] with its
      Lua script, whose arithmetic rounds as doubles do ([Module Double]), each
      call without interference.
    - [LimiterRace]: the same [limiter.go] under concurrency: the accesses of
      [Allow] and [cleanup] to the [sync.Map] as separate steps.
    - [GoStrings], [Http]: the parts of Go's [strings] and [net/http] that the
      gateway calls (prefixes, trimming, header maps with canonical keys,
      [ResponseWriter] as a class, the server's own writer as its instance).
      A handler is a state transformer over a writer and ends by returning or
      by panicking; the calls it makes on the writer are kept in order.
    - [Auth]: [internal/middleware/auth.go].
    - [Guards]: [ratelimit.go], [maxbody.go] and [concurrencylimit.go] of
      [internal/middleware].
    - [Observers]: [recoverer.go], [requestid.go], [logger.go] and [tracing.go]
      of [internal/middleware], and [internal/metrics/metrics.go].  The class
      [Wraps] states what a wrapping writer keeps of the writer inside.
    - [Compress]: [internal/middleware/compress.go]; a compressor has a
      destination of its own, which only [Reset] changes.
    - [Sha256], [CacheMW]: [internal/middleware/cache.go]; entity tags are
      computed with an executable SHA-256.  [Module CacheMW] is one request
      through the middleware over the cache of [Lru].
    - [CacheKey]: which requests [buildKey] of [cache.go] tells apart.
    - [Pools]: the two [sync.Pool]s of [cache.go] and [compress.go].  [Module
      Pool] is who holds which object; [Module Capture] runs calls of
      [fillCache] over shared byte arrays; [Module Compressors] does so for the
      compressors.
    - [Proxy]: [internal/proxy/proxy.go] and [rewrite.go], with the part of
      [httputil.ReverseProxy] that calls them.  The class [LoadBalancer] with
      its laws is the interface to [Balancer]; the breakers are a map from
      URLs to the breakers of [Breaker].
    - [Routing]: the balancer with its health checker, the breakers and the
      proxy handler of one service, run on a history of probes and requests.
    - [ProxyRace]: the same objects with any number of requests in the handler at
      once; each access to a shared object is a step.
    - [Config]: [internal/config/config.go] and [validate.go].
    - [Router]: [cmd/gateway/server.go] and [handlers.go].  [Module Build]
      builds the router from a configuration, with every error; [Module
      Gateway] composes all the middleware above into the handler of the
      running gateway.
    - [Fanout], [Telemetry]: [internal/otel/fanout.go] and [otel.go]; the state
      is which providers are running and which are global.
    - [Process]: [cmd/gateway/main.go], [main] as the trace of its effects,
      composed of [Config.Load], [Otel.Setup] and [Build.buildRouter].
    - [Json]: values, encoder and decoder of [encoding/json].
    - [Upstream]: the handlers of [upstream/orders/main.go] and
      [upstream/catalog/main.go] with their SQL, over the tables of the two
      migrations ([Module Store]) and the multiplexer of [net/http].  [Module
      UpstreamLaws] has their theorems.
    - [DbPool]: [openDB], [warmPool] and [main] of both services, over the
      connection pool of [database/sql].
    - [Loadtest]: [loadtest/token.go], [loadtest/cmd/gentoken/main.go] and
      [loadtest/scenarios/user_flow.go]; recording and reporting interleave in a
      step relation.
    - [Scenario]: [main] of [user_flow.go], the users, the reports and the exit of
      the process as one step relation.
    - [Compose]: authentication and proxy of the gateway over a transport that
      ends in one of the services.
    - [EndToEnd]: the complete handler of [Router.Gateway] over a transport that
      ends in the orders service, with one lemma per middleware.
    - [Isolation]: the same handler run in two states; what a user observes of
      the orders of others.
    - [Uncached]: the same handler and the cache in front of the orders service.

    ** What the theorems show

    - The gateway: a request for an authenticated service without a verifying
      token, or without a required role, is refused and nothing behind the
      check runs or changes state ([Router.Gateway]); construction from a
      validated configuration gives every service the limiter, the cache, the
      breakers and the transport with the values it configures ([Router.Build]);
      validation accepts exactly the acceptable configurations and fills in the
      defaults, each stated as a value ([Config]).
    - The cache: the linked structure refines the recency list on every
      sequence of operations, stays within its bounds, and returns what was
      stored ([Lru]); the middleware stores exactly what may be stored and
      replays it unchanged, conditional requests included, to every request for
      it until it expires, as long as nothing evicts or replaces it ([CacheMW]).
      Keys agree exactly
      on requests that ask for the same, when their parts hold no separators
      ([CacheKey]).  What is stored or compressed with a pooled object is what
      it would be with a fresh one, in every interleaving ([Pools]).
    - Availability: a breaker opens exactly on a run of consecutive failures,
      admits one probe per timeout and cannot get stuck while admitted
      requests report ([Breaker]); the balancer returns a healthy upstream
      whenever there is one, in cyclic order, sequentially ([Balancer]); the
      proxy answers each kind of failure with its status and reports it once,
      relays responses unchanged, and does not panic ([Proxy]).  Together: a
      round trip goes to an upstream whose last probe succeeded and whose
      breaker was not opened by its history, and a request with such an
      upstream is sent, of requests that come one after the other ([Routing]).
      With requests and probes interleaved, each
      breaker behaves as if its own requests used it one call at a time, whatever
      their round trips show, no request panics, and an uninterrupted request does
      what the handler does ([ProxyRace]).
    - Limits: the Redis script admits at most burst plus rate times time, up to
      a bound on its rounding ([RateLimiters]); the in-process limiter keeps the
      keys apart, racing first calls of a key share one bucket, and, where sweeps
      and calls do not race, forgetting a bucket that has been idle long enough to
      be full is not observable ([LimiterRace]); at most [limit] requests pass the concurrency limit in any
      interleaving; no more than the allowed bytes of a body are read.
    - Transparency: compression and the observing middleware change neither
      status nor body; what they report is what the client received.
    - The services: each request has exactly its specified outcomes, errors of the
      database included; stored orders stay consistent with the catalog, typed
      and complete under any sequence of requests; users see their own orders
      only, and an acknowledged order stays listed ([Upstream]).  Through the
      gateway, every order belongs to the subject of a verified token
      ([EndToEnd], through every middleware), a client reads only the orders
      of its own subject ([Compose]), and no sequence of requests lets a user
      observe that others have orders ([Isolation], through every middleware); no
      answer of the service is ever cached ([Uncached]).  The pool is warm or closed, never leaking,
      and a service listens only with a warm pool ([DbPool]).
    - JSON: the decoder terminates on every input within the fuel it is given
      ([parse_terminates]), reads back what the encoder writes
      ([json_roundtrip]), and with it every error body of the gateway
      ([error_bodies_are_json]).
    - The process: telemetry that fails to start leaves nothing running, a
      signalled gateway stops the server before telemetry and exits cleanly
      ([Telemetry], [Process]).
    - The load test: its tokens pass the gateway, its users stop, its orders are
      valid, its reports are right and lose no response ([Loadtest]); the report
      printed before exit covers every recorded response ([Scenario]).
    - Where the code does not do what it means to, a theorem or an example shows
      the behaviour it has: an oversized request as probe leaves a breaker
      half-open for ever, the key by which concurrent misses are joined does not
      tell clients apart, compression hides an upstream's [Vary], concurrent calls of
      [Next] can miss the only healthy upstream, a late answer to an old request
      closes a half-open breaker, malformed product identifiers
      open the breaker of the catalog, a failed start skips the flush of
      telemetry, a call of [Allow] racing with [cleanup] can exceed the burst, a
      limit slower than one request per idle time is reset by [cleanup], and a
      periodic report of the load test can be cut off by the exit.

    ** Parameters

    Code that is not in the repository is an argument of the definitions that
    use it, through a class where it has several operations: the JWT library
    ([JWT] with [JWTLaws]: a parsed token verifies under the key the key
    function returned), [golang.org/x/time/rate] ([TokenBucket]; where a theorem
    needs it, the law that a bucket left alone for a given time is full again), gzip ([Gzip]
    with [GzipLaws]: decompressing what was written gives it back, and
    [GzipReset]: a writer that is reset is equivalent to a new one), content
    sniffing, lower-casing of non-ASCII text, [url.Parse], YAML decoding, PEM
    parsing, route matching of chi, the tracer and the meter, the transport
    and the clock; for the services PostgreSQL's input conversions and row order
    ([Postgres] with [PostgresLaws]: conversion to canonical form, decimal
    integers, all rows), the struct validator ([Validator] with [ValidatorLaws]:
    the documented meaning of the tags) and the points at which the driver
    reports an error ([Driver]); for telemetry the calls of the SDK that fail
    ([library]); for the load test the JWT signer ([Signer] with [SignerLaws]:
    any signed token parses to itself under the matching key, if its own [alg] is
    a valid method and the time is before its own [exp]).  Each law has
    an instance that the witnesses use.  The theorems on the whole gateway take
    the network, the clock and the faults of the database as arguments, and state
    where objects lie apart in its state ([elsewhere], [others_blind],
    [outside]); [Isolation] compares runs in which neither faults nor the order
    of a user's rows depend on other users' rows, [Uncached] uses that the
    multiplexer's redirect sets no [Cache-Control].

    ** Fuel and bounds

    [while] is used for the two eviction loops, with the length of the list as
    fuel: each iteration removes an element, and [while_exit] shows the loop
    condition false on exit.  The loop of [Next] is bounded by the number of
    upstreams in the code itself.  The binary search for cube roots in [Sha256]
    runs a fixed number of steps.  The JSON parser has fuel [enough], twice the
    length of its input; [parse_terminates] shows that more changes nothing and
    that it never runs out.  [runUser] has fuel for its rounds, and [users_stop]
    shows that one more than the round in which the context ends is enough.  All
    other recursion is structural.  Integers are
    [Z] at 64 bits ([int64], [uint64]) where the code can overflow.

    ** Not modelled

    Flag parsing, the delivery of signals and the start of goroutines in the
    [main] functions; the text of log lines beyond message and attributes that
    the code itself writes.
    Of the libraries: the limit on the number of query parameters, raw paths,
    trailers, informational responses of an upstream, the parsing of chi's
    route patterns, the joining of concurrent calls by [singleflight] (each
    request runs [fillCache] itself), where the output of a compressor goes that
    was not reset, and the range of doubles (expiries of more than [10^17] ms,
    which [PEXPIRE] refuses, included).  The byte counter of the cache and the
    counts of the load test are unbounded, as no run reaches [2^63]; the status and target of
    the multiplexer's redirect for paths that are not clean, deadlines of the
    services' contexts, and expiry of pooled connections. The lines logged while
    the router is built are left out.

    ** What could follow

    The catalog behind the whole gateway, whose answers may be cached; the requests
    of several users that alternate. *)

From Stdlib Require Import ZArith Lia.
From stdpp Require Export prelude gmap strings list sorting relations.

Declare Scope gw_scope.
Delimit Scope gw_scope with gw.
Open Scope gw_scope.
Open Scope Z_scope.

(** ** Results of fallible Go functions

    A Go function returning [(T, error)] is modelled by [result T]: exactly
    one of the two components is meaningful. *)

Inductive result (A : Type) : Type :=
| Ok (a : A)
| Err (msg : string).
Arguments Ok {A} _.
Arguments Err {A} _.

Definition result_bind {A B} (c : result A) (k : A -> result B) : result B :=
  match c with Ok a => k a | Err e => Err e end.

Notation "'let?' x := c1 'in' c2" := (result_bind c1 (fun x => c2))
  (at level 10, x pattern, c1 at level 200, c2 at level 200) : gw_scope.

(** [fmt.Errorf("context: %w", err)] around a call that may fail. *)
Definition wrap_err {A} (context : string) (c : result A) : result A :=
  match c with Ok a => Ok a | Err e => Err (context +:+ ": " +:+ e) end.

Lemma wrap_err_ok {A} context (c : result A) a : wrap_err context c = Ok a <-> c = Ok a.
Proof. destruct c; simpl; naive_solver. Qed.

Definition is_ok {A} (r : result A) : bool :=
  match r with Ok _ => true | Err _ => false end.

Lemma result_bind_ok {A B} (c : result A) (k : A -> result B) b :
  result_bind c k = Ok b <-> exists a, c = Ok a /\ k a = Ok b.
Proof. destruct c; simpl; naive_solver. Qed.

(** ** Machine integers

    Go's [int] and [int64] are two's complement 64-bit integers on the
    platforms the gateway is built for; arithmetic wraps silently. *)

Definition two63 : Z := 9223372036854775808.
Definition two64 : Z := 18446744073709551616.
Definition MaxInt : Z := two63 - 1.
Definition MinInt : Z := - two63.

(** Wrap-around of signed 64-bit arithmetic. *)
Definition int64 (z : Z) : Z := (z + two63) mod two64 - two63.

(** Wrap-around of unsigned 64-bit arithmetic. *)
Definition uint64 (z : Z) : Z := z mod two64.

Definition in_int64 (z : Z) : Prop := MinInt <= z <= MaxInt.

Lemma int64_id z : in_int64 z -> int64 z = z.
Proof.
  unfold in_int64, MinInt, MaxInt, int64, two63, two64. intros.
  rewrite Z.mod_small; lia.
Qed.

Lemma int64_range z : in_int64 (int64 z).
Proof.
  unfold in_int64, MinInt, MaxInt, int64, two63, two64.
  pose proof (Z.mod_pos_bound (z + 9223372036854775808) 18446744073709551616 ltac:(lia)). lia.
Qed.

Lemma int64_add_l a b : int64 (int64 a + b) = int64 (a + b).
Proof.
  unfold int64, two63, two64.
  replace ((a + 9223372036854775808) mod 18446744073709551616 - 9223372036854775808 + b + 9223372036854775808)
    with ((a + 9223372036854775808) mod 18446744073709551616 + b) by lia.
  rewrite Zplus_mod_idemp_l. do 2 f_equal. lia.
Qed.

Lemma int64_idem a : int64 (int64 a) = int64 a.
Proof. apply int64_id, int64_range. Qed.

Lemma uint64_id z : 0 <= z < two64 -> uint64 z = z.
Proof. unfold uint64. apply Z.mod_small. Qed.

Lemma uint64_range z : 0 <= uint64 z < two64.
Proof. unfold uint64, two64. apply Z.mod_pos_bound. lia. Qed.

(** ** Time

    A [time.Time] is its distance in nanoseconds from a fixed instant, a
    [time.Duration] an [int64] count of nanoseconds. *)

Definition Nanosecond : Z := 1.
Definition Microsecond : Z := 1000.
Definition Millisecond : Z := 1000000.
Definition Second : Z := 1000000000.
Definition Minute : Z := 60 * Second.
Definition Hour : Z := 60 * Minute.

(** [time.Time.Sub] and [time.Since] saturate at the ends of [time.Duration]. *)
Definition Since (now t : Z) : Z := Z.max MinInt (Z.min MaxInt (now - t)).

(** ** Loops

    [while fuel cond body s] runs a Go [for cond { body }] loop for at most
    [fuel] iterations. Every use is accompanied by a theorem that the fuel
    given is enough, i.e. that [cond] is false in the final state. *)

Fixpoint while {S : Type} (fuel : nat) (cond : S -> bool) (body : S -> S) (s : S) : S :=
  match fuel with
  | O => s
  | Datatypes.S n => if cond s then while n cond body (body s) else s
  end.

Section While.
Context {S : Type} (cond : S -> bool) (body : S -> S) (Inv : S -> Prop) (measure : S -> nat).
Hypothesis body_inv : forall s, Inv s -> cond s = true -> Inv (body s).
Hypothesis body_dec : forall s, Inv s -> cond s = true -> (measure (body s) < measure s)%nat.

Lemma while_inv fuel s : Inv s -> Inv (while fuel cond body s).
Proof using body_inv.
  revert s. induction fuel as [|n IH]; intros s Hs; simpl; [done|].
  destruct (cond s) eqn:E; [|done]. apply IH. by apply body_inv.
Qed.

Lemma while_exit fuel s : Inv s -> (measure s <= fuel)%nat -> cond (while fuel cond body s) = false.
Proof using body_inv body_dec.
  revert s. induction fuel as [|n IH]; intros s Hs Hm; simpl.
  - destruct (cond s) eqn:E; [|done]. pose proof (body_dec s Hs E). lia.
  - destruct (cond s) eqn:E; [|done].
    apply IH; [by apply body_inv|]. pose proof (body_dec s Hs E). lia.
Qed.
End While.

(** ** Reachability *)

(** An invariant preserved by every step holds in every reachable state. *)
Lemma rtc_invariant {A} (R : relation A) (Inv : A -> Prop) x y :
  (forall a b, Inv a -> R a b -> Inv b) -> Inv x -> rtc R x y -> Inv y.
Proof. intros Hstep Hx Hxy. induction Hxy; eauto. Qed.

(** ** Lenses

    A handler that captures a shared object (a cache, a limiter, the
    breakers) is a function over a larger state; a lens says where the object
    lives in it. *)

Class Lens (S A : Type) := {
  lget : S -> A;
  lset : A -> S -> S;
}.

Class LensLaws (S A : Type) `{!Lens S A} := {
  lget_lset : forall a s, lget (lset a s) = a;
  lset_lget : forall s, lset (lget s) s = s;
  lset_lset : forall a b s, lset a (lset b s) = lset a s;
}.

#[export] Instance lens_id {S} : Lens S S | 100 := {| lget s := s; lset a _ := a |}.
#[export] Instance lens_id_laws {S} : @LensLaws S S lens_id | 100.
Proof. by constructor. Qed.

(** The first component of a pair. *)
Definition lens_fst {A B} : Lens (A * B) A := {| lget s := s.1; lset a s := (a, s.2) |}.
Lemma lens_fst_laws {A B} : @LensLaws (A * B) A lens_fst.
Proof. constructor; simpl; try done. by intros []. Qed.

Create HintDb gw.
Create Rewrite HintDb gw.
#[export] Hint Rewrite @lget_lset @lset_lget @lset_lset using (typeclasses eauto) : gw.
#[export] Hint Resolve int64_id int64_range uint64_range : gw.

(** ** Tactics *)

(** Case analysis on the first [match] of the goal or of a hypothesis,
    keeping the equation. *)
Ltac case_matches := repeat (case_match; simplify_eq/=; try done).

(** Turn boolean comparisons on [Z] in hypotheses and goal into propositions. *)
Ltac bool2prop :=
  repeat match goal with
  | H : _ && _ = true |- _ => apply andb_true_iff in H as [? ?]
  | H : _ || _ = false |- _ => apply orb_false_iff in H as [? ?]
  | H : negb _ = true |- _ => apply negb_true_iff in H
  | H : negb _ = false |- _ => apply negb_false_iff in H
  | H : (_ <? _) = true |- _ => apply Z.ltb_lt in H
  | H : (_ <? _) = false |- _ => apply Z.ltb_ge in H
  | H : (_ <=? _) = true |- _ => apply Z.leb_le in H
  | H : (_ <=? _) = false |- _ => apply Z.leb_gt in H
  | H : (_ =? _) = true |- _ => apply Z.eqb_eq in H
  | H : (_ =? _) = false |- _ => apply Z.eqb_neq in H
  | H : bool_decide _ = true |- _ => apply bool_decide_eq_true in H
  | H : bool_decide _ = false |- _ => apply bool_decide_eq_false in H
  end.

(** Simplify a goal with the rewriting rules of the database [gw]. *)
Ltac gwsimp := autorewrite with gw; simpl.

(** ** Lists *)

Definition sumZ (l : list Z) : Z := foldr Z.add 0 l.

Lemma sumZ_app l k : sumZ (l ++ k) = sumZ l + sumZ k.
Proof. unfold sumZ. induction l; simpl; lia. Qed.

Lemma sumZ_cons x l : sumZ (x :: l) = x + sumZ l.
Proof. done. Qed.

Lemma sumZ_nonneg l : Forall (fun x => 0 <= x) l -> 0 <= sumZ l.
Proof. unfold sumZ. induction 1; simpl; lia. Qed.

#[global] Arguments sumZ : simpl never.

Lemma list_snoc_inv {A} (l : list A) : l = [] \/ exists k x, l = k ++ [x].
Proof. destruct l using rev_ind; eauto. Qed.

#[export] Hint Rewrite sumZ_app sumZ_cons : gw.
