(* ===== verification/Lru.v ===== *)
(** * The in-memory LRU cache ([internal/cache/lru.go])

    [Module LRU] translates the cache as it is implemented: a doubly linked
    list of elements in recency order ([container/list]), an index from keys to
    list elements, and a running byte count. [Module LRUSpec] is the contract: a
    recency-ordered association list without duplicate keys, cut down to the
    longest prefix that fits both bounds. The refinement theorems say that the
    index, the list and the byte counter always agree and that every operation
    computes what the contract says. *)

From S2P Require Import Prelude.

Module LRU.

(** A cached response, captured by the cache middleware. *)
Record Entry := mkEntry {
  Status : Z;
  Header : gmap string (list string);
  Body : string;
  ETag : string;
  ExpiresAt : Z;
}.

(** [Entry.Size]: the receiver is a pointer and may be nil. *)
Definition Size (e : option Entry) : Z :=
  match e with
  | None => 0
  | Some e => Z.of_nat (String.length (Body e))
  end.

Record item := mkItem { key : string; entry : Entry }.

(** A pointer to a [list.Element] is a handle; its [Value] is looked up in [values]. *)
Definition element := nat.

Record LRU := mkLRU {
  maxEntries : Z;
  maxBytes : Z;
  bytes : Z;
  order : list element;
  values : gmap element item;
  fresh : element;
  index : gmap string element;
}.

Definition NewLRU (maxEntries maxBytes : Z) : LRU :=
  mkLRU maxEntries maxBytes 0 [] ∅ 0%nat ∅.

(** [container/list] operations on the recency list. *)
Definition list_Remove (el : element) (l : list element) : list element :=
  filter (fun x => x ≠ el) l.

Definition list_MoveToFront (el : element) (l : list element) : list element :=
  el :: list_Remove el l.

Definition list_Back (l : list element) : option element := last l.

(** The counter [bytes] is an [int] in the code; as the sum of the sizes of bodies in
    memory it stays far below its limit. *)
Definition removeElement (el : element) (c : LRU) : LRU :=
  match values c !! el with
  | None => c
  | Some it =>
      mkLRU (maxEntries c) (maxBytes c)
        (bytes c - Size (Some (entry it)))
        (list_Remove el (order c))
        (delete el (values c))
        (fresh c)
        (delete (key it) (index c))
  end.

(** [now] is the value [time.Now()] returns inside the critical section. *)
Definition Get (now : Z) (k : string) (c : LRU) : option Entry * LRU :=
  match index c !! k with
  | None => (None, c)
  | Some el =>
      match values c !! el with
      | None => (None, c)
      | Some it =>
          if ExpiresAt (entry it) <? now
          then (None, removeElement el c)
          else (Some (entry it),
                mkLRU (maxEntries c) (maxBytes c) (bytes c)
                  (list_MoveToFront el (order c)) (values c) (fresh c) (index c))
      end
  end.

Definition Len (c : LRU) : Z := Z.of_nat (length (order c)).

Definition Bytes (c : LRU) : Z := bytes c.

Definition remove_back (c : LRU) : LRU :=
  match list_Back (order c) with
  | None => c
  | Some back => removeElement back c
  end.

Definition over_entries (c : LRU) : bool :=
  (0 <? maxEntries c) && (maxEntries c <? Len c).

(** The second loop of [evict] leaves when the list is empty. *)
Definition over_bytes (c : LRU) : bool :=
  (0 <? maxBytes c) && (maxBytes c <? bytes c) && bool_decide (is_Some (list_Back (order c))).

Definition evict (c : LRU) : LRU :=
  let c := while (length (order c)) over_entries remove_back c in
  while (length (order c)) over_bytes remove_back c.

Definition Set_ (k : string) (e : Entry) (c : LRU) : LRU :=
  let c := match index c !! k with
           | Some el => removeElement el c
           | None => c
           end in
  let el := fresh c in
  evict (mkLRU (maxEntries c) (maxBytes c)
           (bytes c + Size (Some e))
           (el :: order c)
           (<[el := mkItem k e]> (values c))
           (S el)
           (<[k := el]> (index c))).

#[global] Arguments Size : simpl never.

End LRU.

(** ** The contract *)

Module LRUSpec.
Import LRU.

Definition pair_size (p : string * Entry) : Z := Size (Some p.2).

Definition total (l : list (string * Entry)) : Z := sumZ (map pair_size l).

Definition remove (k : string) (l : list (string * Entry)) : list (string * Entry) :=
  filter (fun p => p.1 ≠ k) l.

Fixpoint find (k : string) (l : list (string * Entry)) : option Entry :=
  match l with
  | [] => None
  | (k', e) :: l => if decide (k' = k) then Some e else find k l
  end.

(** The longest prefix whose bodies fit in [budget] bytes. *)
Fixpoint prefix_within (budget : Z) (l : list (string * Entry)) : list (string * Entry) :=
  match l with
  | [] => []
  | p :: l => if pair_size p <=? budget then p :: prefix_within (budget - pair_size p) l else []
  end.

(** A bound of zero (or less) is no bound. *)
Definition fit (maxEntries maxBytes : Z) (l : list (string * Entry)) : list (string * Entry) :=
  let l := if 0 <? maxEntries then take (Z.to_nat maxEntries) l else l in
  if 0 <? maxBytes then prefix_within maxBytes l else l.

Definition get (now : Z) (k : string) (l : list (string * Entry)) :
    option Entry * list (string * Entry) :=
  match find k l with
  | None => (None, l)
  | Some e => if ExpiresAt e <? now then (None, remove k l) else (Some e, (k, e) :: remove k l)
  end.

Definition set (maxEntries maxBytes : Z) (k : string) (e : Entry) (l : list (string * Entry)) :
    list (string * Entry) :=
  fit maxEntries maxBytes ((k, e) :: remove k l).

End LRUSpec.

(** ** Well-formedness and the abstraction function *)

Module LRURefinement.
Import LRU LRUSpec.

Definition view (c : LRU) (el : element) : option (string * Entry) :=
  (fun it => (key it, entry it)) <$> values c !! el.

(** The association list a cache stands for, most recent first. *)
Definition abs (c : LRU) : list (string * Entry) := omap (view c) (order c).

Record wf (c : LRU) : Prop := {
  wf_nodup : NoDup (order c);
  wf_values : forall el, el ∈ order c <-> is_Some (values c !! el);
  wf_index : forall k el, index c !! k = Some el <-> exists it, values c !! el = Some it /\ key it = k;
  wf_fresh : forall el, el ∈ order c -> (el < fresh c)%nat;
  wf_bytes : bytes c = total (abs c);
}.

Lemma omap_ext_in {A B} (f g : A -> option B) (l : list A) :
  (forall x, x ∈ l -> f x = g x) -> omap f l = omap g l.
Proof.
  induction l as [|x l IH]; intros H; csimpl; [done|].
  rewrite (H x), IH by set_solver. done.
Qed.

(** Filtering the handles of a list filters its view, when the handle and
    the key of an element determine each other. *)
Lemma omap_filter_ne (f : element -> option (string * Entry)) (l : list element) el k :
  (forall x p, x ∈ l -> f x = Some p -> (p.1 = k <-> x = el)) ->
  omap f (list_Remove el l) = remove k (omap f l).
Proof.
  unfold list_Remove, remove.
  induction l as [|x l IH]; intros H; csimpl; [done|].
  assert (omap f (filter (fun y => y ≠ el) l) = filter (fun p => p.1 ≠ k) (omap f l)) as IH'
    by (apply IH; intros; apply H; set_solver).
  rewrite filter_cons. case_decide as Hx; csimpl; rewrite ?IH';
    destruct (f x) as [p|] eqn:E; try done; rewrite filter_cons.
  - by rewrite decide_True by (rewrite (H x p); set_solver).
  - by rewrite decide_False by (rewrite (H x p); set_solver).
Qed.

Lemma remove_notin k l : k ∉ l.*1 -> remove k l = l.
Proof.
  unfold remove. induction l as [|[k' e] l IH]; simpl; intros H; [done|].
  rewrite filter_cons, decide_True by set_solver. f_equal. set_solver.
Qed.

Lemma total_remove k e l : NoDup l.*1 -> (k, e) ∈ l -> total (remove k l) = total l - pair_size (k, e).
Proof.
  unfold total. induction l as [|[k' e'] l IH]; simpl; intros Hnd Hin; [set_solver|].
  apply NoDup_cons in Hnd as [Hk Hnd]. unfold remove in *. rewrite filter_cons. simpl.
  case_decide as Hne.
  - simpl. rewrite !sumZ_cons, IH; [lia|done|set_solver].
  - subst k'. change (filter _ l) with (remove k l).
    rewrite remove_notin by done. rewrite sumZ_cons.
    apply elem_of_cons in Hin as [[= <-]|Hin]; [lia|].
    exfalso. apply Hk. apply list_elem_of_fmap. by exists (k, e).
Qed.

Section Wf.
Context (c : LRU) (Hwf : wf c).

Lemma view_order el p : view c el = Some p -> el ∈ order c.
Proof using Hwf.
  unfold view. intros (it & Hit & _)%fmap_Some_1.
  apply (wf_values c Hwf). eauto.
Qed.

(** Two handles with the same key are the same handle. *)
Lemma view_key_inj el it x p :
  values c !! el = Some it -> view c x = Some p -> (p.1 = key it <-> x = el).
Proof using Hwf.
  unfold view. intros Hel (it' & Hx & ->)%fmap_Some_1. simpl. split.
  - intros Hk.
    assert (index c !! key it = Some x) by (apply (wf_index c Hwf); eauto).
    assert (index c !! key it = Some el) by (apply (wf_index c Hwf); eauto).
    congruence.
  - intros ->. congruence.
Qed.

Lemma elem_of_abs k e :
  (k, e) ∈ abs c <-> exists el, index c !! k = Some el /\ values c !! el = Some (mkItem k e).
Proof using Hwf.
  unfold abs. rewrite list_elem_of_omap. split.
  - intros (el & Hel & (it & Hit & [= -> ->])%fmap_Some_1). exists el.
    destruct it as [k e]; simpl in *. split; [|done]. apply (wf_index c Hwf). eauto.
  - intros (el & Hi & Hv). exists el. split; [apply (wf_values c Hwf); eauto|].
    unfold view. by rewrite Hv.
Qed.

Lemma abs_nodup : NoDup (abs c).*1.
Proof using Hwf.
  unfold abs. pose proof (wf_nodup c Hwf) as Hnd.
  assert (forall el, el ∈ order c -> is_Some (values c !! el)) as Hv
    by (intros; by apply (wf_values c Hwf)).
  induction (order c) as [|x l IH]; csimpl; [by constructor|].
  apply NoDup_cons in Hnd as [Hx Hnd].
  destruct (view c x) as [p|] eqn:E; [|apply IH; set_solver].
  simpl. apply NoDup_cons. split; [|apply IH; set_solver].
  intros (q & Hq & Hin)%list_elem_of_fmap. apply list_elem_of_omap in Hin as (y & Hy & Eq).
  unfold view in E. apply fmap_Some_1 in E as (it & Hit & ->). simpl in *.
  pose proof (view_key_inj x it y q Hit Eq) as Hinj.
  assert (y = x) by (apply Hinj; congruence). congruence.
Qed.

Lemma find_abs k : find k (abs c) =
  match index c !! k with
  | Some el => entry <$> values c !! el
  | None => None
  end.
Proof using Hwf.
  assert (forall l e, NoDup l.*1 -> (k, e) ∈ l -> find k l = Some e) as Hin.
  { intros l e. induction l as [|[k' e'] l IH]; simpl; intros Hnd H; [set_solver|].
    apply NoDup_cons in Hnd as [Hk Hnd]. case_decide; simplify_eq.
    - apply elem_of_cons in H as [[= <-]|H]; [done|].
      exfalso. apply Hk. apply list_elem_of_fmap. by exists (k, e).
    - apply IH; [done|]. set_solver. }
  assert (forall l, (forall e, (k, e) ∉ l) -> find k l = None) as Hout.
  { intros l. induction l as [|[k' e'] l IH]; simpl; intros H; [done|].
    case_decide; subst; [exfalso; apply (H e'); set_solver|]. apply IH. set_solver. }
  destruct (index c !! k) as [el|] eqn:E.
  - pose proof E as (it & Hit & <-)%(wf_index c Hwf). rewrite Hit. simpl.
    apply Hin; [apply abs_nodup|]. apply elem_of_abs. exists el. by destruct it.
  - apply Hout. intros e (el & Hel & _)%elem_of_abs. congruence.
Qed.

Lemma abs_removeElement el it :
  values c !! el = Some it -> abs (removeElement el c) = remove (key it) (abs c).
Proof using Hwf.
  intros Hel. unfold removeElement. rewrite Hel. unfold abs. simpl.
  rewrite <- (omap_filter_ne (view c) (order c) el).
  - apply omap_ext_in. intros x [Hx _]%list_elem_of_filter. unfold view. simpl.
    by rewrite lookup_delete_ne.
  - intros x p _ Hp. by apply view_key_inj.
Qed.

Lemma wf_removeElement el : wf (removeElement el c).
Proof using Hwf.
  destruct (values c !! el) as [it|] eqn:Hel;
    [|unfold removeElement; by rewrite Hel].
  pose proof (abs_removeElement el it Hel) as Habs.
  unfold removeElement in *. rewrite Hel in *. constructor; simpl.
  - apply NoDup_filter, (wf_nodup c Hwf).
  - intros x. unfold list_Remove. rewrite list_elem_of_filter, (wf_values c Hwf).
    rewrite lookup_delete. case_decide; split; try naive_solver.
  - intros k x. rewrite !lookup_delete. pose proof (wf_index c Hwf k x) as Hkx.
    pose proof (proj2 (wf_index c Hwf (key it) el) (ex_intro _ it (conj Hel eq_refl))) as Hi.
    case_decide; case_decide; subst; split; try naive_solver.
  - intros x [_ Hx]%list_elem_of_filter. by apply (wf_fresh c Hwf).
  - rewrite Habs, (total_remove _ (entry it)), <- (wf_bytes c Hwf); [done|apply abs_nodup|].
    apply elem_of_abs. exists el. split; [apply (wf_index c Hwf); eauto|by destruct it].
Qed.
End Wf.

(** *** Eviction *)

Lemma pair_size_nonneg p : 0 <= pair_size p.
Proof. unfold pair_size, Size. lia. Qed.

Lemma total_nonneg l : 0 <= total l.
Proof.
  apply sumZ_nonneg, Forall_fmap, Forall_true. intros p. apply pair_size_nonneg.
Qed.

Lemma total_app l k : total (l ++ k) = total l + total k.
Proof. unfold total. by rewrite map_app, sumZ_app. Qed.

Lemma total_cons p l : total (p :: l) = pair_size p + total l.
Proof. done. Qed.

Lemma prefix_within_all b l : total l <= b -> prefix_within b l = l.
Proof.
  revert b. induction l as [|p l IH]; intros b Hb; simpl; [done|].
  rewrite total_cons in Hb. pose proof (total_nonneg l).
  rewrite (proj2 (Z.leb_le _ _)) by lia. rewrite IH by lia. done.
Qed.

Lemma prefix_within_snoc b l p : b < total (l ++ [p]) -> prefix_within b (l ++ [p]) = prefix_within b l.
Proof.
  revert b. induction l as [|q l IH]; intros b Hb; simpl in *; rewrite total_cons in Hb.
  - change (total []) with 0 in Hb. by rewrite (proj2 (Z.leb_gt _ _)) by lia.
  - case_match; [|done]. rewrite IH; [done|]. lia.
Qed.

Section Evict.
Context (c : LRU) (Hwf : wf c).

(** Removing the element at the back drops the last pair of the view. *)
Lemma remove_back_view l p : abs c = l ++ [p] -> abs (remove_back c) = l.
Proof using Hwf.
  intros Habs. unfold remove_back, list_Back.
  destruct (list_snoc_inv (order c)) as [E|(o & el & E)].
  { unfold abs in Habs. rewrite E in Habs. by destruct l. }
  rewrite E, last_snoc.
  destruct (proj1 (wf_values c Hwf el)) as [it Hit]; [rewrite E; set_solver|].
  rewrite (abs_removeElement c Hwf el it) by done.
  assert (abs c = omap (view c) o ++ [(key it, entry it)]) as Habs'.
  { unfold abs. rewrite E, omap_app. simpl. unfold view at 2. by rewrite Hit. }
  rewrite Habs in Habs'. apply app_inj_tail in Habs' as [-> ->].
  pose proof (abs_nodup c Hwf) as Hnd. rewrite Habs, fmap_app in Hnd.
  apply NoDup_app in Hnd as (_ & Hl & _). rewrite Habs. unfold remove. rewrite filter_app.
  change (filter _ (omap _ _)) with (remove (key it) (omap (view c) o)).
  rewrite remove_notin by (intros Hin; apply (Hl _ Hin); set_solver).
  rewrite filter_cons. simpl. rewrite decide_False by naive_solver. by rewrite app_nil_r.
Qed.

Lemma wf_remove_back : wf (remove_back c).
Proof using Hwf. unfold remove_back. case_match; [by apply wf_removeElement|done]. Qed.

Lemma length_abs : length (abs c) = length (order c).
Proof using Hwf.
  unfold abs. assert (forall el, el ∈ order c -> is_Some (values c !! el)) as Hv
    by (intros; by apply (wf_values c Hwf)).
  induction (order c) as [|x l IH]; csimpl; [done|].
  destruct (Hv x) as [it Hit]; [set_solver|]. unfold view at 1. rewrite Hit. simpl.
  rewrite IH; [done|]. set_solver.
Qed.
End Evict.

Lemma remove_back_limits c :
  maxEntries (remove_back c) = maxEntries c /\ maxBytes (remove_back c) = maxBytes c.
Proof. unfold remove_back, removeElement. by repeat case_match. Qed.

Lemma evict_entries_abs fuel c :
  wf c -> (length (order c) <= fuel)%nat ->
  let c' := while fuel over_entries remove_back c in
  wf c' /\ maxEntries c' = maxEntries c /\ maxBytes c' = maxBytes c /\
  abs c' = fit (maxEntries c) 0 (abs c).
Proof.
  revert c. induction fuel as [|n IH]; intros c Hwf Hlen; simpl.
  - assert (abs c = []) as -> by (apply nil_length_inv; rewrite length_abs by done; lia).
    unfold fit. split_and!; try done. simpl. rewrite take_nil. by case_match.
  - destruct (over_entries c) eqn:E; unfold over_entries, Len in E.
    + bool2prop. destruct (list_snoc_inv (abs c)) as [Hnil|(l & p & Hl)].
      { apply (f_equal length) in Hnil. rewrite length_abs in Hnil by done. simpl in *. lia. }
      pose proof (remove_back_view c Hwf l p Hl) as Hrb.
      pose proof (length_abs c Hwf) as Hlen1. rewrite Hl, length_app in Hlen1. simpl in Hlen1.
      pose proof (length_abs _ (wf_remove_back c Hwf)) as Hlen2. rewrite Hrb in Hlen2.
      destruct (remove_back_limits c) as [H1 H2].
      destruct (IH (remove_back c)) as (? & ? & ? & Habs); [by apply wf_remove_back|lia|].
      split_and!; try congruence. rewrite Habs, Hrb, Hl, H1. unfold fit. simpl.
      rewrite (proj2 (Z.ltb_lt _ _)) by lia. rewrite take_app_le by lia. done.
    + split_and!; try done. unfold fit. simpl.
      case_match; [|done]. rewrite take_ge; [done|]. bool2prop.
      rewrite length_abs by done. apply andb_false_iff in E as [E|E]; bool2prop; lia.
Qed.

Lemma evict_bytes_abs fuel c :
  wf c -> (length (order c) <= fuel)%nat ->
  let c' := while fuel over_bytes remove_back c in
  wf c' /\ maxEntries c' = maxEntries c /\ maxBytes c' = maxBytes c /\
  abs c' = fit 0 (maxBytes c) (abs c).
Proof.
  revert c. induction fuel as [|n IH]; intros c Hwf Hlen; simpl.
  - assert (abs c = []) as -> by (apply nil_length_inv; rewrite length_abs by done; lia).
    unfold fit. split_and!; try done. simpl. by case_match.
  - destruct (over_bytes c) eqn:E; unfold over_bytes in E.
    + bool2prop. destruct (list_snoc_inv (abs c)) as [Hnil|(l & p & Hl)].
      { apply (f_equal length) in Hnil. rewrite length_abs in Hnil by done.
        destruct (order c); [by destruct H0|done]. }
      pose proof (remove_back_view c Hwf l p Hl) as Hrb.
      pose proof (length_abs c Hwf) as Hlen1. rewrite Hl, length_app in Hlen1. simpl in Hlen1.
      pose proof (length_abs _ (wf_remove_back c Hwf)) as Hlen2. rewrite Hrb in Hlen2.
      destruct (remove_back_limits c) as [H1' H2'].
      destruct (IH (remove_back c)) as (? & ? & ? & Habs); [by apply wf_remove_back|lia|].
      split_and!; try congruence. rewrite Habs, Hrb, Hl, H2'. unfold fit. simpl.
      rewrite (proj2 (Z.ltb_lt _ _)) by lia. rewrite prefix_within_snoc; [done|].
      rewrite <- Hl, <- (wf_bytes c Hwf). lia.
    + split_and!; try done. unfold fit. simpl.
      case_match; [|done]. bool2prop. symmetry. apply prefix_within_all.
      rewrite <- (wf_bytes c Hwf). apply andb_false_iff in E as [E|E].
      * apply andb_false_iff in E as [E|E]; bool2prop; lia.
      * bool2prop. rewrite (wf_bytes c Hwf). unfold abs.
        destruct (list_snoc_inv (order c)) as [->|(o & el & Ho)]; [change (total _) with 0; lia|].
        exfalso. apply E. unfold list_Back. rewrite Ho, last_snoc. eauto.
Qed.

Lemma evict_abs c :
  wf c -> wf (evict c) /\ maxEntries (evict c) = maxEntries c /\ maxBytes (evict c) = maxBytes c /\
  abs (evict c) = fit (maxEntries c) (maxBytes c) (abs c).
Proof.
  intros Hwf. unfold evict.
  destruct (evict_entries_abs (length (order c)) c Hwf) as (Hwf1 & E1 & B1 & A1); [lia|].
  destruct (evict_bytes_abs _ _ Hwf1 (Nat.le_refl _)) as (Hwf2 & E2 & B2 & A2).
  split_and!; try done; [congruence..|]. rewrite A2, A1, B1. unfold fit. simpl. done.
Qed.

(** *** One operation *)

Lemma wf_new me mb : wf (NewLRU me mb).
Proof.
  constructor; simpl; try set_solver.
  - constructor.
  - intros el. rewrite lookup_empty. split; [set_solver|by intros [? ?]].
Qed.

Lemma get_wf_abs now k c :
  wf c ->
  let '(r, c') := Get now k c in
  wf c' /\ maxEntries c' = maxEntries c /\ maxBytes c' = maxBytes c /\
  (r, abs c') = get now k (abs c).
Proof.
  intros Hwf. unfold Get, get. rewrite find_abs by done.
  destruct (index c !! k) as [el|] eqn:Hi; [|done].
  pose proof Hi as (it & Hit & Hk)%(wf_index c Hwf). rewrite Hit. simpl.
  pose proof (abs_removeElement c Hwf el it Hit) as Habs.
  destruct (ExpiresAt (entry it) <? now).
  - split_and!; [by apply wf_removeElement|unfold removeElement; by rewrite Hit..|].
    by rewrite Habs, Hk.
  - assert (abs (mkLRU (maxEntries c) (maxBytes c) (bytes c) (list_MoveToFront el (order c))
              (values c) (fresh c) (index c)) = (k, entry it) :: remove k (abs c)) as Hmf.
    { unfold abs, list_MoveToFront. csimpl. unfold view at 1. simpl. rewrite Hit. simpl.
      rewrite Hk. f_equal. rewrite <- (omap_filter_ne (view c) (order c) el k); [done|].
      intros x p _ Hp. rewrite <- Hk. by apply (view_key_inj c Hwf). }
    split_and!; [|done..|by rewrite Hmf].
    assert (el ∈ order c) as Hin by (apply (wf_values c Hwf); eauto).
    assert (forall x, x ∈ list_MoveToFront el (order c) <-> x ∈ order c) as Hmem.
    { intros x. unfold list_MoveToFront, list_Remove.
      rewrite elem_of_cons, list_elem_of_filter. destruct (decide (x = el)); naive_solver. }
    constructor; simpl.
    + unfold list_MoveToFront, list_Remove. apply NoDup_cons. split.
      * rewrite list_elem_of_filter. naive_solver.
      * apply NoDup_filter, (wf_nodup c Hwf).
    + intros x. rewrite Hmem. apply (wf_values c Hwf).
    + apply (wf_index c Hwf).
    + intros x. rewrite Hmem. apply (wf_fresh c Hwf).
    + rewrite Hmf, total_cons, (total_remove _ (entry it)), (wf_bytes c Hwf).
      * lia.
      * by apply abs_nodup.
      * apply elem_of_abs; [done|]. exists el. rewrite <- Hk in *. by destruct it.
Qed.

(** Inserting a fresh element under a key that is not in the index. *)
Lemma push_wf_abs k e c :
  wf c -> index c !! k = None ->
  let c' := mkLRU (maxEntries c) (maxBytes c) (bytes c + Size (Some e)) (fresh c :: order c)
              (<[fresh c := mkItem k e]> (values c)) (S (fresh c)) (<[k := fresh c]> (index c)) in
  wf c' /\ abs c' = (k, e) :: abs c.
Proof.
  intros Hwf Hk c'.
  assert (fresh c ∉ order c) as Hfresh by (intros H%(wf_fresh c Hwf); lia).
  assert (values c !! fresh c = None) as Hnone.
  { destruct (values c !! fresh c) eqn:E; [|done].
    exfalso. apply Hfresh, (wf_values c Hwf). eauto. }
  assert (abs c' = (k, e) :: abs c) as Habs.
  { unfold abs, c'. csimpl. unfold view at 1. simpl. rewrite lookup_insert_eq. simpl. f_equal.
    apply omap_ext_in. intros x Hx. unfold view. simpl. rewrite lookup_insert_ne; [done|].
    intros <-. done. }
  split; [|done]. constructor; simpl.
  - apply NoDup_cons. split; [done|apply (wf_nodup c Hwf)].
  - intros x. rewrite elem_of_cons, (wf_values c Hwf), lookup_insert.
    case_decide; naive_solver.
  - intros k' x. rewrite !lookup_insert. pose proof (wf_index c Hwf k' x) as Hkx.
    case_decide as Hk'; case_decide as Hx; subst; try naive_solver.
  - intros x [->|Hx%(wf_fresh c Hwf)]%elem_of_cons; lia.
  - rewrite Habs, total_cons, (wf_bytes c Hwf). unfold pair_size. simpl. lia.
Qed.

Lemma set_wf_abs k e c :
  wf c ->
  wf (Set_ k e c) /\ maxEntries (Set_ k e c) = maxEntries c /\ maxBytes (Set_ k e c) = maxBytes c /\
  abs (Set_ k e c) = set (maxEntries c) (maxBytes c) k e (abs c).
Proof.
  intros Hwf. unfold Set_, set.
  set (c1 := match index c !! k with Some el => removeElement el c | None => c end).
  assert (wf c1 /\ index c1 !! k = None /\ abs c1 = remove k (abs c) /\
          maxEntries c1 = maxEntries c /\ maxBytes c1 = maxBytes c) as (Hwf1 & Hk1 & Habs1 & E1 & B1).
  { unfold c1. destruct (index c !! k) as [el|] eqn:Hi.
    - pose proof Hi as (it & Hit & Hk)%(wf_index c Hwf).
      split_and!; [by apply wf_removeElement| |rewrite <- Hk; by apply abs_removeElement|..];
        unfold removeElement; rewrite Hit; simpl; rewrite <- ?Hk; by rewrite ?lookup_delete_eq.
    - split_and!; try done. symmetry. apply remove_notin.
      intros ([k' e'] & ? & Hin)%list_elem_of_fmap. simpl in *. subst k'.
      apply (elem_of_abs c Hwf) in Hin as (el & Hel & _). congruence. }
  destruct (push_wf_abs k e c1 Hwf1 Hk1) as [Hwf2 Habs2].
  destruct (evict_abs _ Hwf2) as (Hwf3 & E3 & B3 & Habs3). simpl in *.
  split_and!; try done; [congruence..|].
  rewrite Habs3, Habs2, Habs1, E1, B1. done.
Qed.

(** *** Lookup after insertion *)

Lemma set_head me mb k e l :
  mb <= 0 \/ Size (Some e) <= mb -> exists l', set me mb k e l = (k, e) :: l'.
Proof.
  intros Hfit. unfold set, fit.
  assert (exists l1, (if 0 <? me then take (Z.to_nat me) ((k, e) :: remove k l) else (k, e) :: remove k l) = (k, e) :: l1)
    as [l1 ->].
  { case_match; [|eauto]. bool2prop. destruct (Z.to_nat me) eqn:Em; [lia|]. simpl. eauto. }
  case_match; [|eauto]. bool2prop. simpl. unfold pair_size. simpl.
  rewrite (proj2 (Z.leb_le _ _)) by lia. eauto.
Qed.

Lemma get_set_wf now k e c :
  wf c -> maxBytes c <= 0 \/ Size (Some e) <= maxBytes c ->
  exists c', Get now k (Set_ k e c) = ((if ExpiresAt e <? now then None else Some e), c') /\ wf c'.
Proof.
  intros Hwf Hfit. destruct (set_wf_abs k e _ Hwf) as (Hwf1 & _ & _ & Habs).
  pose proof (get_wf_abs now k _ Hwf1) as H. destruct (Get _ _ _) as [r c'] eqn:Eg.
  destruct H as (Hwf2 & _ & _ & H). exists c'. split; [|done]. f_equal.
  destruct (set_head (maxEntries c) (maxBytes c) k e (abs c) Hfit) as [l Hl].
  rewrite Habs, Hl in H. unfold get in H. simpl in H. rewrite decide_True in H by done.
  case_match; congruence.
Qed.

(** *** Entries that stay *)

Definition holds (k : string) (e : Entry) (c : LRU) : Prop := wf c /\ find k (abs c) = Some e.

(** A body of [n] bytes can be added without an eviction. *)
Definition room (n : Z) (c : LRU) : Prop :=
  (maxEntries c <= 0 \/ Len c < maxEntries c) /\ (maxBytes c <= 0 \/ Bytes c + n <= maxBytes c).

Lemma find_remove_ne k k' l : k' ≠ k -> find k (remove k' l) = find k l.
Proof.
  intros Hne. unfold remove. induction l as [|[k1 e1] l IH]; [done|]. rewrite filter_cons. simpl.
  case_decide as H1; simpl; [by rewrite IH|]. subst k1. by rewrite decide_False.
Qed.

Lemma remove_smaller k l : (length (remove k l) <= length l)%nat /\ total (remove k l) <= total l.
Proof.
  unfold remove. induction l as [|p l [IH1 IH2]]; [done|]. rewrite filter_cons.
  pose proof (pair_size_nonneg p). case_decide; simpl; rewrite ?total_cons; lia.
Qed.

Lemma fit_id me mb l :
  me <= 0 \/ Z.of_nat (length l) <= me -> mb <= 0 \/ total l <= mb -> fit me mb l = l.
Proof.
  intros He Hb. unfold fit.
  assert ((if 0 <? me then take (Z.to_nat me) l else l) = l) as ->.
  { case_match; [|done]. bool2prop. apply take_ge. lia. }
  case_match; [|done]. bool2prop. apply prefix_within_all. lia.
Qed.

Lemma holds_set k e c : wf c -> maxBytes c <= 0 \/ Size (Some e) <= maxBytes c -> holds k e (Set_ k e c).
Proof.
  intros Hwf Hfit. destruct (set_wf_abs k e c Hwf) as (Hwf' & _ & _ & Habs). split; [done|].
  destruct (set_head (maxEntries c) (maxBytes c) k e (abs c) Hfit) as [l Hl].
  rewrite Habs, Hl. simpl. by rewrite decide_True.
Qed.

Lemma holds_set_other k k' e e' c : holds k e c -> k' ≠ k -> room (Size (Some e')) c -> holds k e (Set_ k' e' c).
Proof.
  intros [Hwf Hf] Hne [Hre Hrb]. destruct (set_wf_abs k' e' c Hwf) as (Hwf' & _ & _ & Habs). split; [done|].
  unfold Len, Bytes in *. rewrite <- length_abs in Hre by done. rewrite (wf_bytes c Hwf) in Hrb.
  destruct (remove_smaller k' (abs c)) as [H1 H2]. rewrite Habs. unfold set. rewrite fit_id.
  - simpl. by rewrite decide_False, find_remove_ne.
  - simpl. lia.
  - rewrite total_cons. unfold pair_size. simpl. lia.
Qed.

Lemma holds_get_other now k k' e c : holds k e c -> k' ≠ k -> holds k e (Get now k' c).2.
Proof.
  intros [Hwf Hf] Hne. pose proof (get_wf_abs now k' c Hwf) as H. destruct (Get now k' c) as [r c'].
  destruct H as (Hwf' & _ & _ & H). split; [done|]. simpl. unfold get in H.
  destruct (find k' (abs c)) as [e1|]; [|by injection H as _ ->].
  destruct (ExpiresAt e1 <? now); injection H as _ ->; simpl; rewrite ?decide_False, find_remove_ne; done.
Qed.

(** A lookup before the expiry returns the entry and keeps it. *)
Lemma holds_get now k e c : holds k e c -> now <= ExpiresAt e ->
  (Get now k c).1 = Some e /\ holds k e (Get now k c).2.
Proof.
  intros [Hwf Hf] Hexp. pose proof (get_wf_abs now k c Hwf) as H. destruct (Get now k c) as [r c'].
  destruct H as (Hwf' & _ & _ & H). unfold get in H. rewrite Hf in H.
  rewrite (proj2 (Z.ltb_ge _ _)) in H by done. injection H as -> Habs. simpl. split; [done|]. split; [done|].
  rewrite Habs. simpl. by rewrite decide_True.
Qed.

End LRURefinement.

(** ** Whole executions

    The cache is shared by every request of a service. Its mutex serialises the
    calls, so an execution is a sequence of operations, in any order and with
    any clock readings. *)

Module LRUTheorems.
Import LRU LRUSpec LRURefinement.

Inductive op :=
| OpGet (now : Z) (k : string)
| OpSet (k : string) (e : Entry)
| OpLen
| OpBytes.

Inductive answer :=
| AEntry (e : option Entry)
| ADone
| AInt (n : Z).

Definition step (o : op) (c : LRU) : answer * LRU :=
  match o with
  | OpGet now k => let '(r, c') := Get now k c in (AEntry r, c')
  | OpSet k e => (ADone, Set_ k e c)
  | OpLen => (AInt (Len c), c)
  | OpBytes => (AInt (Bytes c), c)
  end.

Definition spec_step (me mb : Z) (o : op) (l : list (string * Entry)) :
    answer * list (string * Entry) :=
  match o with
  | OpGet now k => let '(r, l') := get now k l in (AEntry r, l')
  | OpSet k e => (ADone, set me mb k e l)
  | OpLen => (AInt (Z.of_nat (length l)), l)
  | OpBytes => (AInt (total l), l)
  end.

Fixpoint run {S} (f : op -> S -> answer * S) (ops : list op) (s : S) : list answer * S :=
  match ops with
  | [] => ([], s)
  | o :: ops => let '(a, s) := f o s in let '(l, s) := run f ops s in (a :: l, s)
  end.

Definition state_after (me mb : Z) (ops : list op) : LRU := (run step ops (NewLRU me mb)).2.

Lemma step_refines o c :
  wf c ->
  let '(a, c') := step o c in
  wf c' /\ maxEntries c' = maxEntries c /\ maxBytes c' = maxBytes c /\
  spec_step (maxEntries c) (maxBytes c) o (abs c) = (a, abs c').
Proof.
  intros Hwf. destruct o as [now k|k e| |]; simpl.
  - pose proof (get_wf_abs now k c Hwf) as H. destruct (Get now k c) as [r c'].
    destruct H as (? & ? & ? & H). by rewrite <- H.
  - destruct (set_wf_abs k e c Hwf) as (? & ? & ? & ->). done.
  - split_and!; try done. unfold Len. by rewrite length_abs.
  - split_and!; try done. unfold Bytes. by rewrite (wf_bytes c Hwf).
Qed.

Lemma run_refines ops c :
  wf c ->
  let '(l, c') := run step ops c in
  wf c' /\ maxEntries c' = maxEntries c /\ maxBytes c' = maxBytes c /\
  run (spec_step (maxEntries c) (maxBytes c)) ops (abs c) = (l, abs c').
Proof.
  revert c. induction ops as [|o ops IH]; intros c Hwf; simpl; [done|].
  pose proof (step_refines o c Hwf) as H1. destruct (step o c) as [a c1].
  destruct H1 as (Hwf1 & E1 & B1 & H1). rewrite H1.
  pose proof (IH c1 Hwf1) as H2. destruct (run step ops c1) as [l c2].
  destruct H2 as (Hwf2 & E2 & B2 & H2). rewrite <- E1, <- B1, H2. split_and!; congruence.
Qed.

Lemma state_after_wf me mb ops :
  wf (state_after me mb ops) /\
  maxEntries (state_after me mb ops) = me /\ maxBytes (state_after me mb ops) = mb.
Proof.
  unfold state_after. pose proof (run_refines ops _ (wf_new me mb)) as H.
  destruct (run step ops (NewLRU me mb)) as [l c]. naive_solver.
Qed.

(** *** Bounds of the contract *)

Definition within (me mb : Z) (l : list (string * Entry)) : Prop :=
  NoDup l.*1 /\
  (0 < me -> Z.of_nat (length l) <= me) /\ (0 < mb -> total l <= mb).

Lemma prefix_within_sublist b l : prefix_within b l `sublist_of` l.
Proof.
  revert b. induction l as [|p l IH]; intros b; simpl; [done|].
  case_match; [by apply sublist_skip|apply sublist_nil_l].
Qed.

Lemma prefix_within_total b l : 0 <= b -> total (prefix_within b l) <= b.
Proof.
  revert b. induction l as [|p l IH]; intros b Hb; simpl; [done|].
  case_match; [|done]. bool2prop. rewrite total_cons.
  specialize (IH (b - pair_size p) ltac:(lia)). lia.
Qed.

Lemma fit_within me mb l : NoDup l.*1 -> within me mb (fit me mb l).
Proof.
  intros Hnd. unfold fit, within.
  set (l1 := if 0 <? me then take (Z.to_nat me) l else l).
  assert (l1 `sublist_of` l) as Hsub1
    by (unfold l1; case_match; [apply sublist_take|done]).
  assert ((if 0 <? mb then prefix_within mb l1 else l1) `sublist_of` l1) as Hsub2
    by (case_match; [apply prefix_within_sublist|done]).
  split_and!.
  - eapply sublist_NoDup; [|apply fmap_sublist, Hsub2].
    eapply sublist_NoDup; [done|apply fmap_sublist, Hsub1].
  - intros Hme. apply sublist_length in Hsub2.
    enough (Z.of_nat (length l1) <= me) by lia. unfold l1.
    rewrite (proj2 (Z.ltb_lt _ _)) by lia. rewrite length_take. lia.
  - intros Hmb. rewrite (proj2 (Z.ltb_lt _ _)) by lia. apply prefix_within_total. lia.
Qed.

Lemma nodup_remove k l : NoDup l.*1 -> NoDup (remove k l).*1 /\ k ∉ (remove k l).*1.
Proof.
  intros Hnd. split.
  - eapply sublist_NoDup; [done|]. apply fmap_sublist, sublist_filter.
  - intros ([k' e] & -> & [? _]%list_elem_of_filter)%list_elem_of_fmap. done.
Qed.

Lemma find_elem k e l : find k l = Some e -> (k, e) ∈ l.
Proof.
  induction l as [|[k' e'] l IH]; simpl; [done|]. case_decide; [naive_solver set_solver|].
  intros. apply elem_of_cons. auto.
Qed.

Lemma length_remove k e l :
  NoDup l.*1 -> (k, e) ∈ l -> S (length (remove k l)) = length l.
Proof.
  unfold remove. induction l as [|[k' e'] l IH]; simpl; intros Hnd Hin; [set_solver|].
  apply NoDup_cons in Hnd as [Hk Hnd]. rewrite filter_cons. simpl. case_decide as Hne.
  - simpl. f_equal. apply IH; [done|set_solver].
  - subst k'. change (filter _ l) with (remove k l). by rewrite remove_notin.
Qed.

Lemma spec_step_within me mb o l : within me mb l -> within me mb (spec_step me mb o l).2.
Proof.
  intros Hw. pose proof Hw as (Hnd & Hlen & Htot).
  destruct o as [now k|k e| |]; simpl; try done.
  - unfold get. destruct (find k l) as [e|] eqn:E; [|done].
    apply find_elem in E. pose proof (length_remove k e l Hnd E).
    pose proof (total_remove k e l Hnd E). pose proof (pair_size_nonneg (k, e)).
    destruct (nodup_remove k l Hnd).
    destruct (ExpiresAt e <? now); unfold within; simpl; rewrite ?total_cons; split_and!; try done; try lia.
    by apply NoDup_cons.
  - apply fit_within. simpl. apply NoDup_cons. destruct (nodup_remove k l Hnd). done.
Qed.

Lemma run_within me mb ops l : within me mb l -> within me mb (run (spec_step me mb) ops l).2.
Proof.
  revert l. induction ops as [|o ops IH]; intros l Hl; simpl; [done|].
  pose proof (spec_step_within me mb o l Hl) as H.
  destruct (spec_step me mb o l) as [a l1]. simpl in H. specialize (IH l1 H).
  by destruct (run (spec_step me mb) ops l1).
Qed.

Lemma state_after_within me mb ops : within me mb (abs (state_after me mb ops)).
Proof.
  unfold state_after. pose proof (run_refines ops _ (wf_new me mb)) as H.
  destruct (run step ops (NewLRU me mb)) as [l c]. destruct H as (_ & _ & _ & H). simpl in *.
  change (abs (NewLRU me mb)) with (@nil (string * Entry)) in H.
  replace (abs c) with (run (spec_step me mb) ops []).2 by (by rewrite H).
  apply run_within. unfold within, total. simpl. split_and!; [apply NoDup_nil_2|lia|change (sumZ []) with 0; lia].
Qed.

(** *** Properties *)

(** C6. Refinement. For every pair of bounds and every sequence of calls (with
    any clock readings), the cache with its linked list, index and byte counter
    answers exactly as the association-list contract does. *)
Theorem lru_refines_spec (me mb : Z) (ops : list op) :
  (run step ops (NewLRU me mb)).1 = (run (spec_step me mb) ops []).1.
Proof.
  pose proof (run_refines ops _ (wf_new me mb)) as H.
  destruct (run step ops (NewLRU me mb)) as [l c]. destruct H as (_ & _ & _ & H).
  simpl in H. change (abs (NewLRU me mb)) with (@nil (string * Entry)) in H. by rewrite H.
Qed.

(** Bounds. After every sequence of calls a positive entry bound and a
    positive byte bound are respected, and the byte counter is exactly the sum
    of the body sizes of the entries on the recency list. *)
Theorem lru_within_bounds (me mb : Z) (ops : list op) (Hme : 0 < me) (Hmb : 0 < mb) :
  let c := state_after me mb ops in
  Len c <= me /\ Bytes c <= mb /\
  Bytes c = sumZ (map (fun p => Size (Some p.2)) (abs c)).
Proof.
  simpl. destruct (state_after_within me mb ops) as (_ & Hl & Ht).
  destruct (state_after_wf me mb ops) as (Hwf & _ & _).
  unfold Len, Bytes. rewrite (wf_bytes _ Hwf), <- length_abs by done. split_and!; auto.
Qed.

(** Round trip. In every reachable cache, an entry that fits the byte bound
    is returned by the next lookup of its key until it expires, and never
    after; in both cases the cache stays well formed. *)
Theorem lru_get_after_set (me mb : Z) (ops : list op) (k : string) (e : Entry) (now : Z)
    (Hfit : mb <= 0 \/ Size (Some e) <= mb) :
  let '(r, c) := Get now k (Set_ k e (state_after me mb ops)) in
  r = (if ExpiresAt e <? now then None else Some e) /\ wf c.
Proof.
  destruct (state_after_wf me mb ops) as (Hwf & E & B).
  destruct (get_set_wf now k e _ Hwf) as (c & -> & Hc); [by rewrite B|done].
Qed.

(** Storing a body larger than the byte bound empties the whole cache: the
    eviction loop removes every other entry before it reaches the new one. *)
Theorem lru_oversized_set_flushes (me mb : Z) (ops : list op) (k : string) (e : Entry)
    (Hmb : 0 < mb) (Hbig : mb < Size (Some e)) :
  let c := Set_ k e (state_after me mb ops) in
  Len c = 0 /\ Bytes c = 0 /\ forall now k', (Get now k' c).1 = None.
Proof.
  intros c. destruct (state_after_wf me mb ops) as (Hwf & E & B).
  destruct (set_wf_abs k e _ Hwf) as (Hwf1 & _ & _ & Habs). rewrite E, B in Habs.
  assert (abs c = []) as Hnil.
  { unfold c. rewrite Habs. unfold set, fit. rewrite (proj2 (Z.ltb_lt 0 mb)) by lia.
    assert (forall l, prefix_within mb ((k, e) :: l) = []) as Hp.
    { intros l. simpl. unfold pair_size. simpl. by rewrite (proj2 (Z.leb_gt _ _)) by lia. }
    case_match; [|apply Hp]. destruct (Z.to_nat me); [done|]. apply Hp. }
  split_and!.
  - unfold Len. by rewrite <- length_abs, Hnil.
  - unfold Bytes. change (bytes c = 0). unfold c in *. by rewrite (wf_bytes _ Hwf1), Hnil.
  - intros now k'. pose proof (get_wf_abs now k' c Hwf1) as H. destruct (Get now k' c).
    destruct H as (_ & _ & _ & H). rewrite Hnil in H. unfold get in H. simpl in *. congruence.
Qed.

(** *** Witnesses *)

Definition sample (body : string) (expires : Z) : Entry := mkEntry 200 ∅ body EmptyString expires.

Definition sample_ops : list op :=
  [OpSet "a" (sample "1234" 10); OpSet "b" (sample "12" 5); OpGet 3 "a"; OpSet "c" (sample "123" 9)].

Lemma lru_within_bounds_witness :
  0 < 2 /\ 0 < 8 /\ Len (state_after 2 8 sample_ops) <= 2 /\ Bytes (state_after 2 8 sample_ops) = 7.
Proof.
  split_and!; [lia..| |vm_compute; reflexivity].
  exact (proj1 (lru_within_bounds 2 8 sample_ops eq_refl eq_refl)).
Defined.

Lemma lru_get_after_set_witness :
  Size (Some (sample "xyz" 20)) <= 8 /\
  let '(r, c) := Get 4 "b" (Set_ "b" (sample "xyz" 20) (state_after 2 8 sample_ops)) in
  r = (if ExpiresAt (sample "xyz" 20) <? 4 then None else Some (sample "xyz" 20)) /\ wf c.
Proof.
  assert (Size (Some (sample "xyz" 20)) <= 8) as Hs by (vm_compute; discriminate).
  split; [exact Hs|].
  exact (lru_get_after_set 2 8 sample_ops "b" (sample "xyz" 20) 4 (or_intror Hs)).
Defined.

Lemma lru_oversized_set_flushes_witness :
  Len (state_after 2 8 sample_ops) = 2 /\
  Len (Set_ "big" (sample "123456789" 20) (state_after 2 8 sample_ops)) = 0.
Proof.
  split; [vm_compute; reflexivity|].
  exact (proj1 (lru_oversized_set_flushes 2 8 sample_ops "big" (sample "123456789" 20) eq_refl eq_refl)).
Defined.

End LRUTheorems.
