(* ===== verification/Breaker.v ===== *)
(** * The circuit breaker ([internal/circuitbreaker/breaker.go])

    [Module Breaker] translates the three-state breaker; every method holds the
    mutex for its whole body, so concurrent use is a sequence of method calls.
    The theorems characterise when it opens (a run of consecutive failures),
    which state changes are possible at all, how many requests a half-open
    breaker admits, and what it takes to leave the half-open state. *)

From S2P Require Import Prelude.

Module Breaker.

Inductive state := stateClosed | stateOpen | stateHalfOpen.

#[export] Instance state_eq_dec : EqDecision state.
Proof. solve_decision. Defined.

Record Breaker := mkBreaker {
  st : state;
  failures : Z;
  maxFailures : Z;
  timeout : Z;
  openedAt : Z;
}.

Definition ErrOpen : string := "circuit breaker is open".

Definition NewBreaker (maxFailures timeout : Z) : Breaker :=
  mkBreaker stateClosed 0 maxFailures timeout 0.

Definition Allow (now : Z) (b : Breaker) : result unit * Breaker :=
  match st b with
  | stateOpen =>
      if timeout b <=? Since now (openedAt b)
      then (Ok tt, mkBreaker stateHalfOpen (failures b) (maxFailures b) (timeout b) (openedAt b))
      else (Err ErrOpen, b)
  | stateHalfOpen => (Err ErrOpen, b)
  | stateClosed => (Ok tt, b)
  end.

Definition RecordSuccess (b : Breaker) : Breaker :=
  mkBreaker (if decide (st b = stateHalfOpen) then stateClosed else st b)
    0 (maxFailures b) (timeout b) (openedAt b).

Definition RecordFailure (now : Z) (b : Breaker) : Breaker :=
  let failures := int64 (failures b + 1) in
  if bool_decide (st b = stateHalfOpen) || (maxFailures b <=? failures)
  then mkBreaker stateOpen failures (maxFailures b) (timeout b) now
  else mkBreaker (st b) failures (maxFailures b) (timeout b) (openedAt b).

Definition State (b : Breaker) : string :=
  match st b with
  | stateOpen => "open"
  | stateHalfOpen => "half-open"
  | stateClosed => "closed"
  end.

End Breaker.

Module BreakerTheorems.
Import Breaker.

(** ** Sequences of calls *)

(** A method call with the clock reading it sees. *)
Inductive call := CAllow (now : Z) | CSuccess | CFailure (now : Z).

Definition apply (c : call) (b : Breaker) : Breaker :=
  match c with
  | CAllow now => (Allow now b).2
  | CSuccess => RecordSuccess b
  | CFailure now => RecordFailure now b
  end.

Definition applies (cs : list call) (b : Breaker) : Breaker := foldl (fun b c => apply c b) b cs.

(** Whether each call was admitted; a record is not a request. *)
Fixpoint admitted (cs : list call) (b : Breaker) : nat :=
  match cs with
  | [] => 0
  | c :: cs =>
      ((match c with CAllow now => if is_ok (Allow now b).1 then 1 else 0 | _ => 0 end)
        + admitted cs (apply c b))%nat
  end.

Lemma applies_cons c cs b : applies (c :: cs) b = applies cs (apply c b).
Proof. done. Qed.

(** ** The state machine *)

(** The diagram the package documents. *)
Inductive edge : state -> state -> Prop :=
| edge_trip : edge stateClosed stateOpen
| edge_probe : edge stateOpen stateHalfOpen
| edge_recover : edge stateHalfOpen stateClosed
| edge_reopen : edge stateHalfOpen stateOpen.

(** Every method call either keeps the state or follows one edge of the
    documented diagram closed -> open -> half-open -> (closed | open), and never
    changes the threshold or the timeout. *)
Theorem breaker_follows_fsm (c : call) (b : Breaker) :
  (st (apply c b) = st b \/ edge (st b) (st (apply c b))) /\
  maxFailures (apply c b) = maxFailures b /\ timeout (apply c b) = timeout b.
Proof.
  destruct c as [now| |now]; simpl.
  - unfold Allow. destruct (st b) eqn:E; simpl; [auto| |auto].
    case_match; simpl; rewrite ?E; auto using edge.
  - destruct (st b) eqn:E; simpl; rewrite ?decide_True by done; auto using edge.
  - unfold RecordFailure. destruct (st b) eqn:E; simpl; [|case_match; simpl; auto|auto using edge].
    case_match; simpl; auto using edge.
Qed.

(** ** Opening *)

Inductive outcome := Success | Failure.

Definition record (now : Z) (o : outcome) (b : Breaker) : Breaker :=
  match o with Success => RecordSuccess b | Failure => RecordFailure now b end.

Definition records (now : Z) (os : list outcome) (b : Breaker) : Breaker :=
  foldl (fun b o => record now o b) b os.

(** Number of failures since the last success. *)
Fixpoint trailing (k : Z) (os : list outcome) : Z :=
  match os with
  | [] => k
  | Success :: os => trailing 0 os
  | Failure :: os => trailing (k + 1) os
  end.

(** [n] failures in a row occur somewhere, counting [k] just before. *)
Fixpoint has_run (n k : Z) (os : list outcome) : bool :=
  match os with
  | [] => false
  | Success :: os => has_run n 0 os
  | Failure :: os => (n <=? k + 1) || has_run n (k + 1) os
  end.

Lemma records_open now os b :
  st b = stateOpen -> st (records now os b) = stateOpen.
Proof.
  unfold records. revert b. induction os as [|o os IH]; intros b Hb; simpl; [done|].
  apply IH. destruct o; simpl; [by rewrite Hb|].
  unfold RecordFailure. rewrite Hb. by case_match.
Qed.

Lemma records_closed now os b :
  st b = stateClosed -> 0 <= failures b -> failures b + Z.of_nat (length os) <= MaxInt ->
  st (records now os b) = (if has_run (maxFailures b) (failures b) os then stateOpen else stateClosed).
Proof.
  unfold records. revert b. induction os as [|o os IH]; intros b Hb H0 Hlen; simpl; [done|].
  destruct o; simpl in *.
  - rewrite IH; simpl; [done|by rewrite Hb|lia|lia].
  - unfold RecordFailure. rewrite Hb. simpl.
    rewrite int64_id by (unfold in_int64, MinInt, MaxInt, two63 in *; lia).
    destruct (maxFailures b <=? failures b + 1); simpl.
    + apply records_open. done.
    + rewrite IH; simpl; [done..|lia|lia].
Qed.

(** C7. Starting closed, and counting fewer than 2^63 - 1 outcomes, the breaker
    is open after a history of outcomes exactly when the history contains
    [maxFailures] consecutive failures. *)
Theorem breaker_opens_iff_run (maxF timeout now : Z) (os : list outcome)
    (Hlen : Z.of_nat (length os) <= MaxInt) :
  st (records now os (NewBreaker maxF timeout)) =
    (if has_run maxF 0 os then stateOpen else stateClosed).
Proof. by apply records_closed. Qed.

Lemma breaker_opens_iff_run_witness :
  Z.of_nat (length [Failure; Success; Failure; Failure; Failure]) <= MaxInt /\
  st (records 7 [Failure; Success; Failure; Failure; Failure] (NewBreaker 3 5)) = stateOpen.
Proof.
  assert (Z.of_nat (length [Failure; Success; Failure; Failure; Failure]) <= MaxInt) as H
    by (vm_compute; discriminate).
  split; [exact H|]. exact (breaker_opens_iff_run 3 5 7 _ H).
Defined.

Lemma has_run_none n k os :
  0 <= k -> k + Z.of_nat (length os) < n -> has_run n k os = false.
Proof.
  revert k. induction os as [|[] os IH]; intros k Hk Hn; simpl in *; [done|apply IH; lia|].
  rewrite IH by lia. rewrite (proj2 (Z.leb_gt _ _)) by lia. done.
Qed.

(** With the threshold [math.MaxInt] used when no breaker is configured, no
    history shorter than 2^63 - 1 outcomes ever leaves the closed state. *)
Theorem noop_breaker_never_trips (timeout now : Z) (os : list outcome)
    (Hlen : Z.of_nat (length os) < MaxInt) :
  st (records now os (NewBreaker MaxInt timeout)) = stateClosed.
Proof.
  rewrite records_closed by (simpl; lia || done). simpl. by rewrite has_run_none by lia.
Qed.

Lemma noop_breaker_never_trips_witness :
  Z.of_nat (length (replicate 50 Failure)) < MaxInt /\
  st (records 7 (replicate 50 Failure) (NewBreaker MaxInt Hour)) = stateClosed.
Proof.
  assert (Z.of_nat (length (replicate 50 Failure)) < MaxInt) as H by (vm_compute; reflexivity).
  split; [exact H|]. exact (noop_breaker_never_trips Hour 7 _ H).
Defined.

(** ** Probing *)

(** The open period of [b] is over at [now]. *)
Definition expired (b : Breaker) (now : Z) : bool := timeout b <=? Since now (openedAt b).

Lemma half_open_rejects times b :
  st b = stateHalfOpen ->
  admitted (map CAllow times) b = 0%nat /\ applies (map CAllow times) b = b.
Proof.
  intros Hb. assert (forall now, Allow now b = (Err ErrOpen, b)) as Hallow
    by (intros; unfold Allow; by rewrite Hb).
  induction times as [|now times [IH1 IH2]]; [done|]. split.
  - simpl. rewrite Hallow. simpl. done.
  - simpl map. rewrite applies_cons. simpl. by rewrite Hallow.
Qed.

(** An open breaker admits no request before its timeout has elapsed, and
    exactly one (the test request) once it has, however many requests arrive and
    in whatever order, until an outcome is recorded. *)
Theorem open_breaker_single_probe (times : list Z) (b : Breaker) (Hopen : st b = stateOpen) :
  admitted (map CAllow times) b = (if existsb (expired b) times then 1%nat else 0%nat).
Proof.
  induction times as [|now times IH]; simpl; [done|].
  unfold Allow, expired in *. rewrite Hopen in *.
  destruct (timeout b <=? Since now (openedAt b)); simpl.
  - by rewrite (proj1 (half_open_rejects times (mkBreaker stateHalfOpen _ _ _ _) eq_refl)).
  - exact IH.
Qed.

Lemma open_breaker_single_probe_witness :
  st (records 100 [Failure; Failure] (NewBreaker 2 10)) = stateOpen /\
  admitted (map CAllow [105; 110; 111; 300]) (records 100 [Failure; Failure] (NewBreaker 2 10)) = 1%nat.
Proof.
  split; [reflexivity|].
  exact (open_breaker_single_probe [105; 110; 111; 300] (records 100 [Failure; Failure] (NewBreaker 2 10)) eq_refl).
Defined.

(** The half-open state has no timeout of its own: without a recorded
    outcome no request is ever admitted again, whatever the clock says, and the
    first recorded outcome leaves the state (success closes, failure reopens). *)
Theorem half_open_needs_outcome (b : Breaker) (times : list Z) (now : Z)
    (Hhalf : st b = stateHalfOpen) :
  admitted (map CAllow times) b = 0%nat /\
  st (applies (map CAllow times) b) = stateHalfOpen /\
  st (apply CSuccess b) = stateClosed /\
  st (apply (CFailure now) b) = stateOpen /\ openedAt (apply (CFailure now) b) = now.
Proof.
  destruct (half_open_rejects times b Hhalf) as [H1 H2]. rewrite H2.
  split_and!; try done; simpl; [by rewrite decide_True|unfold RecordFailure; by rewrite Hhalf..].
Qed.

Definition sample_half_open : Breaker := (Allow 200 (records 100 [Failure; Failure] (NewBreaker 2 10))).2.

Lemma half_open_needs_outcome_witness :
  st sample_half_open = stateHalfOpen /\
  admitted (map CAllow [201; 1000; 1000000]) sample_half_open = 0%nat.
Proof.
  split; [reflexivity|].
  exact (proj1 (half_open_needs_outcome sample_half_open [201; 1000; 1000000] 0 eq_refl)).
Defined.

(** ** Requests in flight

    An admitted request is in flight until it records its outcome. *)

Record sys := mkSys { brk : Breaker; inflight : nat }.

Inductive sstep : sys -> sys -> Prop :=
| s_admit now b n : is_ok (Allow now b).1 = true -> sstep (mkSys b n) (mkSys (Allow now b).2 (S n))
| s_reject now b n : is_ok (Allow now b).1 = false -> sstep (mkSys b n) (mkSys (Allow now b).2 n)
| s_success b n : sstep (mkSys b (S n)) (mkSys (RecordSuccess b) n)
| s_failure now b n : sstep (mkSys b (S n)) (mkSys (RecordFailure now b) n).

Definition sys_inv (m : Z) (s : sys) : Prop :=
  maxFailures (brk s) = m /\
  (st (brk s) = stateClosed -> 0 <= failures (brk s) < m) /\
  (st (brk s) = stateHalfOpen -> (0 < inflight s)%nat).

Lemma sys_inv_step m s s' : 1 <= m <= MaxInt -> sys_inv m s -> sstep s s' -> sys_inv m s'.
Proof.
  intros Hm (Hmax & Hc & Hh) Hstep. unfold sys_inv. destruct Hstep as [now b n Hok|now b n Hok|b n|now b n]; simpl in *.
  - unfold Allow in *. destruct (st b) eqn:E; simpl in *; rewrite ?E; [split_and!; done| |done].
    case_match; simpl in *; [|done]. split_and!; try done. lia.
  - unfold Allow in *. destruct (st b) eqn:E; simpl in *; rewrite ?E; [done| |split_and!; auto].
    case_match; simpl in *; [done|]. rewrite E. split_and!; auto.
  - split_and!; [done|intros; lia|]. case_decide; [done|]. by intros ?.
  - unfold RecordFailure. destruct (st b) eqn:E; simpl in *.
    + specialize (Hc eq_refl). rewrite int64_id by (unfold in_int64, MinInt, MaxInt, two63 in *; lia).
      case_match; simpl; split_and!; try done; intros; bool2prop; lia.
    + case_match; simpl; split_and!; done.
    + split_and!; done.
Qed.

(** C8. In every interleaving of requests in which each admitted request records
    an outcome, a closed breaker has counted fewer than [maxFailures] failures,
    and a half-open breaker always has a request in flight that will leave the
    state: the breaker cannot get stuck. *)
Theorem breaker_reachable_inv (m t : Z) (s : sys) (Hm : 1 <= m <= MaxInt)
    (Hreach : rtc sstep (mkSys (NewBreaker m t) 0) s) :
  (st (brk s) = stateClosed -> 0 <= failures (brk s) < m) /\
  (st (brk s) = stateHalfOpen -> (0 < inflight s)%nat).
Proof.
  assert (sys_inv m s) as (_ & H1 & H2); [|done].
  apply (rtc_invariant sstep (sys_inv m) (mkSys (NewBreaker m t) 0)); [|..|done].
  - intros a b Ha Hab. by apply (sys_inv_step m a).
  - unfold sys_inv. simpl. split_and!; [done|lia|done].
Qed.

Lemma breaker_reachable_inv_witness :
  let s := mkSys (Allow 20 (RecordFailure 3 (NewBreaker 1 10))).2 1 in
  rtc sstep (mkSys (NewBreaker 1 10) 0) s /\ (st (brk s) = stateHalfOpen -> (0 < inflight s)%nat).
Proof.
  assert (rtc sstep (mkSys (NewBreaker 1 10) 0)
            (mkSys (Allow 20 (RecordFailure 3 (NewBreaker 1 10))).2 1)) as H.
  { eapply rtc_l; [exact (s_admit 1 (NewBreaker 1 10) 0 eq_refl)|].
    eapply rtc_l; [exact (s_failure 3 (NewBreaker 1 10) 0)|].
    eapply rtc_l; [exact (s_admit 20 (RecordFailure 3 (NewBreaker 1 10)) 0 eq_refl)|].
    apply rtc_refl. }
  assert (1 <= 1 <= MaxInt) as Hm by (vm_compute; split; discriminate).
  split; [exact H|]. exact (proj2 (breaker_reachable_inv 1 10 _ Hm H)).
Defined.

End BreakerTheorems.
