(* ===== verification/Balancer.v ===== *)
(** * Health checking and load balancing
    ([internal/health/checker.go], [internal/loadbalancer/roundrobin.go])

    [Module Health] is the prober with its concurrent map of verdicts,
    [Module RoundRobin] the balancer. The balancer only knows the interface
    [HealthChecker]; its theorems hold for every implementation of it, and
    [Health.Checker] is one instance. *)

From S2P Require Import Prelude.

(** The interface the balancer requires. *)
Class HealthChecker (H : Type) := { IsHealthy : H -> string -> bool }.

Module Health.

Record Checker := mkChecker {
  urls : list string;
  status : gmap string bool;
  interval : Z;
  path : string;
}.

Definition NewChecker (urls : list string) (interval : Z) (path : string) : Checker :=
  mkChecker urls ∅ interval path.

(** What one probe of an upstream can see: the request cannot be built, the
    client reports an error (refused, timeout, cancelled context), or a response
    arrives. *)
Inductive probe :=
| RequestError
| ClientError
| Responded (statusCode : Z).

Definition store (u : string) (v : bool) (c : Checker) : Checker :=
  mkChecker (urls c) (<[u := v]> (status c)) (interval c) (path c).

(** [check], given what the probe of [u] saw. *)
Definition check (u : string) (p : probe) (c : Checker) : Checker :=
  match p with
  | RequestError => store u false c
  | ClientError => store u false c
  | Responded code => if negb (code =? 200) then store u false c else store u true c
  end.

(** One pass: [checkAll] starts one goroutine per URL and waits for all of them.
    [done] lists the probes in the order in which the goroutines store their
    verdicts. *)
Definition checkAll (done : list (string * probe)) (c : Checker) : Checker :=
  foldl (fun c '(u, p) => check u p c) c done.

(** The orders in which a pass can complete. *)
Definition pass (c : Checker) (env : string -> probe) (done : list (string * probe)) : Prop :=
  done ≡ₚ map (fun u => (u, env u)) (urls c).

Definition isHealthy (c : Checker) (u : string) : bool :=
  match status c !! u with
  | None => false
  | Some b => b
  end.

#[export] Instance checker_HealthChecker : HealthChecker Checker := {| IsHealthy := isHealthy |}.

Definition Probe (done : list (string * probe)) (c : Checker) : result unit * Checker :=
  let c := checkAll done c in
  if existsb (isHealthy c) (urls c) then (Ok tt, c)
  else (Err "no healthy upstreams after initial probe", c).

(** The polling goroutine of [Start]: a tick runs a pass, a cancelled context
    ends it. *)
Inductive event :=
| Tick (done : list (string * probe))
| CtxDone.

Fixpoint poll (es : list event) (c : Checker) : Checker :=
  match es with
  | [] => c
  | Tick done :: es => poll es (checkAll done c)
  | CtxDone :: _ => c
  end.

Definition Start (first : list (string * probe)) (es : list event) (c : Checker) : Checker :=
  poll es (checkAll first c).

(** ** What a pass establishes *)

Definition verdict (p : probe) : bool :=
  match p with Responded code => code =? 200 | _ => false end.

Lemma check_status u p c : status (check u p c) = <[u := verdict p]> (status c).
Proof. destruct p as [| |code]; simpl; try done. by destruct (code =? 200). Qed.

Lemma check_urls u p c : urls (check u p c) = urls c.
Proof. destruct p as [| |code]; simpl; try done. by destruct (code =? 200). Qed.

Lemma checkAll_urls done c : urls (checkAll done c) = urls c.
Proof.
  unfold checkAll. revert c. induction done as [|[u p] done IH]; intros c; simpl; [done|].
  by rewrite IH, check_urls.
Qed.

Lemma checkAll_notin done c u :
  u ∉ done.*1 -> isHealthy (checkAll done c) u = isHealthy c u.
Proof.
  unfold checkAll. revert c. induction done as [|[u' p] done IH]; intros c Hu; simpl; [done|].
  rewrite IH by set_solver. unfold isHealthy. rewrite check_status, lookup_insert_ne by set_solver. done.
Qed.

Lemma checkAll_in done c u p :
  (u, p) ∈ done -> NoDup done.*1 -> isHealthy (checkAll done c) u = verdict p.
Proof.
  revert c. induction done as [|[u' p'] done IH]; intros c Hin Hnd; simpl; [set_solver|].
  apply NoDup_cons in Hnd as [Hu Hnd].
  apply elem_of_cons in Hin as [[= -> ->]|Hin]; [|by apply IH].
  change (isHealthy (checkAll done (check u' p' c)) u' = verdict p').
  rewrite checkAll_notin by done. unfold isHealthy. by rewrite check_status, lookup_insert_eq.
Qed.

(** A verdict comes from the pass or from before it. *)
Lemma healthy_was_probed done c u :
  isHealthy (checkAll done c) u = true -> isHealthy c u = true \/ (u, Responded 200) ∈ done.
Proof.
  revert c. induction done as [|[v p] done IH]; intros c H; [by left|].
  apply (IH (check v p c)) in H as [H|H]; [|right; set_solver].
  unfold isHealthy in H. rewrite check_status in H. destruct (decide (v = u)) as [->|Hne].
  - rewrite lookup_insert_eq in H. right. destruct p as [| |code]; try done. simpl in H.
    apply Z.eqb_eq in H as ->. set_solver.
  - rewrite lookup_insert_ne in H by done. by left.
Qed.

Lemma pass_fst c env done : pass c env done -> done.*1 ≡ₚ urls c.
Proof.
  intros H. rewrite (fmap_Permutation fst _ _ H).
  assert ((map (fun u => (u, env u)) (urls c)).*1 = urls c) as ->; [|done].
  induction (urls c); csimpl; congruence.
Qed.

Lemma pass_in c env done u :
  NoDup (urls c) -> pass c env done -> u ∈ urls c -> isHealthy (checkAll done c) u = verdict (env u).
Proof.
  intros Hnd Hpass Hu. apply checkAll_in.
  - rewrite Hpass. apply list_elem_of_fmap. eauto.
  - by rewrite (pass_fst c env done).
Qed.

(** A pass over distinct upstreams marks an upstream healthy exactly when
    its own probe returned status 200, whatever order the probes finish in and
    whatever was recorded before; other keys are not touched. *)
Theorem pass_verdicts (c : Checker) (env : string -> probe) (done : list (string * probe))
    (Hnd : NoDup (urls c)) (Hpass : pass c env done) :
  (forall u, u ∈ urls c -> IsHealthy (checkAll done c) u = verdict (env u)) /\
  (forall u, u ∉ urls c -> IsHealthy (checkAll done c) u = IsHealthy c u).
Proof.
  pose proof (pass_fst c env done Hpass) as Hfst. split; intros u Hu; simpl.
  - by apply pass_in.
  - apply checkAll_notin. by rewrite Hfst.
Qed.

(** The startup probe succeeds exactly when some upstream answered 200. *)
Theorem probe_ok_iff (c : Checker) (env : string -> probe) (done : list (string * probe))
    (Hnd : NoDup (urls c)) (Hpass : pass c env done) :
  is_ok (Probe done c).1 = true <-> exists u, u ∈ urls c /\ env u = Responded 200.
Proof.
  unfold Probe. rewrite checkAll_urls.
  pose proof (fun u => pass_in c env done u Hnd Hpass) as Hv.
  assert (existsb (isHealthy (checkAll done c)) (urls c) = true <->
          exists u, u ∈ urls c /\ env u = Responded 200) as Hex.
  { rewrite existsb_exists. split.
    - intros (u & Hu%list_elem_of_In & H). exists u. split; [done|].
      rewrite Hv in H by done. unfold verdict in H.
      destruct (env u); try done. by apply Z.eqb_eq in H as ->.
    - intros (u & Hu & H). exists u. split; [by apply list_elem_of_In|].
      by rewrite Hv, H. }
  rewrite <- Hex. by case_match.
Qed.

Definition sample_checker : Checker := NewChecker ["http://a"; "http://b"] Second "/healthz".

Definition sample_env (u : string) : probe := if decide (u = "http://b") then Responded 200 else ClientError.

(** The second upstream answers before the first one times out. *)
Definition sample_done : list (string * probe) := [("http://b", Responded 200); ("http://a", ClientError)].

Lemma sample_pass : pass sample_checker sample_env sample_done.
Proof. unfold pass, sample_done. simpl. vm_compute. apply perm_swap. Qed.

Lemma pass_verdicts_witness :
  IsHealthy (checkAll sample_done sample_checker) "http://b" = true /\
  IsHealthy (checkAll sample_done sample_checker) "http://a" = false.
Proof.
  assert (NoDup (urls sample_checker)) as Hnd by (apply (bool_decide_unpack _); vm_compute; exact I).
  destruct (pass_verdicts sample_checker sample_env sample_done Hnd sample_pass) as [H _].
  split; rewrite H by (apply (bool_decide_unpack _); vm_compute; exact I); reflexivity.
Defined.

Lemma probe_ok_iff_witness : is_ok (Probe sample_done sample_checker).1 = true.
Proof.
  assert (NoDup (urls sample_checker)) as Hnd by (apply (bool_decide_unpack _); vm_compute; exact I).
  apply (probe_ok_iff sample_checker sample_env sample_done Hnd sample_pass).
  exists "http://b". split; [apply (bool_decide_unpack _); vm_compute; exact I|reflexivity].
Defined.

End Health.

Module RoundRobin.

Definition ErrNoHealthyUpstreams : string := "no healthy upstreams available".

(** [counter] is an [atomic.Uint64]. *)
Record RoundRobin := mkRR { urls : list string; counter : Z }.

Definition NewRoundRobin (urls : list string) : RoundRobin := mkRR urls 0.

Section Next.
Context {H : Type} `{!HealthChecker H} (checker : H).

(** One iteration of the loop of [Next]: an atomic fetch-and-increment of the
    counter, then the URL that the ticket selects. *)
Definition ticket (rr : RoundRobin) : option string * RoundRobin :=
  let attempts := Z.of_nat (length (urls rr)) in
  let added := uint64 (counter rr + 1) in
  let i := uint64 (added - 1) in
  (urls rr !! Z.to_nat (i mod attempts), mkRR (urls rr) added).

Fixpoint next_loop (n : nat) (rr : RoundRobin) : result string * RoundRobin :=
  match n with
  | O => (Err ErrNoHealthyUpstreams, rr)
  | S n =>
      let '(u, rr) := ticket rr in
      match u with
      | None => (Err "index out of range", rr)
      | Some url => if IsHealthy checker url then (Ok url, rr) else next_loop n rr
      end
  end.

Definition Next (rr : RoundRobin) : result string * RoundRobin :=
  next_loop (length (urls rr)) rr.

(** [k] calls in a row. *)
Fixpoint nexts (k : nat) (rr : RoundRobin) : list (result string) * RoundRobin :=
  match k with
  | O => ([], rr)
  | S k => let '(r, rr) := Next rr in let '(l, rr) := nexts k rr in (r :: l, rr)
  end.

(** The URL at position [i], counted modulo the number of URLs. *)
Definition slot (us : list string) (i : Z) : option string :=
  us !! Z.to_nat (i mod Z.of_nat (length us)).

#[local] Arguments ticket : simpl never.
#[local] Arguments slot : simpl never.

Lemma slot_some us i : us ≠ [] -> exists u, slot us i = Some u.
Proof using Type.
  intros Hne. apply lookup_lt_is_Some_2.
  assert (0 < Z.of_nat (length us)) by (destruct us; [done|simpl; lia]).
  pose proof (Z.mod_pos_bound i (Z.of_nat (length us)) ltac:(lia)) as Hm.
  generalize dependent (i mod Z.of_nat (length us)). intros m Hm. lia.
Qed.

Lemma ticket_spec rr :
  0 <= counter rr < two64 ->
  ticket rr = (slot (urls rr) (counter rr), mkRR (urls rr) (uint64 (counter rr + 1))).
Proof using Type.
  intros Hc. unfold ticket, slot.
  assert (uint64 (uint64 (counter rr + 1) - 1) = counter rr) as ->; [|done].
  unfold uint64. rewrite Zminus_mod_idemp_l.
  replace (counter rr + 1 - 1) with (counter rr) by lia. by apply Z.mod_small.
Qed.

(** The loop without wrap-around: it scans [n] consecutive slots. *)
Fixpoint scan (us : list string) (c : Z) (n : nat) : option (string * Z) :=
  match n with
  | O => None
  | S n =>
      match slot us c with
      | Some u => if IsHealthy checker u then Some (u, c + 1) else scan us (c + 1) n
      | None => None
      end
  end.

Lemma next_loop_scan n rr :
  urls rr ≠ [] -> 0 <= counter rr -> counter rr + Z.of_nat n < two64 ->
  next_loop n rr =
    match scan (urls rr) (counter rr) n with
    | Some (u, c') => (Ok u, mkRR (urls rr) c')
    | None => (Err ErrNoHealthyUpstreams, mkRR (urls rr) (counter rr + Z.of_nat n))
    end.
Proof using Type.
  revert rr. induction n as [|n IH]; intros [us c] Hne H0 Hn; cbn [next_loop scan urls counter] in *.
  - by rewrite Z.add_0_r.
  - rewrite ticket_spec by (simpl; lia). simpl.
    destruct (slot_some us c Hne) as [u Hu]. rewrite Hu.
    rewrite uint64_id by lia. destruct (IsHealthy checker u); [done|].
    rewrite IH by (simpl; lia || done). simpl.
    destruct (scan us (c + 1) n) as [[u' c']|]; [done|]. do 2 f_equal. lia.
Qed.

(** The scan finds the first healthy slot. *)
Lemma scan_none us c n :
  us ≠ [] -> scan us c n = None ->
  forall i, 0 <= i < Z.of_nat n -> exists u, slot us (c + i) = Some u /\ IsHealthy checker u = false.
Proof using Type.
  intros Hne. revert c. induction n as [|n IH]; intros c Hs i Hi; simpl in *; [lia|].
  destruct (slot_some us c Hne) as [u Hu]. rewrite Hu in Hs.
  destruct (IsHealthy checker u) eqn:Eh; [done|].
  destruct (decide (i = 0)) as [->|Hi0]; [exists u; by rewrite Z.add_0_r|].
  destruct (IH (c + 1) Hs (i - 1) ltac:(lia)) as (u' & Hu' & ?). exists u'.
  split; [|done]. rewrite <- Hu'. f_equal. lia.
Qed.

Lemma scan_some us c n u c' :
  scan us c n = Some (u, c') -> IsHealthy checker u = true /\ slot us (c' - 1) = Some u /\ c < c' <= c + Z.of_nat n.
Proof using Type.
  revert c. induction n as [|n IH]; intros c Hs; simpl in *; [done|].
  destruct (slot us c) as [v|] eqn:Hv; [|done].
  destruct (IsHealthy checker v) eqn:Eh.
  - injection Hs as -> <-. split_and!; try done; try lia. rewrite <- Hv. f_equal. lia.
  - destruct (IH _ Hs) as (? & ? & ?). split_and!; try done; lia.
Qed.

(** [length us] consecutive slots cover every URL. *)
Lemma slots_cover us c u :
  u ∈ us -> 0 <= c -> exists i, 0 <= i < Z.of_nat (length us) /\ slot us (c + i) = Some u.
Proof using Type.
  intros (j & Hj)%list_elem_of_lookup Hc. pose proof (lookup_lt_Some _ _ _ Hj) as Hlt.
  set (n := Z.of_nat (length us)). assert (0 < n) by lia.
  exists ((Z.of_nat j - c) mod n). split; [apply Z.mod_pos_bound; lia|].
  unfold slot. fold n. rewrite Zplus_mod_idemp_r.
  replace (c + (Z.of_nat j - c)) with (Z.of_nat j) by lia.
  rewrite Z.mod_small by lia. by rewrite Nat2Z.id.
Qed.
End Next.

(** ** Sequential properties *)

(** A balancer whose counter does not wrap around during the next call. *)
Definition no_wrap (rr : RoundRobin) (calls : Z) : Prop :=
  0 <= counter rr /\ counter rr + calls * Z.of_nat (length (urls rr)) < two64.

(** What one call of [Next] does, as long as the counter does not wrap. *)
Lemma next_spec {H} `{!HealthChecker H} (checker : H) (rr : RoundRobin) :
  no_wrap rr 1 ->
  urls (Next checker rr).2 = urls rr /\
  counter rr <= counter (Next checker rr).2 <= counter rr + Z.of_nat (length (urls rr)) /\
  match (Next checker rr).1 with
  | Ok u => u ∈ urls rr /\ IsHealthy checker u = true
  | Err e => e = ErrNoHealthyUpstreams /\ forall u, u ∈ urls rr -> IsHealthy checker u = false
  end.
Proof.
  intros [H0 Hw]. unfold Next.
  destruct (decide (urls rr = [])) as [Hnil|Hne]; [rewrite Hnil; simpl; split_and!; set_solver by lia|].
  rewrite next_loop_scan by (done || lia).
  destruct (scan checker (urls rr) (counter rr) (length (urls rr))) as [[u c']|] eqn:Es; simpl.
  - apply scan_some in Es as (Hh & Hs & Hc). split_and!; try done; try lia.
    apply list_elem_of_lookup. unfold slot in Hs. eauto.
  - split_and!; try done; try lia. intros u Hu.
    destruct (slots_cover (urls rr) (counter rr) u Hu H0) as (i & Hi & Hslot).
    destruct (scan_none checker _ _ _ Hne Es i Hi) as (u' & Hu' & Hf). congruence.
Qed.

(** For every health checker: as long as the counter does not wrap, [Next]
    returns some healthy configured upstream when there is one, and
    [ErrNoHealthyUpstreams] when there is none. *)
Theorem next_complete {H} `{!HealthChecker H} (checker : H) (rr : RoundRobin)
    (Hw : no_wrap rr 1) :
  match (Next checker rr).1 with
  | Ok u => u ∈ urls rr /\ IsHealthy checker u = true
  | Err e => e = ErrNoHealthyUpstreams /\ forall u, u ∈ urls rr -> IsHealthy checker u = false
  end.
Proof. by apply next_spec. Qed.

Lemma next_healthy {H} `{!HealthChecker H} (checker : H) rr :
  urls rr ≠ [] -> no_wrap rr 1 -> (forall u, u ∈ urls rr -> IsHealthy checker u = true) ->
  exists u, slot (urls rr) (counter rr) = Some u /\
    Next checker rr = (Ok u, mkRR (urls rr) (counter rr + 1)).
Proof.
  intros Hne [H0 Hw] Hall. destruct (slot_some (urls rr) (counter rr) Hne) as [u Hu].
  exists u. split; [done|]. unfold Next. rewrite next_loop_scan by (done || lia).
  destruct (urls rr) as [|u0 us] eqn:E; [done|]. simpl. rewrite Hu.
  rewrite Hall; [done|]. apply list_elem_of_lookup. unfold slot in Hu. eauto.
Qed.

(** Fairness. With every upstream healthy, [k] consecutive calls return the
    URLs at [k] consecutive positions of the cyclic order. In particular
    [length urls] calls select every upstream exactly once. *)
Theorem nexts_cycle {H} `{!HealthChecker H} (checker : H) (k : nat) (rr : RoundRobin)
    (Hne : urls rr ≠ []) (Hw : no_wrap rr (Z.of_nat k))
    (Hall : forall u, u ∈ urls rr -> IsHealthy checker u = true) :
  map Some (nexts checker k rr).1 =
    map (fun i => Ok <$> slot (urls rr) (counter rr + Z.of_nat i)) (seq 0 k) /\
  counter (nexts checker k rr).2 = counter rr + Z.of_nat k.
Proof.
  revert rr Hne Hw Hall. induction k as [|k IH]; intros rr Hne Hw Hall; simpl; [split; [done|lia]|].
  destruct Hw as [H0 Hw].
  assert (0 < Z.of_nat (length (urls rr))) as Hpos by (destruct (urls rr); [done|simpl; lia]).
  destruct (next_healthy checker rr Hne) as (u & Hu & ->); [split; [done|nia]|done|].
  destruct (IH (mkRR (urls rr) (counter rr + 1))) as [IH1 IH2]; [done|split; simpl; nia|done|].
  destruct (nexts checker k _) as [l rr']. simpl in *. split; [|lia].
  rewrite Z.add_0_r, Hu. simpl. f_equal. rewrite IH1, <- seq_shift, map_map.
  apply map_ext. intros i. do 2 f_equal. lia.
Qed.

(** ** Wrap-around *)

(** A health checker given by its set of healthy URLs. *)
#[export] Instance list_HealthChecker : HealthChecker (list string) :=
  {| IsHealthy l u := bool_decide (u ∈ l) |}.

(** At the wrap-around of the 64-bit counter the consecutive tickets are not
    consecutive positions modulo a length that is not a power of two: a call
    can visit one position twice, skip the only healthy upstream, and report
    that none is healthy. *)
Theorem next_wrap_misses_healthy :
  let rr := mkRR ["a"; "b"; "c"] (two64 - 1) in
  IsHealthy ["c"] "c" = true /\ "c" ∈ urls rr /\ (Next ["c"] rr).1 = Err ErrNoHealthyUpstreams.
Proof. split_and!; [reflexivity|set_solver|vm_compute; reflexivity]. Qed.

(** ** Concurrent calls

    Goroutines calling [Next] share the counter; each iteration of a call is an
    atomic ticket followed by a health lookup. *)

Inductive call :=
| Trying (left : nat)
| Returned (r : result string).

Record sys := mkSys { rr : RoundRobin; calls : list call }.

Section Concurrent.
Context {H : Type} `{!HealthChecker H} (checker : H).

Inductive step : sys -> sys -> Prop :=
| step_hit s i n url :
    calls s !! i = Some (Trying (S n)) -> (ticket (rr s)).1 = Some url ->
    IsHealthy checker url = true ->
    step s (mkSys (ticket (rr s)).2 (<[i := Returned (Ok url)]> (calls s)))
| step_skip s i n url :
    calls s !! i = Some (Trying (S n)) -> (ticket (rr s)).1 = Some url ->
    IsHealthy checker url = false ->
    step s (mkSys (ticket (rr s)).2 (<[i := Trying n]> (calls s)))
| step_fail s i :
    calls s !! i = Some (Trying 0) ->
    step s (mkSys (rr s) (<[i := Returned (Err ErrNoHealthyUpstreams)]> (calls s))).

Definition start (us : list string) (c : Z) (goroutines : nat) : sys :=
  mkSys (mkRR us c) (replicate goroutines (Trying (length us))).

Definition sound (us : list string) (s : sys) : Prop :=
  urls (rr s) = us /\
  forall i r, calls s !! i = Some (Returned r) ->
    match r with
    | Ok u => u ∈ us /\ IsHealthy checker u = true
    | Err e => e = ErrNoHealthyUpstreams
    end.

Lemma sound_step us s s' : sound us s -> step s s' -> sound us s'.
Proof using Type.
  intros [Hu Hr] Hstep. destruct Hstep as [s i n url Hi Ht Hh|s i n url Hi Ht Hh|s i Hi];
    (split; [done|]); intros j r Hj; simpl in Hj;
    apply list_lookup_insert_Some in Hj as [(-> & Heq & _)|[_ Hj]];
    try (by apply Hr in Hj); simplify_eq; try done.
  split; [|done]. apply list_elem_of_lookup. unfold ticket in Ht. simpl in Ht. eauto.
Qed.
End Concurrent.

(** In every interleaving of concurrent calls each URL returned is a
    configured upstream that the checker reports healthy. *)
Theorem concurrent_next_sound {H} `{!HealthChecker H} (checker : H) (us : list string) (c : Z)
    (goroutines : nat) (s : sys) (i : nat) (u : string)
    (Hreach : rtc (step checker) (start us c goroutines) s)
    (Hret : calls s !! i = Some (Returned (Ok u))) :
  u ∈ us /\ IsHealthy checker u = true.
Proof.
  assert (sound checker us s) as [_ Hs]; [|exact (Hs i (Ok u) Hret)].
  eapply (rtc_invariant (step checker) (sound checker us)); [|..|exact Hreach].
  - intros a b. apply sound_step.
  - split; [done|]. intros j r Hj. simpl in Hj. apply lookup_replicate in Hj as [? _]. done.
Qed.

(** Completeness fails under concurrency: with two upstreams of which the
    second is healthy, two overlapping calls can hand out the tickets so that
    one of them sees only the unhealthy upstream and reports
    [ErrNoHealthyUpstreams]. *)
Theorem concurrent_next_spurious_error :
  exists s, rtc (step ["b"]) (start ["a"; "b"] 0 2) s /\
    calls s = [Returned (Err ErrNoHealthyUpstreams); Returned (Ok "b")].
Proof.
  eexists. split; [|shelve].
  eapply rtc_l; [eapply (step_skip _ _ 0 1 "a"); reflexivity|]. cbn.
  eapply rtc_l; [eapply (step_hit _ _ 1 1 "b"); reflexivity|]. cbn.
  eapply rtc_l; [eapply (step_skip _ _ 0 0 "a"); reflexivity|]. cbn.
  eapply rtc_l; [eapply (step_fail _ _ 0); reflexivity|]. apply rtc_refl.
  Unshelve. reflexivity.
Qed.

(** ** Witnesses *)

Lemma next_complete_witness :
  no_wrap (mkRR ["a"; "b"; "c"] 7) 1 /\
  match (Next ["c"] (mkRR ["a"; "b"; "c"] 7)).1 with
  | Ok u => u ∈ ["a"; "b"; "c"] /\ IsHealthy ["c"] u = true
  | Err _ => False
  end.
Proof.
  assert (no_wrap (mkRR ["a"; "b"; "c"] 7) 1) as Hw by (split; reflexivity || (vm_compute; discriminate)).
  split; [exact Hw|]. exact (next_complete ["c"] (mkRR ["a"; "b"; "c"] 7) Hw).
Defined.

Lemma nexts_cycle_witness :
  no_wrap (mkRR ["a"; "b"] 1) 4 /\
  map Some (nexts ["a"; "b"] 4 (mkRR ["a"; "b"] 1)).1 =
    [Some (Ok "b"); Some (Ok "a"); Some (Ok "b"); Some (Ok "a")].
Proof.
  assert (no_wrap (mkRR ["a"; "b"] 1) 4) as Hw by (split; reflexivity || (vm_compute; discriminate)).
  assert (forall u, u ∈ ["a"; "b"] -> IsHealthy ["a"; "b"] u = true) as Hall
    by (intros u Hu; apply bool_decide_eq_true; exact Hu).
  split; [exact Hw|].
  rewrite (proj1 (nexts_cycle ["a"; "b"] 4 (mkRR ["a"; "b"] 1) ltac:(discriminate) Hw Hall)).
  reflexivity.
Defined.

Lemma concurrent_next_sound_witness :
  exists s, rtc (step ["b"]) (start ["a"; "b"] 1 1) s /\ calls s !! 0%nat = Some (Returned (Ok "b")) /\
    IsHealthy ["b"] "b" = true.
Proof.
  assert (rtc (step ["b"]) (start ["a"; "b"] 1 1)
            (mkSys (mkRR ["a"; "b"] 2) [Returned (Ok "b")])) as Hr.
  { eapply rtc_l; [eapply (step_hit _ _ 0 1 "b"); reflexivity|]. apply rtc_refl. }
  eexists. split; [exact Hr|]. split; [reflexivity|].
  exact (proj2 (concurrent_next_sound ["b"] ["a"; "b"] 1 1 _ 0 "b" Hr eq_refl)).
Defined.

End RoundRobin.
