(* ===== verification/RateLimiters.v ===== *)
(** * Rate limiters ([internal/ratelimit/limiter.go], [internal/ratelimit/redis.go])

    [Module MemoryLimiter] is the in-process limiter: a concurrent map from keys
    to entries that point to token buckets of [golang.org/x/time/rate]. That
    package is not part of the repository, so a bucket is an abstract type with
    the two operations the limiter calls (class [TokenBucket]). [Module
    RedisLimiter] is the Lua script and the Redis hash it works on; Lua numbers
    are doubles, and every operation of the script rounds as [Module Double]
    does. *)

From Stdlib Require Import QArith Qround Qminmax Qpower Lqa.
From S2P Require Import Prelude.
Open Scope Z_scope.

(** The operations of [rate.Limiter] the gateway uses: [rate.NewLimiter(r, b)]
    and [Allow()], the latter with the instant it reads from the clock. *)
Class TokenBucket (R L : Type) := {
  NewLimiter : R -> Z -> L;
  bucket_Allow : Z -> L -> bool * L;
}.

Module MemoryLimiter.
Section Model.
Context {R L : Type} `{!TokenBucket R L}.

(** An entry points to a bucket; copying an entry copies the pointer. *)
Record entry := mkEntry { limiter : nat; lastSeen : Z }.

Record MemoryLimiter := mkML {
  entries : gmap string entry;
  buckets : gmap nat L;
  fresh : nat;
  r : R;
  b : Z;
  cleanupInterval : Z;
  cleanupMaxIdle : Z;
}.

Definition NewMemoryLimiter (r : R) (b cleanupInterval cleanupMaxIdle : Z) : MemoryLimiter :=
  mkML ∅ ∅ 0 r b cleanupInterval cleanupMaxIdle.

Definition set_entries (es : gmap string entry) (ml : MemoryLimiter) : MemoryLimiter :=
  mkML es (buckets ml) (fresh ml) (r ml) (b ml) (cleanupInterval ml) (cleanupMaxIdle ml).

(** [e.limiter.Allow()] on the bucket behind the pointer. *)
Definition allow_at (p : nat) (now : Z) (ml : MemoryLimiter) : bool * MemoryLimiter :=
  match buckets ml !! p with
  | None => (false, ml)
  | Some l =>
      let '(ok, l) := bucket_Allow now l in
      (ok, mkML (entries ml) (<[p := l]> (buckets ml)) (fresh ml) (r ml) (b ml)
             (cleanupInterval ml) (cleanupMaxIdle ml))
  end.

(** [sync.Map.LoadOrStore] *)
Definition LoadOrStore (key : string) (e : entry) (ml : MemoryLimiter) : entry * bool * MemoryLimiter :=
  match entries ml !! key with
  | Some e' => (e', true, ml)
  | None => (e, false, set_entries (<[key := e]> (entries ml)) ml)
  end.

(** Allocation of a new bucket object. *)
Definition alloc (ml : MemoryLimiter) : nat * MemoryLimiter :=
  (fresh ml,
   mkML (entries ml) (<[fresh ml := NewLimiter (r ml) (b ml)]> (buckets ml)) (S (fresh ml))
     (r ml) (b ml) (cleanupInterval ml) (cleanupMaxIdle ml)).

(** [Allow] run without interference. [seen] is the clock reading stored in
    the entry, [now] the later one taken inside [rate.Limiter.Allow]. *)
Definition Allow (seen now : Z) (key : string) (ml : MemoryLimiter) : result bool * MemoryLimiter :=
  match entries ml !! key with
  | Some e =>
      let ml := set_entries (<[key := mkEntry (limiter e) seen]> (entries ml)) ml in
      let '(ok, ml) := allow_at (limiter e) now ml in (Ok ok, ml)
  | None =>
      let '(p, ml) := alloc ml in
      let newEntry := mkEntry p seen in
      let '(actual, loaded, ml) := LoadOrStore key newEntry ml in
      if (loaded : bool)
      then let '(ok, ml) := allow_at (limiter actual) now ml in (Ok ok, ml)
      else let '(ok, ml) := allow_at (limiter newEntry) now ml in (Ok ok, ml)
  end.

(** The test of [cleanup]. *)
Definition stale (now maxIdle : Z) (e : entry) : bool := maxIdle <? Since now (lastSeen e).

(** [cleanup] visits every entry; [clock k] is the reading at the visit of [k]. *)
Definition cleanup (clock : string -> Z) (ml : MemoryLimiter) : MemoryLimiter :=
  set_entries (filter (fun '(k, e) => stale (clock k) (cleanupMaxIdle ml) e = false) (entries ml)) ml.

Definition Len (ml : MemoryLimiter) : Z := Z.of_nat (size (entries ml)).

(** ** The contract: one private bucket per key *)

(** The bucket of a key with the time it was last seen, if it has one. *)
Definition account := option (L * Z).

Definition account_Allow (r : R) (b seen now : Z) (a : account) : bool * account :=
  let l := match a with Some (l, _) => l | None => NewLimiter r b end in
  let '(ok, l) := bucket_Allow now l in (ok, Some (l, seen)).

Definition account_cleanup (maxIdle now : Z) (a : account) : account :=
  match a with
  | Some (l, seen) => if maxIdle <? Since now seen then None else Some (l, seen)
  | None => None
  end.

(** ** Executions *)

Inductive op :=
| OpAllow (seen now : Z) (key : string)
| OpCleanup (clock : string -> Z).

Definition apply (o : op) (ml : MemoryLimiter) : option (string * result bool) * MemoryLimiter :=
  match o with
  | OpAllow seen now key => let '(res, ml) := Allow seen now key ml in (Some (key, res), ml)
  | OpCleanup clock => (None, cleanup clock ml)
  end.

Fixpoint run (ops : list op) (ml : MemoryLimiter) : list (string * result bool) * MemoryLimiter :=
  match ops with
  | [] => ([], ml)
  | o :: ops =>
      let '(a, ml) := apply o ml in
      let '(l, ml) := run ops ml in
      (match a with Some x => x :: l | None => l end, ml)
  end.

(** The decisions for [key] when only the operations that concern it count. *)
Fixpoint run_account (r : R) (b maxIdle : Z) (key : string) (ops : list op) (a : account) : list (result bool) :=
  match ops with
  | [] => []
  | OpAllow seen now k :: ops =>
      if decide (k = key)
      then let '(ok, a) := account_Allow r b seen now a in Ok ok :: run_account r b maxIdle key ops a
      else run_account r b maxIdle key ops a
  | OpCleanup clock :: ops => run_account r b maxIdle key ops (account_cleanup maxIdle (clock key) a)
  end.

(** The decisions an execution made for [key]. *)
Definition decisions (key : string) (l : list (string * result bool)) : list (result bool) :=
  map snd (filter (fun p => p.1 = key) l).

(** ** Refinement *)

Definition account_of (ml : MemoryLimiter) (key : string) : account :=
  match entries ml !! key with
  | Some e => (fun l => (l, lastSeen e)) <$> buckets ml !! limiter e
  | None => None
  end.

(** Every entry points to an allocated bucket, and no two keys share one. *)
Record wf (ml : MemoryLimiter) : Prop := {
  wf_alloc : forall k e, entries ml !! k = Some e -> is_Some (buckets ml !! limiter e);
  wf_fresh : forall p, is_Some (buckets ml !! p) -> (p < fresh ml)%nat;
  wf_inj : forall k1 k2 e1 e2, entries ml !! k1 = Some e1 -> entries ml !! k2 = Some e2 ->
             limiter e1 = limiter e2 -> k1 = k2;
}.

Definition same_params (ml ml' : MemoryLimiter) : Prop :=
  r ml' = r ml /\ b ml' = b ml /\ cleanupMaxIdle ml' = cleanupMaxIdle ml.

Lemma limiter_wf_new r b ci mi : wf (NewMemoryLimiter r b ci mi).
Proof using Type.
  constructor; simpl; intros *; rewrite ?lookup_empty; try done.
Qed.

(** Using the bucket behind the entry of [key]. *)
Lemma allow_at_spec ml key e now :
  wf ml -> entries ml !! key = Some e ->
  exists l, buckets ml !! limiter e = Some l /\
  let '(ok, l') := bucket_Allow now l in
  let ml' := mkML (entries ml) (<[limiter e := l']> (buckets ml)) (fresh ml) (r ml) (b ml)
               (cleanupInterval ml) (cleanupMaxIdle ml) in
  allow_at (limiter e) now ml = (ok, ml') /\ wf ml' /\
  account_of ml' key = Some (l', lastSeen e) /\
  forall k, k ≠ key -> account_of ml' k = account_of ml k.
Proof using Type.
  intros Hwf He. destruct (wf_alloc ml Hwf key e He) as [l Hl]. exists l. split; [done|].
  unfold allow_at. rewrite Hl. destruct (bucket_Allow now l) as [ok l'].
  split_and!; [done|constructor; simpl|..].
  - intros k e' Hk. rewrite lookup_insert. case_decide; [done|]. by apply (wf_alloc ml Hwf k).
  - intros p [l0 Hp]. rewrite lookup_insert in Hp. case_decide; subst; apply (wf_fresh ml Hwf); eauto.
  - apply (wf_inj ml Hwf).
  - unfold account_of. simpl. by rewrite He, lookup_insert_eq.
  - intros k Hk. unfold account_of. simpl. destruct (entries ml !! k) as [e'|] eqn:E; [|done].
    rewrite lookup_insert_ne; [done|]. intros Heq. apply Hk. by apply (wf_inj ml Hwf k key e' e).
Qed.

Lemma wf_touch ml key e seen :
  wf ml -> entries ml !! key = Some e ->
  wf (set_entries (<[key := mkEntry (limiter e) seen]> (entries ml)) ml).
Proof using Type.
  intros Hwf He. constructor; simpl.
  - intros k e'. rewrite lookup_insert. case_decide; [intros [= <-]; exact (wf_alloc ml Hwf key e He)|].
    apply (wf_alloc ml Hwf).
  - apply (wf_fresh ml Hwf).
  - intros k1 k2 e1 e2. rewrite !lookup_insert. pose proof (wf_inj ml Hwf) as Hinj.
    case_decide; case_decide; naive_solver.
Qed.

Lemma wf_alloc_new ml key seen :
  wf ml -> entries ml !! key = None ->
  wf (set_entries (<[key := mkEntry (fresh ml) seen]> (entries (alloc ml).2)) (alloc ml).2).
Proof using Type.
  intros Hwf He.
  assert (forall k e, entries ml !! k = Some e -> limiter e ≠ fresh ml) as Hne.
  { intros k e Hk Heq. pose proof (wf_fresh ml Hwf _ (wf_alloc ml Hwf k e Hk)). lia. }
  constructor; simpl.
  - intros k e'. rewrite !lookup_insert. case_decide; [intros [= <-]; simpl; by rewrite decide_True|].
    intros Hk. rewrite decide_False; [by apply (wf_alloc ml Hwf k)|]. intros Heq. by apply (Hne k e').
  - intros p [l0 Hp]. rewrite lookup_insert in Hp. case_decide; subst; [lia|].
    apply Nat.lt_lt_succ_r, (wf_fresh ml Hwf). eauto.
  - intros k1 k2 e1 e2. rewrite !lookup_insert. pose proof (wf_inj ml Hwf) as Hinj.
    case_decide; case_decide; naive_solver.
Qed.

Lemma Allow_spec seen now key ml :
  wf ml ->
  let '(res, ml') := Allow seen now key ml in
  wf ml' /\ same_params ml ml' /\
  (exists ok, res = Ok ok /\
     account_Allow (r ml) (b ml) seen now (account_of ml key) = (ok, account_of ml' key)) /\
  forall k, k ≠ key -> account_of ml' k = account_of ml k.
Proof using Type.
  intros Hwf. unfold Allow, account_Allow, same_params.
  destruct (entries ml !! key) as [e|] eqn:He.
  - destruct (allow_at_spec _ key (mkEntry (limiter e) seen) now (wf_touch ml key e seen Hwf He))
      as (l & Hl & H); [apply lookup_insert_eq|]. simpl in *.
    unfold account_of at 1. rewrite He, Hl. simpl. destruct (bucket_Allow now l) as [ok l'].
    destruct H as (-> & Hwf' & Hacc & Hother). split_and!; try done; [by rewrite Hacc; eauto|].
    intros k Hk. rewrite Hother by done. unfold account_of. simpl. by rewrite lookup_insert_ne.
  - destruct (allow_at_spec _ key (mkEntry (fresh ml) seen) now (wf_alloc_new ml key seen Hwf He))
      as (l & Hl & H); [apply lookup_insert_eq|]. simpl in *.
    rewrite lookup_insert_eq in Hl. injection Hl as <-.
    unfold LoadOrStore. simpl. rewrite He. unfold account_of at 1. rewrite He.
    destruct (bucket_Allow now (NewLimiter (r ml) (b ml))) as [ok l'].
    destruct H as (-> & Hwf' & Hacc & Hother). split_and!; try done; [by rewrite Hacc; eauto|].
    intros k Hk. rewrite Hother by done. unfold account_of. simpl. rewrite lookup_insert_ne by done.
    destruct (entries ml !! k) as [e'|] eqn:Hk'; [|done]. rewrite lookup_insert_ne; [done|].
    intros Heq. pose proof (wf_fresh ml Hwf _ (wf_alloc ml Hwf k e' Hk')). lia.
Qed.

Lemma cleanup_spec clock ml :
  wf ml ->
  wf (cleanup clock ml) /\ same_params ml (cleanup clock ml) /\
  forall k, account_of (cleanup clock ml) k = account_cleanup (cleanupMaxIdle ml) (clock k) (account_of ml k).
Proof using Type.
  intros Hwf. unfold cleanup, same_params.
  split_and!; [constructor; simpl|done..|].
  - intros k e [? _]%map_lookup_filter_Some. by apply (wf_alloc ml Hwf k).
  - apply (wf_fresh ml Hwf).
  - intros k1 k2 e1 e2 [? _]%map_lookup_filter_Some [? _]%map_lookup_filter_Some. by apply (wf_inj ml Hwf).
  - intros k. unfold account_of. simpl. rewrite map_lookup_filter.
    destruct (entries ml !! k) as [e|] eqn:He; simpl; [|done].
    destruct (wf_alloc ml Hwf k e He) as [l Hl]. rewrite Hl. simpl.
    unfold stale. destruct (cleanupMaxIdle ml <? Since (clock k) (lastSeen e)); simpl;
      rewrite ?option_guard_True, ?option_guard_False by done; simpl; by rewrite ?Hl.
Qed.

Lemma limiter_run_refines key ops ml :
  wf ml ->
  decisions key (run ops ml).1 =
    run_account (r ml) (b ml) (cleanupMaxIdle ml) key ops (account_of ml key).
Proof using Type.
  revert ml. induction ops as [|o ops IH]; intros ml Hwf; simpl; [done|].
  destruct o as [seen now k|clock]; simpl.
  - pose proof (Allow_spec seen now k ml Hwf) as H. destruct (Allow seen now k ml) as [res ml'].
    destruct H as (Hwf' & (Hr & Hb & Hm) & (ok & -> & Hacc) & Hother).
    specialize (IH ml' Hwf'). destruct (run ops ml') as [l ml'']. simpl in *.
    rewrite Hr, Hb, Hm in IH. unfold decisions in *. rewrite filter_cons. simpl.
    case_decide as Hk; simpl.
    + subst. rewrite Hacc. by rewrite IH.
    + by rewrite IH, Hother.
  - destruct (cleanup_spec clock ml Hwf) as (Hwf' & (Hr & Hb & Hm) & Hacc).
    specialize (IH _ Hwf'). destruct (run ops (cleanup clock ml)) as [l ml'']. simpl in *.
    rewrite Hacc in IH. exact IH.
Qed.
End Model.
Arguments MemoryLimiter : clear implicits.

(** Refinement and isolation. For every bucket implementation and every
    sequence of requests and cleanups, the decisions for a key are those of one
    private bucket, created at the key's first request and dropped by a cleanup
    that finds it idle: other keys and the sharing of bucket pointers between
    entries have no influence. *)
Theorem memory_limiter_isolates_keys {R L : Type} `{!TokenBucket R L}
    (r0 : R) (b0 ci mi : Z) (ops : list op) (key : string) :
  decisions key (run ops (NewMemoryLimiter r0 b0 ci mi)).1 = run_account r0 b0 mi key ops None.
Proof. apply (limiter_run_refines key ops (NewMemoryLimiter r0 b0 ci mi)), limiter_wf_new. Qed.

End MemoryLimiter.

(** ** Doubles

    The result of an operation on doubles is the exact result rounded to a
    significand of 53 bits, to the nearest and to the even one of two (IEEE 754
    binary64). The exponent is not bounded here: the numbers of the script are 0
    or far from the smallest normal double, and one that is too large for a double
    is cut off by the [math.min] that follows. *)

Module Double.
Open Scope Q_scope.

(** Half a unit in the last place of 1: [2^-53]. *)
Definition half_ulp : Q := 1 # 9007199254740992.

(** The integer nearest to [x], the even one of two. *)
Definition round_even (x : Q) : Z :=
  let f := Qfloor x in
  match Qcompare (x - inject_Z f) (1 # 2) with
  | Lt => f
  | Eq => if Z.even f then f else (f + 1)%Z
  | Gt => (f + 1)%Z
  end.

(** The exponent [e] of [x > 0]: [x] is a number from [2^52] up to [2^53], times [2^e]. *)
Definition exponent (x : Q) : Z :=
  let e := (Z.log2 (Qnum x) - Z.log2 (Zpos (Qden x)) - 52)%Z in
  if Qle_bool (2 ^ 52) (x / 2 ^ e) then e else (e - 1)%Z.

Definition round_pos (x : Q) : Q :=
  let e := exponent x in Qred (inject_Z (round_even (x / 2 ^ e)) * 2 ^ e).

Definition rn (x : Q) : Q :=
  let x := Qred x in
  match Qnum x with
  | Z0 => 0
  | Zpos _ => round_pos x
  | Zneg _ => - round_pos (- x)
  end.

Lemma round_even_error x : x - (1 # 2) <= inject_Z (round_even x) <= x + (1 # 2).
Proof.
  unfold round_even. pose proof (Qfloor_le x) as H1. pose proof (Qlt_floor x) as H2.
  rewrite inject_Z_plus in H2. change (inject_Z 1) with 1 in H2.
  destruct (Qcompare_spec (x - inject_Z (Qfloor x)) (1 # 2)) as [E|E|E]; [destruct (Z.even _)|..];
    rewrite ?inject_Z_plus; change (inject_Z 1) with 1; lra.
Qed.

Lemma pow2_pos e : 0 < 2 ^ e.
Proof. apply Qpower_0_lt. reflexivity. Qed.

Lemma pow2_nonzero e : ~ 2 ^ e == 0.
Proof. intros E. pose proof (pow2_pos e) as H. rewrite E in H. by apply (Qlt_irrefl 0). Qed.

Lemma pow2_Z n : (0 <= n)%Z -> 2 ^ n == inject_Z (2 ^ n).
Proof. intros. by rewrite Zpower_Qpower. Qed.

(** Between the powers of two of numerator and denominator. *)
Lemma log2_bounds x : 0 < x ->
  let l := (Z.log2 (Qnum x) - Z.log2 (Zpos (Qden x)))%Z in 2 ^ (l - 1) < x /\ x < 2 ^ (l + 1).
Proof.
  intros Hx l. destruct x as [n d]. cbn [Qnum Qden] in *.
  assert (0 < n)%Z as Hn by (unfold Qlt in Hx; simpl in Hx; lia).
  destruct (Z.log2_spec n Hn) as [Hn1 Hn2]. destruct (Z.log2_spec (Zpos d) eq_refl) as [Hd1 Hd2].
  pose proof (Z.log2_nonneg n). pose proof (Z.log2_nonneg (Zpos d)).
  assert (0 < inject_Z (Zpos d)) as Hdpos by reflexivity.
  rewrite Zlt_Qlt, <- pow2_Z in Hn2, Hd2 by lia. rewrite Zle_Qle, <- pow2_Z in Hn1, Hd1 by lia.
  rewrite (Qmake_Qdiv n d). split.
  - apply Qlt_shift_div_l; [done|]. eapply Qlt_le_trans; [|exact Hn1].
    assert (2 ^ Z.log2 n == 2 ^ (l - 1) * 2 ^ Z.succ (Z.log2 (Zpos d))) as ->.
    { rewrite <- Qpower_plus by done. unfold l. f_equiv. lia. }
    apply Qmult_lt_l; [apply pow2_pos|done].
  - apply Qlt_shift_div_r; [done|]. eapply Qlt_le_trans; [exact Hn2|].
    assert (2 ^ Z.succ (Z.log2 n) == 2 ^ (l + 1) * 2 ^ Z.log2 (Zpos d)) as ->.
    { rewrite <- Qpower_plus by done. unfold l. f_equiv. lia. }
    apply Qmult_le_l; [apply pow2_pos|done].
Qed.

(** The significand has 53 bits. *)
Lemma exponent_spec x : 0 < x -> 2 ^ 52 <= x / 2 ^ exponent x /\ x / 2 ^ exponent x < 2 ^ 53.
Proof.
  intros Hx. destruct (log2_bounds x Hx) as [H1 H2]. unfold exponent.
  set (l := (Z.log2 (Qnum x) - Z.log2 (Zpos (Qden x)))%Z) in *.
  destruct (Qle_bool _ _) eqn:E.
  - apply Qle_bool_iff in E. split; [done|]. apply Qlt_shift_div_r; [apply pow2_pos|].
    rewrite <- Qpower_plus by done. by replace (53 + (l - 52))%Z with (l + 1)%Z by lia.
  - assert (x / 2 ^ (l - 52) < 2 ^ 52) as Hlt by (apply Qnot_le_lt; intros Hle%Qle_bool_iff; congruence).
    split.
    + apply Qle_shift_div_l; [apply pow2_pos|]. apply Qlt_le_weak.
      rewrite <- Qpower_plus by done. by replace (52 + (l - 52 - 1))%Z with (l - 1)%Z by lia.
    + assert (2 ^ (l - 52) == 2 ^ (l - 52 - 1) * 2) as Ep.
      { change 2 with (2 ^ 1) at 3. rewrite <- Qpower_plus by done. f_equiv. lia. }
      apply Qlt_shift_div_r; [apply pow2_pos|].
      assert (x == x / 2 ^ (l - 52) * 2 ^ (l - 52)) as -> by (field; apply pow2_nonzero).
      assert (2 ^ 53 * 2 ^ (l - 52 - 1) == 2 ^ 52 * 2 ^ (l - 52)) as -> by (rewrite Ep; change (2 ^ 53) with (2 ^ 52 * 2); ring).
      by apply Qmult_lt_r; [apply pow2_pos|].
Qed.

Lemma round_pos_error x : 0 < x -> x * (1 - half_ulp) <= round_pos x <= x * (1 + half_ulp).
Proof.
  intros Hx. unfold round_pos. rewrite Qred_correct. destruct (exponent_spec x Hx) as [Hm _].
  set (e := exponent x) in *. set (m := x / 2 ^ e) in *.
  assert (x == m * 2 ^ e) as -> by (unfold m; field; apply pow2_nonzero).
  pose proof (round_even_error m) as [H1 H2].
  assert (1 # 2 <= m * half_ulp) as Hh.
  { eapply Qle_trans; [|apply Qmult_le_compat_r; [exact Hm|discriminate]]. discriminate. }
  assert (forall a b, a <= b -> a * 2 ^ e <= b * 2 ^ e) as Hmul by (intros; apply Qmult_le_compat_r; [done|apply Qlt_le_weak, pow2_pos]).
  split.
  - assert (m * 2 ^ e * (1 - half_ulp) == m * (1 - half_ulp) * 2 ^ e) as -> by ring. apply Hmul. lra.
  - assert (m * 2 ^ e * (1 + half_ulp) == m * (1 + half_ulp) * 2 ^ e) as -> by ring. apply Hmul. lra.
Qed.

(** One rounding is off by at most one part in [2^53]. *)
Lemma rn_error x : 0 <= x -> x * (1 - half_ulp) <= rn x <= x * (1 + half_ulp).
Proof.
  intros Hx. unfold rn. pose proof (Qred_correct x) as Hr. set (y := Qred x) in *. clearbody y. rewrite <- Hr in *.
  clear x Hr. destruct (Qnum y) as [|p|p] eqn:E.
  - assert (y == 0) as -> by (unfold Qeq; by rewrite E). lra.
  - apply round_pos_error. unfold Qlt. rewrite E. reflexivity.
  - exfalso. unfold Qle in Hx. rewrite E in Hx. simpl in Hx. lia.
Qed.

#[export] Instance rn_proper : Proper (Qeq ==> Qeq) rn.
Proof. intros x y H%Qred_complete. unfold rn. by rewrite H. Qed.

Lemma rn_nonneg x : 0 <= x -> 0 <= rn x.
Proof.
  intros Hx. destruct (rn_error x Hx) as [H _]. eapply Qle_trans; [|exact H].
  apply Qmult_le_0_compat; [done|discriminate].
Qed.

Example rn_tenth : rn (1 # 10) = 3602879701896397 # 36028797018963968.
Proof. vm_compute. reflexivity. Qed.

(** A tie: to the even significand. *)
Example rn_tie : rn (18014398509481983 # 18014398509481984) = 1.
Proof. vm_compute. reflexivity. Qed.
End Double.

Module RedisLimiter.
Import Double.
Open Scope Q_scope.

(** The hash of one key (Redis writes a number of a script with 17 digits, from
    which it reads back the same double), with the instant (server clock, ms) at which
    [PEXPIRE] makes it vanish. *)
Record bucket := mkBucket { tokens : Q; ts : Z; expireAt : Z }.

(** [math.min] and [math.max] of Lua. *)
Definition math_min (x y : Q) : Q := if Qle_bool x y then x else y.
Definition math_max (x y : Z) : Z := Z.max x y.

(** The key's hash as [HMGET] sees it at server time [server_ms]. *)
Definition HMGET (server_ms : Z) (key : string) (db : gmap string bucket) : option bucket :=
  match db !! key with
  | Some bk => if (expireAt bk <? server_ms)%Z then None else Some bk
  | None => None
  end.

(** The tokens in the bucket at [now_ms], after the refill. The times and the
    burst are integers below [2^53], on which the script's arithmetic is exact;
    the quotient, the product and the sum are rounded. *)
Definition refilled (rate : Q) (burst now_ms : Z) (bk : option bucket) : Q :=
  let tokens := match bk with Some bk => tokens bk | None => inject_Z burst end in
  let last := match bk with Some bk => ts bk | None => now_ms end in
  let elapsed := rn (inject_Z (math_max 0 (now_ms - last)) / 1000) in
  math_min (inject_Z burst) (rn (tokens + rn (elapsed * rate))).

(** The expiry the script sets, in milliseconds. *)
Definition ttl (rate : Q) (burst : Z) : Z := (Qceiling (rn (rn (inject_Z burst / rate) * 1000)) + 1000)%Z.

(** [limiterLuaScript]: Redis runs a script atomically. *)
Definition script (rate : Q) (burst now_ms server_ms : Z) (key : string) (db : gmap string bucket) :
    Z * gmap string bucket :=
  let tokens := refilled rate burst now_ms (HMGET server_ms key db) in
  let '(allowed, tokens) := if Qle_bool 1 tokens then (1%Z, rn (tokens - 1)) else (0%Z, tokens) in
  (allowed, <[key := mkBucket tokens now_ms (server_ms + ttl rate burst)]> db).

Record RedisLimiter := mkRL { prefix : string; r : Q; b : Z }.

Definition NewRedisLimiter (prefix : string) (r : Q) (b : Z) : RedisLimiter := mkRL prefix r b.

(** What can happen to one script call: it runs and the reply arrives, or the
    client reports an error, the script having run or not. *)
Inductive delivery := Delivered | Failed (ran : bool) (err : string).

Definition Allow (rl : RedisLimiter) (d : delivery) (now_ms server_ms : Z) (key : string)
    (db : gmap string bucket) : result bool * gmap string bucket :=
  let '(res, db') := script (r rl) (b rl) now_ms server_ms (prefix rl +:+ key) db in
  match d with
  | Delivered => (Ok (negb (res =? 0)%Z), db')
  | Failed ran err => (Err err, if ran then db' else db)
  end.

(** ** Token accounting *)

Section Accounting.
Context (rate : Q) (burst : Z) (Hrate : 0 < rate) (Hburst : (1 <= burst <= 2 ^ 53)%Z).

Definition ok_bucket (bk : bucket) : Prop := 0 <= tokens bk <= inject_Z burst.

Definition ok_db (db : gmap string bucket) : Prop := map_Forall (fun _ bk => ok_bucket bk) db.

Lemma math_min_le x y : math_min x y <= x /\ math_min x y <= y.
Proof using Type.
  unfold math_min. destruct (Qle_bool x y) eqn:E.
  - apply Qle_bool_iff in E. split; [apply Qle_refl|done].
  - split; [|apply Qle_refl]. apply Qlt_le_weak, Qnot_le_lt. intros H%Qle_bool_iff. congruence.
Qed.

Lemma math_min_glb x y z : z <= x -> z <= y -> z <= math_min x y.
Proof using Type. unfold math_min. by destruct (Qle_bool x y). Qed.

Lemma burst_pos : 1 <= inject_Z burst.
Proof using Hburst. change 1 with (inject_Z 1). rewrite <- Zle_Qle. lia. Qed.

Lemma burst_small : inject_Z burst * half_ulp <= 1.
Proof using Hburst.
  assert (inject_Z burst <= inject_Z (2 ^ 53)) as H by (rewrite <- Zle_Qle; lia).
  eapply Qle_trans; [apply Qmult_le_compat_r; [exact H|discriminate]|]. discriminate.
Qed.

Lemma elapsed_nonneg z : 0 <= inject_Z (math_max 0 z) / 1000.
Proof using Type.
  apply Qle_shift_div_l; [done|]. rewrite Qmult_0_l. change 0 with (inject_Z 0).
  rewrite <- Zle_Qle. unfold math_max. lia.
Qed.

(** The tokens that flow in, exactly and as they are computed. *)
Lemma inflow_rounded z :
  let exact := inject_Z (math_max 0 z) / 1000 * rate in
  0 <= rn (rn (inject_Z (math_max 0 z) / 1000) * rate) <= exact * ((1 + half_ulp) * (1 + half_ulp)).
Proof using Hrate.
  intros exact. pose proof (elapsed_nonneg z) as He. set (x := inject_Z (math_max 0 z) / 1000) in *.
  assert (0 <= rn x * rate) as Hp by (apply Qmult_le_0_compat; [by apply rn_nonneg|by apply Qlt_le_weak]).
  split; [by apply rn_nonneg|]. eapply Qle_trans; [by apply rn_error|].
  assert (exact * ((1 + half_ulp) * (1 + half_ulp)) == x * (1 + half_ulp) * rate * (1 + half_ulp)) as -> by (unfold exact; ring).
  apply Qmult_le_compat_r; [|discriminate]. apply Qmult_le_compat_r; [|by apply Qlt_le_weak]. by apply rn_error.
Qed.

Lemma HMGET_ok server_ms key db bk : ok_db db -> HMGET server_ms key db = Some bk -> ok_bucket bk.
Proof using Type.
  intros Hdb. unfold HMGET. destruct (db !! key) as [bk'|] eqn:E; [|done].
  case_match; intros [= <-]. by apply (Hdb key).
Qed.

Lemma refilled_range now_ms bk :
  (forall x, bk = Some x -> ok_bucket x) -> 0 <= refilled rate burst now_ms bk <= inject_Z burst.
Proof using Hburst Hrate.
  intros Hbk. unfold refilled. split; [|apply math_min_le]. pose proof burst_pos as Hb.
  apply math_min_glb; [lra|]. apply rn_nonneg.
  assert (0 <= match bk with Some bk => tokens bk | None => inject_Z burst end) as Ht.
  { destruct bk as [x|]; [|lra]. by destruct (Hbk x eq_refl). }
  destruct (inflow_rounded (now_ms - match bk with Some bk => ts bk | None => now_ms end)) as [He _]. lra.
Qed.

(** Taking a token from the bucket, up to rounding. *)
Lemma take_token level : 1 <= level <= inject_Z burst ->
  0 <= rn (level - 1) <= inject_Z burst /\ rn (level - 1) <= level - 1 + half_ulp * inject_Z burst.
Proof using Hburst.
  intros [H1 H2]. assert (0 <= level - 1) as H0 by lra. destruct (rn_error _ H0) as [_ Hr].
  assert ((level - 1) * half_ulp <= inject_Z burst * half_ulp) as Hu by (apply Qmult_le_compat_r; [lra|discriminate]).
  pose proof burst_small. split; [split; [by apply rn_nonneg|]|]; lra.
Qed.

(** What one call leaves behind. *)
Lemma script_spec now_ms server_ms key db :
  ok_db db ->
  let '(allowed, db') := script rate burst now_ms server_ms key db in
  let level := refilled rate burst now_ms (HMGET server_ms key db) in
  ok_db db' /\ (allowed = 0 \/ allowed = 1)%Z /\
  (allowed = 1%Z <-> 1 <= level) /\
  exists bk, db' !! key = Some bk /\ ts bk = now_ms /\ (expireAt bk = server_ms + ttl rate burst)%Z /\
    ok_bucket bk /\ tokens bk <= level - inject_Z allowed + half_ulp * inject_Z burst.
Proof using Hburst Hrate.
  intros Hdb. unfold script.
  destruct (refilled_range now_ms (HMGET server_ms key db)) as [H0 H1]; [intros; by eapply HMGET_ok|].
  set (level := refilled rate burst now_ms (HMGET server_ms key db)) in *.
  assert (0 <= half_ulp * inject_Z burst) as Hu by (pose proof burst_pos; apply Qmult_le_0_compat; [discriminate|lra]).
  destruct (Qle_bool 1 level) eqn:E; simpl.
  - apply Qle_bool_iff in E. destruct (take_token level (conj E H1)) as [Ht Hr].
    assert (ok_bucket (mkBucket (rn (level - 1)) now_ms (server_ms + ttl rate burst))) as Hbk by done.
    split_and!; [by apply map_Forall_insert_2|by right|done|].
    eexists. rewrite lookup_insert_eq. split_and!; done.
  - assert (~ 1 <= level) by (intros H%Qle_bool_iff; congruence).
    assert (ok_bucket (mkBucket level now_ms (server_ms + ttl rate burst))) as Hbk by (split; done).
    split_and!; [by apply map_Forall_insert_2|by left|done|].
    eexists. rewrite lookup_insert_eq. split_and!; try done. cbn [tokens]. change (inject_Z 0) with 0. lra.
Qed.
End Accounting.

(** ** Sequences of calls on one key *)

(** The instant of a call on the clock of the gateway that makes it and on that of
    the Redis server, in milliseconds. *)
Notation instant := (Z * Z)%type.

Section Sequences.
Context (rate : Q) (burst : Z) (Hrate : 0 < rate) (Hburst : (1 <= burst <= 2 ^ 53)%Z) (key : string).

Fixpoint calls (times : list instant) (db : gmap string bucket) : list Z * gmap string bucket :=
  match times with
  | [] => ([], db)
  | (t, server) :: times =>
      let '(a, db) := script rate burst t server key db in
      let '(l, db) := calls times db in (a :: l, db)
  end.

(** From call to call the clock that the gateways read does not go back, and the
    server's clock does not gain more than a second on it. *)
Fixpoint ascending (i : instant) (times : list instant) : Prop :=
  match times with
  | [] => True
  | i' :: times => (i.1 <= i'.1)%Z /\ (i'.2 - i.2 <= i'.1 - i.1 + 1000)%Z /\ ascending i' times
  end.

Fixpoint last_time (t : Z) (times : list instant) : Z :=
  match times with [] => t | (t', _) :: times => last_time t' times end.

(** Tokens that flow in between two instants, with the rounding of the quotient
    and the product. *)
Definition inflow (t t' : Z) : Q := inject_Z (t' - t) / 1000 * rate * ((1 + half_ulp) * (1 + half_ulp)).

(** The rounding of one call. *)
Definition slack : Q := half_ulp * inject_Z burst.

Lemma slack_nonneg : 0 <= slack.
Proof using Hburst. pose proof (burst_pos burst Hburst). apply Qmult_le_0_compat; [discriminate|lra]. Qed.

Lemma inflow_add t1 t2 t3 : inflow t1 t2 + inflow t2 t3 == inflow t1 t3.
Proof using Type.
  unfold inflow. replace (t3 - t1)%Z with ((t2 - t1) + (t3 - t2))%Z by lia.
  rewrite inject_Z_plus. field.
Qed.

(** The expiry is not shorter than the time the bucket takes to fill. *)
Lemma ttl_long : inject_Z burst / rate * 1000 * ((1 - half_ulp) * (1 - half_ulp)) <= inject_Z (ttl rate burst - 1000).
Proof using Hrate Hburst.
  unfold ttl. rewrite Z.add_simpl_r. eapply Qle_trans; [|apply Qle_ceiling]. pose proof (burst_pos burst Hburst) as Hb.
  assert (0 <= inject_Z burst / rate) as H0 by (apply Qle_shift_div_l; [done|lra]).
  pose proof (proj1 (rn_error _ H0)) as H1. pose proof (rn_nonneg _ H0) as H2.
  assert (0 <= rn (inject_Z burst / rate) * 1000) as H3 by lra. pose proof (proj1 (rn_error _ H3)) as H4.
  eapply Qle_trans; [|exact H4]. assert (forall x, x * 1000 * ((1 - half_ulp) * (1 - half_ulp)) == x * (1 - half_ulp) * 1000 * (1 - half_ulp)) as -> by (intros; ring).
  apply Qmult_le_compat_r; [|discriminate]. lra.
Qed.

(** Once a key has expired its bucket would have been full again, up to rounding. *)
Lemma inflow_ttl t t' : (ttl rate burst - 1000 <= t' - t)%Z -> inject_Z burst <= inflow t t' + slack.
Proof using Hrate Hburst.
  intros Ht. rewrite Zle_Qle in Ht. pose proof (Qle_trans _ _ _ ttl_long Ht) as H. unfold inflow.
  set (T := inject_Z (t' - t)) in *. set (B := inject_Z burst) in *. set (k := (1 - half_ulp) * (1 - half_ulp)) in *.
  set (g := (1 + half_ulp) * (1 + half_ulp)).
  assert (0 <= B) as HB by (pose proof (burst_pos burst Hburst); unfold B; lra).
  assert (B * k <= T / 1000 * rate) as H1.
  { assert (B * k == B / rate * 1000 * k / 1000 * rate) as -> by (field; intros E; rewrite E in Hrate; by apply (Qlt_irrefl 0)).
    apply Qmult_le_compat_r; [|by apply Qlt_le_weak]. unfold Qdiv at 1 3. apply Qmult_le_compat_r; [exact H|discriminate]. }
  assert (B * k * g <= T / 1000 * rate * g) as H2 by (apply Qmult_le_compat_r; [done|discriminate]).
  assert (B * (1 - half_ulp) <= B * k * g) as H3.
  { rewrite <- Qmult_assoc. rewrite !(Qmult_comm B). apply Qmult_le_compat_r; [discriminate|done]. }
  unfold slack. fold B. lra.
Qed.

(** The level at a later instant is at most what was left plus the inflow, up to
    rounding. *)
Lemma level_later i i' bk db :
  db !! key = Some bk -> ts bk = i.1 -> expireAt bk = (i.2 + ttl rate burst)%Z -> 0 <= tokens bk ->
  (i.1 <= i'.1)%Z -> (i'.2 - i.2 <= i'.1 - i.1 + 1000)%Z -> ok_db burst db ->
  refilled rate burst i'.1 (HMGET i'.2 key db) <= tokens bk + inflow i.1 i'.1 + slack.
Proof using Hrate Hburst.
  intros Hbk Hts Hexp Htok Ht Hserver Hdb. pose proof slack_nonneg as Hs. unfold HMGET. rewrite Hbk, Hexp.
  destruct (i.2 + ttl rate burst <? i'.2)%Z eqn:E; bool2prop.
  - unfold refilled. eapply Qle_trans; [apply (proj1 (math_min_le _ _))|]. pose proof (inflow_ttl i.1 i'.1 ltac:(lia)). lra.
  - unfold refilled. rewrite Hts. destruct (inflow_rounded rate Hrate (i'.1 - i.1)) as [H0 H1].
    replace (math_max 0 (i'.1 - i.1)) with (i'.1 - i.1)%Z in * by (unfold math_max; lia). fold (inflow i.1 i'.1) in H1.
    set (f := rn (rn _ * rate)) in *. destruct (Qlt_le_dec (inject_Z burst) (tokens bk + f)) as [Hbig|Hsmall].
    + eapply Qle_trans; [apply (proj1 (math_min_le _ _))|]. lra.
    + eapply Qle_trans; [apply (proj2 (math_min_le _ _))|]. eapply Qle_trans; [apply rn_error; lra|].
      assert ((tokens bk + f) * half_ulp <= inject_Z burst * half_ulp) as Hu by (apply Qmult_le_compat_r; [done|discriminate]).
      unfold slack. lra.
Qed.

Lemma calls_bound i times db :
  ok_db burst db -> ascending i times ->
  inject_Z (sumZ (calls (i :: times) db).1) <=
    refilled rate burst i.1 (HMGET i.2 key db) + inflow i.1 (last_time i.1 times) +
    2 * slack * inject_Z (Z.of_nat (length (i :: times))).
Proof using Hrate Hburst.
  pose proof slack_nonneg as Hs.
  revert i db. induction times as [|i' times IH]; intros [t server] db Hdb Hasc;
    cbn [calls last_time fst snd]; pose proof (script_spec rate burst Hrate Hburst t server key db Hdb) as H;
    destruct (script rate burst t server key db) as [a db'];
    destruct H as (Hdb' & _ & _ & bk & Hbk & Hts & Hexp & [Htok _] & Hlev); fold slack in Hlev.
  - cbn [fst length]. rewrite sumZ_cons. change (sumZ []) with 0%Z. rewrite Z.add_0_r.
    assert (inflow t t == 0) as -> by (unfold inflow; rewrite Z.sub_diag; reflexivity). change (inject_Z (Z.of_nat 1)) with 1. lra.
  - destruct Hasc as (Ht & Hd & Hasc). specialize (IH i' db' Hdb' Hasc). destruct i' as [t' server']. cbn [fst snd calls] in *.
    destruct (script rate burst t' server' key db') as [a' db'']. destruct (calls times db'') as [l db3].
    cbn [fst length] in *. rewrite Nat2Z.inj_succ, <- Z.add_1_r, inject_Z_plus. rewrite (sumZ_cons a), inject_Z_plus.
    pose proof (level_later (t, server) (t', server') bk db' Hbk Hts Hexp Htok Ht Hd Hdb') as Hl. cbn [fst snd] in Hl.
    pose proof (inflow_add t t' (last_time t' times)). cbn [last_time] in *. change (inject_Z 1) with 1.
    set (n := inject_Z (Z.of_nat (S (length times)))) in *.
    assert (2 * slack * (n + 1) == 2 * slack * n + 2 * slack) as -> by ring. lra.
Qed.
End Sequences.

(** ** Properties *)

Lemma ok_db_empty burst : ok_db burst ∅.
Proof. apply map_Forall_empty. Qed.

(** C31. Rate bound. From any consistent database, over any sequence of [n] calls
    for one key, made on clocks of which the gateways' does not go back from call
    to call and the server's does not gain more than a second on it, the script
    admits at most [burst] requests plus the tokens that flow in between the first
    and the last call; the rounding of the script's arithmetic can add at most
    three parts in [2^53] of the tokens that flow in, and as much of [burst] for
    every call. The expiry of idle keys is covered: it can only come when the
    bucket would be full, up to rounding. *)
Theorem redis_admits_at_most (rate : Q) (burst : Z) (key : string) (i : instant) (times : list instant)
    (db : gmap string bucket)
    (Hrate : 0 < rate) (Hburst : (1 <= burst <= 2 ^ 53)%Z) (Hdb : ok_db burst db) (Hasc : ascending i times) :
  let seconds := inject_Z (last_time i.1 times - i.1) / 1000 in
  let n := inject_Z (Z.of_nat (length (i :: times))) in
  inject_Z (sumZ (calls rate burst key (i :: times) db).1) <=
    inject_Z burst + rate * seconds + (rate * seconds + inject_Z burst * n) * (3 # 9007199254740992).
Proof.
  intros seconds n. pose proof (calls_bound rate burst Hrate Hburst key i times db Hdb Hasc) as H. fold n in H.
  destruct (refilled_range rate burst Hrate Hburst i.1 (HMGET i.2 key db)) as [_ Hle]; [intros; by eapply HMGET_ok|].
  assert (0 <= rate * seconds) as Hf.
  { apply Qmult_le_0_compat; [by apply Qlt_le_weak|]. unfold seconds. apply Qle_shift_div_l; [done|]. rewrite Qmult_0_l.
    change 0 with (inject_Z 0). rewrite <- Zle_Qle. clear -Hasc. revert i Hasc.
    induction times as [|[t' s'] times IH]; intros i Hasc; cbn [last_time]; [lia|]. destruct Hasc as (H1 & _ & H2).
    specialize (IH _ H2). simpl in *. lia. }
  assert (0 <= inject_Z burst * n) as Hn.
  { pose proof (burst_pos burst Hburst). apply Qmult_le_0_compat; [lra|]. unfold n. change 0 with (inject_Z 0). rewrite <- Zle_Qle. lia. }
  unfold inflow, slack in H. fold seconds in H.
  assert (2 * (half_ulp * inject_Z burst) * n == inject_Z burst * n * (2 # 9007199254740992)) as E1 by (unfold half_ulp; ring).
  assert (seconds * rate * ((1 + half_ulp) * (1 + half_ulp)) <= rate * seconds + rate * seconds * (3 # 9007199254740992)) as E2.
  { assert (seconds * rate * ((1 + half_ulp) * (1 + half_ulp)) == rate * seconds * ((1 + half_ulp) * (1 + half_ulp))) as -> by ring.
    assert (rate * seconds + rate * seconds * (3 # 9007199254740992) == rate * seconds * (1 + (3 # 9007199254740992))) as -> by ring.
    rewrite !(Qmult_comm (rate * seconds)). apply Qmult_le_compat_r; [discriminate|done]. }
  lra.
Qed.

(** Every stored bucket holds between 0 and [burst] tokens after every call,
    and the script admits a request exactly when the refilled bucket holds a
    whole token, which it then takes. *)
Theorem redis_bucket_invariant (rate : Q) (burst now_ms server_ms : Z) (key : string)
    (db : gmap string bucket)
    (Hrate : 0 < rate) (Hburst : (1 <= burst <= 2 ^ 53)%Z) (Hdb : ok_db burst db) :
  let '(allowed, db') := script rate burst now_ms server_ms key db in
  let level := refilled rate burst now_ms (HMGET server_ms key db) in
  ok_db burst db' /\ (allowed = 1%Z <-> 1 <= level) /\
  exists bk, db' !! key = Some bk /\ tokens bk <= level - inject_Z allowed + half_ulp * inject_Z burst.
Proof.
  pose proof (script_spec rate burst Hrate Hburst now_ms server_ms key db Hdb) as H.
  destruct (script _ _ _ _ _ _) as [a db']. destruct H as (H1 & _ & H2 & bk & H3 & _ & _ & _ & H4).
  split_and!; eauto.
Qed.

(** Rounding can admit one request too many: with a rate of 0.3333333333333333
    (the double below a third) and a burst of one, three seconds refill a whole
    token. *)
Example rounding_admits :
  let third := 6004799503160661 # 18014398509481984 in
  (calls third 1 "ip" [(0, 0); (3000, 3000)]%Z ∅).1 = [1; 1]%Z /\ Qlt (1 + third * 3) 2.
Proof. split; vm_compute; reflexivity. Qed.

(** Two gateways share a bucket; the clock of the second is [skew] ms ahead of
    the first. They alternate, [n] requests each, at the same instant. *)
Fixpoint skewed (rate : Q) (burst t skew : Z) (key : string) (n : nat) (db : gmap string bucket) : Z :=
  match n with
  | O => 0
  | S n =>
      let '(a1, db) := script rate burst t t key db in
      let '(a2, db) := script rate burst (t + skew) t key db in
      a1 + a2 + skewed rate burst t skew key n db
  end.

(** With an empty bucket, the first gateway is refused and turns the clock of the
    bucket back, and the second is admitted. *)
Lemma skewed_round n db : db !! "ip" = Some (mkBucket 0 1000 2000) -> skewed 1 1 0 1000 "ip" n db = Z.of_nat n.
Proof.
  revert db. induction n as [|n IH]; intros db Hdb; [done|]. cbn [skewed].
  assert (script 1 1 0 0 "ip" db = (0%Z, <["ip" := mkBucket 0 0 2000]> db)) as ->
    by (unfold script, HMGET; rewrite Hdb; reflexivity).
  assert (script 1 1 (0 + 1000) 0 "ip" (<["ip" := mkBucket 0 0 2000]> db) =
    (1%Z, <["ip" := mkBucket 0 1000 2000]> (<["ip" := mkBucket 0 0 2000]> db))) as ->
    by (unfold script, HMGET; rewrite lookup_insert_eq; reflexivity).
  rewrite IH by apply lookup_insert_eq. lia.
Qed.

(** The script takes the time from the caller and stores it unconditionally,
    so a second gateway whose clock is one second ahead is admitted every time it
    alternates with the first one, although no time passes: with a limit of one
    request per second and a burst of one, [n] rounds admit at least [n]
    requests. *)
Theorem redis_skew_defeats_limit (n : nat) :
  (Z.of_nat n <= skewed 1 1 0 1000 "ip" n ∅)%Z.
Proof.
  destruct n as [|n]; [done|]. cbn [skewed].
  assert (script 1 1 0 0 "ip" ∅ = (1%Z, {["ip" := mkBucket 0 0 2000]})) as -> by reflexivity.
  assert (script 1 1 (0 + 1000) 0 "ip" {["ip" := mkBucket 0 0 2000]} = (1%Z, {["ip" := mkBucket 0 1000 2000]})) as -> by reflexivity.
  rewrite skewed_round by done. lia.
Qed.

(** ** Witnesses *)

(** The server's clock is half a second ahead, and then behind. *)
Definition sample_times : list instant := [(0, 500); (0, 500); (500, 1200); (900, 900); (1400, 1500)]%Z.

Lemma redis_admits_at_most_witness :
  (sumZ (calls 2 2 "ip" ((0, 0)%Z :: sample_times) ∅).1 = 4)%Z /\
  inject_Z (sumZ (calls 2 2 "ip" ((0, 0)%Z :: sample_times) ∅).1) <= inject_Z 2 + 2 * (inject_Z (1400 - 0) / 1000) +
    (2 * (inject_Z (1400 - 0) / 1000) + inject_Z 2 * inject_Z 6) * (3 # 9007199254740992).
Proof.
  split; [vm_compute; reflexivity|].
  apply (redis_admits_at_most 2 2 "ip" (0, 0)%Z sample_times ∅); [reflexivity|split; discriminate|apply ok_db_empty|].
  repeat split; discriminate.
Defined.

Lemma redis_bucket_invariant_witness :
  ok_db 2 (script 2 2 0 0 "ip" ∅).2 /\ (script 2 2 0 0 "ip" ∅).1 = 1%Z.
Proof.
  split; [|vm_compute; reflexivity].
  pose proof (redis_bucket_invariant 2 2 0 0 "ip" ∅ eq_refl ltac:(split; discriminate) (ok_db_empty 2)) as H.
  destruct (script 2 2 0 0 "ip" ∅) as [a db]. exact (proj1 H).
Defined.

End RedisLimiter.
