(* ===== verification/LimiterRace.v ===== *)
(** * The in-memory limiter under concurrency ([internal/ratelimit/limiter.go])

    [RateLimiters.MemoryLimiter] runs each call of [Allow] and of [cleanup]
    without interference. Here their accesses to the shared map are separate
    steps, as the scheduler may interleave them: an operation of [sync.Map], a
    call of [rate.Limiter.Allow] (which takes the mutex of the bucket) and the
    test of [cleanup] are atomic, nothing else is. [cleanup] runs in the one
    goroutine that [NewMemoryLimiter] starts, so there is at most one sweep. *)

From S2P Require Import Prelude RateLimiters.
Import MemoryLimiter.
Open Scope Z_scope.

Module LimiterRace.
Section Model.
Context {R L : Type} `{!TokenBucket R L}.

(** Where a call of [Allow] stands: before [Load]; on the fast path with the
    entry it loaded; on the slow path with the entry it made; before it uses
    the bucket it found; returned. *)
Inductive pc :=
| AtLoad (key : string)
| AtStore (key : string) (e : entry)
| AtLoadOrStore (key : string) (newEntry : entry)
| AtAllow (key : string) (p : nat)
| Returned (ok : bool).

(** Where the goroutine of [cleanup] stands: between visits of [Range], with
    the entry [Range] handed to the callback, before [Delete]. *)
Inductive sweep :=
| Ranging
| Visiting (key : string) (e : entry)
| Deleting (key : string).

(** A decision: the key, the bucket that took it, the instant and the verdict. *)
Record decision := mkDecision { d_key : string; d_bucket : nat; d_now : Z; d_ok : bool }.

Record sys := mkSys {
  ml : MemoryLimiter R L;
  calls : gmap nat pc;
  sweeper : sweep;
  visited : gset string;      (** keys the running [Range] has visited *)
  log : list decision;        (** in the order the buckets were used *)
}.

Definition init (m : MemoryLimiter R L) : sys := mkSys m ∅ Ranging ∅ [].

(** What the scheduler does next, with the readings of the clock. *)
Inductive event :=
| EvCall (i : nat) (key : string)
| EvLoad (i : nat) (seen : Z)
| EvStore (i : nat) (seen : Z)
| EvLoadOrStore (i : nat)
| EvAllow (i : nat) (now : Z)
| EvRange
| EvVisit (key : string)
| EvTest (now : Z)
| EvDelete.

Definition set_call (i : nat) (c : pc) (m : MemoryLimiter R L) (s : sys) : sys :=
  mkSys m (<[i := c]> (calls s)) (sweeper s) (visited s) (log s).

Definition set_sweep (w : sweep) (v : gset string) (m : MemoryLimiter R L) (s : sys) : sys :=
  mkSys m (calls s) w v (log s).

(** The next access of one call of [Allow]. *)
Definition call_step (ev : event) (s : sys) : option sys :=
  match ev with
  | EvCall i key =>
      match calls s !! i with
      | None => Some (set_call i (AtLoad key) (ml s) s)
      | Some _ => None
      end
  | EvLoad i seen =>
      match calls s !! i with
      | Some (AtLoad key) =>
          match entries (ml s) !! key with
          | Some e => Some (set_call i (AtStore key e) (ml s) s)
          | None => let '(p, m) := alloc (ml s) in
                    Some (set_call i (AtLoadOrStore key (mkEntry p seen)) m s)
          end
      | _ => None
      end
  | EvStore i seen =>
      match calls s !! i with
      | Some (AtStore key e) =>
          Some (set_call i (AtAllow key (limiter e))
                  (set_entries (<[key := mkEntry (limiter e) seen]> (entries (ml s))) (ml s)) s)
      | _ => None
      end
  | EvLoadOrStore i =>
      match calls s !! i with
      | Some (AtLoadOrStore key newEntry) =>
          let '(actual, loaded, m) := LoadOrStore key newEntry (ml s) in
          Some (set_call i (AtAllow key (limiter (if (loaded : bool) then actual else newEntry))) m s)
      | _ => None
      end
  | EvAllow i now =>
      match calls s !! i with
      | Some (AtAllow key p) =>
          let '(ok, m) := allow_at p now (ml s) in
          Some (mkSys m (<[i := Returned ok]> (calls s)) (sweeper s) (visited s)
                  (log s ++ [mkDecision key p now ok]))
      | _ => None
      end
  | _ => None
  end.

(** The next access of [cleanup]. [EvRange] begins a sweep; [Range] visits no
    key more than once. *)
Definition cleanup_step (ev : event) (s : sys) : option sys :=
  match ev, sweeper s with
  | EvRange, Ranging => Some (set_sweep Ranging ∅ (ml s) s)
  | EvVisit key, Ranging =>
      if decide (key ∈ visited s) then None
      else match entries (ml s) !! key with
           | Some e => Some (set_sweep (Visiting key e) ({[key]} ∪ visited s) (ml s) s)
           | None => None
           end
  | EvTest now, Visiting key e =>
      if stale now (cleanupMaxIdle (ml s)) e
      then Some (set_sweep (Deleting key) (visited s) (ml s) s)
      else Some (set_sweep Ranging (visited s) (ml s) s)
  | EvDelete, Deleting key =>
      Some (set_sweep Ranging (visited s)
              (set_entries (delete key (entries (ml s))) (ml s)) s)
  | _, _ => None
  end.

Definition step (ev : event) (s : sys) : option sys :=
  match ev with
  | EvRange | EvVisit _ | EvTest _ | EvDelete => cleanup_step ev s
  | _ => call_step ev s
  end.

(** A schedule: every event must be possible when it comes. *)
Fixpoint exec (evs : list event) (s : sys) : option sys :=
  match evs with
  | [] => Some s
  | ev :: evs => match step ev s with Some s' => exec evs s' | None => None end
  end.

(** ** Reference: one bucket used by a sequence of calls *)

(** The state of a new bucket after the calls at the given instants. *)
Definition bucket_after (r0 : R) (b0 : Z) (ts : list Z) : L :=
  fold_left (fun l t => (bucket_Allow t l).2) ts (NewLimiter r0 b0).

(** The verdicts of a new bucket for calls at the given instants. *)
Fixpoint verdicts_from (l : L) (ts : list Z) : list bool :=
  match ts with
  | [] => []
  | t :: ts => let '(ok, l) := bucket_Allow t l in ok :: verdicts_from l ts
  end.

Definition verdicts (r0 : R) (b0 : Z) (ts : list Z) : list bool := verdicts_from (NewLimiter r0 b0) ts.

Definition of_bucket (p : nat) (l : list decision) : list decision := filter (fun d => d_bucket d = p) l.
Definition of_key (key : string) (l : list decision) : list decision := filter (fun d => d_key d = key) l.

Lemma verdicts_from_app l ts t :
  verdicts_from l (ts ++ [t]) =
    verdicts_from l ts ++ [(bucket_Allow t (fold_left (fun l t => (bucket_Allow t l).2) ts l)).1].
Proof using Type.
  revert l. induction ts as [|x ts IH]; intros l; simpl.
  - by destruct (bucket_Allow t l).
  - destruct (bucket_Allow x l) as [ok l'] eqn:E. simpl. by rewrite IH.
Qed.

Lemma verdicts_snoc r0 b0 ts t :
  verdicts r0 b0 (ts ++ [t]) = verdicts r0 b0 ts ++ [(bucket_Allow t (bucket_after r0 b0 ts)).1].
Proof using Type. apply verdicts_from_app. Qed.

Lemma bucket_after_snoc r0 b0 ts t :
  bucket_after r0 b0 (ts ++ [t]) = (bucket_Allow t (bucket_after r0 b0 ts)).2.
Proof using Type. unfold bucket_after. by rewrite fold_left_app. Qed.

(** ** Which bucket serves which key *)

(** The bucket [p] has been found under [key]: by the map, by a call that is
    about to use it, or by a decision of the past. *)
Inductive used (s : sys) (key : string) (p : nat) : Prop :=
| UsedMap e : entries (ml s) !! key = Some e -> limiter e = p -> used s key p
| UsedStore i e : calls s !! i = Some (AtStore key e) -> limiter e = p -> used s key p
| UsedAllow i : calls s !! i = Some (AtAllow key p) -> used s key p
| UsedLog d : d ∈ log s -> d_key d = key -> d_bucket d = p -> used s key p.

(** ... or a call on the slow path has just made it for [key]. *)
Inductive refers (s : sys) (key : string) (p : nat) : Prop :=
| RefersUsed : used s key p -> refers s key p
| RefersNew i e : calls s !! i = Some (AtLoadOrStore key e) -> limiter e = p -> refers s key p.

Record inv (r0 : R) (b0 : Z) (s : sys) : Prop := {
  inv_params : r (ml s) = r0 /\ b (ml s) = b0;
  inv_alloc : forall key p, refers s key p -> is_Some (buckets (ml s) !! p);
  inv_fresh : forall p, is_Some (buckets (ml s) !! p) -> (p < fresh (ml s))%nat;
  inv_one : forall k1 k2 p, refers s k1 p -> refers s k2 p -> k1 = k2;
  inv_state : forall p l, buckets (ml s) !! p = Some l ->
                l = bucket_after r0 b0 (map d_now (of_bucket p (log s)));
  inv_log : forall p, map d_ok (of_bucket p (log s)) = verdicts r0 b0 (map d_now (of_bucket p (log s)));
}.

(** The deletions of a schedule that hit [key]. *)
Definition deletes (key : string) (ev : event) (s : sys) : bool :=
  match ev, sweeper s with
  | EvDelete, Deleting k => bool_decide (k = key)
  | _, _ => false
  end.

Fixpoint spared (key : string) (evs : list event) (s : sys) : bool :=
  match evs with
  | [] => true
  | ev :: evs =>
      negb (deletes key ev s) && match step ev s with Some s' => spared key evs s' | None => true end
  end.

(** While [key] is spared, the map has the one bucket that was found for it. *)
Definition single (key : string) (s : sys) : Prop :=
  forall p, used s key p -> exists e, entries (ml s) !! key = Some e /\ limiter e = p.

Local Ltac step_cases ev s :=
  destruct ev; cbn [step call_step cleanup_step];
  repeat (first [ case_match | progress simplify_eq | progress unfold LoadOrStore, alloc, allow_at in * ]);
  simplify_eq/=.

(** A map update at the call [i]. *)
Lemma lookup_call i j (c c' : pc) (m : gmap nat pc) :
  <[i := c]> m !! j = Some c' -> c' = c \/ m !! j = Some c'.
Proof using Type. rewrite lookup_insert. case_decide; naive_solver. Qed.


(** The key for which a step makes a new bucket. *)
Definition new_key (ev : event) (s : sys) : option string :=
  match ev with
  | EvLoad i _ =>
      match calls s !! i with
      | Some (AtLoad key) => match entries (ml s) !! key with None => Some key | Some _ => None end
      | _ => None
      end
  | _ => None
  end.

(** A step finds no bucket for a key that the key did not already refer to. *)
Lemma step_used ev s s' key p : step ev s = Some s' -> used s' key p -> refers s key p.
Proof using Type.
  intros Hs Hu. destruct Hu as [e He Hp|i' e He Hp|i' He|d Hd Hk Hp]; revert Hs; step_cases ev s; intros;
    simplify_eq/=;
    try (apply lookup_call in He as [?|?]; simplify_eq/=);
    try (apply lookup_insert_Some in He as [[??]|[??]]; simplify_eq/=);
    try (apply lookup_delete_Some in He as [??]);
    try (apply elem_of_app in Hd as [?| ->%list_elem_of_singleton]; simplify_eq/=);
    eauto using refers, used.
Qed.

Lemma step_refers ev s s' key p :
  step ev s = Some s' -> refers s' key p ->
  refers s key p \/ (p = fresh (ml s) /\ new_key ev s = Some key).
Proof using Type.
  intros Hs [Hu|i' e He Hp]; [left; by eapply step_used|].
  revert Hs; step_cases ev s; intros; simplify_eq/=;
    try (apply lookup_call in He as [?|?]; simplify_eq/=);
    try (match goal with H : calls _ !! _ = Some (AtLoad _) |- _ => rewrite ?H end);
    try (match goal with H : entries _ !! _ = None |- _ => rewrite ?H end);
    eauto using refers, used.
Qed.

Lemma step_params ev s s' : step ev s = Some s' -> r (ml s') = r (ml s) /\ b (ml s') = b (ml s).
Proof using Type. step_cases ev s; intros; by simplify_eq/=. Qed.

(** What a step does to the buckets: nothing, a new one, or one use of a
    bucket its key refers to. *)
Inductive bucket_effect (s s' : sys) : Prop :=
| Untouched :
    buckets (ml s') = buckets (ml s) -> fresh (ml s') = fresh (ml s) -> log s' = log s ->
    bucket_effect s s'
| Created :
    buckets (ml s') = <[fresh (ml s) := NewLimiter (r (ml s)) (b (ml s))]> (buckets (ml s)) ->
    fresh (ml s') = S (fresh (ml s)) -> log s' = log s -> bucket_effect s s'
| Charged key p now l :
    refers s key p -> buckets (ml s) !! p = Some l ->
    buckets (ml s') = <[p := (bucket_Allow now l).2]> (buckets (ml s)) ->
    fresh (ml s') = fresh (ml s) ->
    log s' = log s ++ [mkDecision key p now (bucket_Allow now l).1] -> bucket_effect s s'.

Lemma step_effect r0 b0 ev s s' : inv r0 b0 s -> step ev s = Some s' -> bucket_effect s s'.
Proof using Type.
  intros Hinv. step_cases ev s; intros; simplify_eq/=; try (by apply Untouched); try (by apply Created).
  - match goal with
    | Hc : calls _ !! _ = Some (AtAllow ?k ?q), Hb : buckets _ !! _ = Some ?l, Ha : bucket_Allow ?t _ = _ |- _ =>
        apply (Charged _ _ k q t l); rewrite ?Ha; try done; eauto using refers, used
    end.
  - match goal with H : calls _ !! _ = Some (AtAllow ?k ?p) |- _ =>
      destruct (inv_alloc _ _ _ Hinv k p) as [? ?]; [eauto using refers, used|congruence] end.
Qed.

Lemma of_bucket_app p l d :
  of_bucket p (l ++ [d]) = of_bucket p l ++ (if decide (d_bucket d = p) then [d] else []).
Proof using Type. unfold of_bucket. by rewrite filter_app, filter_cons, filter_nil. Qed.

(** A bucket that was never made has decided nothing. *)
Lemma of_bucket_fresh r0 b0 s : inv r0 b0 s -> of_bucket (fresh (ml s)) (log s) = [].
Proof using Type.
  intros Hinv. unfold of_bucket. apply elem_of_nil_inv. intros d [Hd Hin]%list_elem_of_filter.
  assert (is_Some (buckets (ml s) !! fresh (ml s))) as H%(inv_fresh _ _ _ Hinv); [|lia].
  apply (inv_alloc _ _ _ Hinv (d_key d)). eauto using refers, used.
Qed.

Lemma race_inv_step r0 b0 ev s s' : inv r0 b0 s -> step ev s = Some s' -> inv r0 b0 s'.
Proof using Type.
  intros Hinv Hs. pose proof (step_effect _ _ _ _ _ Hinv Hs) as Heff.
  destruct (step_params _ _ _ Hs) as [Hr Hb]. destruct (inv_params _ _ _ Hinv) as [Er Eb].
  assert (forall p, is_Some (buckets (ml s) !! p) -> is_Some (buckets (ml s') !! p)) as Hkeep.
  { intros p Hp. destruct Heff as [-> _ _ | -> _ _ | ??? l _ _ -> _ _]; rewrite ?lookup_insert; by try case_decide. }
  constructor; [by rewrite Hr, Hb| | | |destruct Heff as [Eb' _ El|Eb' _ El|key q now l0 Href Hl0 Eb' _ El]..];
    rewrite ?El.
  - intros key p H. destruct (step_refers _ _ _ _ _ Hs H) as [H'|[-> Hk]].
    + apply Hkeep. by eapply (inv_alloc _ _ _ Hinv).
    + revert Hs Hk. unfold new_key. step_cases ev s; intros; simplify_eq/=; by rewrite lookup_insert_eq.
  - intros p Hp. destruct Heff as [Eb' -> _|Eb' -> _|key q now l Href Hl Eb' -> _]; rewrite Eb' in Hp.
    + by apply (inv_fresh _ _ _ Hinv).
    + apply lookup_insert_is_Some' in Hp as [->|Hp%(inv_fresh _ _ _ Hinv)]; lia.
    + apply (inv_fresh _ _ _ Hinv). apply lookup_insert_is_Some' in Hp as [->|Hp]; [by rewrite Hl|done].
  - intros k1 k2 p H1%(step_refers _ _ _ _ _ Hs) H2%(step_refers _ _ _ _ _ Hs).
    assert (forall k, refers s k (fresh (ml s)) -> False) as Hf.
    { intros k Hk%(inv_alloc _ _ _ Hinv)%(inv_fresh _ _ _ Hinv). lia. }
    destruct H1 as [H1|[-> N1]], H2 as [H2|[E2 N2]]; simplify_eq; try naive_solver.
    by apply (inv_one _ _ _ Hinv _ _ p).
  - intros p l Hp. rewrite Eb' in Hp. by apply (inv_state _ _ _ Hinv).
  - intros p l Hp. rewrite Eb' in Hp. apply lookup_insert_Some in Hp as [[<- <-]|[_ Hp]].
    + by rewrite (of_bucket_fresh _ _ _ Hinv), Er, Eb.
    + by apply (inv_state _ _ _ Hinv).
  - intros p l Hp. rewrite Eb' in Hp. rewrite of_bucket_app. simpl.
    apply lookup_insert_Some in Hp as [[<- <-]|[Hne Hp]].
    + rewrite decide_True, map_app by done. simpl. rewrite bucket_after_snoc.
      by rewrite <-(inv_state _ _ _ Hinv _ _ Hl0).
    + rewrite decide_False, app_nil_r by done. by apply (inv_state _ _ _ Hinv).
  - apply (inv_log _ _ _ Hinv).
  - apply (inv_log _ _ _ Hinv).
  - intros p. rewrite of_bucket_app. simpl. case_decide; simplify_eq/=.
    + rewrite !map_app. simpl. rewrite verdicts_snoc, (inv_log _ _ _ Hinv).
      by rewrite <-(inv_state _ _ _ Hinv _ _ Hl0).
    + rewrite app_nil_r. apply (inv_log _ _ _ Hinv).
Qed.

(** What was found was found before, or is in the map now. *)
Lemma step_found ev s s' key p :
  step ev s = Some s' -> used s' key p ->
  used s key p \/ exists e, entries (ml s') !! key = Some e /\ limiter e = p.
Proof using Type.
  intros Hs Hu. destruct Hu as [e He Hp|i' e He Hp|i' He|d Hd Hk Hp]; revert Hs; step_cases ev s; intros;
    simplify_eq/=;
    try (apply lookup_call in He as [?|?]; simplify_eq/=);
    try (apply elem_of_app in Hd as [?| ->%list_elem_of_singleton]; simplify_eq/=);
    rewrite ?lookup_insert_eq; eauto using used.
Qed.

(** A spared key keeps its bucket. *)
Lemma step_keeps ev s s' key e :
  single key s -> deletes key ev s = false -> step ev s = Some s' ->
  entries (ml s) !! key = Some e ->
  exists e', entries (ml s') !! key = Some e' /\ limiter e' = limiter e.
Proof using Type.
  intros Hsingle. unfold deletes. step_cases ev s; intros; simplify_eq/=; eauto.
  - match goal with H : calls s !! _ = Some (AtStore ?k ?f) |- _ => destruct (decide (k = key)) as [->|];
      [destruct (Hsingle (limiter f)) as (e' & ? & ?); [eauto using used|]|] end; simplify_eq.
    + rewrite lookup_insert_eq. eauto.
    + rewrite lookup_insert_ne by done. eauto.
  - rewrite lookup_insert_ne by congruence. eauto.
  - rewrite lookup_delete_ne by (intros ->; by rewrite bool_decide_true in *). eauto.
Qed.

Lemma single_step ev s s' key :
  single key s -> deletes key ev s = false -> step ev s = Some s' -> single key s'.
Proof using Type.
  intros Hsingle Hdel Hs p Hp. destruct (step_found _ _ _ _ _ Hs Hp) as [Hu|]; [|done].
  destruct (Hsingle p Hu) as (e & He & <-). by eapply step_keeps.
Qed.

Lemma race_inv_exec r0 b0 evs s s' : inv r0 b0 s -> exec evs s = Some s' -> inv r0 b0 s'.
Proof using Type.
  revert s. induction evs as [|ev evs IH]; intros s Hinv; simpl; [by intros [= <-]|].
  destruct (step ev s) eqn:Hs; [|done]. apply IH. by eapply race_inv_step.
Qed.

Lemma single_exec key evs s s' :
  single key s -> spared key evs s = true -> exec evs s = Some s' -> single key s'.
Proof using Type.
  revert s. induction evs as [|ev evs IH]; intros s Hsingle; simpl; [by intros _ [= <-]|].
  intros [Hdel%negb_true_iff Hsp]%andb_true_iff. destruct (step ev s) eqn:Hs; [|done].
  apply IH; [|done]. by eapply single_step.
Qed.

Lemma race_inv_init r0 b0 ci mi : inv r0 b0 (init (NewMemoryLimiter r0 b0 ci mi)).
Proof using Type.
  assert (forall key p, refers (init (NewMemoryLimiter r0 b0 ci mi)) key p -> False) as Hno.
  { intros key p [[e He|i e He|i He|d Hd]|i e He]; simpl in *; rewrite ?lookup_empty in *; by try inversion Hd. }
  constructor; simpl; try done; try (by intros; exfalso; eauto); by intros *; rewrite lookup_empty; try intros [? ?].
Qed.

Lemma single_init key m : entries m = ∅ -> single key (init m).
Proof using Type.
  intros Hm p [e He|i e He|i He|d Hd]; simpl in *; rewrite ?Hm, ?lookup_empty in *; by try inversion Hd.
Qed.

(** All decisions of a spared key were taken by one bucket. *)
Lemma single_of_key key s p :
  (forall q, used s key q -> q = p) -> (forall k, used s k p -> k = key) ->
  of_key key (log s) = of_bucket p (log s).
Proof using Type.
  intros H1 H2. unfold of_key, of_bucket.
  assert (forall l, l ⊆ log s -> filter (fun d => d_key d = key) l = filter (fun d => d_bucket d = p) l) as H; [|by apply H].
  induction l as [|d l IH]; intros Hl; [done|]. rewrite !filter_cons, IH by set_solver.
  assert (d ∈ log s) by set_solver.
  case_decide as Ek; case_decide as Ep; try done; exfalso; eauto using used.
Qed.

(** ** Progress *)

(** The accesses a call still has to make. *)
Definition remaining (c : pc) : nat :=
  match c with AtLoad _ => 3 | AtStore _ _ | AtLoadOrStore _ _ => 2 | AtAllow _ _ => 1 | Returned _ => 0 end.

(** The next access of the call [i], at the clock reading [t]. *)
Definition next_event (i : nat) (t : Z) (c : pc) : event :=
  match c with
  | AtLoad _ => EvLoad i t
  | AtStore _ _ => EvStore i t
  | AtLoadOrStore _ _ => EvLoadOrStore i
  | _ => EvAllow i t
  end.

(** ** Cleanup and the refill of buckets *)

(** One call after the other, in the order of the clock: [slack] bounds the
    time between the two readings of one call. *)
Fixpoint ordered (key : string) (slack t : Z) (ops : list op) : Prop :=
  match ops with
  | [] => True
  | OpAllow seen now _ :: ops => t <= seen <= now /\ now - seen <= slack /\ ordered key slack now ops
  | OpCleanup clock :: ops => t <= clock key /\ ordered key slack (clock key) ops
  end.

Definition is_allow (o : op) : bool := match o with OpAllow _ _ _ => true | OpCleanup _ => false end.

(** The documented refill, as far as it matters here: a bucket that was used
    for the last time more than [horizon] ago is full again. *)
Definition full_after (r0 : R) (b0 horizon : Z) : Prop :=
  forall ts t now, Sorted Z.le (ts ++ [t]) -> t + horizon < now ->
    bucket_Allow now (bucket_after r0 b0 (ts ++ [t])) = bucket_Allow now (NewLimiter r0 b0).

Section Refill.
Context (r0 : R) (b0 mi horizon slack : Z) (key : string).
Hypothesis Hfull : full_after r0 b0 horizon.
Hypothesis Hmi : 0 <= horizon + slack <= mi.

(** An account with cleanup against one without: the same, or dropped while
    the other bucket has been idle long enough to be full. *)
Inductive agree (t : Z) : account -> account -> Prop :=
| AgreeNone : agree t None None
| AgreeSame ts u seen : Sorted Z.le (ts ++ [u]) -> u <= t -> u <= seen + slack ->
    agree t (Some (bucket_after r0 b0 (ts ++ [u]), seen)) (Some (bucket_after r0 b0 (ts ++ [u]), seen))
| AgreeDropped ts u seen : Sorted Z.le (ts ++ [u]) -> u + horizon < t -> u <= t ->
    agree t None (Some (bucket_after r0 b0 (ts ++ [u]), seen)).

Lemma agree_later t t' a a' : t <= t' -> agree t a a' -> agree t' a a'.
Proof using Type. intros ? [| |]; constructor; lia || done. Qed.

Lemma Sorted_snoc (ts : list Z) u t : Sorted Z.le (ts ++ [u]) -> u <= t -> Sorted Z.le ((ts ++ [u]) ++ [t]).
Proof using Type.
  induction ts as [|x ts IH]; simpl; intros H Hu; [repeat constructor; lia|].
  apply Sorted_inv in H as [H Hx]. constructor; [by apply IH|].
  destruct ts; simpl in *; by inversion Hx; subst; constructor.
Qed.

Lemma agree_Allow t seen now a a' :
  agree t a a' -> t <= now -> now - seen <= slack ->
  (account_Allow r0 b0 seen now a).1 = (account_Allow r0 b0 seen now a').1 /\
  agree now (account_Allow r0 b0 seen now a).2 (account_Allow r0 b0 seen now a').2.
Proof using Hfull.
  intros H Ht Hs. unfold account_Allow. destruct H as [|ts u s0 Hsort Hu Hs0|ts u s0 Hsort Hu Hs0].
  - destruct (bucket_Allow now (NewLimiter r0 b0)) as [ok l] eqn:E. split; [done|]. simpl.
    replace l with (bucket_after r0 b0 ([] ++ [now])) by (cbn; by rewrite E).
    constructor; [repeat constructor|lia..].
  - destruct (bucket_Allow now _) as [ok l] eqn:E. split; [done|]. simpl.
    replace l with (bucket_after r0 b0 ((ts ++ [u]) ++ [now])) by (by rewrite bucket_after_snoc, E).
    constructor; [apply Sorted_snoc; [done|lia]|lia..].
  - pose proof (Hfull ts u now Hsort ltac:(lia)) as Hf. rewrite Hf.
    destruct (bucket_Allow now (NewLimiter r0 b0)) as [ok l] eqn:E. split; [done|]. simpl.
    replace l with (bucket_after r0 b0 ((ts ++ [u]) ++ [now])) by (by rewrite bucket_after_snoc, Hf).
    constructor; [apply Sorted_snoc; [done|lia]|lia..].
Qed.

Lemma agree_cleanup t now a a' :
  agree t a a' -> t <= now -> agree now (account_cleanup mi now a) a'.
Proof using Hmi.
  intros H Ht. destruct H as [|ts u s0 Hsort Hu Hs0|ts u s0 Hsort Hu Hs0]; simpl.
  - constructor.
  - destruct (mi <? Since now s0) eqn:E; [|constructor; lia || done].
    apply Z.ltb_lt in E. unfold Since, MinInt, MaxInt, two63 in E. apply AgreeDropped; lia || done.
  - constructor; lia || done.
Qed.

Lemma run_account_cleanup t ops a a' :
  ordered key slack t ops -> agree t a a' ->
  run_account r0 b0 mi key ops a = run_account r0 b0 mi key (filter is_allow ops) a'.
Proof using Hfull Hmi.
  revert t a a'. induction ops as [|[seen now k|clock] ops IH]; intros t a a'; [done|..];
    rewrite filter_cons; simpl.
  - intros (Ht & Hs & Hord) H. case_decide.
    + destruct (agree_Allow t seen now a a' H ltac:(lia) Hs) as [E Hag].
      destruct (account_Allow r0 b0 seen now a), (account_Allow r0 b0 seen now a'). simpl in *. subst.
      f_equal. by apply (IH now).
    + apply (IH now); [done|]. apply (agree_later t); [lia|done].
  - intros (Ht & Hord) H. apply (IH (clock key)); [done|]. by apply (agree_cleanup t).
Qed.
End Refill.
End Model.
Arguments sys : clear implicits.

(** C28. Linearisability per bucket and isolation of keys, in every
    interleaving of calls of [Allow] with the sweeps of [cleanup]: the verdicts
    of each bucket are those of one new bucket used by the same calls one after
    the other, and all of them concern one key. No client spends the tokens of
    another, whatever the schedule. *)
Theorem racing_calls_isolate_keys {R L : Type} `{!TokenBucket R L}
    (r0 : R) (b0 ci mi : Z) (evs : list event) (s : sys R L)
    (Hrun : exec evs (init (NewMemoryLimiter r0 b0 ci mi)) = Some s) :
  (forall p, map d_ok (of_bucket p (log s)) = verdicts r0 b0 (map d_now (of_bucket p (log s)))) /\
  (forall d d', d ∈ log s -> d' ∈ log s -> d_bucket d = d_bucket d' -> d_key d = d_key d').
Proof.
  pose proof (race_inv_exec _ _ _ _ _ (race_inv_init r0 b0 ci mi) Hrun) as Hinv. split; [apply (inv_log _ _ _ Hinv)|].
  intros d d' Hd Hd' E. apply (inv_one _ _ _ Hinv _ _ (d_bucket d)); eauto using refers, used.
Qed.

(** C27. While no sweep deletes a key, racing calls for it behave like calls
    one after the other on one bucket: first requests that race to create the
    bucket, and the unsynchronised [Load]/[Store] of the fast path, never give
    the key a second allowance. *)
Theorem racing_calls_share_bucket {R L : Type} `{!TokenBucket R L}
    (r0 : R) (b0 ci mi : Z) (key : string) (evs : list event) (s : sys R L)
    (Hrun : exec evs (init (NewMemoryLimiter r0 b0 ci mi)) = Some s)
    (Hspared : spared key evs (init (NewMemoryLimiter r0 b0 ci mi)) = true) :
  map d_ok (of_key key (log s)) = verdicts r0 b0 (map d_now (of_key key (log s))).
Proof.
  pose proof (race_inv_exec _ _ _ _ _ (race_inv_init r0 b0 ci mi) Hrun) as Hinv.
  pose proof (single_exec key _ _ _ (single_init key (NewMemoryLimiter r0 b0 ci mi) eq_refl) Hspared Hrun) as Hsingle.
  destruct (entries (ml s) !! key) as [e|] eqn:He.
  - rewrite (single_of_key key s (limiter e)).
    + apply (inv_log _ _ _ Hinv).
    + intros q (e' & ? & <-)%Hsingle. congruence.
    + intros k Hk. apply (inv_one _ _ _ Hinv _ _ (limiter e)); eauto using refers, used.
  - replace (of_key key (log s)) with (@nil decision); [done|]. symmetry.
    apply elem_of_nil_inv. intros d [Hd Hin]%list_elem_of_filter.
    destruct (Hsingle (d_bucket d)) as (? & ? & _); [eauto using used|congruence].
Qed.

(** Wait freedom: a call of [Allow] makes at most three accesses; the next
    one is possible in every state and brings it closer to its return, and no
    step of another call or of a sweep moves it. *)
Theorem allow_is_wait_free {R L : Type} `{!TokenBucket R L} (s : sys R L) (i : nat) (c : pc)
    (Hc : calls s !! i = Some c) :
  (remaining c = 0%nat <-> exists ok, c = Returned ok) /\ (remaining c <= 3)%nat /\
  (remaining c ≠ 0%nat -> forall t, exists s' c', step (next_event i t c) s = Some s' /\
     calls s' !! i = Some c' /\ S (remaining c') = remaining c) /\
  (forall ev s', step ev s = Some s' -> (forall t, ev ≠ next_event i t c) -> calls s' !! i = Some c).
Proof.
  split_and!.
  - destruct c; simpl; naive_solver.
  - destruct c; simpl; lia.
  - intros Hr t. destruct c as [key|key e|key e|key p|ok]; cbn [step next_event call_step]; rewrite Hc;
      unfold LoadOrStore, alloc, allow_at; try done; repeat case_match; simplify_eq/=;
      eexists _, _; (split; [done|]); cbn; rewrite lookup_insert_eq; done.
  - intros ev s' Hs Hne.
    destruct ev; cbn [step call_step cleanup_step] in Hs; repeat case_match; simplify_eq/=; try done;
      rewrite lookup_insert_ne; try done; intros ->;
      (congruence || (rewrite Hc in *; simplify_eq; first [by apply (Hne 0)|by eapply Hne])).
Qed.

(** C29. Among calls and sweeps that come one after the other, none racing with
    another, and whose clock readings are in that order, [cleanup] frees memory
    without changing a decision, as long as a bucket refills within the time a key
    must be idle: when a bucket unused for [horizon] is full, and [horizon] plus
    the time between the clock readings of a call is at most [cleanup_max_idle],
    every request gets the verdict it would get without any sweep. A sweep that
    races with a call is [cleanup_race_exceeds_burst]. *)
Theorem idle_cleanup_unobservable {R L : Type} `{!TokenBucket R L}
    (r0 : R) (b0 ci mi horizon slack t : Z) (key : string) (ops : list op)
    (Hfull : full_after r0 b0 horizon) (Hmi : 0 <= horizon + slack <= mi)
    (Hord : ordered key slack t ops) :
  decisions key (run ops (NewMemoryLimiter r0 b0 ci mi)).1 =
  decisions key (run (filter is_allow ops) (NewMemoryLimiter r0 b0 ci mi)).1.
Proof.
  rewrite !(limiter_run_refines key _ (NewMemoryLimiter r0 b0 ci mi)) by apply limiter_wf_new.
  apply (run_account_cleanup r0 b0 mi horizon slack key Hfull Hmi t); [done|constructor].
Qed.

(** ** A bucket to run the limiter with

    One token every [every] nanoseconds, at most [burst] of them; the level is
    counted in nanoseconds of credit. *)
Record reservoir := mkReservoir { every : Z; burst : Z; level : Z; last : Z }.

Definition credit (now : Z) (v : reservoir) : Z :=
  Z.min (burst v * every v) (level v + Z.max 0 (now - last v)).

#[local] Instance reservoir_bucket : TokenBucket Z reservoir := {
  NewLimiter e b := mkReservoir e b (b * e) 0;
  bucket_Allow now v :=
    let c := credit now v in
    if every v <=? c then (true, mkReservoir (every v) (burst v) (c - every v) now)
    else (false, mkReservoir (every v) (burst v) c now);
}.

Lemma reservoir_after (e b0 : Z) (ts : list Z) :
  0 < e -> 0 <= b0 ->
  let v := bucket_after e b0 ts in every v = e /\ burst v = b0 /\ 0 <= level v.
Proof.
  intros He Hb. induction ts as [|t ts IH] using rev_ind; [cbn; split_and!; [done..|nia]|].
  cbv zeta in *. rewrite bucket_after_snoc. destruct IH as (E1 & E2 & Hl). cbn. unfold credit.
  destruct (Z.leb_spec (every (bucket_after e b0 ts))
    (Z.min (burst (bucket_after e b0 ts) * every (bucket_after e b0 ts))
       (level (bucket_after e b0 ts) + Z.max 0 (t - last (bucket_after e b0 ts))))); cbn; split_and!; nia || done.
Qed.

Lemma reservoir_full (e b0 : Z) : 0 < e -> 0 <= b0 -> full_after e b0 (b0 * e).
Proof.
  intros He Hb ts t now _ Ht. destruct (reservoir_after e b0 (ts ++ [t]) He Hb) as (E1 & E2 & Hl).
  assert (last (bucket_after e b0 (ts ++ [t])) = t) as El.
  { rewrite bucket_after_snoc. cbn. by case_match. }
  destruct (bucket_after e b0 (ts ++ [t])) as [e' b' lv la]. simpl in *. subst.
  unfold credit. simpl. rewrite !Z.min_l by lia. done.
Qed.

(** ** A sweep that races with a request

    The key was idle, so the sweep decides to delete it; before the deletion a
    request refreshes the entry and spends its token; the deletion then drops
    the refreshed entry and the next request finds a full bucket. *)
Definition idle : Z := 3 * Minute.
Definition later : Z := idle + 1.

Definition race : list event :=
  [EvCall 0 "ip"; EvLoad 0 0; EvLoadOrStore 0; EvAllow 0 0;
   EvRange; EvVisit "ip"; EvTest later;
   EvCall 1 "ip"; EvLoad 1 later; EvStore 1 later; EvAllow 1 later;
   EvDelete;
   EvCall 2 "ip"; EvLoad 2 later; EvLoadOrStore 2; EvAllow 2 later].

(** The same three requests and the sweep, one after the other. *)
Definition sequential : list (list op) :=
  map (cons (OpAllow 0 0 "ip"))
    (permutations [OpCleanup (fun _ => later); OpAllow later later "ip"; OpAllow later later "ip"]).

Definition admitted (l : list (result bool)) : nat :=
  length (List.filter (fun v => match v with Ok ok => ok | Err _ => false end) l).

(** A sweep that races with calls can defeat the limit: an example with the
    reservoir above in place of [rate.Limiter]. With a burst of one and one token per
    second, the schedule [race] admits two requests of one client in the same
    instant, three in all; in no sequential order of the same requests and
    sweep are more than two admitted: [Allow] and [cleanup] together are not
    linearisable, since [cleanup] deletes by key an entry it examined before. *)
Theorem cleanup_race_exceeds_burst :
  (exists s, exec race (init (NewMemoryLimiter Second 1 Minute idle)) = Some s /\
     map (fun d => (d_now d, d_ok d)) (of_key "ip" (log s)) = [(0, true); (later, true); (later, true)]) /\
  Forall (fun ops => (admitted (decisions "ip" (run ops (NewMemoryLimiter Second 1 Minute idle)).1) <= 2)%nat)
    sequential.
Proof.
  split.
  - eexists. split; [vm_compute; reflexivity|vm_compute; reflexivity].
  - refine (bool_decide_unpack _ _). vm_compute. exact I.
Qed.

(** With one token per hour, a client that waits for the sweep after three
    minutes gets a new bucket each time. *)
Example sparse_limit_is_reset :
  let ops := [OpAllow 0 0 "ip"; OpCleanup (fun _ => later); OpAllow later later "ip"] in
  decisions "ip" (run ops (NewMemoryLimiter Hour 1 Minute idle)).1 = [Ok true; Ok true] /\
  decisions "ip" (run (filter is_allow ops) (NewMemoryLimiter Hour 1 Minute idle)).1 = [Ok true; Ok false].
Proof. vm_compute. done. Qed.

(** ** Witnesses *)

(** Two first requests of one client race with one of another. *)
Definition first_requests : list event :=
  [EvCall 0 "a"; EvCall 1 "a"; EvCall 2 "b"; EvLoad 0 5; EvLoad 1 6; EvLoadOrStore 1; EvLoad 2 7;
   EvLoadOrStore 0; EvAllow 0 8; EvLoadOrStore 2; EvAllow 2 9; EvAllow 1 9].

Definition after_first_requests : option (sys Z reservoir) :=
  exec first_requests (init (NewMemoryLimiter Second 1 Minute idle)).

Lemma after_first_requests_runs : is_Some after_first_requests.
Proof. vm_compute. eauto. Qed.

Lemma racing_calls_isolate_keys_witness :
  exists s, after_first_requests = Some s /\ length (log s) = 3%nat /\
  map d_ok (of_bucket 1 (log s)) = verdicts Second 1 (map d_now (of_bucket 1 (log s))).
Proof.
  destruct after_first_requests as [s|] eqn:E; [|by destruct (after_first_requests_runs); congruence].
  exists s. split; [done|]. split; [by revert E; vm_compute; intros [= <-]|].
  exact (proj1 (racing_calls_isolate_keys Second 1 Minute idle first_requests s E) 1%nat).
Defined.

Lemma racing_calls_share_bucket_witness :
  exists s, after_first_requests = Some s /\ map d_ok (of_key "a" (log s)) = [true; false] /\
  map d_ok (of_key "a" (log s)) = verdicts Second 1 (map d_now (of_key "a" (log s))).
Proof.
  destruct after_first_requests as [s|] eqn:E; [|by destruct (after_first_requests_runs); congruence].
  exists s. split; [done|]. split; [by revert E; vm_compute; intros [= <-]|].
  refine (racing_calls_share_bucket Second 1 Minute idle "a" first_requests s E _). vm_compute. reflexivity.
Defined.

Lemma allow_is_wait_free_witness :
  exists s' c', step (EvLoad 0 7) (mkSys (NewMemoryLimiter Second 1 Minute idle) {[0%nat := AtLoad "a"]} Ranging ∅ []) =
    Some s' /\ calls s' !! 0%nat = Some c' /\ S (remaining c') = 3%nat.
Proof.
  exact (proj1 (proj2 (proj2 (allow_is_wait_free
    (mkSys (NewMemoryLimiter Second 1 Minute idle) {[0%nat := AtLoad "a"]} Ranging ∅ []) 0 (AtLoad "a") eq_refl)))
    ltac:(discriminate) 7).
Defined.

Definition three_visits : list op :=
  [OpAllow 0 0 "ip"; OpCleanup (fun _ => later); OpAllow later later "ip"; OpAllow later later "ip"].

Lemma idle_cleanup_unobservable_witness :
  decisions "ip" (run three_visits (NewMemoryLimiter Second 1 Minute idle)).1 =
  decisions "ip" (run (filter is_allow three_visits) (NewMemoryLimiter Second 1 Minute idle)).1.
Proof.
  apply (idle_cleanup_unobservable Second 1 Minute idle (1 * Second) 0 0 "ip" three_visits).
  - apply reservoir_full; unfold Second; lia.
  - unfold idle, Minute, Second. lia.
  - unfold three_visits, later, idle, Minute, Second. simpl. lia.
Defined.

End LimiterRace.
