(* ===== verification/GoStrings.v ===== *)
(** * The parts of Go's [strings] and [strconv] the gateway uses

    A Go string is a sequence of bytes, modelled by [string] (whose characters
    are bytes). Functions that consult the Unicode tables beyond ASCII take them
    from the class [Unicode]; white space outside ASCII is recognised by its
    UTF-8 encodings. *)

From Stdlib Require Import Ascii.
From stdpp Require Import pretty.
From S2P Require Import Prelude.
Open Scope Z_scope.

(** ** Bytes *)

Definition code (c : ascii) : Z := Z.of_N (N_of_ascii c).
Definition byte (z : Z) : ascii := ascii_of_N (Z.to_N z).

Lemma code_range c : 0 <= code c < 256.
Proof. unfold code. pose proof (N_ascii_bounded c). lia. Qed.

Lemma byte_code c : byte (code c) = c.
Proof. unfold byte, code. rewrite N2Z.id. apply ascii_N_embedding. Qed.

Lemma code_byte z : 0 <= z < 256 -> code (byte z) = z.
Proof. intros. unfold byte, code. rewrite N_ascii_embedding; lia. Qed.

Definition is_upper (c : ascii) : bool := (65 <=? code c) && (code c <=? 90).
Definition is_lower (c : ascii) : bool := (97 <=? code c) && (code c <=? 122).
Definition is_digit (c : ascii) : bool := (48 <=? code c) && (code c <=? 57).
Definition lower_byte (c : ascii) : ascii := if is_upper c then byte (code c + 32) else c.
Definition upper_byte (c : ascii) : ascii := if is_lower c then byte (code c - 32) else c.

Fixpoint map_bytes (f : ascii -> ascii) (s : string) : string :=
  match s with
  | EmptyString => EmptyString
  | String c s => String (f c) (map_bytes f s)
  end.

Fixpoint all_bytes (p : ascii -> bool) (s : string) : bool :=
  match s with
  | EmptyString => true
  | String c s => p c && all_bytes p s
  end.

Fixpoint rev_onto (s acc : string) : string :=
  match s with
  | EmptyString => acc
  | String c s => rev_onto s (String c acc)
  end.

Definition reverse (s : string) : string := rev_onto s EmptyString.

(** ** Unicode *)

(** [strings.Map(unicode.ToLower, s)] for strings with bytes outside ASCII. *)
Class Unicode := { unicode_lower : string -> string }.

(** The restriction to ASCII, for evaluation. *)
#[export] Instance ascii_unicode : Unicode | 100 := {| unicode_lower := map_bytes lower_byte |}.

Definition is_ascii (s : string) : bool := all_bytes (fun c => code c <? 128) s.

Definition ToLower `{!Unicode} (s : string) : string :=
  if is_ascii s then map_bytes lower_byte s else unicode_lower s.

(** [strings.EqualFold(s, t)] for an ASCII [t] without the letters k and s, the
    only ones that fold to characters outside ASCII. *)
Definition EqualFold (s t : string) : bool :=
  bool_decide (map_bytes lower_byte s = map_bytes lower_byte t).

(** ** White space *)

Definition space1 (c : ascii) : bool := ((9 <=? code c) && (code c <=? 13)) || (code c =? 32).

(** U+0085 and U+00A0 *)
Definition space2 (c1 c2 : ascii) : bool :=
  (code c1 =? 194) && ((code c2 =? 133) || (code c2 =? 160)).

(** U+1680, U+2000 to U+200A, U+2028, U+2029, U+202F, U+205F, U+3000 *)
Definition space3 (c1 c2 c3 : ascii) : bool :=
  ((code c1 =? 225) && (code c2 =? 154) && (code c3 =? 128)) ||
  ((code c1 =? 226) && (code c2 =? 128) &&
     (((128 <=? code c3) && (code c3 <=? 138)) || (code c3 =? 168) || (code c3 =? 169) || (code c3 =? 175))) ||
  ((code c1 =? 226) && (code c2 =? 129) && (code c3 =? 159)) ||
  ((code c1 =? 227) && (code c2 =? 128) && (code c3 =? 128)).

Fixpoint trim_left (s : string) : string :=
  match s with
  | EmptyString => EmptyString
  | String c1 s1 =>
      if space1 c1 then trim_left s1 else
      match s1 with
      | EmptyString => s
      | String c2 s2 =>
          if space2 c1 c2 then trim_left s2 else
          match s2 with
          | EmptyString => s
          | String c3 s3 => if space3 c1 c2 c3 then trim_left s3 else s
          end
      end
  end.

(** The same on a reversed string: the bytes of a character come last first. *)
Fixpoint trim_left_rev (s : string) : string :=
  match s with
  | EmptyString => EmptyString
  | String c1 s1 =>
      if space1 c1 then trim_left_rev s1 else
      match s1 with
      | EmptyString => s
      | String c2 s2 =>
          if space2 c2 c1 then trim_left_rev s2 else
          match s2 with
          | EmptyString => s
          | String c3 s3 => if space3 c3 c2 c1 then trim_left_rev s3 else s
          end
      end
  end.

Definition TrimSpace (s : string) : string := reverse (trim_left_rev (reverse (trim_left s))).

(** ** Searching *)

(** [strings.SplitSeq(s, sep)] for a one-byte separator. *)
Fixpoint Split (sep : ascii) (s : string) : list string :=
  match s with
  | EmptyString => [EmptyString]
  | String c s' =>
      if decide (c = sep) then EmptyString :: Split sep s'
      else match Split sep s' with
           | [] => [String c EmptyString]
           | p :: ps => String c p :: ps
           end
  end.

(** [strings.Cut(s, sep)] for a one-byte separator: before, after, found. *)
Fixpoint Cut (sep : ascii) (s : string) : string * string * bool :=
  match s with
  | EmptyString => (EmptyString, EmptyString, false)
  | String c s' =>
      if decide (c = sep) then (EmptyString, s', true)
      else let '(b, a, f) := Cut sep s' in (String c b, a, f)
  end.

Fixpoint CutPrefix (s prefix : string) {struct prefix} : option string :=
  match prefix, s with
  | EmptyString, _ => Some s
  | String c p, String c' s' => if decide (c = c') then CutPrefix s' p else None
  | String _ _, EmptyString => None
  end.

Definition HasPrefix (s prefix : string) : bool := bool_decide (is_Some (CutPrefix s prefix)).

Definition TrimPrefix (s prefix : string) : string := default s (CutPrefix s prefix).

Fixpoint Join (sep : string) (l : list string) : string :=
  match l with
  | [] => EmptyString
  | [x] => x
  | x :: l => x +:+ sep +:+ Join sep l
  end.

(** ** Numbers *)

Fixpoint digits (acc : Z) (s : string) : option Z :=
  match s with
  | EmptyString => Some acc
  | String c s => if is_digit c then digits (acc * 10 + (code c - 48)) s else None
  end.

Definition unsigned_digits (s : string) : option Z :=
  match s with EmptyString => None | _ => digits 0 s end.

(** [strconv.Itoa] *)
Definition Itoa (n : Z) : string := pretty n.

(** [strconv.Atoi]: an optional sign and decimal digits, within [int]. *)
Definition Atoi (s : string) : result Z :=
  let v := match s with
           | String c s' =>
               if code c =? 45 then Z.opp <$> unsigned_digits s'
               else if code c =? 43 then unsigned_digits s'
               else unsigned_digits s
           | EmptyString => None
           end in
  match v with
  | None => Err "invalid syntax"
  | Some z => if (MinInt <=? z) && (z <=? MaxInt) then Ok z else Err "value out of range"
  end.

Definition hex_digit (z : Z) : ascii := if z <? 10 then byte (48 + z) else byte (87 + z).

(** Two lower-case hexadecimal digits per byte ([hex.EncodeToString], [%x]). *)
Fixpoint hex (s : string) : string :=
  match s with
  | EmptyString => EmptyString
  | String c s => String (hex_digit (code c / 16)) (String (hex_digit (code c mod 16)) (hex s))
  end.

(** A double quote. *)
Definition dquote : ascii := byte 34.
Definition quoted (s : string) : string := String dquote (s +:+ String dquote EmptyString).

(** [strconv.Quote], the [%q] of [fmt]: bytes from 128 on are copied, as the
    printable characters they encode. *)
Definition quote_byte (c : ascii) : string :=
  let esc (s : string) := String (byte 92) s in
  if (code c =? 34) || (code c =? 92) then esc (String c EmptyString)
  else if code c =? 7 then esc "a" else if code c =? 8 then esc "b" else if code c =? 12 then esc "f"
  else if code c =? 10 then esc "n" else if code c =? 13 then esc "r" else if code c =? 9 then esc "t"
  else if code c =? 11 then esc "v"
  else if (code c <? 32) || (code c =? 127) then esc ("x" +:+ hex (String c EmptyString))
  else String c EmptyString.

Fixpoint quote_bytes (s : string) : string :=
  match s with EmptyString => EmptyString | String c s => quote_byte c +:+ quote_bytes s end.

Definition Quote (s : string) : string := quoted (quote_bytes s).

(** ** Laws *)

Lemma append_cons c s t : String c s +:+ t = String c (s +:+ t).
Proof. done. Qed.

Lemma append_nil_l s : EmptyString +:+ s = s.
Proof. done. Qed.

Lemma append_nil_r s : s +:+ EmptyString = s.
Proof. induction s; rewrite ?append_nil_l, ?append_cons; congruence. Qed.

Lemma append_assoc s t u : (s +:+ t) +:+ u = s +:+ t +:+ u.
Proof. induction s; rewrite ?append_nil_l, ?append_cons; congruence. Qed.

Lemma length_append s t : String.length (s +:+ t) = (String.length s + String.length t)%nat.
Proof. induction s; rewrite ?append_nil_l, ?append_cons; simpl; congruence. Qed.

Lemma all_bytes_app p s t : all_bytes p (s +:+ t) = all_bytes p s && all_bytes p t.
Proof. induction s as [|c s IH]; [done|]. rewrite append_cons. simpl. by rewrite IH, andb_assoc. Qed.

Lemma CutPrefix_spec s p t : CutPrefix s p = Some t <-> s = p +:+ t.
Proof.
  revert s. induction p as [|c p IH]; intros s; simpl.
  - rewrite append_nil_l. split; [by intros [= ->]|by intros ->].
  - destruct s as [|c' s]; [done|]. rewrite append_cons. case_decide; subst.
    + rewrite IH. split; congruence.
    + split; congruence.
Qed.

Lemma HasPrefix_spec s p : HasPrefix s p = true <-> exists t, s = p +:+ t.
Proof.
  unfold HasPrefix. rewrite bool_decide_eq_true. split.
  - intros [t Ht%CutPrefix_spec]. eauto.
  - intros [t Ht%CutPrefix_spec]. eauto.
Qed.

#[export] Hint Rewrite append_nil_l append_nil_r append_assoc : gw.

(** ** Strings without a byte *)

Definition without (c : ascii) (s : string) : bool := all_bytes (fun x => negb (bool_decide (x = c))) s.

Lemma without_app c s t : without c (s +:+ t) = without c s && without c t.
Proof. apply all_bytes_app. Qed.

(** The end of a text, or a text that goes on with [c]. *)
Definition stops (c : ascii) (s : string) : Prop := s = EmptyString \/ exists t, s = String c t.

(** A part without [c] can be told from what follows. *)
Lemma cut_at c s1 s2 t1 t2 :
  without c s1 = true -> without c s2 = true -> stops c t1 -> stops c t2 ->
  s1 +:+ t1 = s2 +:+ t2 -> s1 = s2 /\ t1 = t2.
Proof.
  revert s2. induction s1 as [|a s1 IH]; intros [|b s2] H1 H2 T1 T2 E;
    rewrite ?append_nil_l, ?append_cons in E; simpl in H1, H2; unfold without in *; simpl in *; bool2prop.
  - done.
  - destruct T1 as [->|[t ->]]; [done|]. injection E as <- _. done.
  - destruct T2 as [->|[t ->]]; [done|]. injection E as -> _. done.
  - injection E as <- E. destruct (IH s2) as [-> ->]; try done.
Qed.

Lemma stops_cons c t : stops c (String c t).
Proof. right. eauto. Qed.

Lemma cut_char c s1 s2 t1 t2 :
  without c s1 = true -> without c s2 = true ->
  s1 +:+ String c t1 = s2 +:+ String c t2 -> s1 = s2 /\ t1 = t2.
Proof.
  intros H1 H2 E. destruct (cut_at c s1 s2 (String c t1) (String c t2)) as [-> [= ->]]; auto using stops_cons.
Qed.


(** Splitting at a byte that does not occur, and at its first occurrence. *)
Lemma Split_plain sep s : all_bytes (fun c => negb (bool_decide (c = sep))) s = true -> Split sep s = [s].
Proof. induction s as [|c s IH]; simpl; [done|]. intros H. bool2prop. by rewrite decide_False, IH. Qed.

Lemma Split_first sep s t :
  all_bytes (fun c => negb (bool_decide (c = sep))) s = true -> Split sep (s +:+ String sep t) = s :: Split sep t.
Proof.
  induction s as [|c s IH]; intros H; [rewrite append_nil_l; simpl; by rewrite decide_True|].
  rewrite append_cons. simpl in *. bool2prop. by rewrite decide_False, IH.
Qed.

(** ** Decimal numbers *)

Lemma pretty_char_digit x : (x < 10)%N -> is_digit (pretty_N_char x) = true /\ code (pretty_N_char x) - 48 = Z.of_N x.
Proof.
  intros H. assert (x = 0 \/ x = 1 \/ x = 2 \/ x = 3 \/ x = 4 \/ x = 5 \/ x = 6 \/ x = 7 \/ x = 8 \/ x = 9)%N as Hx by lia.
  repeat (destruct Hx as [->|Hx]; [done|]). by subst.
Qed.

(** The printed digits read back, whatever digits follow. *)
Lemma digits_pretty x t : (0 < x)%N -> digits 0 (pretty_N_go x t) = digits (Z.of_N x) t.
Proof.
  revert t. induction (N.lt_wf_0 x) as [x _ IH]; intros t Hx. rewrite pretty_N_go_step by done.
  pose proof (N.mod_lt x 10 ltac:(done)) as Hm. destruct (pretty_char_digit _ Hm) as [Hd Hc].
  pose proof (N.div_mod x 10 ltac:(done)) as Hdm.
  destruct (decide (x `div` 10 = 0)%N) as [E|E].
  - rewrite E, pretty_N_go_0. simpl. rewrite Hd, Hc. f_equal. lia.
  - rewrite IH by (try apply N.div_lt; lia). simpl. rewrite Hd, Hc. f_equal. lia.
Qed.

Lemma pretty_head x t : (0 < x)%N -> exists c d, pretty_N_go x t = String c d /\ is_digit c = true /\ code c ≠ 48 /\
  (all_bytes is_digit t = true -> all_bytes is_digit d = true).
Proof.
  revert t. induction (N.lt_wf_0 x) as [x _ IH]; intros t Hx. rewrite pretty_N_go_step by done.
  pose proof (N.mod_lt x 10 ltac:(done)) as Hm. destruct (pretty_char_digit _ Hm) as [Hd Hc].
  pose proof (N.div_mod x 10 ltac:(done)) as Hdm.
  destruct (decide (x `div` 10 = 0)%N) as [E|E].
  - rewrite E, pretty_N_go_0. eexists _, _. split_and!; [done|done| |done]. lia.
  - destruct (IH (x `div` 10)%N (N.div_lt x 10 Hx eq_refl) (String (pretty_N_char (x `mod` 10)) t)) as (c & d & -> & H1 & H2 & H3);
      [lia|].
    exists c, d. split_and!; try done. intros Ht. apply H3. simpl. by rewrite Hd, Ht.
Qed.

Lemma Itoa_pos p : Itoa (Zpos p) = pretty_N_go (Npos p) EmptyString.
Proof. done. Qed.

Lemma Itoa_neg p : Itoa (Zneg p) = String (byte 45) (pretty_N_go (Npos p) EmptyString).
Proof. done. Qed.

Lemma unsigned_digits_pretty p : unsigned_digits (pretty_N_go (Npos p) EmptyString) = Some (Zpos p).
Proof.
  pose proof (digits_pretty (Npos p) EmptyString eq_refl) as H. unfold unsigned_digits.
  destruct (pretty_head (Npos p) EmptyString) as (c & d & E & _); [done|]. by rewrite E in *.
Qed.

(** Reading a printed integer gives it back. *)
Lemma Atoi_Itoa n : MinInt <= n <= MaxInt -> Atoi (Itoa n) = Ok n.
Proof.
  intros Hn. assert (forall v, v = Some n -> match v with None => Err "invalid syntax"
    | Some z => if (MinInt <=? z) && (z <=? MaxInt) then Ok z else Err "value out of range" end = Ok n) as Hok.
  { intros v ->. by rewrite (proj2 (Z.leb_le _ _)), (proj2 (Z.leb_le _ _)) by lia. }
  destruct n as [|p|p]; [done|rewrite Itoa_pos|rewrite Itoa_neg]; unfold Atoi; apply Hok;
    pose proof (unsigned_digits_pretty p) as Hu; [|simpl; by rewrite Hu].
  destruct (pretty_head (Npos p) EmptyString) as (c & d & E & Hd & _); [done|]. rewrite E in *.
  unfold is_digit in Hd. apply andb_true_iff in Hd as [H1%Z.leb_le H2%Z.leb_le].
  by rewrite (proj2 (Z.eqb_neq (code c) 45)), (proj2 (Z.eqb_neq (code c) 43)) by lia.
Qed.
