(* ===== verification/Http.v ===== *)
(** * HTTP: headers, requests, response writers, handlers

    The parts of Go's [net/http], [context] and [encoding/json] the gateway is
    written against. A response writer is any type of the class
    [ResponseWriter], the Go interface; wrappers such as the compressing or the
    logging writer are further instances of it. A handler works with every
    writer; the objects it shares with other requests (cache, limiter, breakers)
    live in a state [S] that is passed along. *)

From Stdlib Require Import Ascii.
From S2P Require Import Prelude GoStrings.
Open Scope Z_scope.

Module Http.

(** ** Status codes *)

Definition StatusOK : Z := 200.
Definition StatusNotModified : Z := 304.
Definition StatusUnauthorized : Z := 401.
Definition StatusForbidden : Z := 403.
Definition StatusNotFound : Z := 404.
Definition StatusMethodNotAllowed : Z := 405.
Definition StatusRequestEntityTooLarge : Z := 413.
Definition StatusTooManyRequests : Z := 429.
Definition StatusInternalServerError : Z := 500.
Definition StatusBadGateway : Z := 502.
Definition StatusServiceUnavailable : Z := 503.
Definition StatusGatewayTimeout : Z := 504.

(** [http.StatusText], the server errors: the only statuses the gateway asks it for. *)
Definition StatusText (code : Z) : string :=
  if code =? 500 then "Internal Server Error" else if code =? 501 then "Not Implemented"
  else if code =? 502 then "Bad Gateway" else if code =? 503 then "Service Unavailable"
  else if code =? 504 then "Gateway Timeout" else if code =? 505 then "HTTP Version Not Supported"
  else if code =? 506 then "Variant Also Negotiates" else if code =? 507 then "Insufficient Storage"
  else if code =? 508 then "Loop Detected" else if code =? 510 then "Not Extended"
  else if code =? 511 then "Network Authentication Required" else EmptyString.

(** ** Headers *)

(** [http.Header]: canonical names to values. *)
Notation Header := (gmap string (list string)).

(** The token characters of RFC 9110. *)
Definition valid_field_byte (c : ascii) : bool :=
  is_upper c || is_lower c || is_digit c ||
  existsb (fun z => code c =? z) [33; 35; 36; 37; 38; 39; 42; 43; 45; 46; 94; 95; 96; 124; 126].

Fixpoint canon (upper : bool) (s : string) : string :=
  match s with
  | EmptyString => EmptyString
  | String c s =>
      String (if upper then upper_byte c else lower_byte c) (canon (code c =? 45) s)
  end.

(** [http.CanonicalHeaderKey] *)
Definition CanonicalHeaderKey (s : string) : string :=
  if all_bytes valid_field_byte s then canon true s else s.

Definition Values (h : Header) (k : string) : list string := default [] (h !! CanonicalHeaderKey k).

Definition Get (h : Header) (k : string) : string :=
  match Values h k with v :: _ => v | [] => EmptyString end.

Definition Set_ (k v : string) (h : Header) : Header := <[CanonicalHeaderKey k := [v]]> h.

Definition Add (k v : string) (h : Header) : Header :=
  <[CanonicalHeaderKey k := Values h k ++ [v]]> h.

Definition Del (k : string) (h : Header) : Header := delete (CanonicalHeaderKey k) h.

(** ** Requests *)

(** The authenticated identity ([middleware.Claims]). *)
Record Claims := mkClaims { Subject : string; Roles : list string }.

(** The values the gateway stores in a request's context: request identifier,
    identity, chosen upstream, and the trace span OpenTelemetry keeps there.
    Every key has a private type of its own, so they never collide. *)
Record Context := mkContext {
  ctx_requestID : option string;
  ctx_claims : option Claims;
  ctx_target : option string;
  ctx_span : option string;
}.

Definition Background : Context := mkContext None None None None.

(** A request body: the bytes the client sends and the limits
    [http.MaxBytesReader] has put on reading them. *)
Record RequestBody := mkBody { data : string; limit : option Z }.

Definition MaxBytesReader (b : RequestBody) (n : Z) : RequestBody :=
  let n := Z.max 0 n in
  mkBody (data b) (Some (match limit b with Some m => Z.min m n | None => n end)).

Inductive body_result := Whole (s : string) | TooLarge (n : Z).

(** Reading the body to its end: a [MaxBytesError] past the limit. *)
Definition ReadAll (b : RequestBody) : body_result :=
  match limit b with
  | Some n => if n <? Z.of_nat (String.length (data b)) then TooLarge n else Whole (data b)
  | None => Whole (data b)
  end.

Record Request := mkRequest {
  Method : string;
  Path : string;
  RawQuery : string;
  header : Header;
  ContentLength : Z;
  Body : RequestBody;
  Host : string;
  RemoteAddr : string;
  ctx : Context;
}.

Definition WithContext (c : Context) (r : Request) : Request :=
  mkRequest (Method r) (Path r) (RawQuery r) (header r) (ContentLength r) (Body r) (Host r) (RemoteAddr r) c.

Definition WithBody (b : RequestBody) (r : Request) : Request :=
  mkRequest (Method r) (Path r) (RawQuery r) (header r) (ContentLength r) b (Host r) (RemoteAddr r) (ctx r).

Definition WithPath (p : string) (r : Request) : Request :=
  mkRequest (Method r) p (RawQuery r) (header r) (ContentLength r) (Body r) (Host r) (RemoteAddr r) (ctx r).

Definition WithQuery (q : string) (r : Request) : Request :=
  mkRequest (Method r) (Path r) q (header r) (ContentLength r) (Body r) (Host r) (RemoteAddr r) (ctx r).

Definition WithHeader (h : Header) (r : Request) : Request :=
  mkRequest (Method r) (Path r) (RawQuery r) h (ContentLength r) (Body r) (Host r) (RemoteAddr r) (ctx r).

(** ** Response writers *)

(** [http.ResponseWriter]. [Header()] returns a map the handler mutates: reading
    it is [w_header], writing it back [w_set_header]. [w_Write] returns the
    number of bytes accepted and an error. *)
Class ResponseWriter (W : Type) := {
  w_header : W -> Header;
  w_set_header : Header -> W -> W;
  w_WriteHeader : Z -> W -> W;
  w_Write : string -> W -> (Z * option string) * W;
}.

Section Writer.
Context {W : Type} `{!ResponseWriter W}.

Definition header_Set (k v : string) (w : W) : W := w_set_header (Set_ k v (w_header w)) w.
Definition header_Add (k v : string) (w : W) : W := w_set_header (Add k v (w_header w)) w.
Definition header_Del (k : string) (w : W) : W := w_set_header (Del k (w_header w)) w.

(** [_, _ = w.Write(b)] *)
Definition write (b : string) (w : W) : W := (w_Write b w).2.
End Writer.

(** ** Handlers *)

Inductive panic := ErrAbortHandler | PanicValue (msg : string).

(** A call of a handler returns or panics. *)
Inductive outcome := Return | Panic (v : panic).

Definition Handler (S : Type) : Type :=
  forall (W : Type), ResponseWriter W -> Request -> W -> S -> outcome * W * S.

Definition Middleware (S : Type) : Type := Handler S -> Handler S.

(** ** What a handler does to its writer *)

Inductive wop :=
| HSet (k v : string)
| HAdd (k v : string)
| HDel (k : string)
| WHead (status : Z)
| WBody (b : string).

Definition play1 {W} `{!ResponseWriter W} (o : wop) (w : W) : W :=
  match o with
  | HSet k v => header_Set k v w
  | HAdd k v => header_Add k v w
  | HDel k => header_Del k w
  | WHead c => w_WriteHeader c w
  | WBody b => write b w
  end.

Definition play {W} `{!ResponseWriter W} (ops : list wop) (w : W) : W :=
  foldl (fun w o => play1 o w) w ops.

Lemma play_cons {W} `{!ResponseWriter W} o ops (w : W) : play (o :: ops) w = play ops (play1 o w).
Proof. done. Qed.

Lemma play_app {W} `{!ResponseWriter W} ops1 ops2 (w : W) :
  play (ops1 ++ ops2) w = play ops2 (play ops1 w).
Proof. apply foldl_app. Qed.

Definition is_header_op (o : wop) : bool :=
  match o with HSet _ _ | HAdd _ _ | HDel _ => true | _ => false end.

(** The effect of header operations on a header. *)
Definition hplay1 (o : wop) (h : Header) : Header :=
  match o with HSet k v => Set_ k v h | HAdd k v => Add k v h | HDel k => Del k h | _ => h end.

Definition hplay (ops : list wop) (h : Header) : Header := foldl (fun h o => hplay1 o h) h ops.

(** The handler that performs the given writer operations. *)
Definition scripted {S} (f : Request -> S -> outcome * list wop * S) : Handler S :=
  fun W _ r w s => let '(o, ops, s') := f r s in (o, play ops w, s').

(** [h] behaves on [r] and [s] like a script, whatever the writer. *)
Definition performs {S} (h : Handler S) (r : Request) (s : S) (o : outcome) (ops : list wop) (s' : S) : Prop :=
  forall W (RW : ResponseWriter W) (w : W), h W RW r w s = (o, play ops w, s').

Lemma scripted_performs {S} (f : Request -> S -> outcome * list wop * S) r s o ops s' :
  f r s = (o, ops, s') -> performs (scripted f) r s o ops s'.
Proof. intros H W RW w. unfold scripted. by rewrite H. Qed.

(** ** JSON *)

(** Escapes of [encoding/json] (HTML-safe, as [json.NewEncoder] does by default).
    Bytes outside ASCII are copied: the strings encoded are valid UTF-8. *)
Definition json_byte (c : ascii) : string :=
  let bs := byte 92 in
  if code c =? 34 then String bs (String c EmptyString)
  else if code c =? 92 then String bs (String c EmptyString)
  else if code c =? 8 then String bs "b"
  else if code c =? 12 then String bs "f"
  else if code c =? 10 then String bs "n"
  else if code c =? 13 then String bs "r"
  else if code c =? 9 then String bs "t"
  else if (code c <? 32) || (code c =? 38) || (code c =? 60) || (code c =? 62)
  then String bs ("u00" +:+ hex (String c EmptyString))
  else String c EmptyString.

Fixpoint json_escape (s : string) : string :=
  match s with
  | EmptyString => EmptyString
  | String c s => json_byte c +:+ json_escape s
  end.

Definition json_string (s : string) : string := quoted (json_escape s).

(** [json.NewEncoder(w).Encode(m)] of a [map[string]string] given by its pairs in
    key order; the encoder ends with a newline. *)
Definition json_map (m : list (string * string)) : string :=
  "{" +:+ Join "," (map (fun '(k, v) => json_string k +:+ ":" +:+ json_string v) m) +:+ "}" +:+
  String (byte 10) EmptyString.

(** ** Laws of headers *)

Lemma Values_Set k v h : Values (Set_ k v h) k = [v].
Proof. unfold Values, Set_. by rewrite lookup_insert_eq. Qed.

Lemma Get_Set k v h : Get (Set_ k v h) k = v.
Proof. unfold Get. by rewrite Values_Set. Qed.

Lemma Values_Set_ne k k' v h :
  CanonicalHeaderKey k ≠ CanonicalHeaderKey k' -> Values (Set_ k v h) k' = Values h k'.
Proof. intros H. unfold Values, Set_. by rewrite lookup_insert_ne. Qed.

Lemma Get_Set_ne k k' v h :
  CanonicalHeaderKey k ≠ CanonicalHeaderKey k' -> Get (Set_ k v h) k' = Get h k'.
Proof. intros H. unfold Get. by rewrite Values_Set_ne. Qed.

Lemma Values_Add k v h : Values (Add k v h) k = Values h k ++ [v].
Proof. unfold Values at 1, Add. by rewrite lookup_insert_eq. Qed.

Lemma Values_Add_ne k k' v h :
  CanonicalHeaderKey k ≠ CanonicalHeaderKey k' -> Values (Add k v h) k' = Values h k'.
Proof. intros H. unfold Values, Add. by rewrite lookup_insert_ne. Qed.

Lemma Values_Del k h : Values (Del k h) k = [].
Proof. unfold Values, Del. by rewrite lookup_delete_eq. Qed.

Lemma Values_Del_ne k k' h :
  CanonicalHeaderKey k ≠ CanonicalHeaderKey k' -> Values (Del k h) k' = Values h k'.
Proof. intros H. unfold Values, Del. by rewrite lookup_delete_ne. Qed.

#[export] Hint Rewrite Values_Set Get_Set Values_Add Values_Del : gw.

(** ** Laws of writers *)

(** What middleware relies on: the header map is a cell of its own, which
    sending a status or body does not change. *)
Class WriterLaws (W : Type) `{!ResponseWriter W} := {
  header_set_header : forall h (w : W), w_header (w_set_header h w) = h;
  set_header_twice : forall h h' (w : W), w_set_header h (w_set_header h' w) = w_set_header h w;
  set_header_same : forall w : W, w_set_header (w_header w) w = w;
  header_WriteHeader : forall c (w : W), w_header (w_WriteHeader c w) = w_header w;
  header_Write : forall b (w : W), w_header (w_Write b w).2 = w_header w;
}.

#[export] Hint Rewrite @header_set_header @set_header_twice @set_header_same @header_WriteHeader @header_Write
  using (typeclasses eauto) : gw.

Lemma play_hplay {W} `{!ResponseWriter W, !WriterLaws W} ops (w : W) :
  forallb is_header_op ops = true -> play ops w = w_set_header (hplay ops (w_header w)) w.
Proof.
  revert w. induction ops as [|o ops IH]; intros w H; [simpl; by rewrite set_header_same|]. simpl in H. bool2prop.
  rewrite play_cons, IH by done. destruct o; try done; simpl; unfold header_Set, header_Add, header_Del;
    by rewrite header_set_header, set_header_twice.
Qed.

(** ** Canonical names *)

Lemma forall_bytes (p : ascii -> bool) :
  forallb (fun n => p (ascii_of_N (N.of_nat n))) (seq 0 256) = true -> forall c, p c = true.
Proof.
  intros H c. rewrite forallb_forall in H. specialize (H (N.to_nat (N_of_ascii c))).
  rewrite N2Nat.id, ascii_N_embedding in H. apply H.
  apply in_seq. pose proof (N_ascii_bounded c). lia.
Qed.

Definition fold_byte (upper : bool) (c : ascii) : ascii := if upper then upper_byte c else lower_byte c.

Lemma fold_byte_idem u c : fold_byte u (fold_byte u c) = fold_byte u c.
Proof.
  assert (Ascii.eqb (fold_byte u (fold_byte u c)) (fold_byte u c) = true) as H%Ascii.eqb_eq; [|done].
  revert c. destruct u; apply forall_bytes; vm_compute; reflexivity.
Qed.

Lemma fold_byte_dash u c : (code (fold_byte u c) =? 45) = (code c =? 45).
Proof.
  apply eqb_true_iff. revert c.
  destruct u; apply (forall_bytes (fun c => Bool.eqb (code (fold_byte _ c) =? 45) (code c =? 45))); vm_compute; reflexivity.
Qed.

Lemma fold_byte_valid u c : valid_field_byte (fold_byte u c) = valid_field_byte c.
Proof.
  apply eqb_true_iff. revert c.
  destruct u; apply (forall_bytes (fun c => Bool.eqb (valid_field_byte (fold_byte _ c)) (valid_field_byte c)));
    vm_compute; reflexivity.
Qed.

Lemma canon_String u c s : canon u (String c s) = String (fold_byte u c) (canon (code c =? 45) s).
Proof. done. Qed.

Lemma canon_idem u s : canon u (canon u s) = canon u s.
Proof.
  revert u. induction s as [|c s IH]; intros u; [done|].
  by rewrite !canon_String, fold_byte_idem, fold_byte_dash, IH.
Qed.

Lemma canon_valid u s : all_bytes valid_field_byte (canon u s) = all_bytes valid_field_byte s.
Proof.
  revert u. induction s as [|c s IH]; intros u; [done|].
  rewrite canon_String. simpl. by rewrite fold_byte_valid, IH.
Qed.

Lemma CanonicalHeaderKey_idem s : CanonicalHeaderKey (CanonicalHeaderKey s) = CanonicalHeaderKey s.
Proof.
  unfold CanonicalHeaderKey. destruct (all_bytes valid_field_byte s) eqn:E.
  - by rewrite canon_valid, E, canon_idem.
  - by rewrite E.
Qed.

(** Headers built through [Set], [Add] and [Del] have canonical names. *)
Definition canonical (h : Header) : Prop := map_Forall (fun k _ => CanonicalHeaderKey k = k) h.

Lemma canonical_hplay ops h : canonical h -> canonical (hplay ops h).
Proof.
  revert h. induction ops as [|o ops IH]; intros h Hh; [done|]. apply IH.
  destruct o; simpl; try done.
  - apply map_Forall_insert_2; [apply CanonicalHeaderKey_idem|done].
  - apply map_Forall_insert_2; [apply CanonicalHeaderKey_idem|done].
  - by apply map_Forall_delete.
Qed.

(** ** The server's response writer

    [net/http]'s own writer: the first final status wins and fixes the headers,
    a body needs a status that allows one, and no more bytes are accepted than
    the declared [Content-Length]. *)

Record response := mkResponse {
  hdr : Header;
  sent : option (Z * Header);
  declared : option Z;
  written : Z;
  sent_body : string;
}.

Definition new_response : response := mkResponse ∅ None None 0 EmptyString.

Definition informational (c : Z) : bool := (100 <=? c) && (c <=? 199) && negb (c =? 101).

Definition body_allowed (c : Z) : bool := negb (((100 <=? c) && (c <=? 199)) || (c =? 204) || (c =? 304)).

Definition declared_length (h : Header) : option Z :=
  match Atoi (Get h "Content-Length") with
  | Ok n => if 0 <=? n then Some n else None
  | Err _ => None
  end.

Definition response_WriteHeader (c : Z) (w : response) : response :=
  match sent w with
  | Some _ => w
  | None =>
      if informational c then w
      else mkResponse (hdr w) (Some (c, hdr w)) (declared_length (hdr w)) (written w) (sent_body w)
  end.

Definition response_Write (b : string) (w : response) : (Z * option string) * response :=
  let w := response_WriteHeader StatusOK w in
  let n := Z.of_nat (String.length b) in
  let status := match sent w with Some (c, _) => c | None => StatusOK end in
  if n =? 0 then ((0, None), w)
  else if negb (body_allowed status)
  then ((0, Some "http: request method or response status code does not allow body"), w)
  else
    let written := written w + n in
    let w' := mkResponse (hdr w) (sent w) (declared w) written (sent_body w) in
    match declared w with
    | Some cl =>
        if cl <? written then ((0, Some "http: wrote more than the declared Content-Length"), w')
        else ((n, None), mkResponse (hdr w) (sent w) (declared w) written (sent_body w +:+ b))
    | None => ((n, None), mkResponse (hdr w) (sent w) (declared w) written (sent_body w +:+ b))
    end.

#[export] Instance response_Writer : ResponseWriter response := {|
  w_header := hdr;
  w_set_header h w := mkResponse h (sent w) (declared w) (written w) (sent_body w);
  w_WriteHeader := response_WriteHeader;
  w_Write := response_Write;
|}.

#[export] Instance response_WriterLaws : WriterLaws response.
Proof.
  assert (forall c w, hdr (response_WriteHeader c w) = hdr w) as Hwh.
  { intros c w. unfold response_WriteHeader. by repeat case_match. }
  constructor; simpl; try done.
  - by intros [].
  - intros b w. unfold response_Write. repeat (case_match; simpl; try done); by rewrite ?Hwh.
Qed.

Lemma response_WriteHeader_started c w x : sent w = Some x -> response_WriteHeader c w = w.
Proof. intros H. unfold response_WriteHeader. by rewrite H. Qed.

Lemma response_Write_started b w c h :
  sent w = Some (c, h) -> body_allowed c = true -> declared w = None ->
  response_Write b w =
    ((Z.of_nat (String.length b), None),
     mkResponse (hdr w) (sent w) None (written w + Z.of_nat (String.length b)) (sent_body w +:+ b)).
Proof.
  intros Hs Hb Hd. unfold response_Write. rewrite (response_WriteHeader_started _ w _ Hs), Hs, Hb, Hd. simpl.
  destruct (Z.of_nat (String.length b) =? 0) eqn:E; [|done]. bool2prop.
  destruct b; [|simpl in E; lia]. simpl. rewrite append_nil_r, Z.add_0_r. do 2 f_equal.
  destruct w; simpl in *; congruence.
Qed.

(** What the client receives: the server sends 200 if the handler sent no status. *)
Definition client_status (w : response) : Z :=
  match sent w with Some (c, _) => c | None => StatusOK end.

Definition client_header (w : response) : Header :=
  match sent w with Some (_, h) => h | None => hdr w end.

(** ** Shared response helpers *)

(** The JSON error responses of the gateway: content type, status, body. *)
Definition json_ops (status : Z) (body : list (string * string)) : list wop :=
  [HSet "Content-Type" "application/json"; WHead status; WBody (json_map body)].

(** [middleware.writeJSON] and [proxy.jsonError], which are the same function. *)
Definition writeJSON {W} `{!ResponseWriter W} (status : Z) (body : list (string * string)) (w : W) : W :=
  let w := header_Set "Content-Type" "application/json" w in
  let w := w_WriteHeader status w in
  write (json_map body) w.

Lemma writeJSON_play {W} `{!ResponseWriter W} status body (w : W) :
  writeJSON status body w = play (json_ops status body) w.
Proof. done. Qed.

(** The handler that records the request it receives, to observe what a
    middleware lets through. *)
Definition recorder : Handler (list Request) := fun W _ r w s => (Return, w, s ++ [r]).

(** ** Logging *)

Inductive level := LevelInfo | LevelWarn | LevelError.

(** Attribute values; [AMillis ns] is the float [ns / 1e6], [AStack] the text of
    the goroutine's stack. *)
Inductive attr :=
| AString (s : string)
| AInt (n : Z)
| AMillis (ns : Z)
| AStrings (l : list string)
| ABool (b : bool)
| AStack.

Record log_record := mkLog { log_level : level; message : string; attrs : list (string * attr) }.

(** A [slog.Logger]: what emitting a record does to the state. *)
Definition SlogLogger (S : Type) : Type := log_record -> S -> S.

End Http.
