(* ===== verification/Json.v ===== *)
(** * JSON ([encoding/json])

    The values, the encoder and the decoder of Go's [encoding/json] as far as
    the program uses them: every error answer of the gateway, the answers of the
    upstream services, and the bodies of orders. Strings are sequences of bytes;
    bytes from 128 on are copied by encoder and decoder alike, as Go does with
    valid UTF-8. *)

From Stdlib Require Import Ascii.
From stdpp Require Import pretty.
From S2P Require Import Prelude GoStrings Http.
Import Http.

Module Json.

(** A number is kept as the literal it was written as. *)
Inductive json :=
| JNull
| JBool (b : bool)
| JNumber (literal : string)
| JString (s : string)
| JArray (l : list json)
| JObject (m : list (string * json)).

Section Induction.
Context (P : json -> Prop).
Hypothesis Pnull : P JNull.
Hypothesis Pbool : forall b, P (JBool b).
Hypothesis Pnumber : forall l, P (JNumber l).
Hypothesis Pstring : forall s, P (JString s).
Hypothesis Parray : forall l, Forall P l -> P (JArray l).
Hypothesis Pobject : forall m, Forall (fun p => P p.2) m -> P (JObject m).

Fixpoint json_rect' (v : json) : P v :=
  match v with
  | JNull => Pnull
  | JBool b => Pbool b
  | JNumber l => Pnumber l
  | JString s => Pstring s
  | JArray l =>
      Parray l ((fix go (l : list json) : Forall P l :=
                   match l with [] => Forall_nil_2 P | v :: l => Forall_cons_2 P v l (json_rect' v) (go l) end) l)
  | JObject m =>
      Pobject m ((fix go (m : list (string * json)) : Forall (fun p => P p.2) m :=
                    match m with
                    | [] => Forall_nil_2 _
                    | (k, v) :: m => Forall_cons_2 (fun p => P p.2) (k, v) m (json_rect' v) (go m)
                    end) m)
  end.
End Induction.

(** ** Encoding *)

(** [json.Marshal]: no white space. *)
Fixpoint Marshal (v : json) : string :=
  match v with
  | JNull => "null"
  | JBool true => "true"
  | JBool false => "false"
  | JNumber l => l
  | JString s => json_string s
  | JArray l => "[" +:+ Join "," (map Marshal l) +:+ "]"
  | JObject m => "{" +:+ Join "," (map (fun '(k, v) => json_string k +:+ ":" +:+ Marshal v) m) +:+ "}"
  end.

Definition newline : string := String (byte 10) EmptyString.

(** [json.NewEncoder(w).Encode(v)] writes the value and a newline. *)
Definition Encode (v : json) : string := Marshal v +:+ newline.

Definition JInt (n : Z) : json := JNumber (Itoa n).

(** ** Decoding *)

Inductive parse_error := SyntaxError | UnexpectedEOF | MaxDepth | OutOfFuel.

Notation parsed A := (parse_error + A * string)%type.

Definition parsed_bind {A B} (c : parsed A) (k : A -> string -> parsed B) : parsed B :=
  match c with inl e => inl e | inr (a, rest) => k a rest end.

Notation "'parse' ( x , rest ) := c1 'in' c2" := (parsed_bind c1 (fun x rest => c2))
  (at level 10, x name, rest name, c1 at level 200, c2 at level 200).

Definition is_space (c : ascii) : bool := (code c =? 32) || (code c =? 9) || (code c =? 10) || (code c =? 13).

Fixpoint skip_space (s : string) : string :=
  match s with
  | String c s' => if is_space c then skip_space s' else s
  | EmptyString => EmptyString
  end.

(** *** Strings *)

Definition hex_value (c : ascii) : option Z :=
  if is_digit c then Some (code c - 48)
  else if (97 <=? code c) && (code c <=? 102) then Some (code c - 87)
  else if (65 <=? code c) && (code c <=? 70) then Some (code c - 55)
  else None.

Definition hex4 (a b c d : ascii) : option Z :=
  match hex_value a, hex_value b, hex_value c, hex_value d with
  | Some a, Some b, Some c, Some d => Some (a * 4096 + b * 256 + c * 16 + d)
  | _, _, _, _ => None
  end.

(** UTF-8 encoding of a code point. *)
Definition utf8 (r : Z) : string :=
  if r <? 128 then String (byte r) EmptyString
  else if r <? 2048 then String (byte (192 + r / 64)) (String (byte (128 + r mod 64)) EmptyString)
  else if r <? 65536 then
    String (byte (224 + r / 4096)) (String (byte (128 + (r / 64) mod 64)) (String (byte (128 + r mod 64)) EmptyString))
  else
    String (byte (240 + r / 262144)) (String (byte (128 + (r / 4096) mod 64))
      (String (byte (128 + (r / 64) mod 64)) (String (byte (128 + r mod 64)) EmptyString))).

Definition is_high (r : Z) : bool := (55296 <=? r) && (r <=? 56319).
Definition is_low (r : Z) : bool := (56320 <=? r) && (r <=? 57343).
Definition replacement : string := utf8 65533.

(** The one-letter escapes. *)
Definition escape_char (c : ascii) : option ascii :=
  if (code c =? 34) || (code c =? 92) || (code c =? 47) then Some c
  else if code c =? 98 then Some (byte 8) else if code c =? 102 then Some (byte 12)
  else if code c =? 110 then Some (byte 10) else if code c =? 114 then Some (byte 13)
  else if code c =? 116 then Some (byte 9) else None.

Definition prepend (t : string) (c : parsed string) : parsed string :=
  parse (s, rest) := c in inr (t +:+ s, rest).

(** The text behind an opening quote, up to the closing one. [pending] is an
    escaped first half of a surrogate pair; without its second half it is
    replaced. *)
Fixpoint parse_chars (pending : option Z) (s : string) : parsed string :=
  let flush := match pending with Some _ => replacement | None => EmptyString end in
  match s with
  | EmptyString => inl UnexpectedEOF
  | String c s1 =>
      if code c =? 34 then inr (flush, s1)
      else if code c =? 92 then
        match s1 with
        | EmptyString => inl UnexpectedEOF
        | String e s2 =>
            if code e =? 117 then
              match s2 with
              | String a (String b (String c' (String d s3))) =>
                  match hex4 a b c' d with
                  | None => inl SyntaxError
                  | Some r =>
                      if is_low r then
                        match pending with
                        | Some h => prepend (utf8 (65536 + (h - 55296) * 1024 + (r - 56320))) (parse_chars None s3)
                        | None => prepend replacement (parse_chars None s3)
                        end
                      else if is_high r then prepend flush (parse_chars (Some r) s3)
                      else prepend (flush +:+ utf8 r) (parse_chars None s3)
                  end
              | _ => inl UnexpectedEOF
              end
            else match escape_char e with
                 | Some x => prepend (flush +:+ String x EmptyString) (parse_chars None s2)
                 | None => inl SyntaxError
                 end
        end
      else if code c <? 32 then inl SyntaxError
      else prepend (flush +:+ String c EmptyString) (parse_chars None s1)
  end.

(** *** Numbers *)

Fixpoint span_digits (s : string) : string * string :=
  match s with
  | String c s' => if is_digit c then let '(d, r) := span_digits s' in (String c d, r) else (EmptyString, s)
  | EmptyString => (EmptyString, EmptyString)
  end.

Definition digits1 (s : string) : parsed string :=
  match span_digits s with
  | (EmptyString, EmptyString) => inl UnexpectedEOF
  | (EmptyString, _) => inl SyntaxError
  | (d, r) => inr (d, r)
  end.

(** A zero ends the integer part; otherwise it is a run of digits. *)
Definition parse_int (s : string) : parsed string :=
  match s with
  | String c s' => if code c =? 48 then inr (String c EmptyString, s') else digits1 s
  | EmptyString => inl UnexpectedEOF
  end.

Definition parse_sign (s : string) : string * string :=
  match s with
  | String c s' => if code c =? 45 then (String c EmptyString, s') else (EmptyString, s)
  | EmptyString => (EmptyString, EmptyString)
  end.

Definition parse_fraction (s : string) : parsed string :=
  match s with
  | String c s' => if code c =? 46 then prepend (String c EmptyString) (digits1 s') else inr (EmptyString, s)
  | EmptyString => inr (EmptyString, EmptyString)
  end.

Definition parse_exponent (s : string) : parsed string :=
  match s with
  | String c s' =>
      if (code c =? 69) || (code c =? 101) then
        match s' with
        | String c' s'' =>
            if (code c' =? 43) || (code c' =? 45)
            then prepend (String c (String c' EmptyString)) (digits1 s'')
            else prepend (String c EmptyString) (digits1 s')
        | EmptyString => inl UnexpectedEOF
        end
      else inr (EmptyString, s)
  | EmptyString => inr (EmptyString, EmptyString)
  end.

Definition parse_number (s : string) : parsed string :=
  let '(sign, s) := parse_sign s in
  parse (i, s) := parse_int s in
  parse (f, s) := parse_fraction s in
  parse (e, s) := parse_exponent s in
  inr (sign +:+ i +:+ f +:+ e, s).

(** *** Values *)

(** The letters of [true], [false] and [null]. *)
Definition parse_word (word : string) (v : json) (s : string) : parsed json :=
  match CutPrefix s word with
  | Some rest => inr (v, rest)
  | None => if HasPrefix word s then inl UnexpectedEOF else inl SyntaxError
  end.

(** What must follow an element of an array or an object. *)
Inductive follow := Comma | Close.

Definition parse_follow (close : Z) (s : string) : parsed follow :=
  match skip_space s with
  | EmptyString => inl UnexpectedEOF
  | String c s => if code c =? 44 then inr (Comma, s) else if code c =? close then inr (Close, s) else inl SyntaxError
  end.

(** The key of a member and its colon. *)
Definition parse_key (s : string) : parsed string :=
  match skip_space s with
  | EmptyString => inl UnexpectedEOF
  | String c s =>
      if code c =? 34 then
        parse (k, s) := parse_chars None s in
        match skip_space s with
        | EmptyString => inl UnexpectedEOF
        | String c s => if code c =? 58 then inr (k, s) else inl SyntaxError
        end
      else inl SyntaxError
  end.

(** Does an array or object end right after it has begun? *)
Definition empty_tail (close : Z) (s : string) : option string :=
  match skip_space s with
  | String c s => if code c =? close then Some s else None
  | EmptyString => None
  end.

(** [depth] is the number of levels that may still be opened. *)
Fixpoint parse_value (fuel : nat) (depth : Z) (s : string) {struct fuel} : parsed json :=
  match fuel with
  | O => inl OutOfFuel
  | S fuel =>
      match skip_space s with
      | EmptyString => inl UnexpectedEOF
      | String c s1 =>
          if code c =? 34 then parse (t, rest) := parse_chars None s1 in inr (JString t, rest)
          else if code c =? 123 then
            if depth <=? 0 then inl MaxDepth
            else match empty_tail 125 s1 with
                 | Some rest => inr (JObject [], rest)
                 | None => parse (m, rest) := parse_members fuel (depth - 1) s1 in inr (JObject m, rest)
                 end
          else if code c =? 91 then
            if depth <=? 0 then inl MaxDepth
            else match empty_tail 93 s1 with
                 | Some rest => inr (JArray [], rest)
                 | None => parse (l, rest) := parse_elements fuel (depth - 1) s1 in inr (JArray l, rest)
                 end
          else if code c =? 116 then parse_word "true" (JBool true) (String c s1)
          else if code c =? 102 then parse_word "false" (JBool false) (String c s1)
          else if code c =? 110 then parse_word "null" JNull (String c s1)
          else parse (l, rest) := parse_number (String c s1) in inr (JNumber l, rest)
      end
  end
with parse_elements (fuel : nat) (depth : Z) (s : string) {struct fuel} : parsed (list json) :=
  match fuel with
  | O => inl OutOfFuel
  | S fuel =>
      parse (v, rest) := parse_value fuel depth s in
      parse (f, rest) := parse_follow 93 rest in
      match f with
      | Close => inr ([v], rest)
      | Comma => parse (l, rest) := parse_elements fuel depth rest in inr (v :: l, rest)
      end
  end
with parse_members (fuel : nat) (depth : Z) (s : string) {struct fuel} : parsed (list (string * json)) :=
  match fuel with
  | O => inl OutOfFuel
  | S fuel =>
      parse (k, rest) := parse_key s in
      parse (v, rest) := parse_value fuel depth rest in
      parse (f, rest) := parse_follow 125 rest in
      match f with
      | Close => inr ([(k, v)], rest)
      | Comma => parse (m, rest) := parse_members fuel depth rest in inr ((k, v) :: m, rest)
      end
  end.

Definition maxNestingDepth : Z := 10000.

(** Enough for every input, see [parse_terminates]. *)
Definition enough (s : string) : nat := 2 * String.length s + 2.

(** [json.NewDecoder(body).Decode]: the first value of the stream. *)
Definition Decode (s : string) : parsed json := parse_value (enough s) maxNestingDepth s.

(** ** Termination of the decoder *)

(** The outcome is not a lack of fuel, and fewer than [n] bytes are left. *)
Definition leaves {A} (n : nat) (r : parsed A) : Prop :=
  match r with inl e => e ≠ OutOfFuel | inr (_, rest) => (String.length rest < n)%nat end.

Lemma leaves_bind {A B} m n (c : parsed A) (k : A -> string -> parsed B) :
  leaves m c -> (forall a rest, (String.length rest < m)%nat -> leaves n (k a rest)) -> leaves n (parsed_bind c k).
Proof. destruct c as [e|[a rest]]; simpl; auto. Qed.

Lemma leaves_le {A} m n (r : parsed A) : leaves m r -> (m <= n)%nat -> leaves n r.
Proof. destruct r as [e|[a rest]]; simpl; [done|lia]. Qed.

Lemma leaves_prepend n t c : leaves n c -> leaves n (prepend t c).
Proof. intros H. apply (leaves_bind n); [done|]. simpl. auto. Qed.

Lemma skip_space_length s : (String.length (skip_space s) <= String.length s)%nat.
Proof. induction s as [|c s IH]; simpl; [done|]. case_match; simpl; lia. Qed.

Lemma parse_chars_leaves p s : leaves (String.length s) (parse_chars p s).
Proof.
  revert p. remember (String.length s) as n eqn:Hn. revert s Hn.
  induction n as [n IH] using lt_wf_ind. intros s Hn p. destruct s as [|c s1]; [done|]. simpl in Hn.
  assert (forall t q s', (String.length s' < n)%nat -> leaves n (prepend t (parse_chars q s'))) as Hrec.
  { intros t q s' Hs. apply leaves_prepend, (leaves_le (String.length s')); [|lia]. by apply (IH (String.length s')). }
  cbn [parse_chars]. repeat (case_match; try (simpl; (done || lia)));
    subst; simpl in *; apply Hrec; simpl; lia.
Qed.

Lemma span_digits_length s : (String.length (span_digits s).2 <= String.length s)%nat.
Proof. induction s as [|c s IH]; simpl; [done|]. case_match; [|done]. destruct (span_digits s). simpl in *. lia. Qed.

Lemma digits1_leaves s : leaves (S (String.length s)) (digits1 s).
Proof.
  unfold digits1. pose proof (span_digits_length s) as H.
  destruct (span_digits s) as [[|c d] r]; [by destruct r|]. simpl in *. lia.
Qed.

Lemma parse_number_leaves s : leaves (S (String.length s)) (parse_number s).
Proof.
  unfold parse_number.
  assert (String.length (parse_sign s).2 <= String.length s)%nat as Hs
    by (destruct s; simpl; [done|]; case_match; simpl; lia).
  destruct (parse_sign s) as [sg s1]. simpl in Hs. set (n := S (String.length s)).
  assert (forall t, (String.length t < n)%nat -> leaves n (digits1 t)) as Hd
    by (intros t Ht; apply (leaves_le _ _ _ (digits1_leaves t)); lia).
  apply (leaves_bind n); [|intros i s2 H2; apply (leaves_bind n); [|intros f s3 H3; apply (leaves_bind n); [|by intros]]].
  - unfold parse_int. destruct s1; [done|]. simpl in Hs. case_match; [simpl; lia|]. apply Hd. simpl. lia.
  - unfold parse_fraction. destruct s2; [simpl; lia|]. case_match; [apply leaves_prepend, Hd; simpl in *; lia|done].
  - unfold parse_exponent. destruct s3; [simpl; lia|]. case_match; [|done].
    destruct s3; [done|]. case_match; apply leaves_prepend, Hd; simpl in *; lia.
Qed.

Lemma parse_word_leaves w v s : leaves (S (String.length s)) (parse_word w v s).
Proof.
  unfold parse_word. destruct (CutPrefix s w) as [rest|] eqn:E; [|by case_match].
  apply CutPrefix_spec in E as ->. simpl. rewrite length_append. lia.
Qed.

Lemma parse_follow_leaves close s : leaves (String.length s) (parse_follow close s).
Proof.
  unfold parse_follow. pose proof (skip_space_length s). destruct (skip_space s); [done|]. simpl in *.
  repeat case_match; simpl; (done || lia).
Qed.

Lemma parse_key_leaves s : leaves (String.length s) (parse_key s).
Proof.
  unfold parse_key. pose proof (skip_space_length s). destruct (skip_space s) as [|c s1]; [done|]. simpl in *.
  case_match; [|done]. apply (leaves_bind (String.length s1)); [apply parse_chars_leaves|].
  intros k rest Hr. pose proof (skip_space_length rest). destruct (skip_space rest); [done|]. simpl in *.
  case_match; simpl; (done || lia).
Qed.

Lemma empty_tail_length close s rest : empty_tail close s = Some rest -> (String.length rest < String.length s)%nat.
Proof.
  unfold empty_tail. pose proof (skip_space_length s). destruct (skip_space s); [done|]. simpl in *.
  case_match; [|done]. intros [= ->]. lia.
Qed.

(** The three mutually recursive parsers, with the fuel they need. *)
Lemma parse_leaves fuel :
  (forall d s, (2 * String.length s + 1 <= fuel)%nat -> leaves (S (String.length s)) (parse_value fuel d s)) /\
  (forall d s, (2 * String.length s + 2 <= fuel)%nat -> leaves (S (String.length s)) (parse_elements fuel d s)) /\
  (forall d s, (2 * String.length s + 2 <= fuel)%nat -> leaves (S (String.length s)) (parse_members fuel d s)).
Proof.
  induction fuel as [|fuel (IHv & IHe & IHm)]; [split_and!; intros; lia|]. split_and!; intros d s Hf.
  - cbn [parse_value]. pose proof (skip_space_length s). destruct (skip_space s) as [|c s1]; [done|]. simpl in *.
    assert (forall close rest, empty_tail close s1 = Some rest -> (String.length rest < S (String.length s))%nat) as Ht
      by (intros close rest Hr%empty_tail_length; lia).
    assert (forall w v, leaves (S (String.length s)) (parse_word w v (String c s1))) as Hw
      by (intros w v; apply (leaves_le _ _ _ (parse_word_leaves w v (String c s1))); simpl; lia).
    repeat case_match; try done; try (by eapply Ht).
    + apply (leaves_bind (String.length s1)); [apply parse_chars_leaves|]. simpl. lia.
    + apply (leaves_bind (S (String.length s1))); [apply IHm; lia|]. simpl. lia.
    + apply (leaves_bind (S (String.length s1))); [apply IHe; lia|]. simpl. lia.
    + apply (leaves_bind (S (String.length (String c s1)))); [apply parse_number_leaves|]. simpl. lia.
  - cbn [parse_elements]. apply (leaves_bind (S (String.length s))); [apply IHv; lia|]. intros v r1 H1.
    apply (leaves_bind (String.length r1)); [apply parse_follow_leaves|]. intros f r2 H2.
    destruct f; [|simpl; lia].
    apply (leaves_bind (S (String.length r2))); [apply IHe; lia|]. simpl. lia.
  - cbn [parse_members]. apply (leaves_bind (String.length s)); [apply parse_key_leaves|]. intros k r0 H0.
    apply (leaves_bind (S (String.length r0))); [apply IHv; lia|]. intros v r1 H1.
    apply (leaves_bind (String.length r1)); [apply parse_follow_leaves|]. intros f r2 H2.
    destruct f; [|simpl; lia].
    apply (leaves_bind (S (String.length r2))); [apply IHm; lia|]. simpl. lia.
Qed.

(** More fuel does not change an outcome. *)
Lemma bind_mono {A B} (c c' : parsed A) (k k' : A -> string -> parsed B) :
  (c ≠ inl OutOfFuel -> c' = c) -> (forall a rest, k a rest ≠ inl OutOfFuel -> k' a rest = k a rest) ->
  parsed_bind c k ≠ inl OutOfFuel -> parsed_bind c' k' = parsed_bind c k.
Proof.
  intros Hc Hk H. destruct c as [e|[a rest]]; simpl in *; rewrite Hc by congruence; simpl; [done|]. by apply Hk.
Qed.

Lemma parse_mono fuel :
  (forall d s, parse_value fuel d s ≠ inl OutOfFuel -> parse_value (S fuel) d s = parse_value fuel d s) /\
  (forall d s, parse_elements fuel d s ≠ inl OutOfFuel -> parse_elements (S fuel) d s = parse_elements fuel d s) /\
  (forall d s, parse_members fuel d s ≠ inl OutOfFuel -> parse_members (S fuel) d s = parse_members fuel d s).
Proof.
  induction fuel as [|fuel (IHv & IHe & IHm)]; [split_and!; intros d s H; by destruct H|].
  split_and!; intros d s H; remember (S fuel) as n eqn:En; rewrite En in H |- * at 2;
    cbn [parse_value parse_elements parse_members] in *; subst n.
  - repeat case_match; try done; apply bind_mono; auto.
  - apply bind_mono; auto. intros v r1 H1. apply bind_mono; auto. intros f r2 H2. destruct f; [|done].
    apply bind_mono; auto.
  - apply bind_mono; auto. intros k r0 H0. apply bind_mono; auto. intros v r1 H1. apply bind_mono; auto.
    intros f r2 H2. destruct f; [|done]. apply bind_mono; auto.
Qed.

Lemma parse_value_mono n m d s r :
  parse_value n d s = r -> r ≠ inl OutOfFuel -> (n <= m)%nat -> parse_value m d s = r.
Proof.
  intros <- Hr Hle. induction Hle as [|m Hle IH]; [done|]. rewrite <- IH. apply parse_mono. by rewrite IH.
Qed.

Lemma parse_elements_mono n m d s r :
  parse_elements n d s = r -> r ≠ inl OutOfFuel -> (n <= m)%nat -> parse_elements m d s = r.
Proof.
  intros <- Hr Hle. induction Hle as [|m Hle IH]; [done|]. rewrite <- IH. apply parse_mono. by rewrite IH.
Qed.

Lemma parse_members_mono n m d s r :
  parse_members n d s = r -> r ≠ inl OutOfFuel -> (n <= m)%nat -> parse_members m d s = r.
Proof.
  intros <- Hr Hle. induction Hle as [|m Hle IH]; [done|]. rewrite <- IH. apply parse_mono. by rewrite IH.
Qed.

(** The decoder terminates on every input: the fuel [Decode] gives itself is
    enough, more fuel gives the same outcome, and what is left of the stream is
    never longer than the stream. *)
Theorem parse_terminates (s : string) :
  leaves (S (String.length s)) (Decode s) /\
  forall fuel, (enough s <= fuel)%nat -> parse_value fuel maxNestingDepth s = Decode s.
Proof.
  assert (leaves (S (String.length s)) (Decode s)) as H.
  { apply (proj1 (parse_leaves (enough s))). unfold enough. lia. }
  split; [done|]. intros fuel Hf. apply (parse_value_mono (enough s)); [done| |done].
  intros E. rewrite E in H. by destruct H.
Qed.

(** ** Round trip *)

(** What a number may be followed by: nothing that continues it. *)
Definition terminates (s : string) : bool :=
  match s with
  | EmptyString => true
  | String c _ => negb (is_digit c || (code c =? 46) || (code c =? 69) || (code c =? 101))
  end.

Definition is_literal (l : string) : Prop := parse_number l = inr (l, EmptyString).

Lemma span_digits_app s t : terminates t = true ->
  span_digits (s +:+ t) = ((span_digits s).1, (span_digits s).2 +:+ t).
Proof.
  intros Ht. induction s as [|c s IH].
  - rewrite append_nil_l. destruct t as [|c t]; [done|]. simpl in *. by destruct (is_digit c).
  - rewrite append_cons. simpl. destruct (is_digit c); [|done]. rewrite IH. by destruct (span_digits s).
Qed.

(** A parser of a part of a number is not disturbed by what follows. *)
Definition local_parser (P : string -> parsed string) : Prop :=
  forall s t a rest, terminates t = true -> P s = inr (a, rest) -> P (s +:+ t) = inr (a, rest +:+ t).

Lemma digits1_local : local_parser digits1.
Proof.
  intros s t a rest Ht. unfold digits1. rewrite span_digits_app by done.
  destruct (span_digits s) as [[|c d] r]; simpl; [by destruct r|]. by intros [= <- <-].
Qed.

Lemma prepend_local x (P : string -> parsed string) s t a rest :
  local_parser P -> terminates t = true -> prepend x (P s) = inr (a, rest) -> prepend x (P (s +:+ t)) = inr (a, rest +:+ t).
Proof.
  intros HP Ht. unfold prepend. destruct (P s) as [e|[b r]] eqn:E; simpl; [done|]. intros [= <- <-].
  by rewrite (HP _ t _ _ Ht E).
Qed.

Lemma parse_int_local : local_parser parse_int.
Proof.
  intros s t a rest Ht. destruct s as [|c s]; [done|]. rewrite append_cons. simpl. case_match; [by intros [= <- <-]|].
  rewrite <- append_cons. by apply digits1_local.
Qed.

Lemma parse_fraction_local : local_parser parse_fraction.
Proof.
  intros s t a rest Ht. destruct s as [|c s].
  - intros [= <- <-]. rewrite !append_nil_l. destruct t as [|c t]; [done|]. simpl in *. bool2prop.
    by rewrite (proj2 (Z.eqb_neq (code c) 46)).
  - rewrite append_cons. simpl. case_match; [|by intros [= <- <-]]. by apply prepend_local; [apply digits1_local|].
Qed.

Lemma parse_exponent_local : local_parser parse_exponent.
Proof.
  intros s t a rest Ht. destruct s as [|c s].
  - intros [= <- <-]. rewrite !append_nil_l. destruct t as [|c t]; [done|]. simpl in *. bool2prop.
    by rewrite (proj2 (Z.eqb_neq (code c) 69)), (proj2 (Z.eqb_neq (code c) 101)).
  - rewrite append_cons. simpl. case_match; [|by intros [= <- <-]]. destruct s as [|c' s]; [done|]. rewrite append_cons.
    case_match; [|rewrite <- append_cons]; by apply prepend_local; [apply digits1_local|].
Qed.

Lemma parse_number_local : local_parser parse_number.
Proof.
  intros s t a rest Ht. unfold parse_number.
  assert (s ≠ EmptyString -> parse_sign (s +:+ t) = ((parse_sign s).1, (parse_sign s).2 +:+ t)) as Hs.
  { destruct s as [|c s]; [done|]. rewrite append_cons. simpl. by case_match. }
  destruct s as [|c s]; [done|]. rewrite Hs by done. destruct (parse_sign (String c s)) as [sg s1]. simpl.
  destruct (parse_int s1) as [e|[i s2]] eqn:Ei; simpl; [done|]. rewrite (parse_int_local _ t _ _ Ht Ei). simpl.
  destruct (parse_fraction s2) as [e|[f s3]] eqn:Ef; simpl; [done|]. rewrite (parse_fraction_local _ t _ _ Ht Ef). simpl.
  destruct (parse_exponent s3) as [e|[x s4]] eqn:Ex; simpl; [done|]. rewrite (parse_exponent_local _ t _ _ Ht Ex). simpl.
  by intros [= <- <-].
Qed.

(** One escaped byte is read back as that byte. *)
Lemma parse_chars_escape c t : parse_chars None (json_byte c +:+ t) = prepend (String c EmptyString) (parse_chars None t).
Proof.
  destruct c as [[] [] [] [] [] [] [] []]; cbv -[parse_chars prepend String.append]; cbn -[prepend]; reflexivity.
Qed.

Lemma parse_chars_string s t : parse_chars None (json_escape s +:+ String dquote t) = inr (s, t).
Proof.
  induction s as [|c s IH]; [done|]. simpl json_escape. by rewrite append_assoc, parse_chars_escape, IH.
Qed.

(** Levels of nesting, and the numbers being literals. *)
Fixpoint depth (v : json) : Z :=
  match v with
  | JArray l => 1 + foldr Z.max 0 (map depth l)
  | JObject m => 1 + foldr Z.max 0 (map (fun '(_, v) => depth v) m)
  | _ => 0
  end.

Fixpoint literals (v : json) : Prop :=
  match v with
  | JNumber l => is_literal l
  | JArray l => foldr and True (map literals l)
  | JObject m => foldr and True (map (fun '(_, v) => literals v) m)
  | _ => True
  end.

Lemma literal_head l : is_literal l -> exists c s, l = String c s /\ (code c = 45 \/ is_digit c = true).
Proof.
  unfold is_literal, parse_number. destruct l as [|c l]; [done|]. exists c, l. split; [done|].
  simpl in H. destruct (code c =? 45) eqn:E; [left; by apply Z.eqb_eq|]. right. simpl in H.
  destruct (code c =? 48) eqn:E0; [apply Z.eqb_eq in E0; unfold is_digit; by rewrite E0|].
  unfold digits1 in H. simpl in H. by destruct (is_digit c).
Qed.

(** The first byte of an encoded value starts a value, not anything else. *)
Definition starts (s : string) : bool :=
  match s with String c _ => negb (is_space c || (code c =? 93) || (code c =? 125)) | EmptyString => false end.

Lemma number_start c : code c = 45 \/ is_digit c = true ->
  is_space c = false /\ (code c =? 34) = false /\ (code c =? 123) = false /\ (code c =? 91) = false /\
  (code c =? 116) = false /\ (code c =? 102) = false /\ (code c =? 110) = false /\ (code c =? 93) = false /\
  (code c =? 125) = false.
Proof. unfold is_digit, is_space. intros [H|H]; bool2prop; split_and!; lia. Qed.

Lemma Marshal_starts v t : literals v -> starts (Marshal v +:+ t) = true.
Proof.
  destruct v as [|[]|l|s|l|m]; try done. simpl. intros (c & l' & -> & Hc)%literal_head. rewrite append_cons. simpl.
  destruct (number_start c Hc) as (-> & _ & _ & _ & _ & _ & _ & -> & ->). done.
Qed.

Lemma starts_skip s : starts s = true -> skip_space s = s /\ empty_tail 93 s = None /\ empty_tail 125 s = None.
Proof.
  destruct s as [|c s]; [done|]. simpl. intros H. bool2prop. unfold empty_tail. simpl.
  match goal with H : is_space c = false |- _ => rewrite H end.
  by rewrite (proj2 (Z.eqb_neq (code c) 93)), (proj2 (Z.eqb_neq (code c) 125)).
Qed.

(** [v] is read back, whatever follows. *)
Definition reads_back (v : json) : Prop :=
  forall d t, literals v -> depth v <= d -> terminates t = true -> exists n, parse_value n d (Marshal v +:+ t) = inr (v, t).

Lemma read_number l d t : is_literal l -> terminates t = true -> parse_value 1 d (l +:+ t) = inr (JNumber l, t).
Proof.
  intros Hl Ht. pose proof (parse_number_local _ t _ _ Ht Hl) as Hp. rewrite append_nil_l in Hp.
  destruct (literal_head l Hl) as (c & s & -> & Hc). rewrite append_cons in *. cbn [parse_value skip_space].
  destruct (number_start c Hc) as (-> & -> & -> & -> & -> & -> & -> & _ & _). by rewrite Hp.
Qed.

Lemma parse_key_string k t : parse_key (json_string k +:+ String (byte 58) t) = inr (k, t).
Proof.
  unfold json_string, quoted. rewrite append_cons, append_assoc. unfold parse_key.
  change (skip_space (String dquote ?x)) with (String dquote x). cbv iota beta.
  change (code dquote =? 34) with true. cbv iota.
  change (String dquote EmptyString +:+ String (byte 58) t) with (String dquote (String (byte 58) t)).
  by rewrite parse_chars_string.
Qed.

Lemma read_elements l d t : l ≠ [] ->
  Forall reads_back l -> Forall literals l -> Forall (fun v => depth v <= d) l ->
  exists n, parse_elements n d (Join "," (map Marshal l) +:+ String (byte 93) t) = inr (l, t).
Proof.
  intros Hne. induction l as [|v l IH]; [done|]. intros [Hv Hl]%Forall_cons [Lv Ll]%Forall_cons [Dv Dl]%Forall_cons.
  destruct l as [|w l].
  - destruct (Hv d (String (byte 93) t) Lv Dv eq_refl) as [n Hn]. exists (S n).
    cbn [parse_elements map Join]. by rewrite Hn.
  - destruct (IH ltac:(done) Hl Ll Dl) as [n2 H2].
    destruct (Hv d ("," +:+ Join "," (map Marshal (w :: l)) +:+ String (byte 93) t) Lv Dv eq_refl) as [n1 H1].
    exists (S (n1 + n2)). change (Join "," (map Marshal (v :: w :: l))) with (Marshal v +:+ "," +:+ Join "," (map Marshal (w :: l))).
    rewrite !append_assoc. cbn [parse_elements].
    rewrite (parse_value_mono n1 (n1 + n2) _ _ _ H1) by (done || lia). cbn [parsed_bind].
    change (parse_follow 93 ("," +:+ ?x)) with (inr (Comma, x) : parsed follow). cbn [parsed_bind].
    by rewrite (parse_elements_mono n2 (n1 + n2) _ _ _ H2) by (done || lia).
Qed.

Definition Marshal_member (p : string * json) : string := let '(k, v) := p in json_string k +:+ ":" +:+ Marshal v.

Lemma read_members m d t : m ≠ [] ->
  Forall (fun p => reads_back p.2) m -> Forall (fun p => literals p.2) m -> Forall (fun p => depth p.2 <= d) m ->
  exists n, parse_members n d (Join "," (map Marshal_member m) +:+ String (byte 125) t) = inr (m, t).
Proof.
  intros Hne. induction m as [|[k v] m IH]; [done|]. intros [Hv Hl]%Forall_cons [Lv Ll]%Forall_cons [Dv Dl]%Forall_cons.
  simpl in Hv, Lv, Dv. destruct m as [|q m].
  - destruct (Hv d (String (byte 125) t) Lv Dv eq_refl) as [n Hn]. exists (S n).
    cbn [parse_members map Join Marshal_member]. rewrite !append_assoc.
    change (":" +:+ ?x) with (String (byte 58) x). rewrite parse_key_string. cbn [parsed_bind]. by rewrite Hn.
  - destruct (IH ltac:(done) Hl Ll Dl) as [n2 H2].
    destruct (Hv d ("," +:+ Join "," (map Marshal_member (q :: m)) +:+ String (byte 125) t) Lv Dv eq_refl) as [n1 H1].
    exists (S (n1 + n2)).
    change (Join "," (map Marshal_member ((k, v) :: q :: m)))
      with ((json_string k +:+ ":" +:+ Marshal v) +:+ "," +:+ Join "," (map Marshal_member (q :: m))).
    rewrite !append_assoc. cbn [parse_members]. change (":" +:+ ?x) with (String (byte 58) x).
    rewrite parse_key_string. cbn [parsed_bind].
    rewrite (parse_value_mono n1 (n1 + n2) _ _ _ H1) by (done || lia). cbn [parsed_bind].
    change (parse_follow 125 ("," +:+ ?x)) with (inr (Comma, x) : parsed follow). cbn [parsed_bind].
    by rewrite (parse_members_mono n2 (n1 + n2) _ _ _ H2) by (done || lia).
Qed.

(** The two folds as statements about every element. *)
Lemma foldr_and {A} (P : A -> Prop) l : foldr and True (map P l) <-> Forall P l.
Proof. induction l as [|x l IH]; simpl; [by rewrite Forall_nil|]. by rewrite Forall_cons, IH. Qed.

Lemma foldr_max {A} (f : A -> Z) l b : 0 <= b -> foldr Z.max 0 (map f l) <= b <-> Forall (fun x => f x <= b) l.
Proof. intros Hb. induction l as [|x l IH]; simpl; [rewrite Forall_nil; lia|]. rewrite Forall_cons, <- IH. lia. Qed.

Lemma foldr_max_nonneg {A} (f : A -> Z) l : 0 <= foldr Z.max 0 (map f l).
Proof. induction l; simpl; lia. Qed.

(** A level is left to open, and the elements fit into the levels below it. *)
Lemma level_fits {A} (f : A -> Z) l d :
  1 + foldr Z.max 0 (map f l) <= d -> (d <=? 0) = false /\ Forall (fun x => f x <= d - 1) l.
Proof.
  intros H. pose proof (foldr_max_nonneg f l). split; [lia|]. apply foldr_max; lia.
Qed.

Lemma join_starts (l : list string) t : l ≠ [] -> Forall (fun s => forall t, starts (s +:+ t) = true) l ->
  starts (Join "," l +:+ t) = true.
Proof.
  destruct l as [|x [|y l]]; [done|..]; intros _ [Hx _]%Forall_cons; simpl; [done|]. by rewrite append_assoc.
Qed.

Lemma read_string s d t : parse_value 1 d (json_string s +:+ t) = inr (JString s, t).
Proof.
  unfold json_string, quoted. rewrite append_cons, append_assoc.
  change (String dquote EmptyString +:+ t) with (String dquote t). cbn [parse_value].
  change (skip_space (String dquote ?x)) with (String dquote x). cbv iota beta.
  change (code dquote =? 34) with true. cbv iota. by rewrite parse_chars_string.
Qed.

Lemma read_array l : Forall reads_back l -> reads_back (JArray l).
Proof.
  intros IH d t Hl Hd Ht. simpl in Hl, Hd. rewrite foldr_and in Hl. destruct (level_fits _ _ _ Hd) as [Hd0 Hd1].
  destruct l as [|v l]; [exists 1%nat; simpl; by rewrite Hd0|].
  destruct (read_elements (v :: l) (d - 1) t ltac:(done) IH Hl Hd1) as [n En]. exists (S n).
  change (Marshal (JArray (v :: l))) with (String (byte 91) (Join "," (map Marshal (v :: l)) +:+ "]")).
  rewrite append_cons, append_assoc. change ("]" +:+ t) with (String (byte 93) t). cbn [parse_value].
  change (skip_space (String (byte 91) ?x)) with (String (byte 91) x). cbv iota beta. rewrite Hd0.
  destruct (starts_skip (Join "," (map Marshal (v :: l)) +:+ String (byte 93) t)) as (_ & Ht93 & _).
  { apply join_starts; [done|]. apply Forall_map. eapply Forall_impl; [exact Hl|]. intros w Hw t'. by apply Marshal_starts. }
  change (code (byte 91)) with 91. simpl (91 =? _). cbv iota. by rewrite Ht93, En.
Qed.

Lemma read_object m : Forall (fun p => reads_back p.2) m -> reads_back (JObject m).
Proof.
  intros IH d t Hl Hd Ht. simpl in Hl, Hd.
  rewrite (map_ext _ (fun p => literals p.2)), foldr_and in Hl by (by intros []).
  rewrite (map_ext _ (fun p => depth p.2)) in Hd by (by intros []). destruct (level_fits _ _ _ Hd) as [Hd0 Hd1].
  destruct m as [|[k v] m]; [exists 1%nat; simpl; by rewrite Hd0|].
  destruct (read_members ((k, v) :: m) (d - 1) t ltac:(done) IH Hl Hd1) as [n En]. exists (S n).
  change (Marshal (JObject ((k, v) :: m))) with (String (byte 123) (Join "," (map Marshal_member ((k, v) :: m)) +:+ "}")).
  rewrite append_cons, append_assoc. change ("}" +:+ t) with (String (byte 125) t). cbn [parse_value].
  change (skip_space (String (byte 123) ?x)) with (String (byte 123) x). cbv iota beta. rewrite Hd0.
  destruct (starts_skip (Join "," (map Marshal_member ((k, v) :: m)) +:+ String (byte 125) t)) as (_ & _ & Ht125).
  { apply join_starts; [done|]. apply Forall_map, Forall_true. by intros [k' v'] t'. }
  change (code (byte 123)) with 123. simpl (123 =? _). cbv iota. by rewrite Ht125, En.
Qed.

Lemma all_read_back v : reads_back v.
Proof.
  induction v as [|b|l|s|l IH|m IH] using json_rect'; [..|by apply read_array|by apply read_object];
    intros d t Hl Hd Ht; exists 1%nat; [done|by destruct b|by apply read_number|by apply read_string].
Qed.

Lemma Decode_Marshal v t :
  literals v -> depth v <= maxNestingDepth -> terminates t = true -> Decode (Marshal v +:+ t) = inr (v, t).
Proof.
  intros Hl Hd Ht. destruct (all_read_back v maxNestingDepth t Hl Hd Ht) as [n Hn].
  destruct (parse_terminates (Marshal v +:+ t)) as [_ Hm].
  rewrite <- (Hm (n + enough (Marshal v +:+ t))%nat) by lia. apply (parse_value_mono n); [done..|lia].
Qed.

(** Whatever [Encode] writes, [Decode] reads back: every value whose numbers are
    number literals and whose nesting does not exceed the decoder's limit. *)
Theorem json_roundtrip (v : json) (Hl : literals v) (Hd : depth v <= maxNestingDepth) :
  Decode (Encode v) = inr (v, newline).
Proof. by apply Decode_Marshal. Qed.

(** Integers *)

Lemma span_all_digits s : all_bytes is_digit s = true -> span_digits s = (s, EmptyString).
Proof. induction s as [|c s IH]; simpl; [done|]. intros H. bool2prop. by rewrite H, IH. Qed.

Lemma digits_literal p : parse_int (pretty_N_go (Npos p) EmptyString) = inr (pretty_N_go (Npos p) EmptyString, EmptyString).
Proof.
  destruct (pretty_head (Npos p) EmptyString) as (c & d & -> & Hc & Hne & Hd); [done|]. simpl.
  rewrite (proj2 (Z.eqb_neq _ _)) by done. unfold digits1. simpl. by rewrite Hc, span_all_digits by auto.
Qed.

Lemma Itoa_literal n : is_literal (Itoa n).
Proof.
  unfold is_literal, parse_number. destruct n as [|p|p]; [done|rewrite Itoa_pos|rewrite Itoa_neg].
  - assert (parse_sign (pretty_N_go (Npos p) EmptyString) = (EmptyString, pretty_N_go (Npos p) EmptyString)) as ->.
    { destruct (pretty_head (Npos p) EmptyString) as (c & d & -> & Hc & _); [done|].
      unfold is_digit in Hc. bool2prop. simpl. by rewrite (proj2 (Z.eqb_neq (code c) 45)) by lia. }
    rewrite digits_literal. simpl. by rewrite !append_nil_r.
  - change (parse_sign (String (byte 45) ?x)) with (String (byte 45) EmptyString, x). cbv beta iota.
    rewrite digits_literal. simpl. by rewrite !append_nil_r.
Qed.

(** The error answers of the gateway *)

Definition JStrings (m : list (string * string)) : json := JObject (map (fun '(k, v) => (k, JString v)) m).

Lemma json_map_Encode m : json_map m = Encode (JStrings m).
Proof.
  unfold json_map, Encode, JStrings. simpl. rewrite !append_assoc, map_map.
  rewrite (map_ext _ (fun x : string * string => let '(k, v) := let '(k, v) := x in (k, JString v) in json_string k +:+ ":" +:+ Marshal v));
    [done|by intros []].
Qed.

Lemma JStrings_plain m : literals (JStrings m) /\ depth (JStrings m) <= 1.
Proof.
  unfold JStrings. simpl. rewrite !map_map. split.
  - rewrite (map_ext _ (fun _ => True)), foldr_and by (by intros []). by apply Forall_true.
  - rewrite (map_ext _ (fun _ => 0)) by (by intros []). assert (foldr Z.max 0 (map (fun _ : string * string => 0) m) <= 0); [|lia].
    by apply foldr_max, Forall_true.
Qed.

(** Every error body the gateway writes is one JSON object whose members are
    exactly the given strings, whatever bytes they contain. *)
Theorem error_bodies_are_json (m : list (string * string)) : Decode (json_map m) = inr (JStrings m, newline).
Proof.
  rewrite json_map_Encode. destruct (JStrings_plain m) as [Hl Hd]. apply Decode_Marshal; [done| |done].
  unfold maxNestingDepth. lia.
Qed.

End Json.
