(* ===== verification/Upstream.v ===== *)
(** * The upstream services ([upstream/orders/main.go], [upstream/catalog/main.go])

    Two small HTTP services over one PostgreSQL database: [Module ServeMux] is
    the request multiplexer of [net/http] they register their handlers with,
    [Module Store] the tables of the two migrations and the SQL statements of the
    handlers, [Module Orders] and [Module Catalog] the handlers themselves.

    The server's text conversions ([uuid] and [bigint] input), the order in which
    it returns rows, and the struct validator are parameters; a call of the
    database can fail at each point at which the driver can report an error. *)

From Stdlib Require Import Ascii.
From stdpp Require Import pretty.
From S2P Require Import Prelude GoStrings Http Json.
Import Http Json.

(** ** [http.ServeMux] *)

Module ServeMux.

Inductive segment := Lit (s : string) | Wild (name : string).

(** A pattern ["METHOD /a/{b}"]. *)
Record pattern := mkPattern { method : string; segs : list segment }.

(** What [r.PathValue] looks up. *)
Notation PathValues := (list (string * string)).

Definition PathValue (name : string) (vs : PathValues) : string :=
  match list_find (fun p => p.1 = name) vs with Some (_, (_, v)) => v | None => EmptyString end.

(** A wildcard stands for one segment that is not empty. *)
Fixpoint match_segs (p : list segment) (path : list string) : option PathValues :=
  match p, path with
  | [], [] => Some []
  | Lit s :: p, t :: path => if decide (s = t) then match_segs p path else None
  | Wild n :: p, t :: path => if decide (t = EmptyString) then None else cons (n, t) <$> match_segs p path
  | _, _ => None
  end.

Definition slash : ascii := byte 47.

Definition path_segs (path : string) : option (list string) :=
  match path with
  | String c rest => if decide (c = slash) then Some (Split slash rest) else None
  | EmptyString => None
  end.

(** [cleanPath] would leave the path as it is. *)
Definition is_clean (path : string) : bool :=
  match path_segs path with
  | None => false
  | Some l =>
      forallb (fun s => negb (bool_decide (s ∈ ["."; ".."]))) l &&
      forallb (fun s => negb (bool_decide (s = EmptyString))) (take (length l - 1) l)
  end.

(** A [GET] pattern also serves [HEAD]. *)
Definition method_matches (p m : string) : bool :=
  bool_decide (p = m) || (bool_decide (p = "GET") && bool_decide (m = "HEAD")).

Definition match_path (p : pattern) (path : string) : option PathValues :=
  path_segs path ≫= match_segs (segs p).

Definition methods_of (p : pattern) : list string :=
  if decide (method p = "GET") then ["GET"; "HEAD"] else [method p].

(** [http.Error] *)
Definition Error_ops (msg : string) (code : Z) : list wop :=
  [HDel "Content-Length"; HSet "Content-Type" "text/plain; charset=utf-8"; HSet "X-Content-Type-Options" "nosniff";
   WHead code; WBody (msg +:+ newline)].

Section Mux.
Context {S : Type}.
(** The redirect to the cleaned path. *)
Variable redirect : Request -> list wop.

Notation route := (pattern * (PathValues -> Request -> S -> outcome * list wop * S))%type.

Fixpoint find_route (routes : list route) (m path : string) : option (Request -> S -> outcome * list wop * S) :=
  match routes with
  | [] => None
  | (p, h) :: routes =>
      match match_path p path with
      | Some vs => if method_matches (method p) m then Some (h vs) else find_route routes m path
      | None => find_route routes m path
      end
  end.

Definition allowed_methods (routes : list route) (path : string) : list string :=
  merge_sort String.le
    (remove_dups (concat (map (fun '(p, _) => match match_path p path with Some _ => methods_of p | None => [] end) routes))).

(** [mux.ServeHTTP]. The patterns of either service exclude each other, so the
    first that matches is the most specific. *)
Definition ServeHTTP (routes : list route) (r : Request) (s : S) : outcome * list wop * S :=
  if is_clean (Path r) || bool_decide (Method r = "CONNECT") then
    match find_route routes (Method r) (Path r) with
    | Some h => h r s
    | None =>
        match allowed_methods routes (Path r) with
        | [] => (Return, Error_ops "404 page not found" StatusNotFound, s)
        | ms => (Return, HSet "Allow" (Join ", " ms) :: Error_ops "Method Not Allowed" StatusMethodNotAllowed, s)
        end
    end
  else (Return, redirect r, s).
End Mux.

End ServeMux.

(** ** The database *)

Module Store.

(** A row of [products] *)
Record product := mkProduct {
  p_ID : Z;
  p_Name : string;
  p_Description : string;
  p_PriceCents : Z;
  p_CreatedAt : Z;
}.

(** A row of [orders] *)
Record order := mkOrder {
  ID : Z;
  UserID : string;
  ProductID : Z;
  Quantity : Z;
  TotalCents : Z;
  CreatedAt : Z;
}.

(** The tables, and the next value of the identity column of [orders]. *)
Record Tables := mkTables { products : list product; orders : list order; order_seq : Z }.

Definition in_int32 (z : Z) : bool := (-2147483648 <=? z) && (z <=? 2147483647).

(** The server: input conversions of [uuid] (to its canonical text) and
    [bigint], and the order in which a table is read. *)
Class Postgres := {
  uuid_in : string -> result string;
  int8_in : string -> result Z;
  heap_order : forall {A : Type}, list A -> list A;
}.

Class PostgresLaws `{!Postgres} := {
  uuid_canonical : forall s u, uuid_in s = Ok u -> uuid_in u = Ok u;
  int8_decimal : forall n, in_int64 n -> int8_in (Itoa n) = Ok n;
  heap_all : forall A (l : list A), heap_order l ≡ₚ l;
}.

(** What befalls one call of the driver: the time of the server, an error before
    the statement has run, identity values a failed statement used up, an error
    of [Scan] at a row, and an error that ends the result after some rows. *)
Record Driver := mkDriver {
  now : Z;
  fails : option string;
  skipped : nat;
  scan_fails : nat -> option string;
  breaks_off : option (nat * string);
}.

(** A call at which nothing goes wrong. *)
Definition sound (t : Z) : Driver := mkDriver t None 0 (fun _ => None) None.

Definition scanned {A} (d : Driver) (rows : list A) : list (result A) :=
  imap (fun i a => match scan_fails d i with Some e => Err e | None => Ok a end) rows.

(** [db.QueryContext]: the outcome of [Scan] for each row [rows.Next] gives, and
    [rows.Err] behind the last. *)
Definition QueryContext {A} (d : Driver) (select : result (list A)) : result (list (result A) * option string) :=
  match fails d with
  | Some e => Err e
  | None =>
      let? rows := select in
      match breaks_off d with
      | Some (n, e) => Ok (take n (scanned d rows), Some e)
      | None => Ok (scanned d rows, None)
      end
  end.

Inductive row (A : Type) := Row (a : A) | ErrNoRows | RowErr (e : string).
Arguments Row {A} _.
Arguments ErrNoRows {A}.
Arguments RowErr {A} _.

(** [db.QueryRowContext(...).Scan(...)] on the rows of a statement that has run. *)
Definition ScanRow {A} (d : Driver) (rows : list A) : row A :=
  let complete x := match breaks_off d with Some (_, e) => RowErr e | None => x end in
  match rows with
  | [] => complete ErrNoRows
  | a :: _ => match scan_fails d 0 with Some e => RowErr e | None => complete (Row a) end
  end.

Section Statements.
Context `{!Postgres}.

(** [SELECT ... FROM orders WHERE user_id = $1] *)
Definition select_orders (user : string) (t : Tables) : result (list order) :=
  let? u := uuid_in user in Ok (filter (fun o => UserID o = u) (heap_order (orders t))).

(** [SELECT ... FROM products] *)
Definition select_products (t : Tables) : result (list product) := Ok (heap_order (products t)).

(** [SELECT ... FROM products WHERE id = $1] *)
Definition select_product (id : string) (t : Tables) : result (list product) :=
  let? n := int8_in id in Ok (filter (fun p => p_ID p = n) (heap_order (products t))).

(** [INSERT INTO orders ... SELECT $1, $2, $3, p.price_cents * $3 FROM products
    WHERE p.id = $2 RETURNING id, total_cents]. The identity column is the
    primary key of [products], so there is at most one row to insert; prices,
    quantities and totals are 32-bit. *)
Definition insert_order (d : Driver) (user : string) (productID quantity : Z) (t : Tables) : result (list (Z * Z)) * Tables :=
  let failed e := (Err e, mkTables (products t) (orders t) (order_seq t + Z.of_nat (skipped d))) in
  match uuid_in user with
  | Err e => failed e
  | Ok u =>
      if negb (in_int32 quantity) then failed "quantity is out of range for int4"
      else match list_find (fun p => p_ID p = productID) (products t) with
      | None => (Ok [], t)
      | Some (_, p) =>
          let total := p_PriceCents p * quantity in
          if negb (in_int32 total) then failed "integer out of range"
          else if total <? 0 then failed "violates check constraint"
          else if MaxInt <? order_seq t then failed "nextval: reached maximum value of sequence"
          else
            let o := mkOrder (order_seq t) u productID quantity total (now d) in
            (Ok [(ID o, TotalCents o)], mkTables (products t) (orders t ++ [o]) (order_seq t + 1))
      end
  end.
End Statements.

End Store.

(** ** What both services share *)

Module Service.

Definition StatusCreated : Z := 201.
Definition StatusBadRequest : Z := 400.

(** The tables and the lines logged so far. *)
Record state := mkState { tables : Store.Tables; logged : list log_record }.

Definition logger (x : log_record) (s : state) : state := mkState (tables s) (logged s ++ [x]).
Definition logger_Error (msg e : string) : state -> state := logger (mkLog LevelError msg [("error", AString e)]).
Definition with_tables (t : Store.Tables) (s : state) : state := mkState t (logged s).

(** [writeJSON] *)
Definition writeJSON (status : Z) (msg : json) : list wop :=
  [HSet "Content-Type" "application/json"; WHead status; WBody (Encode msg)].

Definition error_body (msg : string) : json := JStrings [("error", msg)].

Definition internal_error : list wop := writeJSON StatusInternalServerError (error_body "internal error").

(** ["GET /healthz"] *)
Definition healthz (_ : ServeMux.PathValues) (r : Request) (s : state) : outcome * list wop * state :=
  (Return, [WHead StatusOK], s).

(** The loop [for rows.Next() { rows.Scan(...); l = append(l, x) }]. *)
Fixpoint scan_all {A} (l : list A) (rows : list (result A)) : result (list A) :=
  match rows with
  | [] => Ok l
  | Err e :: _ => Err e
  | Ok a :: rows => scan_all (l ++ [a]) rows
  end.

(** A handler that answers with all rows of a query, and what it logs when the
    query, the scan of a row or the iteration fails. *)
Definition list_rows {A} (query_msg scan_msg rows_msg : string) (rows : result (list (result A) * option string))
    (answer : list A -> json) (s : state) : outcome * list wop * state :=
  match rows with
  | Err e => (Return, internal_error, logger_Error query_msg e s)
  | Ok (rows, rows_Err) =>
      match scan_all [] rows with
      | Err e => (Return, internal_error, logger_Error scan_msg e s)
      | Ok l =>
          match rows_Err with
          | Some e => (Return, internal_error, logger_Error rows_msg e s)
          | None => (Return, writeJSON StatusOK (answer l), s)
          end
      end
  end.

End Service.

(** ** [upstream/orders] *)

Module Orders.
Import Service Store.

(** The body of [POST /orders]; its fields are tagged [product_id] and [quantity]. *)
Record orderCreate := mkCreate { ProductID : Z; Quantity : Z }.

(** *** Decoding the body *)

(** A JSON value into an [int] field: [null] leaves the field alone. *)
Definition set_int (v : json) (old : Z) : option Z :=
  match v with
  | JNull => Some old
  | JNumber l => match Atoi l with Ok n => Some n | Err _ => None end
  | _ => None
  end.

(** Member names match up to case; the last of several wins; others are ignored. *)
Definition set_member (p : orderCreate) (m : string * json) : option orderCreate :=
  let '(k, v) := m in
  if EqualFold k "product_id" then (fun n => mkCreate n (Quantity p)) <$> set_int v (ProductID p)
  else if EqualFold k "quantity" then (fun n => mkCreate (ProductID p) n) <$> set_int v (Quantity p)
  else Some p.

Fixpoint set_members (p : orderCreate) (m : list (string * json)) : option orderCreate :=
  match m with
  | [] => Some p
  | x :: m => set_member p x ≫= fun p => set_members p m
  end.

(** [json.NewDecoder(r.Body).Decode(&payload)]; what follows the first value is
    not read. *)
Definition decodeOrder (body : string) : option orderCreate :=
  let zero := mkCreate 0 0 in
  match Decode body with
  | inr (JNull, _) => Some zero
  | inr (JObject m, _) => set_members zero m
  | _ => None
  end.

(** *** Validation *)

Inductive tag := Required | Gt (n : Z) | Gte (n : Z) | Lte (n : Z).

Definition tag_name (t : tag) : string :=
  match t with Required => "required" | Gt _ => "gt" | Gte _ => "gte" | Lte _ => "lte" end.

Definition tag_holds (t : tag) (v : Z) : bool :=
  match t with Required => negb (v =? 0) | Gt n => n <? v | Gte n => n <=? v | Lte n => v <=? n end.

(** The [validate] tags of the struct. *)
Definition fields (p : orderCreate) : list (string * Z * list tag) :=
  [("ProductID", ProductID p, [Required; Gt 0]); ("Quantity", Quantity p, [Required; Gte 1; Lte 100])].

(** A field fails at the first of its tags that does not hold. *)
Definition field_failure (f : string * Z * list tag) : option (string * string) :=
  let '(name, v, tags) := f in
  (fun '(_, t) => (name, tag_name t)) <$> list_find (fun t => tag_holds t v = false) tags.

Definition failures (p : orderCreate) : list (string * string) := omap field_failure (fields p).

Inductive validation :=
| Valid
| ValidationErrors (first : string * string) (rest : list (string * string))
| OtherError (e : string).

(** [validator.New().Struct] *)
Class Validator := { Struct : orderCreate -> validation }.

(** The documentation of the tags. *)
Class ValidatorLaws `{!Validator} := {
  Struct_tags : forall p, Struct p = match failures p with [] => Valid | f :: fs => ValidationErrors f fs end;
}.

Section Handlers.
Context `{!Postgres, !Validator}.
(** [time.Time]'s JSON text, which depends on the time zone; the decoder's error text. *)
Variable time_text : Z -> string.
Variable decode_error : string -> string.
Variable redirect : Request -> list wop.

Definition order_json (o : order) : json :=
  JObject [("id", JInt (ID o)); ("user_id", JString (UserID o)); ("product_id", JInt (Store.ProductID o));
           ("quantity", JInt (Store.Quantity o)); ("total_cents", JInt (TotalCents o));
           ("created_at", JString (time_text (CreatedAt o)))].

Definition orders_json (l : list order) : json := JObject [("orders", JArray (map order_json l))].

(** ["GET /orders"] *)
Definition get_orders (d : Driver) (_ : ServeMux.PathValues) (r : Request) (s : state) : outcome * list wop * state :=
  list_rows "failed to query the orders" "failed to map the orders" "failed to iterate the orders"
    (QueryContext d (select_orders (Get (header r) "X-User") (tables s))) orders_json s.

(** [db.QueryRowContext] with the [INSERT]. *)
Definition query_insert (d : Driver) (user : string) (p : orderCreate) (t : Tables) : row (Z * Z) * Tables :=
  match fails d with
  | Some e => (RowErr e, t)
  | None =>
      match insert_order d user (ProductID p) (Quantity p) t with
      | (Err e, t) => (RowErr e, t)
      | (Ok rows, t) => (ScanRow d rows, t)
      end
  end.

Definition created_json (id total : Z) : json := JObject [("id", JInt id); ("total_cents", JInt total)].

Definition bad_request (msg : string) : list wop := writeJSON StatusBadRequest (error_body msg).

(** ["POST /orders"] *)
Definition post_orders (d : Driver) (_ : ServeMux.PathValues) (r : Request) (s : state) : outcome * list wop * state :=
  match decodeOrder (data (Body r)) with
  | None => (Return, bad_request "invalid request", logger_Error "failed to extract the request body" (decode_error (data (Body r))) s)
  | Some payload =>
      match Struct payload with
      | ValidationErrors (field, tag) _ =>
          (Return, bad_request ("invalid field " +:+ field +:+ ": " +:+ tag),
           logger (mkLog LevelError "validation failed" [("field", AString field); ("tag", AString tag)]) s)
      | OtherError _ => (Return, bad_request "invalid request", s)
      | Valid =>
          let '(row, t) := query_insert d (Get (header r) "X-User") payload (tables s) in
          let s := with_tables t s in
          match row with
          | ErrNoRows => (Return, bad_request "product not found", logger (mkLog LevelInfo "product not found" []) s)
          | RowErr e => (Return, internal_error, logger_Error "failed to insert the order" e s)
          | Row (id, totalCents) => (Return, writeJSON StatusCreated (created_json id totalCents), s)
          end
      end
  end.

(** The handlers [main] registers. *)
Definition orders_mux (d : Driver) (r : Request) (s : state) : outcome * list wop * state :=
  ServeMux.ServeHTTP redirect
    [(ServeMux.mkPattern "GET" [ServeMux.Lit "healthz"], healthz);
     (ServeMux.mkPattern "GET" [ServeMux.Lit "orders"], get_orders d);
     (ServeMux.mkPattern "POST" [ServeMux.Lit "orders"], post_orders d)] r s.
End Handlers.

End Orders.

(** ** [upstream/catalog] *)

Module Catalog.
Import Service Store.

Section Handlers.
Context `{!Postgres}.
Variable time_text : Z -> string.
Variable redirect : Request -> list wop.

Definition product_json (p : product) : json :=
  JObject [("id", JInt (p_ID p)); ("name", JString (p_Name p)); ("description", JString (p_Description p));
           ("price_cents", JInt (p_PriceCents p)); ("created_at", JString (time_text (p_CreatedAt p)))].

(** ["GET /products"] *)
Definition get_products (d : Driver) (_ : ServeMux.PathValues) (r : Request) (s : state) : outcome * list wop * state :=
  list_rows "failed to query the products" "failed to map the products" "failed to iterate the rows"
    (QueryContext d (select_products (tables s)))
    (fun l => JObject [("products", JArray (map product_json l))]) s.

(** [db.QueryRowContext] with the [SELECT] of one product. *)
Definition query_product (d : Driver) (id : string) (t : Tables) : row product :=
  match fails d with
  | Some e => RowErr e
  | None => match select_product id t with Err e => RowErr e | Ok rows => ScanRow d rows end
  end.

(** ["GET /products/{id}"] *)
Definition get_product (d : Driver) (vs : ServeMux.PathValues) (r : Request) (s : state) : outcome * list wop * state :=
  let id := ServeMux.PathValue "id" vs in
  match query_product d id (tables s) with
  | ErrNoRows =>
      (Return, writeJSON StatusNotFound (error_body "product not found"), logger (mkLog LevelInfo "product not found" []) s)
  | RowErr e => (Return, internal_error, logger_Error "failed to query or map the product" e s)
  | Row p => (Return, writeJSON StatusOK (JObject [("product", product_json p)]), s)
  end.

(** The handlers [main] registers. *)
Definition catalog_mux (d : Driver) (r : Request) (s : state) : outcome * list wop * state :=
  ServeMux.ServeHTTP redirect
    [(ServeMux.mkPattern "GET" [ServeMux.Lit "healthz"], healthz);
     (ServeMux.mkPattern "GET" [ServeMux.Lit "products"], get_products d);
     (ServeMux.mkPattern "GET" [ServeMux.Lit "products"; ServeMux.Wild "id"], get_product d)] r s.
End Handlers.

End Catalog.

(** ** Correctness *)

Module UpstreamLaws.
Import Service Store.

(** The call reports no error. *)
Definition faultless (d : Driver) : Prop := fails d = None /\ (forall i, scan_fails d i = None) /\ breaks_off d = None.

Lemma sound_faultless t : faultless (sound t).
Proof. done. Qed.

(** *** Reading rows *)

Lemma scan_all_inv {A} (l l' : list A) rows : scan_all l rows = Ok l' -> exists k, l' = l ++ k /\ rows = map Ok k.
Proof.
  revert l. induction rows as [|[a|e] rows IH]; intros l; simpl; [|..|done].
  - intros [= <-]. exists []. by rewrite app_nil_r.
  - intros (k & -> & ->)%IH. exists (a :: k). by rewrite <- app_assoc.
Qed.

Lemma scan_all_Ok {A} (l k : list A) : scan_all l (map Ok k) = Ok (l ++ k).
Proof. revert l. induction k as [|a k IH]; intros l; simpl; [by rewrite app_nil_r|]. rewrite IH. by rewrite <- app_assoc. Qed.

Lemma scanned_Ok {A} d (rows l : list A) : scanned d rows = map Ok l -> rows = l.
Proof.
  unfold scanned. generalize (scan_fails d). clear d. revert l. induction rows as [|a rows IH]; intros l f; [by destruct l|].
  rewrite imap_cons. destruct l as [|b l]; [done|]. intros [= E1 E2]. destruct (f 0%nat); simplify_eq. f_equal. by apply (IH l (f ∘ S)).
Qed.

Lemma scanned_faultless {A} d (rows : list A) : (forall i, scan_fails d i = None) -> scanned d rows = map Ok rows.
Proof.
  intros H. unfold scanned. revert H. generalize (scan_fails d). induction rows as [|a rows IH]; intros f H; [done|].
  rewrite imap_cons, H. simpl. f_equal. apply (IH (f ∘ S)). intros i. apply H.
Qed.

(** Either all rows are in the answer, or it is the error and says nothing. *)
Lemma list_rows_spec {A} m1 m2 m3 d (sel : result (list A)) answer s :
  exists ops s', list_rows m1 m2 m3 (QueryContext d sel) answer s = (Return, ops, s') /\ tables s' = tables s /\
    (ops = internal_error \/ exists l, sel = Ok l /\ ops = writeJSON StatusOK (answer l)).
Proof.
  unfold list_rows, QueryContext. destruct (fails d); [by eauto 10|]. destruct sel as [rows|e]; simpl; [|by eauto 10].
  destruct (breaks_off d) as [[n e]|]; simpl.
  - destruct (scan_all [] _); by eauto 10.
  - destruct (scan_all [] _) as [l|e] eqn:E; [|by eauto 10]. apply scan_all_inv in E as (k & -> & ->%scanned_Ok). eauto 10.
Qed.

Lemma list_rows_faultless {A} m1 m2 m3 d (rows : list A) answer s :
  faultless d -> list_rows m1 m2 m3 (QueryContext d (Ok rows)) answer s = (Return, writeJSON StatusOK (answer rows), s).
Proof.
  intros (H1 & H2 & H3). unfold list_rows, QueryContext. rewrite H1, H3. simpl. by rewrite scanned_faultless, scan_all_Ok.
Qed.

(** *** The tables *)

Section Invariant.
Context {PG : Postgres} {PGL : PostgresLaws} {VA : Orders.Validator} {VAL : Orders.ValidatorLaws}.

(** An order is for a product of the catalog, at its price, in an allowed
    quantity, for a user in canonical form. *)
Record order_ok (ps : list product) (o : order) : Prop := {
  ok_product : exists p, p ∈ ps /\ p_ID p = ProductID o /\ TotalCents o = p_PriceCents p * Quantity o;
  ok_quantity : 1 <= Quantity o <= 100;
  ok_total : 0 <= TotalCents o <= 2147483647;
  ok_user : uuid_in (UserID o) = Ok (UserID o);
  ok_id : ID o <= MaxInt;
}.

Record tables_ok (t : Tables) : Prop := {
  ok_orders : Forall (order_ok (products t)) (orders t);
  ok_ids : StronglySorted Z.lt (map ID (orders t));
  ok_seq : Forall (fun o => 1 <= ID o < order_seq t) (orders t);
  ok_next : 1 <= order_seq t;
}.

(** A later state of the same tables: products unchanged, orders only added. *)
Record grows (t t' : Tables) : Prop := {
  g_products : products t' = products t;
  g_orders : orders t `prefix_of` orders t';
  g_seq : order_seq t <= order_seq t';
}.

#[export] Instance grows_preorder : PreOrder grows.
Proof.
  split; [by intros t; split|]. intros t1 t2 t3 [] []. split; [congruence|by etransitivity|lia].
Qed.

Lemma failures_valid p : Orders.failures p = [] <-> 0 < Orders.ProductID p /\ 1 <= Orders.Quantity p <= 100.
Proof.
  destruct p as [i q]. unfold Orders.failures. simpl.
  destruct (i =? 0) eqn:E1, (0 <? i) eqn:E2, (q =? 0) eqn:E3, (1 <=? q) eqn:E4, (q <=? 100) eqn:E5; simpl;
    bool2prop; split; intros; try done; lia.
Qed.

(** What the [INSERT] does to the tables. *)
Lemma insert_order_spec d user pid q t :
  match insert_order d user pid q t with
  | (Ok [], t') => t' = t /\ Forall (fun p => p_ID p ≠ pid) (products t)
  | (Ok [(id, total)], t') =>
      exists u p, uuid_in user = Ok u /\ p ∈ products t /\ p_ID p = pid /\ total = p_PriceCents p * q /\
        0 <= total <= 2147483647 /\ id <= MaxInt /\ id = order_seq t /\
        t' = mkTables (products t) (orders t ++ [mkOrder id u pid q total (now d)]) (id + 1)
  | (Ok _, _) => False
  | (Err _, t') => products t' = products t /\ orders t' = orders t /\ order_seq t <= order_seq t'
  end.
Proof.
  unfold insert_order, in_int32. destruct (uuid_in user) as [u|e] eqn:Eu; [|simpl; split_and!; [done..|lia]].
  destruct (negb _); [simpl; split_and!; [done..|lia]|].
  destruct (list_find _ _) as [[i p]|] eqn:Ep; [|split; [done|exact (proj1 (list_find_None _ _) Ep)]].
  apply list_find_Some in Ep as (Hp%list_elem_of_lookup_2 & Hid & _).
  destruct (negb _) eqn:E1; [simpl; split_and!; [done..|lia]|].
  destruct (_ <? 0) eqn:E2; [simpl; split_and!; [done..|lia]|].
  destruct (MaxInt <? _) eqn:E3; [simpl; split_and!; [done..|lia]|]. simpl. bool2prop. exists u, p. by split_and!.
Qed.

Lemma query_insert_grows d user p t : grows t (Orders.query_insert d user p t).2.
Proof.
  unfold Orders.query_insert. destruct (fails d); [done|].
  pose proof (insert_order_spec d user (Orders.ProductID p) (Orders.Quantity p) t) as H.
  destruct (insert_order _ _ _ _ _) as [[[|[id total] [|]]|e] t']; simpl in *; [by destruct H as [-> _]| |done|].
  - destruct H as (u & pr & _ & _ & _ & _ & _ & _ & -> & ->). split; [done|by apply prefix_app_r|simpl; lia].
  - destruct H as (H1 & H2 & H3). split; [done|by rewrite H2|done].
Qed.

Variable time_text : Z -> string.
Variable decode_error : string -> string.
Variable redirect : Request -> list wop.

Notation orders_mux := (Orders.orders_mux time_text decode_error redirect).
Notation catalog_mux := (Catalog.catalog_mux time_text redirect).

(** Whatever the request, the answer is that of one of the handlers, or the
    multiplexer's own, which touches nothing. *)
Lemma mux_cases {S} routes r (s : S) (P : outcome * list wop * S -> Prop) :
  Forall (fun route => forall vs, P (route.2 vs r s)) routes -> (forall ops, P (Return, ops, s)) ->
  P (ServeMux.ServeHTTP redirect routes r s).
Proof using Type.
  intros Hr Hs. unfold ServeMux.ServeHTTP. destruct (_ || _); [|done].
  destruct (ServeMux.find_route routes (Method r) (Path r)) as [h|] eqn:E; [|case_match; done].
  induction Hr as [|[p h'] routes Hh Hr IH]; simpl in E; [done|].
  destruct (ServeMux.match_path p (Path r)); [|auto]. destruct (ServeMux.method_matches _ _); [|auto]. by injection E as <-.
Qed.

Lemma post_orders_tables d vs r s :
  exists ops s', Orders.post_orders decode_error d vs r s = (Return, ops, s') /\
    (tables s' = tables s \/
     exists p, Orders.decodeOrder (data (Body r)) = Some p /\ Orders.failures p = [] /\
       tables s' = (Orders.query_insert d (Get (header r) "X-User") p (tables s)).2).
Proof.
  unfold Orders.post_orders. destruct (Orders.decodeOrder _) as [p|]; [|by eauto 10].
  pose proof (Orders.Struct_tags p) as Hv.
  destruct (Orders.Struct p) as [|[f tg] l|e] eqn:Es; [|by eauto 10..].
  destruct (Orders.failures p) eqn:Ef; [|done].
  destruct (Orders.query_insert _ _ _ _) as [x t] eqn:E.
  destruct x as [[id total]| |e]; eexists _, _; (split; [done|]); right; exists p; by rewrite E.
Qed.

(** One request to either service, whatever the database does. *)
Inductive step (s : state) : state -> Prop :=
| step_orders d r : step s (orders_mux d r s).2
| step_catalog d r : step s (catalog_mux d r s).2.

(** The tables are as before, or one valid order has been sent to the database. *)
Definition touched (t t' : Tables) : Prop :=
  t' = t \/ exists d user p, Orders.failures p = [] /\ t' = (Orders.query_insert d user p t).2.

Lemma step_touched s s' : step s s' -> touched (tables s) (tables s').
Proof.
  intros [d r|d r]; apply (mux_cases _ r s (fun x => touched (tables s) (tables x.2))); try (intros; by left);
    (apply Forall_cons; split; [intros; by left|]); (apply Forall_cons; split; [intros vs; left; simpl|]);
    try (apply Forall_cons; split; [intros vs; simpl|by apply Forall_nil]).
  - unfold Orders.get_orders.
    by destruct (list_rows_spec "failed to query the orders" "failed to map the orders" "failed to iterate the orders" d
      (select_orders (Get (header r) "X-User") (tables s)) (Orders.orders_json time_text) s) as (ops & s1 & -> & H & _).
  - destruct (post_orders_tables d vs r s) as (ops & s1 & -> & [H|(p & _ & Hp & H)]); [by left|]. right. by eauto.
  - unfold Catalog.get_products.
    by destruct (list_rows_spec "failed to query the products" "failed to map the products" "failed to iterate the rows" d
      (select_products (tables s)) (fun l => JObject [("products", JArray (map (Catalog.product_json time_text) l))]) s)
      as (ops & s1 & -> & H & _).
  - left. unfold Catalog.get_product. by destruct (Catalog.query_product _ _ _).
Qed.

Lemma tables_ok_insert t o :
  tables_ok t -> order_ok (products t) o -> ID o = order_seq t ->
  tables_ok (mkTables (products t) (orders t ++ [o]) (ID o + 1)).
Proof.
  intros [H1 H2 H3 H4] Ho Hid. split; simpl.
  - by apply Forall_app, conj, Forall_singleton.
  - rewrite map_app. apply StronglySorted_app_2; [|done|by repeat constructor].
    intros x y (o' & -> & Ho')%list_elem_of_fmap ->%list_elem_of_singleton. rewrite Forall_forall in H3. rewrite Hid. by apply H3.
  - apply Forall_app. split; [|apply Forall_singleton; lia]. eapply Forall_impl; [exact H3|]. simpl. lia.
  - lia.
Qed.

Lemma tables_ok_seq t n : tables_ok t -> order_seq t <= n -> tables_ok (mkTables (products t) (orders t) n).
Proof. intros [H1 H2 H3 H4] Hn. split; [done..| |simpl; lia]. eapply Forall_impl; [exact H3|]. simpl. lia. Qed.

(** [o] is the order of the body of [r] for its [X-User], and the one addition
    to the tables. *)
Record placed (d : Driver) (user body : string) (t t' : Tables) (o : order) : Prop := {
  pl_payload : Orders.decodeOrder body = Some (Orders.mkCreate (ProductID o) (Quantity o));
  pl_user : uuid_in user = Ok (UserID o);
  pl_ok : order_ok (products t) o;
  pl_id : ID o = order_seq t;
  pl_time : CreatedAt o = now d;
  pl_tables : t' = mkTables (products t) (orders t ++ [o]) (ID o + 1);
}.

Lemma insert_placed d user body p t id total t' :
  Orders.decodeOrder body = Some p -> Orders.failures p = [] ->
  insert_order d user (Orders.ProductID p) (Orders.Quantity p) t = (Ok [(id, total)], t') ->
  exists o, placed d user body t t' o /\ ID o = id /\ TotalCents o = total.
Proof.
  intros Hd [_ Hq]%failures_valid E. pose proof (insert_order_spec d user (Orders.ProductID p) (Orders.Quantity p) t) as H.
  rewrite E in H. destruct H as (u & pr & Hu & Hp & Hid & Htot & Hr & Hmax & -> & ->).
  exists (mkOrder (order_seq t) u (Orders.ProductID p) (Orders.Quantity p) total (now d)). split; [|done].
  split; simpl; try done; [by destruct p|]. split; simpl; [by eauto|done|done|by apply (uuid_canonical user)|done].
Qed.

Lemma touched_ok t t' : tables_ok t -> touched t t' -> tables_ok t' /\ grows t t'.
Proof.
  intros Ht [->|(d & user & p & Hp & ->)]; [done|]. split; [|apply query_insert_grows].
  unfold Orders.query_insert. destruct (fails d); [done|].
  pose proof (insert_order_spec d user (Orders.ProductID p) (Orders.Quantity p) t) as H.
  destruct (insert_order _ _ _ _ _) as [[[|[id total] [|]]|e] t']; simpl in *; [by destruct H as [-> _]| |done|].
  - destruct H as (u & pr & Hu & Hin & Hid & Htot & Hr & Hmax & -> & ->).
    apply (tables_ok_insert t (mkOrder (order_seq t) u (Orders.ProductID p) (Orders.Quantity p) total (now d))); [done| |done].
    apply failures_valid in Hp as [_ Hq]. split; simpl; [by eauto|done|done|by apply (uuid_canonical user)|done].
  - destruct H as (H1 & H2 & H3). destruct t'; simpl in *; subst. by apply tables_ok_seq.
Qed.

Lemma run_ok s s' : tables_ok (tables s) -> rtc step s s' -> tables_ok (tables s') /\ grows (tables s) (tables s').
Proof.
  intros H0 Hrun. induction Hrun as [s|s s1 s2 H1 _ IH]; [done|]. destruct (touched_ok _ _ H0 (step_touched _ _ H1)) as [Hok Hg].
  destruct (IH Hok) as [? Hg2]. split; [done|]. by transitivity (tables s1).
Qed.

(** C23. Whatever requests the two services receive, in whatever order, and whatever
    the database does: every stored order is for an existing product at exactly
    its price, in a quantity of 1 to 100, with a total that fits the column;
    identifiers are unique; and no order is ever changed or lost. *)
Theorem store_invariant (s s' : state) (H0 : tables_ok (tables s)) (Hrun : rtc step s s') :
  tables_ok (tables s') /\ grows (tables s) (tables s').
Proof. by apply run_ok. Qed.

Lemma in_int32_spec z : in_int32 z = true <-> -2147483648 <= z <= 2147483647.
Proof using Type. unfold in_int32. rewrite andb_true_iff, !Z.leb_le. done. Qed.

Lemma orders_mux_post d r s : Method r = "POST" -> Path r = "/orders" ->
  orders_mux d r s = Orders.post_orders decode_error d [] r s.
Proof using Type. intros Hm Hp. unfold Orders.orders_mux, ServeMux.ServeHTTP. rewrite Hp, Hm. reflexivity. Qed.

Lemma orders_mux_get d r s : Method r = "GET" -> Path r = "/orders" ->
  orders_mux d r s = Orders.get_orders time_text d [] r s.
Proof using Type. intros Hm Hp. unfold Orders.orders_mux, ServeMux.ServeHTTP. rewrite Hp, Hm. reflexivity. Qed.

(** The total does not fit, or the identifiers are used up. *)
Definition no_room (p : Orders.orderCreate) (t : Tables) : Prop :=
  MaxInt < order_seq t \/
  exists pr, pr ∈ products t /\ p_ID pr = Orders.ProductID p /\ ~ 0 <= p_PriceCents pr * Orders.Quantity p <= 2147483647.

Lemma insert_order_Err d user p t e t' :
  Orders.failures p = [] -> insert_order d user (Orders.ProductID p) (Orders.Quantity p) t = (Err e, t') ->
  uuid_in user = Err e \/ no_room p t.
Proof.
  intros [_ Hq]%failures_valid. unfold insert_order. destruct (uuid_in user) as [u|e']; [|intros [= -> _]; by left].
  intros H. right. revert H. rewrite (proj2 (in_int32_spec (Orders.Quantity p))) by lia. simpl.
  destruct (list_find _ _) as [[i pr]|] eqn:Ep; [|done]. apply list_find_Some in Ep as (Hp%list_elem_of_lookup_2 & Hid & _).
  destruct (in_int32 (p_PriceCents pr * _)) eqn:E1; simpl;
    [destruct (_ <? 0) eqn:E2; [|destruct (MaxInt <? _) eqn:E3; [|done]]|]; intros _; bool2prop.
  - right. exists pr. split_and!; [done..|lia].
  - by left.
  - right. exists pr. split_and!; [done..|]. intros Hr.
    assert (in_int32 (p_PriceCents pr * Orders.Quantity p) = true) by (apply in_int32_spec; lia). congruence.
Qed.

Lemma ScanRow_cases {A} d (rows : list A) :
  match ScanRow d rows with Row a => head rows = Some a | ErrNoRows => rows = [] | RowErr _ => ~ faultless d end.
Proof using Type.
  unfold ScanRow, faultless. destruct rows as [|a rows], (breaks_off d) as [[n e]|] eqn:E1; try done; simpl;
    try (intros (_ & _ & ?); congruence); destruct (scan_fails d 0) eqn:E2; try done; intros (_ & H & ?); congruence.
Qed.

Lemma query_insert_cases d user body p t :
  Orders.decodeOrder body = Some p -> Orders.failures p = [] ->
  match Orders.query_insert d user p t with
  | (ErrNoRows, t') => t' = t /\ Forall (fun pr => p_ID pr ≠ Orders.ProductID p) (products t)
  | (Row (id, total), t') => exists o, placed d user body t t' o /\ ID o = id /\ TotalCents o = total
  | (RowErr _, t') =>
      (orders t' = orders t \/ exists o, placed d user body t t' o) /\
      (faultless d -> orders t' = orders t /\ ((exists e, uuid_in user = Err e) \/ no_room p t))
  end.
Proof.
  intros Hd Hf. unfold Orders.query_insert. destruct (fails d) eqn:Ed.
  { split; [by left|]. intros (H & _). congruence. }
  pose proof (insert_order_spec d user (Orders.ProductID p) (Orders.Quantity p) t) as H.
  destruct (insert_order _ _ _ _ _) as [[rows|e] t'] eqn:E.
  - pose proof (ScanRow_cases d rows) as Hs. destruct rows as [|[id total] [|]]; [| |done].
    + destruct (ScanRow d []) as [[] | |]; [done|done|]. destruct H as [-> _]. split; [by left|done].
    + destruct (insert_placed _ _ _ _ _ _ _ _ Hd Hf E) as (o & Ho & Hid & Htot).
      destruct (ScanRow d _) as [[] | |]; [simplify_eq/=; by eauto|done|]. split; [by eauto|done].
  - destruct H as (_ & H & _). split; [by left|]. intros _. split; [done|].
    destruct (insert_order_Err _ _ _ _ _ _ Hf E); [left; eauto|by right].
Qed.

(** C21. [POST /orders] has exactly three outcomes. 400: the body is no order, or
    its fields are out of range, or there is no such product; nothing changes.
    201: exactly one order was added, the one the body asks for, for the user of
    [X-User], and the answer names its identifier and total. 500: without a
    fault of the database this means a malformed user or a total (or identifier)
    out of range, and no order was added; with one, at most that order was. *)
Theorem post_order_outcome (d : Driver) (r : Request) (s : state) (Hm : Method r = "POST") (Hp : Path r = "/orders") :
  let user := Get (header r) "X-User" in
  let body := data (Body r) in
  let '(o, ops, s') := orders_mux d r s in
  let t := tables s in
  let t' := tables s' in
  o = Return /\
  ((exists msg, ops = Orders.bad_request msg /\ t' = t /\
     match Orders.decodeOrder body with
     | None => True
     | Some p => ~ (0 < Orders.ProductID p /\ 1 <= Orders.Quantity p <= 100) \/
                 Forall (fun pr => p_ID pr ≠ Orders.ProductID p) (products t)
     end) \/
   (exists ord, placed d user body t t' ord /\
     ops = writeJSON StatusCreated (Orders.created_json (ID ord) (TotalCents ord))) \/
   (ops = internal_error /\ (orders t' = orders t \/ exists ord, placed d user body t t' ord) /\
    (faultless d -> orders t' = orders t /\
       exists p, Orders.decodeOrder body = Some p /\ ((exists e, uuid_in user = Err e) \/ no_room p t)))).
Proof.
  intros user body. rewrite orders_mux_post by done. unfold Orders.post_orders. fold body.
  destruct (Orders.decodeOrder body) as [p|] eqn:Ed; [|split; [done|]; left; by eauto].
  pose proof (Orders.Struct_tags p) as Hv. destruct (Orders.failures p) as [|f fs] eqn:Ef; rewrite Hv.
  - fold user. pose proof (query_insert_cases d user body p (tables s) Ed Ef) as H.
    destruct (Orders.query_insert d user p (tables s)) as [[[id total]| |e] t']; (split; [done|]); simpl.
    + destruct H as (o & Ho & <- & <-). right; left. by eauto.
    + destruct H as [-> H]. left. eauto 10.
    + destruct H as [H1 H2]. right; right. split_and!; [done..|]. intros Hfl. destruct (H2 Hfl). eauto 10.
  - destruct f as [field tg]. split; [done|]. left. eexists. split_and!; [done..|]. left.
    rewrite <- failures_valid. congruence.
Qed.

(** C22. What [GET /orders] answers with status 200 is all the orders of the caller
    and nothing else: neither another user's order, nor only some of them when
    the result breaks off. It changes nothing. *)
Theorem orders_private (d : Driver) (r : Request) (s : state) (Hm : Method r = "GET") (Hp : Path r = "/orders") :
  let user := Get (header r) "X-User" in
  let '(o, ops, s') := orders_mux d r s in
  o = Return /\ tables s' = tables s /\
  ((ops = internal_error /\ ~ (faultless d /\ exists u, uuid_in user = Ok u)) \/
   exists u l, uuid_in user = Ok u /\ l ≡ₚ filter (fun o => UserID o = u) (orders (tables s)) /\
     ops = writeJSON StatusOK (Orders.orders_json time_text l)).
Proof.
  intros user. rewrite orders_mux_get by done. unfold Orders.get_orders. fold user.
  set (m1 := "failed to query the orders"). set (m2 := "failed to map the orders"). set (m3 := "failed to iterate the orders").
  destruct (list_rows_spec m1 m2 m3 d (select_orders user (tables s)) (Orders.orders_json time_text) s)
    as (ops & s' & E & Ht & [->|(l & El & ->)]); rewrite E; (split; [done|]); (split; [done|]).
  - left. split; [done|]. intros [Hf [u Hu]]. unfold select_orders in E. rewrite Hu in E. simpl in E.
    rewrite list_rows_faultless in E by done. discriminate E.
  - right. unfold select_orders in El. destruct (uuid_in user) as [u|]; [|done]. injection El as <-.
    eexists _, _. split; [done|]. split; [|done]. by rewrite heap_all.
Qed.

(** The two answers of [GET /orders]. *)
Lemma get_answers d r s : Method r = "GET" -> Path r = "/orders" ->
  exists c v, (orders_mux d r s).1.2 = writeJSON c v /\
    (c = 200 /\ (exists u l, uuid_in (Get (header r) "X-User") = Ok u /\ l ≡ₚ filter (fun o => UserID o = u) (orders (tables s)) /\
       v = Orders.orders_json time_text l) \/ c = 500).
Proof.
  intros Hm Hp. rewrite orders_mux_get by done. unfold Orders.get_orders.
  destruct (list_rows_spec "failed to query the orders" "failed to map the orders" "failed to iterate the orders" d
    (select_orders (Get (header r) "X-User") (tables s)) (Orders.orders_json time_text) s)
    as (ops & s' & -> & _ & [->|(l & El & ->)]); eexists _, _; (split; [done|]); [by right|left].
  split; [done|]. unfold select_orders in El. destruct (uuid_in _) as [u|]; [|done]. injection El as <-.
  eexists _, _. split; [done|]. split; [|done]. by rewrite heap_all.
Qed.

(** A request to the orders service adds at most one order, for its [X-User]. *)
Lemma orders_mux_adds d r s :
  let t := tables s in
  let t' := tables (orders_mux d r s).2 in
  orders t' = orders t \/
  exists o, placed d (Get (header r) "X-User") (data (Body r)) t t' o.
Proof.
  cbv zeta.
  apply (mux_cases _ r s (fun x => orders (tables x.2) = orders (tables s) \/ exists o, placed d (Get (header r) "X-User") (data (Body r)) (tables s) (tables x.2) o));
    [|by left]. apply Forall_cons; split; [by left|]. apply Forall_cons; split; [|apply Forall_cons; split; [|by apply Forall_nil]]; intros vs; simpl.
  - left. unfold Orders.get_orders.
    destruct (list_rows_spec "failed to query the orders" "failed to map the orders" "failed to iterate the orders" d
      (select_orders (Get (header r) "X-User") (tables s)) (Orders.orders_json time_text) s) as (ops & s1 & -> & H & _). simpl. by rewrite H.
  - destruct (post_orders_tables d vs r s) as (ops & s1 & -> & [H|(p & Hp & Hf & H)]); simpl; rewrite H; [by left|].
    pose proof (query_insert_cases d (Get (header r) "X-User") _ p (tables s) Hp Hf) as Hc.
    destruct (Orders.query_insert _ _ _ _) as [[[id total]| |e] t']; simpl.
    + destruct Hc as (o & Ho & _). by eauto.
    + destruct Hc as [-> _]. by left.
    + by destruct Hc as [[->|?] _]; [left|right].
Qed.

(** *** The answers as JSON *)

Lemma created_json_plain id total :
  literals (Orders.created_json id total) /\ depth (Orders.created_json id total) <= maxNestingDepth.
Proof using Type. split; [|done]. simpl. split_and!; try done; apply Itoa_literal. Qed.

Lemma created_json_inj id total id' total' :
  Encode (Orders.created_json id total) = Encode (Orders.created_json id' total') -> id = id' /\ total = total'.
Proof using Type.
  intros E. pose proof (created_json_plain id total) as [H1 H2]. pose proof (created_json_plain id' total') as [H3 H4].
  pose proof (Decode_Marshal _ newline H1 H2 eq_refl) as H5. pose proof (Decode_Marshal _ newline H3 H4 eq_refl) as H6.
  unfold Encode in E. rewrite E, H6 in H5. injection H5 as E1 E2. split; by apply (inj pretty).
Qed.

Lemma order_json_plain o : literals (Orders.order_json time_text o) /\ depth (Orders.order_json time_text o) = 1.
Proof using Type. split; [|done]. simpl. split_and!; try done; apply Itoa_literal. Qed.

Lemma orders_json_read l : Decode (Encode (Orders.orders_json time_text l)) = inr (Orders.orders_json time_text l, newline).
Proof using Type.
  apply Decode_Marshal; [| |done].
  - simpl. split; [|done]. rewrite map_map, foldr_and. apply Forall_true. intros o. apply order_json_plain.
  - simpl. rewrite map_map. assert (foldr Z.max 0 (map (fun o => depth (Orders.order_json time_text o)) l) <= 1);
      [|unfold maxNestingDepth; lia]. apply foldr_max; [done|]. apply Forall_true. intros o. by destruct (order_json_plain o) as [_ ->].
Qed.

Lemma post_created d r s id total s1 : Method r = "POST" -> Path r = "/orders" ->
  orders_mux d r s = (Return, writeJSON StatusCreated (Orders.created_json id total), s1) ->
  exists o, placed d (Get (header r) "X-User") (data (Body r)) (tables s) (tables s1) o /\ ID o = id /\ TotalCents o = total.
Proof.
  intros Hm Hp. rewrite orders_mux_post by done. unfold Orders.post_orders, writeJSON.
  destruct (Orders.decodeOrder _) as [p|] eqn:Ed; [|by intros [=]]. pose proof (Orders.Struct_tags p) as Hv.
  destruct (Orders.failures p) as [|[f tg] fs] eqn:Ef; rewrite Hv; [|by intros [=]].
  pose proof (query_insert_cases d (Get (header r) "X-User") _ p (tables s) Ed Ef) as H.
  destruct (Orders.query_insert _ _ _ _) as [[[id' total']| |e] t']; [|by intros [=]..].
  intros E. assert (E1 := f_equal (fun x => x.1.2) E). assert (E2 := f_equal snd E). simpl snd in E2. subst s1.
  apply (f_equal (fun l => l !! 2%nat)) in E1. assert (Encode (Orders.created_json id' total') = Encode (Orders.created_json id total))
    as [-> ->]%created_json_inj by congruence. done.
Qed.

Lemma get_faultless d r s u : Method r = "GET" -> Path r = "/orders" -> faultless d -> uuid_in (Get (header r) "X-User") = Ok u ->
  orders_mux d r s =
    (Return, writeJSON StatusOK (Orders.orders_json time_text (filter (fun o => UserID o = u) (heap_order (orders (tables s))))), s).
Proof.
  intros Hm Hp Hd Hu. rewrite orders_mux_get by done. unfold Orders.get_orders, select_orders. rewrite Hu. simpl result_bind.
  by apply list_rows_faultless.
Qed.

(** C24. An order that was acknowledged is there: once [POST /orders] has answered 201
    with an identifier, then after any further requests to the services a
    [GET /orders] of the same user that meets no database fault lists an order
    with that identifier and total. *)
Theorem order_is_durable (d d' : Driver) (r r' : Request) (s s1 s2 : state) (id total : Z)
    (Hm : Method r = "POST") (Hp : Path r = "/orders") (H0 : tables_ok (tables s))
    (Hpost : orders_mux d r s = (Return, writeJSON StatusCreated (Orders.created_json id total), s1))
    (Hrun : rtc step s1 s2)
    (Hm' : Method r' = "GET") (Hp' : Path r' = "/orders") (Hd' : faultless d')
    (Huser : uuid_in (Get (header r') "X-User") = uuid_in (Get (header r) "X-User")) :
  exists l body, (orders_mux d' r' s2).1 = (Return, [HSet "Content-Type" "application/json"; WHead 200; WBody body]) /\
    Decode body = inr (Orders.orders_json time_text l, newline) /\
    exists o, o ∈ l /\ ID o = id /\ TotalCents o = total.
Proof.
  destruct (post_created _ _ _ _ _ _ Hm Hp Hpost) as (o & [_ Hu Hok Hid _ Ht1] & <- & <-).
  assert (tables_ok (tables s1)) as Hok1 by (rewrite Ht1; by apply tables_ok_insert).
  destruct (run_ok s1 s2 Hok1 Hrun) as [_ [_ Hpre _]]. rewrite (get_faultless d' r' s2 (UserID o)) by congruence.
  eexists _, _. split; [done|]. split; [apply orders_json_read|]. exists o. split; [|done].
  apply list_elem_of_filter. split; [done|]. rewrite heap_all.
  eapply elem_of_prefix; [|exact Hpre]. rewrite Ht1. simpl. apply elem_of_app. right. by apply list_elem_of_singleton.
Qed.

(** *** The catalog *)

(** One segment of a clean path. *)
Definition plain_segment (id : string) : Prop :=
  id ≠ EmptyString /\ id ∉ ["."; ".."] /\ all_bytes (fun c => negb (bool_decide (c = ServeMux.slash))) id = true.

Lemma catalog_mux_product d r s id : plain_segment id -> Method r = "GET" -> Path r = "/products/" +:+ id ->
  catalog_mux d r s = Catalog.get_product time_text d [("id", id)] r s.
Proof using Type.
  intros (Hne & Hdots & Hsl) Hm Hp. unfold Catalog.catalog_mux, ServeMux.ServeHTTP. rewrite Hp, Hm.
  assert (ServeMux.path_segs ("/products/" +:+ id) = Some ["products"; id]) as Hseg.
  { change (Some (Split ServeMux.slash ("products" +:+ String ServeMux.slash id)) = Some ["products"; id]).
    by rewrite Split_first, Split_plain. }
  unfold ServeMux.is_clean. cbn [ServeMux.find_route]. unfold ServeMux.match_path. rewrite Hseg. simpl.
  rewrite (bool_decide_false (id ∈ _)) by done. rewrite (decide_False (P := id = EmptyString)) by done. reflexivity.
Qed.

(** C36. [GET /products/{id}] answers with the product of that identifier, or 404 if
    there is none. An [id] that is not a number is answered like a failure of
    the database, with 500. *)
Theorem product_outcome (d : Driver) (r : Request) (s : state) (id : string)
    (Hid : plain_segment id) (Hm : Method r = "GET") (Hp : Path r = "/products/" +:+ id) (Hd : faultless d) :
  let '(o, ops, s') := catalog_mux d r s in
  o = Return /\ tables s' = tables s /\
  match int8_in id with
  | Err _ => ops = internal_error
  | Ok n =>
      (Forall (fun p => p_ID p ≠ n) (products (tables s)) /\ ops = writeJSON StatusNotFound (error_body "product not found")) \/
      exists p, p ∈ products (tables s) /\ p_ID p = n /\
        ops = writeJSON StatusOK (JObject [("product", Catalog.product_json time_text p)])
  end.
Proof.
  rewrite (catalog_mux_product d r s id) by done. unfold Catalog.get_product. change (ServeMux.PathValue "id" [("id", id)]) with id.
  destruct Hd as (H1 & H2 & H3). unfold Catalog.query_product. rewrite H1. unfold select_product.
  destruct (int8_in id) as [n|e]; [|done]. simpl result_bind. cbv iota beta.
  set (l := filter _ _). assert (forall p, p ∈ l <-> p_ID p = n /\ p ∈ products (tables s)) as Hl
    by (intros p; unfold l; rewrite list_elem_of_filter, heap_all; done).
  clearbody l. unfold ScanRow. destruct l as [|p l]; simpl; rewrite H3.
  - split_and!; [done..|]. left. split; [|done]. apply Forall_forall. intros p Hin Hn.
    destruct (not_elem_of_nil p). by apply Hl.
  - rewrite H2. split_and!; [done..|]. right. exists p. destruct (Hl p) as [[Hpid Hin] _]; [by left|]. done.
Qed.

End Invariant.

End UpstreamLaws.

(** ** Example: the tables as the migrations leave them *)

Module UpstreamSample.
Import Service Store UpstreamLaws.

#[export] Instance postgres : Postgres := {|
  uuid_in s := if (String.length s =? 36)%nat then Ok (map_bytes lower_byte s) else Err "invalid input syntax for type uuid";
  int8_in := Atoi;
  heap_order A l := rev l;
|}.

Lemma map_bytes_length f s : String.length (map_bytes f s) = String.length s.
Proof. induction s; simpl; congruence. Qed.

Lemma map_lower_idem s : map_bytes lower_byte (map_bytes lower_byte s) = map_bytes lower_byte s.
Proof. induction s as [|c s IH]; simpl; [done|]. f_equal; [exact (fold_byte_idem false c)|done]. Qed.

#[export] Instance postgres_laws : PostgresLaws.
Proof.
  split.
  - intros s u. simpl. destruct (String.length s =? 36)%nat eqn:E; [|done]. intros [= <-].
    by rewrite map_bytes_length, E, map_lower_idem.
  - intros n Hn. by apply Atoi_Itoa.
  - intros A l. symmetry. apply Permutation_rev.
Qed.

#[export] Instance validator : Orders.Validator := {|
  Orders.Struct p := match Orders.failures p with [] => Orders.Valid | f :: fs => Orders.ValidationErrors f fs end
|}.

#[export] Instance validator_laws : Orders.ValidatorLaws.
Proof. by split. Qed.

Definition migrated : Tables :=
  mkTables
    [mkProduct 1 "Mechanical Keyboard" "TKL layout" 12999 0;
     mkProduct 2 "USB-C Hub" "7-in-1" 4999 0;
     mkProduct 3 "Monitor Arm" "Gas spring" 3499 0] [] 1.

Definition start : state := mkState migrated [].

Definition user : string := "3F2504E0-4F89-11D3-9A0C-0305E82C3301".

Definition request (method path body : string) : Request :=
  mkRequest method path EmptyString (Set_ "X-User" user ∅) (Z.of_nat (String.length body)) (mkBody body None) "orders"
    "10.0.0.2:80" Background.

Definition q : string := String dquote EmptyString.

(** An order of two hubs; the member names are matched up to case. *)
Definition two_hubs : string := "{" +:+ q +:+ "Product_ID" +:+ q +:+ ": 2, " +:+ q +:+ "quantity" +:+ q +:+ ": 2} ...".

Notation serve := (Orders.orders_mux Itoa id (fun _ => [])).

Definition after : state := (serve (sound 7) (request "POST" "/orders" two_hubs) start).2.

Example two_hubs_created :
  serve (sound 7) (request "POST" "/orders" two_hubs) start =
  (Return, writeJSON 201 (Orders.created_json 1 9998), after) /\
  orders (tables after) = [mkOrder 1 (map_bytes lower_byte user) 2 2 9998 7].
Proof. vm_compute. done. Qed.

Lemma migrated_ok : tables_ok migrated.
Proof. split; simpl; [apply Forall_nil_2|constructor|apply Forall_nil_2|lia]. Qed.

Lemma after_reachable : rtc (step Itoa id (fun _ => [])) start after.
Proof. eapply rtc_once, step_orders. Qed.

Lemma store_invariant_witness :
  tables_ok migrated /\ orders (tables after) ≠ [] /\ tables_ok (tables after).
Proof.
  split; [exact migrated_ok|]. split; [discriminate|].
  exact (proj1 (store_invariant Itoa id (fun _ => []) start after migrated_ok after_reachable)).
Defined.

Lemma post_order_outcome_witness :
  exists ord, placed (sound 7) user two_hubs migrated (tables after) ord /\ TotalCents ord = 9998.
Proof.
  pose proof (post_order_outcome Itoa id (fun _ => []) (sound 7) (request "POST" "/orders" two_hubs) start eq_refl eq_refl) as H.
  destruct H as (_ & [(msg & E & _)|[(o & Ho & E)|(E & _)]]); [discriminate E| |discriminate E].
  exists o. split; [exact Ho|]. destruct Ho as [_ _ _ _ _ Ht]. apply (f_equal orders) in Ht. vm_compute in Ht.
  injection Ht as <-. reflexivity.
Defined.

Lemma orders_private_witness :
  exists u l, uuid_in user = Ok u /\ l ≡ₚ filter (fun o => UserID o = u) (orders (tables after)) /\ length l = 1%nat.
Proof.
  pose proof (orders_private Itoa id (fun _ => []) (sound 8) (request "GET" "/orders" EmptyString) after eq_refl eq_refl) as H.
  destruct H as (_ & _ & [[E _]|(u & l & Hu & Hl & _)]); [discriminate E|].
  exists u, l. split; [exact Hu|]. split; [exact Hl|]. rewrite Hl. injection Hu as <-. reflexivity.
Defined.

Lemma order_is_durable_witness :
  exists l body, (serve (sound 8) (request "GET" "/orders" EmptyString) after).1 =
      (Return, [HSet "Content-Type" "application/json"; WHead 200; WBody body]) /\
    Decode body = inr (Orders.orders_json Itoa l, newline) /\ exists o, o ∈ l /\ ID o = 1 /\ TotalCents o = 9998.
Proof.
  exact (order_is_durable Itoa id (fun _ => []) (sound 7) (sound 8) (request "POST" "/orders" two_hubs)
    (request "GET" "/orders" EmptyString) start after after 1 9998 eq_refl eq_refl migrated_ok (proj1 two_hubs_created)
    (rtc_refl _ _) eq_refl eq_refl (sound_faultless 8) eq_refl).
Defined.

Lemma product_outcome_witness :
  (Catalog.catalog_mux Itoa (fun _ => []) (sound 8) (request "GET" "/products/latest" EmptyString) start).1.2 = internal_error.
Proof.
  assert (plain_segment "latest") as Hs by (split_and!; [discriminate|apply (bool_decide_unpack _); vm_compute; exact I|reflexivity]).
  pose proof (product_outcome Itoa (fun _ => []) (sound 8) (request "GET" "/products/latest" EmptyString) start "latest" Hs
    eq_refl eq_refl (sound_faultless 8)) as H.
  destruct (Catalog.catalog_mux _ _ _ _ _) as [[o ops] s']. exact (proj2 (proj2 H)).
Defined.

End UpstreamSample.
