(* ===== verification/DbPool.v ===== *)
(** * The services' connection pool and life cycle ([openDB], [warmPool] and [main]
      of [upstream/orders/main.go] and [upstream/catalog/main.go])

    The two services have the same [openDB] and [warmPool], and [main]s that
    differ in the handlers only. [Module Pool] is the part of [database/sql] they
    use; dialling the database, [sql.Open] and [time.ParseDuration] are parameters. *)

From S2P Require Import Prelude GoStrings.

(** ** [sql.DB] *)

Module Pool.

(** Settings, and how many connections are free and in use. [maxIdleCount] is
    0 for the default and negative for none. *)
Record DB := mkDB {
  maxOpen : Z;
  maxIdleCount : Z;
  maxLifetime : Z;
  maxIdleTime : Z;
  freeConn : Z;
  inUse : Z;
  closed : bool;
}.

Definition opened : DB := mkDB 0 0 0 0 0 0 false.

Definition numOpen (db : DB) : Z := freeConn db + inUse db.

Definition defaultMaxIdleConns : Z := 2.

Definition maxIdleConns (db : DB) : Z :=
  if maxIdleCount db =? 0 then defaultMaxIdleConns else if maxIdleCount db <? 0 then 0 else maxIdleCount db.

Definition set_conns (free used : Z) (db : DB) : DB :=
  mkDB (maxOpen db) (maxIdleCount db) (maxLifetime db) (maxIdleTime db) free used (closed db).

(** Free connections beyond the limit are closed. *)
Definition SetMaxIdleConns (n : Z) (db : DB) : DB :=
  let count := if 0 <? n then n else -1 in
  let db := mkDB (maxOpen db) count (maxLifetime db) (maxIdleTime db) (freeConn db) (inUse db) (closed db) in
  let count := if (0 <? maxOpen db) && (maxOpen db <? maxIdleConns db) then maxOpen db else count in
  let db := mkDB (maxOpen db) count (maxLifetime db) (maxIdleTime db) (freeConn db) (inUse db) (closed db) in
  set_conns (Z.min (freeConn db) (maxIdleConns db)) (inUse db) db.

Definition SetMaxOpenConns (n : Z) (db : DB) : DB :=
  let db := mkDB (Z.max 0 n) (maxIdleCount db) (maxLifetime db) (maxIdleTime db) (freeConn db) (inUse db) (closed db) in
  if (0 <? maxOpen db) && (maxOpen db <? maxIdleConns db) then SetMaxIdleConns n db else db.

Definition SetConnMaxLifetime (d : Z) (db : DB) : DB :=
  mkDB (maxOpen db) (maxIdleCount db) (Z.max 0 d) (maxIdleTime db) (freeConn db) (inUse db) (closed db).

Definition SetConnMaxIdleTime (d : Z) (db : DB) : DB :=
  mkDB (maxOpen db) (maxIdleCount db) (maxLifetime db) (Z.max 0 d) (freeConn db) (inUse db) (closed db).

(** [db.Conn(ctx)]: a free connection, else a new one; at the limit it waits
    until the context ends. [fault] is the error of dialling or of the context. *)
Definition Conn (fault : option string) (db : DB) : result unit * DB :=
  match fault with
  | Some e => (Err e, db)
  | None =>
      if 0 <? freeConn db then (Ok tt, set_conns (freeConn db - 1) (inUse db + 1) db)
      else if (0 <? maxOpen db) && (maxOpen db <=? numOpen db) then (Err "context deadline exceeded", db)
      else (Ok tt, set_conns (freeConn db) (inUse db + 1) db)
  end.

(** [conn.Close]: back to the free ones if there is room for it. *)
Definition conn_Close (db : DB) : DB :=
  if negb (closed db) && negb ((0 <? maxOpen db) && (maxOpen db <? numOpen db)) && (freeConn db <? maxIdleConns db)
  then set_conns (freeConn db + 1) (inUse db - 1) db
  else set_conns (freeConn db) (inUse db - 1) db.

(** [db.Close]: free connections are closed, the others when they are returned. *)
Definition Close (db : DB) : DB :=
  mkDB (maxOpen db) (maxIdleCount db) (maxLifetime db) (maxIdleTime db) 0 (inUse db) true.

End Pool.

Module Database.
Import Pool.

(** [fault i]: what befalls the [i]-th connection. *)
Fixpoint acquire (fault : nat -> option string) (i n : nat) (conns : nat) (db : DB) : result unit * nat * DB :=
  match n with
  | O => (Ok tt, conns, db)
  | S n =>
      match Conn (fault i) db with
      | (Err e, db) => (Err e, conns, db)
      | (Ok _, db) => acquire fault (S i) n (S conns) db
      end
  end.

(** The deferred loop of [warmPool]. *)
Definition close_all (conns : nat) (db : DB) : DB := Nat.iter conns conn_Close db.

(** The largest allocation of the runtime, in bytes; a pointer has 8. *)
Definition maxAlloc : Z := 2 ^ 48.

Inductive warmed := Warm (err : result unit) (db : DB) | MakePanic.

Definition warmPool (fault : nat -> option string) (n : Z) (db : DB) : warmed :=
  if (n <? 0) || (maxAlloc <? n * 8) then MakePanic  (* make([]*sql.Conn, 0, n) *)
  else let '(err, conns, db) := acquire fault 0 (Z.to_nat n) 0 db in Warm err (close_all conns db).

(** The outcome of [openDB], with the pool it leaves behind. *)
Inductive opened_db :=
| DBReady (db : DB)
| DBFailed (e : string) (left : option DB)
| DBPanic (msg : string).

Section Open.
Variable getenv : string -> string.
Variable ParseDuration : string -> result Z.
Variable sql_Open : string -> result unit.
Variable fault : nat -> option string.

Definition max_conns : result Z :=
  let v := getenv "DB_MAX_CONNS" in
  if decide (v = EmptyString) then Ok 50
  else wrap_err ("invalid DB_MAX_CONNS " +:+ Quote v) (Atoi v).

Definition conn_max_lifetime : result Z :=
  let v := getenv "DB_CONN_MAX_LIFETIME" in
  if decide (v = EmptyString) then Ok (30 * Minute)
  else wrap_err ("invalid DB_CONN_MAX_LIFETIME " +:+ Quote v) (ParseDuration v).

Definition configure (maxConns connMaxLifetime : Z) (db : DB) : DB :=
  SetConnMaxIdleTime 0 (SetConnMaxLifetime connMaxLifetime (SetMaxIdleConns maxConns (SetMaxOpenConns maxConns db))).

Definition openDB (dsn : string) : opened_db :=
  match max_conns with
  | Err e => DBFailed e None
  | Ok maxConns =>
      match conn_max_lifetime with
      | Err e => DBFailed e None
      | Ok connMaxLifetime =>
          match sql_Open dsn with
          | Err e => DBFailed e None
          | Ok _ =>
              match warmPool fault maxConns (configure maxConns connMaxLifetime opened) with
              | MakePanic => DBPanic "runtime error: makeslice: cap out of range"
              | Warm (Err e) db => DBFailed e (Some (Close db))
              | Warm (Ok _) db => DBReady db
              end
          end
      end
  end.
End Open.

(** ** [main] *)

Inductive event :=
| Logged (msg : string)
| Listening (addr : string)
| ServerShutdown (timeout : Z)
| DBClosed
| Exit (code : Z).

(** How the server's life ends: [ListenAndServe] fails, or a signal arrives and
    [Shutdown] returns. *)
Inductive ending := ServeFailed (e : string) | Signalled (shutdown : result unit).

Definition port (getenv : string -> string) : string :=
  if decide (getenv "PORT" = EmptyString) then "8080" else getenv "PORT".

(** [os.Exit] ends the process at once; a signal ends [main] by returning, which
    runs the deferred calls. [name] is [orders] or [catalog]. *)
Definition service_main (name : string) (getenv : string -> string) (db : opened_db) (e : ending) : list event :=
  match db with
  | DBFailed _ _ => [Logged "failed to connect to database"; Exit 1]
  | DBPanic _ => [Exit 2]
  | DBReady _ =>
      [Logged (name +:+ " starting"); Listening (":" +:+ port getenv)] ++
      match e with
      | ServeFailed _ => [Logged "server failed"; Exit 1]
      | Signalled r =>
          [ServerShutdown (5 * Second)] ++
          match r with Err _ => [Logged "server shutdown"] | Ok _ => [] end ++
          [DBClosed; Exit 0]
      end
  end.

(** [main] of the two services: the database named by [DATABASE_URL] first. *)
Section Mains.
Variable getenv : string -> string.
Variable ParseDuration : string -> result Z.
Variable sql_Open : string -> result unit.
Variable fault : nat -> option string.

Definition orders_main (e : ending) : list event :=
  service_main "orders" getenv (openDB getenv ParseDuration sql_Open fault (getenv "DATABASE_URL")) e.

Definition catalog_main (e : ending) : list event :=
  service_main "catalog" getenv (openDB getenv ParseDuration sql_Open fault (getenv "DATABASE_URL")) e.
End Mains.

(** ** No connection is lost *)

(** A pool limited to [n] open and [n] free connections. *)
Record limited (n : Z) (db : DB) : Prop := {
  l_open : maxOpen db = n;
  l_idle : maxIdleConns db = n;
  l_live : closed db = false;
}.

Lemma limited_conns n db f u : limited n db -> limited n (set_conns f u db).
Proof. by intros []. Qed.

Lemma SetMaxIdleConns_limited n db :
  0 < n -> maxOpen db = n -> freeConn db = 0 -> closed db = false ->
  limited n (SetMaxIdleConns n db) /\ freeConn (SetMaxIdleConns n db) = 0 /\ inUse (SetMaxIdleConns n db) = inUse db.
Proof.
  intros Hn Ho Hf Hc. unfold SetMaxIdleConns. rewrite (proj2 (Z.ltb_lt 0 n)) by done.
  assert (forall o l t f u c, maxIdleConns (mkDB o n l t f u c) = n) as Hi.
  { intros. unfold maxIdleConns. simpl. rewrite (proj2 (Z.eqb_neq n 0)), (proj2 (Z.ltb_ge n 0)) by lia. done. }
  rewrite !Hi. simpl. rewrite Ho, Z.ltb_irrefl, andb_false_r, Hi, Hf. split; [|split; [lia|done]].
  apply limited_conns. split; [done|apply Hi|done].
Qed.

Lemma configure_limited n d : 0 < n -> limited n (configure n d opened) /\ freeConn (configure n d opened) = 0 /\ inUse (configure n d opened) = 0.
Proof.
  intros Hn. unfold configure.
  assert (maxOpen (SetMaxOpenConns n opened) = n /\ freeConn (SetMaxOpenConns n opened) = 0 /\ closed (SetMaxOpenConns n opened) = false
    /\ inUse (SetMaxOpenConns n opened) = 0) as (H1 & H2 & H3 & H4).
  { unfold SetMaxOpenConns. rewrite Z.max_r by lia. destruct (_ && _); [|done].
    by destruct (SetMaxIdleConns_limited n (mkDB n 0 0 0 0 0 false) Hn eq_refl eq_refl eq_refl) as ([] & ? & ?). }
  destruct (SetMaxIdleConns_limited n _ Hn H1 H2 H3) as ([E1 E2 E3] & E4 & E5). split; [by split|]. split; [exact E4|exact (eq_trans E5 H4)].
Qed.

Lemma acquire_spec fault n : forall k i conns db,
  limited n db -> freeConn db = 0 -> inUse db = Z.of_nat conns -> Z.of_nat conns + Z.of_nat k <= n ->
  let '(err, conns', db') := acquire fault i k conns db in
  limited n db' /\ freeConn db' = 0 /\ inUse db' = Z.of_nat conns' /\ (conns' <= conns + k)%nat /\
  (err = Ok tt -> conns' = (conns + k)%nat) /\
  (err = Ok tt <-> forall j, (i <= j < i + k)%nat -> fault j = None).
Proof.
  induction k as [|k IH]; intros i conns db Hl Hf Hu Hk; simpl.
  { split_and!; try done; [lia..|]. split; [intros _ j ?; lia|done]. }
  unfold Conn. destruct (fault i) as [e|] eqn:Ei.
  { split_and!; try done; [lia|]. split; [done|]. intros H. rewrite (H i) in Ei by lia. done. }
  rewrite Hf. simpl. unfold numOpen. rewrite Hf, Hu, (l_open n db Hl).
  rewrite (proj2 (Z.leb_gt n (0 + Z.of_nat conns))), andb_false_r by lia.
  specialize (IH (S i) (S conns) (set_conns 0 (Z.of_nat conns + 1) db) (limited_conns _ _ _ _ Hl) eq_refl).
  destruct (acquire _ _ _ _ _) as [[err conns'] db']. destruct IH as (H1 & H2 & H3 & H4 & H5 & H6); [simpl; lia|lia|].
  split_and!; try done; [lia|intros; rewrite H5 by done; lia|]. rewrite H6. split; intros H j Hj; [|apply H; lia].
  destruct (decide (j = i)) as [->|]; [done|]. apply H. lia.
Qed.

Lemma close_all_spec n : forall conns db,
  limited n db -> inUse db = Z.of_nat conns -> 0 <= freeConn db -> freeConn db + Z.of_nat conns <= n ->
  let db' := close_all conns db in limited n db' /\ inUse db' = 0 /\ freeConn db' = freeConn db + Z.of_nat conns.
Proof.
  induction conns as [|k IH]; intros db Hl Hu H0 Hn; cbv zeta; unfold close_all; [simpl; split_and!; [done|lia..]|].
  rewrite Nat.iter_succ_r. assert (conn_Close db = set_conns (freeConn db + 1) (inUse db - 1) db) as ->.
  { unfold conn_Close, numOpen. rewrite (l_live n db Hl), (l_open n db Hl), (l_idle n db Hl).
    rewrite (proj2 (Z.ltb_ge n (freeConn db + inUse db))), (proj2 (Z.ltb_lt (freeConn db) n)), andb_false_r by lia. done. }
  destruct (IH (set_conns (freeConn db + 1) (inUse db - 1) db)) as (H1 & H2 & H3); [by apply limited_conns|simpl; lia..|].
  split_and!; [exact H1|exact H2|]. unfold close_all in H3. rewrite H3. simpl. lia.
Qed.

Lemma warmPool_spec fault n d :
  0 <= n -> n * 8 <= maxAlloc ->
  exists err db, warmPool fault n (configure n d opened) = Warm err db /\ inUse db = 0 /\
    (err = Ok tt <-> forall j, (j < Z.to_nat n)%nat -> fault j = None) /\
    (err = Ok tt -> freeConn db = n /\ closed db = false /\ maxOpen db = n).
Proof.
  intros H0 Hn. unfold warmPool. rewrite (proj2 (Z.ltb_ge n 0)), (proj2 (Z.ltb_ge maxAlloc _)) by lia. cbv [orb].
  destruct (decide (n = 0)) as [->|]; [eexists _, _; simpl; split_and!; try done; split; [lia|done]|].
  destruct (configure_limited n d) as (Hl & Hf & Hu); [lia|].
  pose proof (acquire_spec fault n (Z.to_nat n) 0 0 (configure n d opened) Hl Hf Hu ltac:(lia)) as H.
  destruct (acquire _ _ _ _ _) as [[err conns] db]. destruct H as (H1 & H2 & H3 & H4 & H5 & H6).
  destruct (close_all_spec n conns db H1 H3) as ([E1 E2 E3] & E4 & E5); [lia..|].
  exists err, (close_all conns db). split_and!; [done|done| |].
  - rewrite H6. split; intros H j Hj; apply H; lia.
  - intros Herr%H5. split_and!; [lia|done|done].
Qed.

(** What [openDB] leaves behind. *)
Lemma openDB_spec getenv ParseDuration sql_Open fault dsn :
  match openDB getenv ParseDuration sql_Open fault dsn with
  | DBReady db => exists n, max_conns getenv = Ok n /\ 0 <= n /\ freeConn db = n /\ inUse db = 0 /\ maxOpen db = n /\
      closed db = false /\ (forall j, (j < Z.to_nat n)%nat -> fault j = None)
  | DBFailed _ None => forall n, max_conns getenv = Ok n ->
      (forall d, conn_max_lifetime getenv ParseDuration = Ok d -> sql_Open dsn ≠ Ok tt)
  | DBFailed _ (Some db) => closed db = true /\ freeConn db = 0 /\ inUse db = 0 /\
      exists n j, max_conns getenv = Ok n /\ (j < Z.to_nat n)%nat /\ fault j ≠ None
  | DBPanic _ => exists n, max_conns getenv = Ok n /\ (n < 0 \/ maxAlloc < n * 8)
  end.
Proof.
  unfold openDB. destruct (max_conns getenv) as [n|e]; [|done].
  destruct (conn_max_lifetime _ _) as [d|e]; [|done]. destruct (sql_Open dsn) as [[]|e]; [|done].
  destruct ((n <? 0) || (maxAlloc <? n * 8)) eqn:E.
  { unfold warmPool. rewrite E. apply orb_true_iff in E. exists n. split; [done|]. destruct E; bool2prop; auto. }
  apply orb_false_iff in E as [H0%Z.ltb_ge H1%Z.ltb_ge].
  destruct (warmPool_spec fault n d H0 H1) as (err & db & -> & Hu & Hiff & Hok). destruct err as [[]|e].
  - destruct (Hok eq_refl) as (? & ? & ?). exists n. split_and!; try done. by apply Hiff.
  - split_and!; [done..|]. exists n.
    destruct (decide (Exists (fun j => fault j ≠ None) (seq 0 (Z.to_nat n)))) as [Hex|Hno].
    + apply Exists_exists in Hex as (j & Hj%elem_of_seq & Hf). exists j. split_and!; [done|lia|done].
    + apply not_Exists_Forall in Hno; [|intros; apply _]. rewrite Forall_forall in Hno. assert (Err e = Ok tt); [|done]. apply Hiff. intros j Hj.
      apply dec_stable. apply Hno. apply elem_of_seq. lia.
Qed.

(** Opening the database never leaves a connection in use. If it succeeds, the
    pool holds exactly the configured number of connections, all of them free,
    and may open no more; if warming up fails (exactly when one of them cannot
    be had) the pool is closed and empty; and it panics exactly when
    [DB_MAX_CONNS] is a number no slice can have as capacity. *)
Theorem pool_is_warm getenv ParseDuration sql_Open fault dsn :
  match openDB getenv ParseDuration sql_Open fault dsn with
  | DBReady db => exists n, max_conns getenv = Ok n /\ 0 <= n /\ freeConn db = n /\ inUse db = 0 /\ maxOpen db = n /\
      closed db = false /\ (forall j, (j < Z.to_nat n)%nat -> fault j = None)
  | DBFailed _ None => forall n, max_conns getenv = Ok n ->
      (forall d, conn_max_lifetime getenv ParseDuration = Ok d -> sql_Open dsn ≠ Ok tt)
  | DBFailed _ (Some db) => closed db = true /\ freeConn db = 0 /\ inUse db = 0 /\
      exists n j, max_conns getenv = Ok n /\ (j < Z.to_nat n)%nat /\ fault j ≠ None
  | DBPanic _ => exists n, max_conns getenv = Ok n /\ (n < 0 \/ maxAlloc < n * 8)
  end.
Proof. apply openDB_spec. Qed.

(** A service listens only with an open pool, and closes the pool once, after
    the server has stopped; [main] returns normally only on a signal. *)
Lemma service_order name getenv db e :
  match db, e with
  | DBReady _, Signalled _ => exists pre, service_main name getenv db e = pre ++ [DBClosed; Exit 0] /\
      Listening (":" +:+ port getenv) ∈ pre /\ ServerShutdown (5 * Second) ∈ pre /\ DBClosed ∉ pre
  | DBReady _, ServeFailed _ => exists pre, service_main name getenv db e = pre ++ [Exit 1]
  | _, _ => forall addr, Listening addr ∉ service_main name getenv db e
  end.
Proof.
  destruct db as [p|e' left|m]; [|intros addr; simpl; set_solver..].
  destruct e as [e'|r]; simpl; [by eexists [_; _; _]|].
  destruct r as [[]|e']; [eexists [_; _; _]|eexists [_; _; _; _]]; (split; [done|]); set_solver.
Qed.

(** A service that listens, on [PORT] or 8080, has its database open with every
    connection it may use already made and free. *)
Theorem services_listen_warm getenv ParseDuration sql_Open fault e addr
    (Hl : Listening addr ∈ orders_main getenv ParseDuration sql_Open fault e ++ catalog_main getenv ParseDuration sql_Open fault e) :
  addr = ":" +:+ port getenv /\ exists db n,
    openDB getenv ParseDuration sql_Open fault (getenv "DATABASE_URL") = DBReady db /\ max_conns getenv = Ok n /\
    freeConn db = n /\ inUse db = 0 /\ maxOpen db = n.
Proof.
  pose proof (openDB_spec getenv ParseDuration sql_Open fault (getenv "DATABASE_URL")) as H.
  unfold orders_main, catalog_main in Hl. destruct (openDB _ _ _ _ _) as [db|e' left|m] eqn:E; [|simpl in Hl; set_solver..].
  split; [destruct e as [e'|[[]|e']]; simpl in Hl; set_solver|].
  destruct H as (n & H1 & _ & H2 & H3 & H4 & _). by exists db, n.
Qed.

Lemma services_listen_warm_witness :
  exists n, max_conns (fun _ => EmptyString) = Ok n /\ n = 50.
Proof.
  destruct (services_listen_warm (fun _ => EmptyString) (fun _ => Ok 0) (fun _ => Ok tt) (fun _ => None) (Signalled (Ok tt)) ":8080")
    as (_ & db & n & H1 & H2 & H3 & _).
  - apply elem_of_app. left. apply list_elem_of_further, list_elem_of_here.
  - exists n. split; [exact H2|]. injection H2 as <-. reflexivity.
Defined.

(** A negative number of connections, which [database/sql] takes for no limit,
    does not pass [warmPool]. *)
Example negative_max_conns_panics :
  openDB (fun k => if decide (k = "DB_MAX_CONNS") then "-1" else EmptyString) (fun _ => Ok 0) (fun _ => Ok tt) (fun _ => None) "dsn" =
  DBPanic "runtime error: makeslice: cap out of range".
Proof. vm_compute. done. Qed.

End Database.
