(* ===== verification/Auth.v ===== *)
(** * Authentication and authorisation ([internal/middleware/auth.go])

    The JWT library ([github.com/golang-jwt/jwt]) is not part of the repository:
    class [JWT] has the one call the middleware makes, and [JWTLaws] its
    documented behaviour. Everything the middleware itself decides (which key it
    hands out, which claims it accepts, who is let through) is modelled. *)

From S2P Require Import Prelude GoStrings Http.
Import Http.

Module Auth.

(** A decoded JSON value, Go's [any]. *)
Inductive any :=
| JString (s : string)
| JNumber (n : Z)
| JBool (b : bool)
| JNull
| JArray (l : list any)
| JObject (m : list (string * any)).

(** A parsed token: the family of its signing method, the [alg] header, and its
    claims ([None] when they are not a [jwt.MapClaims]). *)
Record Token := mkToken {
  method_rsa : bool;
  alg : string;
  token_claims : option (gmap string any);
}.

(** [jwt.ParseWithClaims] with a key function and [jwt.WithValidMethods]. *)
Class JWT (Key : Type) := {
  ParseWithClaims : string -> (Token -> result Key) -> list string -> result Token;
}.

(** The library's documentation: a token is returned without an error only if
    its [alg] is one of the valid methods, the key function accepted it, and its
    signature verifies under the key that function returned. *)
Class JWTLaws (Key : Type) `{!JWT Key} := {
  verified : Key -> string -> Token -> Prop;
  parse_sound : forall s keyfunc methods t, ParseWithClaims s keyfunc methods = Ok t ->
    alg t ∈ methods /\ exists k, keyfunc t = Ok k /\ verified k s t;
}.

Definition newClaimsContext (c : Context) (claims : Claims) : Context :=
  mkContext (ctx_requestID c) (Some claims) (ctx_target c) (ctx_span c).

Definition ClaimsFromContext (c : Context) : option Claims := ctx_claims c.

Definition as_string (v : option any) : option string :=
  match v with Some (JString s) => Some s | _ => None end.

Definition as_list (v : option any) : option (list any) :=
  match v with Some (JArray l) => Some l | _ => None end.

(** The loop over the raw roles: it stops at the first one that is no string. *)
Fixpoint string_roles (raw : list any) : option (list string) :=
  match raw with
  | [] => Some []
  | v :: raw =>
      match as_string (Some v) with
      | None => None
      | Some role => (fun roles => role :: roles) <$> string_roles raw
      end
  end.

Definition extractClaims (t : Token) : result Claims :=
  match token_claims t with
  | Some claims =>
      match as_string (claims !! "sub") with
      | None => Err "missing sub claim"
      | Some sub =>
          match as_list (claims !! "roles") with
          | None => Err "missing roles claim"
          | Some rawRoles =>
              match string_roles rawRoles with
              | None => Err "roles claim is corrupted"
              | Some roles => Ok (mkClaims sub roles)
              end
          end
      end
  | None => Err "cannot extract claims from token"
  end.

Section Middleware.
Context {Key : Type} `{!JWT Key} {S : Type}.

Definition keyFunc (publicKey : Key) (t : Token) : result Key :=
  if method_rsa t then Ok publicKey else Err ("unexpected method: " +:+ alg t).

Definition parseAndValidateToken (tokenStr : string) (publicKey : Key) : result Token :=
  ParseWithClaims tokenStr (keyFunc publicKey) ["RS256"].

Definition JWTAuth (publicKey : Key) : Middleware S := fun next W RW r w s =>
  let authHeader := Get (header r) "Authorization" in
  match CutPrefix authHeader "Bearer " with
  | None => (Return, writeJSON StatusUnauthorized [("error", "missing token")] w, s)
  | Some tokenStr =>
      match parseAndValidateToken tokenStr publicKey with
      | Err _ => (Return, writeJSON StatusUnauthorized [("error", "invalid token")] w, s)
      | Ok token =>
          match extractClaims token with
          | Err _ => (Return, writeJSON StatusUnauthorized [("error", "invalid token")] w, s)
          | Ok claims => next W RW (WithContext (newClaimsContext (ctx r) claims) r) w s
          end
      end
  end.

(** [slices.Contains] *)
Definition Contains (l : list string) (x : string) : bool := bool_decide (x ∈ l).

Definition RequireAnyRole (roles : list string) : Middleware S := fun next W RW r w s =>
  match ClaimsFromContext (ctx r) with
  | None => (Return, writeJSON StatusUnauthorized [("error", "missing token")] w, s)
  | Some claims =>
      if existsb (Contains (Roles claims)) roles
      then next W RW r w s
      else (Return, writeJSON StatusForbidden [("error", "forbidden")] w, s)
  end.
End Middleware.

(** ** Who gets through *)

(** The identity a token carries. *)
Definition token_identity (t : Token) (c : Claims) : Prop :=
  exists m raw, token_claims t = Some m /\ m !! "sub" = Some (JString (Subject c)) /\
    m !! "roles" = Some (JArray raw) /\ raw = map JString (Roles c).

Lemma string_roles_spec raw roles : string_roles raw = Some roles <-> raw = map JString roles.
Proof.
  revert roles. induction raw as [|v raw IH]; intros roles; simpl.
  - split; [by intros [= <-]|by destruct roles].
  - destruct v; simpl; try (split; [done|by destruct roles]).
    split.
    + intros (l & Hl & ->)%fmap_Some_1. simpl. f_equal. by apply IH.
    + destruct roles as [|x roles]; [done|]. intros [= -> ->].
      by rewrite (proj2 (IH roles) eq_refl).
Qed.

Lemma JString_map_inj l1 l2 : map JString l1 = map JString l2 -> l1 = l2.
Proof. revert l2. induction l1; intros [|]; simpl; intros; simplify_eq; f_equal; auto. Qed.

Lemma extractClaims_spec t c : extractClaims t = Ok c <-> token_identity t c.
Proof.
  unfold extractClaims, token_identity. destruct c as [sub roles]. simpl.
  destruct (token_claims t) as [m|]; [|naive_solver].
  destruct (m !! "sub") as [[s| | | | |]|] eqn:E1; simpl; try naive_solver.
  destruct (m !! "roles") as [[| | | |raw|]|] eqn:E2; simpl; try naive_solver.
  destruct (string_roles raw) as [rs|] eqn:E.
  - apply string_roles_spec in E as ->. split; [intros [= -> ->]; naive_solver|].
    intros (? & ? & ? & ? & ? & Hm). simplify_eq. by apply JString_map_inj in H as ->.
  - split; [done|]. intros (? & ? & ? & ? & ? & ->). simplify_eq.
    by rewrite (proj2 (string_roles_spec _ roles) eq_refl) in E.
Qed.

(** What a middleware hands to the next handler, if it calls it. *)
Definition forwarded (mw : Middleware (list Request)) {W} (RW : ResponseWriter W) (r : Request) (w : W) :
    list Request := (mw recorder W RW r w []).2.

(** A request passes [JWTAuth] only with an [Authorization: Bearer] token
    whose algorithm is RS256 and whose signature verifies under the configured
    public key; the next handler then sees exactly the token's subject and roles
    as the request's claims, and nothing else of the request is changed.
    Every other request is answered 401 and never reaches it. *)
Theorem jwt_auth_gate {Key} `{!JWT Key, !JWTLaws Key} (publicKey : Key)
    {W} (RW : ResponseWriter W) (r : Request) (w : W) :
  match forwarded (JWTAuth publicKey) RW r w with
  | [] => exists msg, (JWTAuth publicKey recorder W RW r w []).1.2 =
            play (json_ops StatusUnauthorized [("error", msg)]) w
  | [r'] => exists tokenStr t c,
      Get (header r) "Authorization" = "Bearer " +:+ tokenStr /\
      verified publicKey tokenStr t /\ method_rsa t = true /\ alg t = "RS256" /\ token_identity t c /\
      r' = WithContext (mkContext (ctx_requestID (ctx r)) (Some c) (ctx_target (ctx r)) (ctx_span (ctx r))) r
  | _ => False
  end.
Proof.
  unfold forwarded, JWTAuth.
  destruct (CutPrefix (Get (header r) "Authorization") "Bearer ") as [tokenStr|] eqn:Ecut;
    [|by exists "missing token"].
  destruct (parseAndValidateToken tokenStr publicKey) as [t|e] eqn:Eparse; [|by exists "invalid token"].
  destruct (extractClaims t) as [c|e] eqn:Eclaims; [|by exists "invalid token"].
  simpl. exists tokenStr, t, c.
  destruct (parse_sound _ _ _ _ Eparse) as (Halg & k & Hk & Hver).
  unfold keyFunc in Hk. destruct (method_rsa t) eqn:Ersa; simplify_eq.
  split_and!; [|done|done|set_solver|by apply extractClaims_spec|done].
  by apply CutPrefix_spec.
Qed.

(** [RequireAnyRole] lets a request through, unchanged, exactly when it
    carries claims that share a role with the list; without claims the answer is
    401, with claims but no such role 403, and the next handler is not called. *)
Theorem require_any_role_gate (roles : list string) {W} (RW : ResponseWriter W) (r : Request) (w : W) :
  let '(_, w', seen) := RequireAnyRole roles recorder W RW r w [] in
  match ctx_claims (ctx r) with
  | None => seen = [] /\ w' = play (json_ops StatusUnauthorized [("error", "missing token")]) w
  | Some c =>
      ((exists role, role ∈ roles /\ role ∈ Roles c) /\ seen = [r] /\ w' = w) \/
      ((forall role, role ∈ roles -> role ∉ Roles c) /\ seen = [] /\
        w' = play (json_ops StatusForbidden [("error", "forbidden")]) w)
  end.
Proof.
  unfold RequireAnyRole, ClaimsFromContext. destruct (ctx_claims (ctx r)) as [c|]; [|done].
  destruct (existsb (Contains (Roles c)) roles) eqn:E.
  - left. apply existsb_exists in E as (role & Hin%list_elem_of_In & Hc).
    apply bool_decide_eq_true in Hc. split; [eauto|done].
  - right. split; [|done]. intros role Hrole Hc.
    assert (existsb (Contains (Roles c)) roles = true) as Ht; [|congruence].
    apply existsb_exists. exists role. split; [by apply list_elem_of_In|]. by apply bool_decide_eq_true.
Qed.

(** ** A concrete token library, for evaluation *)

Module Sample.

Definition token : Token :=
  mkToken true "RS256" (Some {["sub" := JString "alice"; "roles" := JArray [JString "admin"; JString "dev"]]}).

#[export] Instance jwt : JWT string := {|
  ParseWithClaims s keyfunc methods :=
    match keyfunc token with
    | Ok k => if bool_decide (s = "tok" /\ k = "key" /\ "RS256" ∈ methods) then Ok token else Err "signature is invalid"
    | Err e => Err e
    end |}.

#[export] Instance jwt_laws : JWTLaws string.
Proof.
  refine {| verified k s t := k = "key" /\ s = "tok" /\ t = token |}.
  intros s keyfunc methods t. simpl. destruct (keyfunc token) as [k|e] eqn:E; [|done].
  case_bool_decide as H; intros [= <-]. destruct H as (-> & -> & H). split; [done|eauto].
Defined.

Definition request (authorization : string) : Request :=
  mkRequest "GET" "/orders" EmptyString {["Authorization" := [authorization]]} 0
    (mkBody EmptyString None) "gateway" "10.0.0.1:4711" Background.

End Sample.

Import Sample.

Lemma jwt_auth_gate_witness :
  exists r', forwarded (JWTAuth "key") response_Writer (Sample.request "Bearer tok") new_response = [r'] /\
    verified "key" "tok" Sample.token /\ ctx_claims (ctx r') = Some (mkClaims "alice" ["admin"; "dev"]).
Proof.
  pose proof (jwt_auth_gate "key" response_Writer (Sample.request "Bearer tok") new_response) as H.
  destruct (forwarded (JWTAuth "key") response_Writer (Sample.request "Bearer tok") new_response)
    as [|r' [|]] eqn:E; try (vm_compute in E; discriminate E).
  exists r'. split; [reflexivity|]. destruct H as (s & t & c & Hh & (_ & Hs & Ht) & _ & _ & Hid & Hr).
  split; [repeat split; reflexivity|]. vm_compute in E. injection E as <-. reflexivity.
Defined.

End Auth.
