(* ===== verification/Guards.v ===== *)
(** * Admission guards of the middleware package
    ([internal/middleware/ratelimit.go], [maxbody.go], [concurrencylimit.go])

    Each of these decides whether a request proceeds: by rate, by body size, by
    the number of requests in flight. *)

From Stdlib Require Import Ascii.
From S2P Require Import Prelude GoStrings Http Auth.
Import Http.

Module RateLimitMW.

(** ** Keys *)

Fixpoint IndexByte (c : ascii) (s : string) : option nat :=
  match s with
  | EmptyString => None
  | String c' s => if decide (c' = c) then Some 0%nat else S <$> IndexByte c s
  end.

Fixpoint LastIndexByte (c : ascii) (s : string) : option nat :=
  match s with
  | EmptyString => None
  | String c' s =>
      match LastIndexByte c s with
      | Some i => Some (S i)
      | None => if decide (c' = c) then Some 0%nat else None
      end
  end.

Fixpoint drop_bytes (n : nat) (s : string) : string :=
  match n, s with
  | O, _ => s
  | S n, String _ s => drop_bytes n s
  | S _, EmptyString => EmptyString
  end.

Fixpoint take_bytes (n : nat) (s : string) : string :=
  match n, s with
  | S n, String c s => String c (take_bytes n s)
  | _, _ => EmptyString
  end.

Definition colon : ascii := byte 58.
Definition lbracket : ascii := byte 91.
Definition rbracket : ascii := byte 93.

Definition has_byte (c : ascii) (s : string) : bool := bool_decide (is_Some (IndexByte c s)).

(** The checks [net.SplitHostPort] makes once the host is known: no stray
    brackets in [hostport[j:]] and [hostport[k:]]. *)
Definition split_finish (hostport host : string) (i j k : nat) : result (string * string) :=
  if has_byte lbracket (drop_bytes j hostport) then Err "unexpected '[' in address"
  else if has_byte rbracket (drop_bytes k hostport) then Err "unexpected ']' in address"
  else Ok (host, drop_bytes (S i) hostport).

(** [net.SplitHostPort] *)
Definition SplitHostPort (hostport : string) : result (string * string) :=
  match LastIndexByte colon hostport with
  | None => Err "missing port in address"
  | Some i =>
      match hostport with
      | String c _ =>
          if decide (c = lbracket) then
            match IndexByte rbracket hostport with
            | None => Err "missing ']' in address"
            | Some e =>
                if decide (S e = String.length hostport) then Err "missing port in address"
                else if decide (S e = i)
                then split_finish hostport (take_bytes (e - 1) (drop_bytes 1 hostport)) i 1 (S e)
                else match drop_bytes (S e) hostport with
                     | String c' _ =>
                         if decide (c' = colon) then Err "too many colons in address"
                         else Err "missing port in address"
                     | EmptyString => Err "missing port in address"
                     end
            end
          else
            let host := take_bytes i hostport in
            if has_byte colon host then Err "too many colons in address"
            else split_finish hostport host i 0 0
      | EmptyString => Err "missing port in address"
      end
  end.

Definition KeyByIP (r : Request) : string :=
  match SplitHostPort (RemoteAddr r) with
  | Err _ => RemoteAddr r
  | Ok (host, _) => host
  end.

Definition KeyByJWTSub (r : Request) : string :=
  match Auth.ClaimsFromContext (ctx r) with
  | Some claims => if decide (Subject claims = EmptyString) then KeyByIP r else Subject claims
  | None => KeyByIP r
  end.

(** ** The middleware *)

Section Middleware.
Context {S : Type}.

(** A [ratelimit.Limiter]: its [Allow] method, acting on the shared state. *)
Definition Limiter : Type := string -> S -> result bool * S.

Definition RateLimit (limiter : Limiter) (keyFunc : Request -> string) (logger : SlogLogger S) :
    Middleware S := fun next W RW r w s =>
  let key := keyFunc r in
  let '(res, s) := limiter key s in
  match res with
  | Err e =>
      let s := logger (mkLog LevelError "rate limiter error, failing open"
                         [("key", AString key); ("error", AString e)]) s in
      next W RW r w s
  | Ok allowed =>
      if negb allowed then
        let w := header_Set "Content-Type" "application/json" w in
        let w := header_Set "Retry-After" "1" w in
        let w := w_WriteHeader StatusTooManyRequests w in
        let w := write (json_map [("error", "rate limit exceeded")]) w in
        (Return, w, s)
      else next W RW r w s
  end.
End Middleware.
Arguments Limiter : clear implicits.

Definition rejected_ops : list wop :=
  [HSet "Content-Type" "application/json"; HSet "Retry-After" "1"; WHead StatusTooManyRequests;
   WBody (json_map [("error", "rate limit exceeded")])].

(** ** Sequences of requests *)

(** Requests served one after the other, each with its own writer. *)
Fixpoint serve {S} (h : Handler S) (rs : list Request) (s : S) : list response * S :=
  match rs with
  | [] => ([], s)
  | r :: rs =>
      let '(_, w, s) := h response _ r new_response s in
      let '(ws, s) := serve h rs s in (w :: ws, s)
  end.

(** The verdicts the limiter gives to the same requests. *)
Fixpoint verdicts {S} (limiter : Limiter S) (keyFunc : Request -> string) (rs : list Request) (s : S) :
    list (result bool) :=
  match rs with
  | [] => []
  | r :: rs => let '(v, s) := limiter (keyFunc r) s in v :: verdicts limiter keyFunc rs s
  end.

(** A request is let through unless the limiter says no; an error counts as yes. *)
Definition admits (v : result bool) : bool := match v with Ok b => b | Err _ => true end.

Definition handled (v : result bool) : response :=
  if admits v then new_response else play rejected_ops new_response.

(** The limiter lifted to the state that also records the requests let through. *)
Definition lifted {S} (limiter : Limiter S) : Limiter (S * list Request) := fun k '(s, l) =>
  let '(v, s) := limiter k s in (v, (s, l)).

Definition recording {S} : Handler (S * list Request) := fun W _ r w '(s, l) => (Return, w, (s, l ++ [r])).

(** Over every sequence of requests, the next handler receives exactly the
    requests for which the limiter says yes or fails, in order, and the others
    are answered 429 with a [Retry-After] header. *)
Theorem rate_limit_admits {S} (limiter : Limiter S) (keyFunc : Request -> string)
    (rs : list Request) (s : S) (l : list Request) :
  let vs := verdicts limiter keyFunc rs s in
  let '(ws, (_, seen)) := serve (RateLimit (lifted limiter) keyFunc (fun _ s => s) recording) rs (s, l) in
  seen = l ++ map fst (filter (fun p => admits p.2 = true) (zip rs vs)) /\
  ws = map handled vs.
Proof.
  cbv zeta. revert s l. induction rs as [|r rs IH]; intros s l; simpl; [by rewrite app_nil_r|].
  unfold RateLimit at 1. unfold lifted at 1.
  destruct (limiter (keyFunc r) s) as [v s1] eqn:E. simpl.
  destruct v as [[]|e]; simpl.
  - specialize (IH s1 (l ++ [r])). destruct (serve _ rs _) as [ws [s2 seen]].
    destruct IH as [-> ->]. split; [by rewrite <- app_assoc|done].
  - specialize (IH s1 l). destruct (serve _ rs _) as [ws [s2 seen]]. destruct IH as [-> ->]. done.
  - specialize (IH s1 (l ++ [r])). destruct (serve _ rs _) as [ws [s2 seen]].
    destruct IH as [-> ->]. split; [by rewrite <- app_assoc|done].
Qed.

(** ** Keys of addresses *)

Lemma has_byte_cons c d s : has_byte c (String d s) = bool_decide (d = c) || has_byte c s.
Proof.
  unfold has_byte. simpl. case_decide as E.
  - rewrite (bool_decide_eq_true_2 _ E). simpl. done.
  - rewrite (bool_decide_eq_false_2 _ E). simpl. apply bool_decide_ext. apply fmap_is_Some.
Qed.

Lemma has_byte_app c s t : has_byte c (s +:+ t) = has_byte c s || has_byte c t.
Proof.
  induction s as [|d s IH]; [done|]. rewrite append_cons, !has_byte_cons, IH. by rewrite orb_assoc.
Qed.

Lemma LastIndexByte_none c s : has_byte c s = false -> LastIndexByte c s = None.
Proof.
  induction s as [|d s IH]; [done|]. rewrite has_byte_cons. intros [H1 H2]%orb_false_iff.
  simpl. rewrite IH by done. bool2prop. by rewrite decide_False.
Qed.

Lemma LastIndexByte_app c s t :
  has_byte c t = false -> LastIndexByte c (s +:+ String c t) = Some (String.length s).
Proof.
  intros Ht. induction s as [|d s IH]; rewrite ?append_nil_l, ?append_cons; simpl.
  - by rewrite LastIndexByte_none, decide_True.
  - by rewrite IH.
Qed.

Lemma IndexByte_app c s t :
  has_byte c s = false -> IndexByte c (s +:+ String c t) = Some (String.length s).
Proof.
  induction s as [|d s IH]; rewrite ?append_nil_l, ?append_cons; simpl; [by rewrite decide_True|].
  rewrite has_byte_cons. intros [H1 H2]%orb_false_iff. bool2prop. rewrite decide_False by done.
  by rewrite IH.
Qed.

Lemma drop_bytes_app s t : drop_bytes (String.length s) (s +:+ t) = t.
Proof. induction s; rewrite ?append_nil_l, ?append_cons; simpl; [by destruct t|done]. Qed.

Lemma drop_bytes_sep s c t : drop_bytes (S (String.length s)) (s +:+ String c t) = t.
Proof. induction s as [|d s IH]; rewrite ?append_nil_l, ?append_cons; [by destruct t|exact IH]. Qed.

Lemma take_bytes_app s t : take_bytes (String.length s) (s +:+ t) = s.
Proof. induction s as [|c s IH]; rewrite ?append_nil_l, ?append_cons; simpl; [by destruct t|by rewrite IH]. Qed.

(** No colon and no bracket. *)
Definition plain (s : string) : Prop :=
  has_byte colon s = false /\ has_byte lbracket s = false /\ has_byte rbracket s = false.

Lemma SplitHostPort_plain host port :
  plain host -> plain port -> SplitHostPort (host +:+ String colon port) = Ok (host, port).
Proof.
  intros (Hh1 & Hh2 & Hh3) (Hp1 & Hp2 & Hp3). unfold SplitHostPort.
  rewrite LastIndexByte_app by done.
  assert (exists c rest, host +:+ String colon port = String c rest /\ c ≠ lbracket) as (c & rest & E & Hc).
  { destruct host as [|c host]; [by eexists colon, port|]. exists c, (host +:+ String colon port).
    split; [done|]. rewrite has_byte_cons in Hh2. apply orb_false_iff in Hh2 as [? _]. by bool2prop. }
  rewrite E, decide_False by done. rewrite <- E, take_bytes_app, Hh1.
  unfold split_finish. assert (drop_bytes 0 (host +:+ String colon port) = host +:+ String colon port) as ->
    by (by destruct host).
  rewrite drop_bytes_sep, !has_byte_app, !has_byte_cons, Hh2, Hh3, Hp2, Hp3. done.
Qed.

Lemma SplitHostPort_bracketed host port :
  has_byte lbracket host = false -> has_byte rbracket host = false -> plain port ->
  SplitHostPort (String lbracket (host +:+ String rbracket (String colon port))) = Ok (host, port).
Proof.
  intros Hh2 Hh3 (Hp1 & Hp2 & Hp3). unfold SplitHostPort.
  set (full := String lbracket (host +:+ String rbracket (String colon port))).
  assert (full = (String lbracket host +:+ String rbracket EmptyString) +:+ String colon port) as Efull
    by (unfold full; by rewrite append_assoc).
  assert (LastIndexByte colon full = Some (S (S (String.length host)))) as ->.
  { rewrite Efull, LastIndexByte_app by done. rewrite length_append. simpl. f_equal. lia. }
  assert (IndexByte rbracket full = Some (S (String.length host))) as ->.
  { unfold full. rewrite <- append_cons. rewrite IndexByte_app; [done|].
    rewrite has_byte_cons. by rewrite Hh3. }
  unfold full at 1. rewrite decide_True by done.
  rewrite decide_False; cycle 1.
  { unfold full. simpl. rewrite length_append. simpl. lia. }
  rewrite decide_True by done. unfold split_finish.
  assert (drop_bytes (S (S (S (String.length host)))) full = port) as ->.
  { rewrite Efull. replace (S (S (String.length host)))
      with (String.length (String lbracket host +:+ String rbracket EmptyString))
      by (rewrite length_append; simpl; lia). apply drop_bytes_sep. }
  replace (S (String.length host) - 1)%nat with (String.length host) by lia.
  assert (drop_bytes 1 full = host +:+ String rbracket (String colon port)) as E1
    by (unfold full; simpl; by destruct (host +:+ _)).
  assert (drop_bytes (S (S (String.length host))) full = String colon port) as E2.
  { rewrite Efull. replace (S (S (String.length host)))
      with (String.length (String lbracket host +:+ String rbracket EmptyString))
      by (rewrite length_append; simpl; lia). apply drop_bytes_app. }
  by rewrite E1, E2, take_bytes_app, has_byte_app, !has_byte_cons, Hh2, Hp2, Hp3.
Qed.

(** The rate-limit key of a client is its address without the port, for
    IPv4 addresses and host names and for bracketed IPv6 addresses: connections
    of one client from different ports share one bucket. With [jwt_sub] it is
    the authenticated subject whenever there is one. *)
Theorem rate_limit_keys (r : Request) (host port : string) :
  (plain host -> plain port -> RemoteAddr r = host +:+ String colon port -> KeyByIP r = host) /\
  (has_byte lbracket host = false -> has_byte rbracket host = false -> plain port ->
     RemoteAddr r = String lbracket (host +:+ String rbracket (String colon port)) -> KeyByIP r = host) /\
  (forall c, ctx_claims (ctx r) = Some c -> Subject c ≠ EmptyString -> KeyByJWTSub r = Subject c).
Proof.
  split_and!.
  - intros Hh Hp E. unfold KeyByIP. by rewrite E, SplitHostPort_plain.
  - intros H1 H2 Hp E. unfold KeyByIP. by rewrite E, SplitHostPort_bracketed.
  - intros c Hc Hne. unfold KeyByJWTSub, Auth.ClaimsFromContext. by rewrite Hc, decide_False.
Qed.

Lemma rate_limit_keys_witness :
  KeyByIP (WithContext Background (mkRequest "GET" "/" EmptyString ∅ 0 (mkBody EmptyString None) "h" "10.0.0.1:4711" Background))
    = "10.0.0.1".
Proof.
  apply (proj1 (rate_limit_keys _ "10.0.0.1" "4711"));
    [repeat split; reflexivity|repeat split; reflexivity|reflexivity].
Defined.

End RateLimitMW.

(** * Body size *)

Module MaxBodyMW.

Definition too_large_ops : list wop := json_ops StatusRequestEntityTooLarge [("error", "request body too large")].

Definition MaxBody {S} (limit : Z) : Middleware S := fun next W RW r w s =>
  if limit <? ContentLength r then
    let w := header_Set "Content-Type" "application/json" w in
    let w := w_WriteHeader StatusRequestEntityTooLarge w in
    let w := write (json_map [("error", "request body too large")]) w in
    (Return, w, s)
  else next W RW (WithBody (MaxBytesReader (Http.Body r) limit) r) w s.

(** C40. A request whose declared length exceeds the limit is answered 413 and
    goes no further. Any other request proceeds, and whatever it declares (chunked
    bodies declare nothing), no later handler can read more than [limit] bytes of
    its body: reading past them is an error. *)
Theorem max_body_enforced (limit : Z) {W} (RW : ResponseWriter W) (r : Request) (w : W)
    (Hlimit : 0 <= limit) :
  let '(_, w', seen) := MaxBody limit recorder W RW r w [] in
  if limit <? ContentLength r then seen = [] /\ w' = play too_large_ops w
  else exists r', seen = [r'] /\ w' = w /\ header r' = header r /\ ctx r' = ctx r /\
    match ReadAll (Http.Body r') with
    | Whole b => b = data (Http.Body r) /\ Z.of_nat (String.length b) <= limit
    | TooLarge n => n <= limit /\ n < Z.of_nat (String.length (data (Http.Body r)))
    end.
Proof.
  unfold MaxBody. destruct (limit <? ContentLength r) eqn:E; [done|].
  eexists. split_and!; [done..|]. unfold ReadAll. simpl.
  destruct (Http.limit (Http.Body r)) as [m|]; rewrite Z.max_r by lia;
    match goal with |- context [?a <? ?b] => destruct (a <? b) eqn:E2 end; bool2prop; split; (done || lia).
Qed.

Lemma max_body_enforced_witness :
  let r := mkRequest "POST" "/" EmptyString ∅ (-1) (mkBody "123456789" None) "h" "10.0.0.1:4711" Background in
  0 <= 4 /\ exists r', (MaxBody 4 recorder response _ r new_response []).2 = [r'] /\
    ReadAll (Http.Body r') = TooLarge 4.
Proof.
  intros r. split; [lia|].
  pose proof (max_body_enforced 4 response_Writer r new_response ltac:(lia)) as H.
  destruct (MaxBody 4 recorder response response_Writer r new_response []) as [[o w] seen] eqn:E.
  destruct H as (r' & -> & _). exists r'. split; [reflexivity|].
  vm_compute in E. injection E as <- <- <-. reflexivity.
Defined.

End MaxBodyMW.

(** * Requests in flight *)

Module ConcurrencyLimitMW.

Definition shed_ops : list wop :=
  [HSet "Content-Type" "application/json"; HSet "Retry-After" "1"; WHead StatusServiceUnavailable;
   WBody (json_map [("error", "server overloaded")])].

(** The semaphore is a buffered channel; its state is the number of tokens in
    it. [limit <= 0] disables the middleware. *)
Definition ConcurrencyLimit {S} `{!Lens S Z} (limit : Z) : Middleware S := fun next =>
  if limit <=? 0 then next
  else fun W RW r w s =>
    if lget s <? limit then
      let s := lset (lget s + 1) s in
      let '(o, w, s) := next W RW r w s in
      (o, w, lset (lget s - 1) s)
    else
      let w := header_Set "Content-Type" "application/json" w in
      let w := header_Set "Retry-After" "1" w in
      let w := w_WriteHeader StatusServiceUnavailable w in
      let w := write (json_map [("error", "server overloaded")]) w in
      (Return, w, s).

(** The slot a request takes is given back whether the rest of the chain
    returns or panics, provided the rest of the chain leaves the semaphore as it
    found it; a request that finds the semaphore full is answered 503 with
    [Retry-After] and does not run. *)
Theorem concurrency_limit_releases {S} `{!Lens S Z, !LensLaws S Z} (limit : Z) (next : Handler S)
    {W} (RW : ResponseWriter W) (r : Request) (w : W) (s : S)
    (Hlimit : 0 < limit)
    (Hnext : forall s1, lget (next W RW r w s1).2 = (lget s1 : Z)) :
  let '(o, w', s') := ConcurrencyLimit limit next W RW r w s in
  lget s' = (lget s : Z) /\
  if lget s <? limit
  then (o, w') = (next W RW r w (lset (lget s + 1) s)).1
  else o = Return /\ w' = play shed_ops w /\ s' = s.
Proof.
  unfold ConcurrencyLimit. rewrite (proj2 (Z.leb_gt _ _)) by lia.
  destruct (lget s <? limit) eqn:E; [|done].
  specialize (Hnext (lset (lget s + 1) s)).
  destruct (next W RW r w (lset (lget s + 1) s)) as [[o w'] s']. simpl in *.
  gwsimp. split; [|done]. rewrite Hnext. gwsimp. lia.
Qed.

Definition panicking : Handler Z := fun W _ r w s => (Panic (PanicValue "boom"), w, s).

Lemma concurrency_limit_releases_witness :
  (ConcurrencyLimit 2 panicking response _ (Auth.Sample.request EmptyString) new_response 1).2 = 1.
Proof.
  pose proof (concurrency_limit_releases 2 panicking response_Writer (Auth.Sample.request EmptyString)
                new_response (1 : Z) ltac:(lia) (fun s1 => eq_refl)) as H.
  destruct (ConcurrencyLimit 2 panicking _ _ _ _ _) as [[o w] s]. exact (proj1 H).
Defined.

(** ** All interleavings *)

(** One request at the middleware. *)
Inductive phase := Arriving | Running | Finished | Shed.

#[export] Instance phase_eq_dec : EqDecision phase.
Proof. solve_decision. Defined.

Record sys := mkSys { sem : Z; reqs : list phase }.

(** The [select] either puts a token into the channel or takes the default
    branch; the deferred function takes a token out when the handler is done. *)
Inductive step (limit : Z) : sys -> sys -> Prop :=
| step_acquire s i :
    reqs s !! i = Some Arriving -> sem s < limit ->
    step limit s (mkSys (sem s + 1) (<[i := Running]> (reqs s)))
| step_shed s i :
    reqs s !! i = Some Arriving -> limit <= sem s ->
    step limit s (mkSys (sem s) (<[i := Shed]> (reqs s)))
| step_release s i :
    reqs s !! i = Some Running ->
    step limit s (mkSys (sem s - 1) (<[i := Finished]> (reqs s)))
| step_arrive s : step limit s (mkSys (sem s) (reqs s ++ [Arriving])).

Definition is_running (p : phase) : Z := if decide (p = Running) then 1 else 0.

Definition in_flight (s : sys) : Z := sumZ (map is_running (reqs s)).

Lemma running_insert l i p q :
  l !! i = Some p ->
  sumZ (map is_running (<[i := q]> l)) = sumZ (map is_running l) - is_running p + is_running q.
Proof.
  revert i. induction l as [|x l IH]; intros [|i] Hi; simpl in *; try done.
  - injection Hi as ->. rewrite !sumZ_cons. lia.
  - rewrite !sumZ_cons, IH by done. lia.
Qed.

Definition sem_inv (limit : Z) (s : sys) : Prop := sem s = in_flight s /\ in_flight s <= limit.

Lemma sem_inv_step limit s s' : sem_inv limit s -> step limit s s' -> sem_inv limit s'.
Proof.
  intros [H1 H2] Hstep. unfold sem_inv, in_flight in *.
  destruct Hstep as [s i Hi Hs|s i Hi Hs|s i Hi|s]; simpl in *;
    try (rewrite (running_insert _ _ _ _ Hi);
         change (is_running Arriving) with 0 || change (is_running Running) with 1;
         change (is_running Running) with 1 || change (is_running Shed) with 0 || change (is_running Finished) with 0;
         lia).
  rewrite map_app, sumZ_app. simpl. change (sumZ [is_running Arriving]) with 0. lia.
Qed.

(** C32. In every interleaving of requests the number of requests past the
    middleware never exceeds the limit and equals the number of tokens in the
    semaphore, and a request is shed only while [limit] others are running. *)
Theorem concurrency_cap (limit : Z) (s s' : sys) (Hlimit : 0 < limit)
    (Hreach : rtc (step limit) (mkSys 0 []) s) (Hstep : step limit s s') :
  in_flight s' <= limit /\ sem s' = in_flight s' /\
  (forall i, reqs s !! i = Some Arriving -> reqs s' !! i = Some Shed -> in_flight s = limit).
Proof.
  assert (sem_inv limit s) as [H1 H2].
  { eapply (rtc_invariant (step limit) (sem_inv limit)); [|..|exact Hreach].
    - intros a b. apply sem_inv_step.
    - split; [done|]. unfold in_flight. simpl. change (sumZ []) with 0. lia. }
  assert (sem_inv limit s') as [H3 H4] by (by apply (sem_inv_step limit s)).
  split_and!; [done|done|]. intros j Hj Hj'.
  destruct Hstep as [s i Hi Hs|s i Hi Hs|s i Hi|s]; simpl in *.
  - apply list_lookup_insert_Some in Hj' as [(_ & ? & _)|[_ ?]]; congruence.
  - lia.
  - apply list_lookup_insert_Some in Hj' as [(_ & ? & _)|[_ ?]]; congruence.
  - rewrite lookup_app_l in Hj' by (by eapply lookup_lt_Some). congruence.
Qed.

Lemma concurrency_cap_witness :
  exists s s', rtc (step 1) (mkSys 0 []) s /\ step 1 s s' /\ in_flight s' <= 1 /\ reqs s' = [Running; Shed].
Proof.
  assert (rtc (step 1) (mkSys 0 []) (mkSys 1 [Running; Arriving])) as Hr.
  { eapply rtc_l; [apply step_arrive|]. eapply rtc_l; [apply step_arrive|].
    eapply rtc_l; [apply (step_acquire 1 _ 0); reflexivity|]. apply rtc_refl. }
  assert (step 1 (mkSys 1 [Running; Arriving]) (mkSys 1 [Running; Shed])) as Hs.
  { apply (step_shed 1 (mkSys 1 [Running; Arriving]) 1); [reflexivity|simpl; lia]. }
  eexists _, _. split; [exact Hr|]. split; [exact Hs|]. split; [|reflexivity].
  exact (proj1 (concurrency_cap 1 _ _ eq_refl Hr Hs)).
Defined.

End ConcurrencyLimitMW.
