(* ===== verification/Observers.v ===== *)
(** * Observability and recovery middleware
    ([internal/middleware/recoverer.go], [requestid.go], [logger.go],
    [tracing.go], [internal/metrics/metrics.go])

    The wrapping response writers are instances of [ResponseWriter] over an
    arbitrary inner writer. Section [Transparent] proves once that such a writer
    passes every operation on unchanged; each middleware reuses it. *)

From Stdlib Require Import Ascii.
From S2P Require Import Prelude GoStrings Http.
Import Http.

(** ** Recovery *)

Module RecovererMW.

Definition panic_text (v : panic) : string :=
  match v with ErrAbortHandler => "net/http: abort Handler" | PanicValue m => m end.

Definition Recoverer {S} (log : SlogLogger S) : Middleware S := fun next W RW r w s =>
  let '(o, w, s) := next W RW r w s in
  match o with
  | Return => (Return, w, s)
  | Panic v =>
      let s := log (mkLog LevelError "panic recovered" [("error", AString (panic_text v)); ("stack", AStack)]) s in
      let w := header_Set "Content-Type" "application/json" w in
      let w := w_WriteHeader StatusInternalServerError w in
      let w := write (json_map [("error", "internal server error")]) w in
      (Return, w, s)
  end.

Definition error_body : string := json_map [("error", "internal server error")].

(** No panic of the wrapped handler escapes: the call always returns. If the
    handler had sent nothing, the client receives status 500, the JSON content
    type and exactly the JSON error body (no declared length being left over
    from the handler). *)
Theorem recoverer_contains_panics {S} (log : SlogLogger S) (next : Handler S) (r : Request)
    (w0 : response) (s : S) :
  let '(o, w, _) := Recoverer log next response _ r w0 s in
  o = Return /\
  forall v w1 s1, next response _ r w0 s = (Panic v, w1, s1) -> sent w1 = None ->
    Get (hdr w1) "Content-Length" = EmptyString -> written w1 = 0 -> sent_body w1 = EmptyString ->
    client_status w = StatusInternalServerError /\
    Get (client_header w) "Content-Type" = "application/json" /\ sent_body w = error_body.
Proof.
  unfold Recoverer. destruct (next response response_Writer r w0 s) as [[o w] s'].
  destruct o as [|v]; (split; [done|]); intros v1 w1 s1 [= -> -> ->] Hsent Hcl Hwr Hb; try done.
  unfold header_Set, write. simpl. unfold response_WriteHeader at 1. simpl. rewrite Hsent. simpl.
  assert (declared_length (Set_ "Content-Type" "application/json" (hdr w1)) = None) as Hd.
  { unfold declared_length. rewrite Get_Set_ne by (vm_compute; discriminate). by rewrite Hcl. }
  unfold response_Write, response_WriteHeader. simpl. rewrite ?Hd, ?Hwr, ?Hb. simpl.
  split_and!; try done. apply Get_Set.
Qed.

Definition panicking : Handler unit := fun W _ r w s => (Panic (PanicValue "boom"), w, s).

(** A handler that has sent a status and part of a body, then aborts: what the
    reverse proxy does when the upstream connection breaks in the middle of a
    response body. *)
Definition aborting (body : string) : Handler unit := fun W _ r w s =>
  (Panic ErrAbortHandler, write body (w_WriteHeader StatusOK w), s).

Definition sample_request : Request :=
  mkRequest "GET" "/" EmptyString ∅ 0 (mkBody EmptyString None) "h" "10.0.0.1:4711" Background.

Lemma recoverer_contains_panics_witness :
  let '(o, w, _) := Recoverer (fun _ s => s) panicking response _ sample_request new_response tt in
  o = Return /\ client_status w = StatusInternalServerError.
Proof.
  pose proof (recoverer_contains_panics (fun _ s => s) panicking sample_request new_response tt) as H.
  destruct (Recoverer _ _ _ _ _ _ _) as [[o w] s]. destruct H as [Ho H]. split; [exact Ho|].
  exact (proj1 (H (PanicValue "boom") new_response tt eq_refl eq_refl eq_refl eq_refl eq_refl)).
Defined.

(** Recovery also swallows [http.ErrAbortHandler]. When a handler aborts a
    response whose status and first bytes are already sent, the client does not
    see a broken connection: it receives the original status 200 and a complete
    response whose body is the partial one followed by the JSON error. *)
Theorem recoverer_hides_abort (body : string) :
  let '(o, w, _) := Recoverer (fun _ s => s) (aborting body) response _ sample_request new_response tt in
  o = Return /\ client_status w = StatusOK /\ sent_body w = body +:+ error_body.
Proof.
  unfold Recoverer, aborting, header_Set, write. simpl.
  set (w1 := response_WriteHeader StatusOK new_response).
  rewrite (response_Write_started body w1 StatusOK ∅) by reflexivity.
  split_and!; reflexivity.
Qed.

End RecovererMW.

(** ** Request identifiers *)

Module RequestIDMW.

Definition newContext (c : Context) (reqID : string) : Context :=
  mkContext (Some reqID) (ctx_claims c) (ctx_target c) (ctx_span c).

Definition FromContext (c : Context) : option string := ctx_requestID c.

(** [%x] of a byte slice. *)
Fixpoint hex_bytes (l : list Z) : string :=
  match l with
  | [] => EmptyString
  | z :: l => String (hex_digit (z / 16)) (String (hex_digit (z mod 16)) (hex_bytes l))
  end.

(** [uuid[i:j]] *)
Definition slice (i j : nat) (l : list Z) : list Z := take (j - i) (drop i l).

(** [newUUID], given what [rand.Read] put into the buffer. *)
Definition newUUID (random : result (list Z)) : result string :=
  match random with
  | Err e => Err ("UUID creation failed: " +:+ e)
  | Ok uuid =>
      let uuid := alter (fun b => Z.lor (Z.land b 15) 64) 6%nat uuid in
      let uuid := alter (fun b => Z.lor (Z.land b 63) 128) 8%nat uuid in
      Ok (hex_bytes (slice 0 4 uuid) +:+ "-" +:+ hex_bytes (slice 4 6 uuid) +:+ "-" +:+
          hex_bytes (slice 6 8 uuid) +:+ "-" +:+ hex_bytes (slice 8 10 uuid) +:+ "-" +:+
          hex_bytes (slice 10 16 uuid))
  end.

(** [read] is [crypto/rand.Read] into a fresh buffer of 16 bytes. *)
Definition RequestID {S} (read : S -> result (list Z) * S) : Middleware S := fun next W RW r w s =>
  let '(random, s) := read s in
  match newUUID random with
  | Err _ => (Return, w_WriteHeader StatusInternalServerError w, s)
  | Ok uuid =>
      let c := newContext (ctx r) uuid in
      let w := header_Set "X-Request-ID" uuid w in
      next W RW (WithContext c r) w s
  end.

Lemma byte_forall (p : Z -> bool) :
  forallb p (seqZ 0 256) = true -> forall b, 0 <= b < 256 -> p b = true.
Proof.
  intros H b Hb. rewrite forallb_forall in H. apply H, list_elem_of_In, elem_of_seqZ. lia.
Qed.

Definition is_hex (c : ascii) : bool := is_digit c || ((97 <=? code c) && (code c <=? 102)).

(** Prefix and suffix of a string. *)
Definition take_str (n : nat) (s : string) : string := String.substring 0 n s.
Definition drop_str (n : nat) (s : string) : string := String.substring n (String.length s - n) s.

Definition char_at (i : nat) (s : string) : option ascii := String.get i s.

Lemma hex_digits_ok b :
  0 <= b < 256 -> is_hex (hex_digit (b / 16)) = true /\ is_hex (hex_digit (b mod 16)) = true.
Proof.
  intros Hb. apply andb_true_iff.
  apply (byte_forall (fun b => is_hex (hex_digit (b / 16)) && is_hex (hex_digit (b mod 16)))); [|done].
  vm_compute. reflexivity.
Qed.

Definition version_byte (b : Z) : Z := Z.lor (Z.land b 15) 64.
Definition variant_byte (b : Z) : Z := Z.lor (Z.land b 63) 128.

Definition version_ok (b : Z) : bool :=
  (0 <=? version_byte b) && (version_byte b <? 256) &&
  Ascii.eqb (hex_digit (version_byte b / 16)) "4" && (version_byte b mod 16 =? b mod 16).

Definition variant_ok (b : Z) : bool :=
  (0 <=? variant_byte b) && (variant_byte b <? 256) &&
  existsb (Ascii.eqb (hex_digit (variant_byte b / 16))) ["8"; "9"; "a"; "b"]%char &&
  (variant_byte b mod 64 =? b mod 64).

Lemma version_bits b :
  0 <= b < 256 -> 0 <= version_byte b < 256 /\
  hex_digit (version_byte b / 16) = "4"%char /\ version_byte b mod 16 = b mod 16.
Proof.
  intros Hb. assert (version_ok b = true) as H
    by (apply (byte_forall version_ok); [vm_compute; reflexivity|done]).
  unfold version_ok in H. bool2prop. split_and!; try done. by apply Ascii.eqb_eq.
Qed.

Lemma variant_bits b :
  0 <= b < 256 -> 0 <= variant_byte b < 256 /\
  hex_digit (variant_byte b / 16) ∈ ["8"; "9"; "a"; "b"]%char /\ variant_byte b mod 64 = b mod 64.
Proof.
  intros Hb. assert (variant_ok b = true) as H
    by (apply (byte_forall variant_ok); [vm_compute; reflexivity|done]).
  unfold variant_ok in H. bool2prop. split_and!; try done.
  match goal with H : existsb _ _ = true |- _ => apply existsb_exists in H as (c & Hc & He) end.
  apply Ascii.eqb_eq in He as ->. by apply list_elem_of_In.
Qed.

Definition dash : ascii := "-".

Definition uuid_char (c : ascii) : bool := Ascii.eqb c dash || is_hex c.

Lemma hex_bytes_ok l : Forall (fun b => 0 <= b < 256) l -> all_bytes uuid_char (hex_bytes l) = true.
Proof.
  induction 1 as [|b l Hb _ IH]; [done|]. simpl. unfold uuid_char at 1 2.
  destruct (hex_digits_ok b Hb) as [-> ->]. rewrite !orb_true_r. exact IH.
Qed.

(** From any 16 random bytes the identifier is a well-formed version-4 UUID:
    36 characters, dashes at positions 8, 13, 18 and 23, hexadecimal digits
    everywhere else, version digit 4 and variant digit 8, 9, a or b; the digits
    that carry no version or variant bits are the digits of the random bytes. *)
Theorem uuid_is_v4 (bytes : list Z) (Hlen : length bytes = 16%nat)
    (Hrange : Forall (fun b => 0 <= b < 256) bytes) :
  exists u, newUUID (Ok bytes) = Ok u /\ String.length u = 36%nat /\
    char_at 8 u = Some dash /\ char_at 13 u = Some dash /\ char_at 18 u = Some dash /\ char_at 23 u = Some dash /\
    char_at 14 u = Some "4"%char /\
    (exists v, char_at 19 u = Some v /\ v ∈ ["8"; "9"; "a"; "b"]%char) /\
    take_str 8 u = hex_bytes (take 4 bytes) /\ drop_str 24 u = hex_bytes (drop 10 bytes) /\
    all_bytes uuid_char u = true.
Proof.
  do 17 (destruct bytes as [|?b bytes]; try discriminate Hlen). clear Hlen.
  repeat (apply Forall_cons in Hrange as [?H Hrange]).
  destruct (version_bits b5) as (Hv1 & Hv2 & _); [done|].
  destruct (variant_bits b7) as (Hw1 & Hw2 & _); [done|].
  eexists. split; [reflexivity|]. split_and!; try reflexivity.
  - exact (f_equal Some Hv2).
  - eexists. split; [reflexivity|exact Hw2].
  - rewrite !all_bytes_app.
    repeat (rewrite hex_bytes_ok; [|solve [cbn; repeat (apply Forall_cons; split; [assumption|]); apply Forall_nil_2]]).
    reflexivity.
Qed.

Definition sample_random : list Z := [1; 2; 3; 4; 5; 6; 255; 8; 255; 10; 11; 12; 13; 14; 15; 16].

Lemma uuid_is_v4_witness :
  newUUID (Ok sample_random) = Ok "01020304-0506-4f08-bf0a-0b0c0d0e0f10" /\
  exists u, newUUID (Ok sample_random) = Ok u /\ String.length u = 36%nat.
Proof.
  split; [vm_compute; reflexivity|].
  destruct (uuid_is_v4 sample_random eq_refl) as (u & H1 & H2 & _).
  - repeat constructor; discriminate.
  - exists u. split; [exact H1|exact H2].
Defined.

End RequestIDMW.

(** ** Wrapping writers

    A struct that embeds an [http.ResponseWriter] inherits [Header] and passes
    the other two methods on after noting something. *)

Class Wraps (V W : Type) `{!ResponseWriter V, !ResponseWriter W} (inner : V -> W) : Prop := {
  wraps_header : forall v, w_header v = w_header (inner v);
  wraps_set_header : forall h v, inner (w_set_header h v) = w_set_header h (inner v);
  wraps_WriteHeader : forall c v, inner (w_WriteHeader c v) = w_WriteHeader c (inner v);
  wraps_Write : forall b v, (w_Write b v).1 = (w_Write b (inner v)).1;
  wraps_Write_inner : forall b v, inner (w_Write b v).2 = (w_Write b (inner v)).2;
}.

Section Transparent.
Context {V W : Type} `{!ResponseWriter V, !ResponseWriter W} (inner : V -> W) `{!Wraps V W inner}.

Lemma wraps_play1 o v : inner (play1 o v) = play1 o (inner v).
Proof using All.
  destruct o; simpl; unfold header_Set, header_Add, header_Del, write.
  1-3: by rewrite (wraps_set_header (inner := inner)), (wraps_header (inner := inner)).
  - apply wraps_WriteHeader.
  - apply wraps_Write_inner.
Qed.

(** The inner writer sees exactly the operations of the wrapper. *)
Lemma wraps_play ops v : inner (play ops v) = play ops (inner v).
Proof using All.
  revert v. induction ops as [|o ops IH]; intros v; [done|].
  change (inner (play ops (play1 o v)) = play ops (play1 o (inner v))). by rewrite IH, wraps_play1.
Qed.
End Transparent.

(** The status a wrapper ends up with: that of the last [WriteHeader]. *)
Definition last_status (init : Z) (ops : list wop) : Z :=
  foldl (fun c o => match o with WHead c' => c' | _ => c end) init ops.

(** The number of body bytes the inner writer accepts. *)
Fixpoint accepted {W} `{!ResponseWriter W} (ops : list wop) (w : W) : Z :=
  match ops with
  | [] => 0
  | o :: ops =>
      match o with WBody b => (w_Write b w).1.1 | _ => 0 end + accepted ops (play1 o w)
  end.

(** The discipline of [net/http]: informational statuses, one final status, then the body. *)
Fixpoint bodies_only (ops : list wop) : bool :=
  match ops with
  | [] => true
  | WHead _ :: _ => false
  | _ :: ops => bodies_only ops
  end.

Fixpoint disciplined (pending : bool) (ops : list wop) : bool :=
  match ops with
  | [] => negb pending
  | WHead c :: ops => if informational c then disciplined true ops else bodies_only ops
  | WBody _ :: ops => negb pending && bodies_only ops
  | _ :: ops => disciplined pending ops
  end.

Lemma last_status_cons c o ops :
  last_status c (o :: ops) = last_status (match o with WHead c' => c' | _ => c end) ops.
Proof. done. Qed.

Lemma bodies_only_status c ops : bodies_only ops = true -> last_status c ops = c.
Proof. induction ops as [|[] ops IH]; intros H; try done; by apply IH. Qed.

Lemma sent_play1 o w x : sent w = Some x -> sent (play1 o w) = Some x.
Proof.
  intros H. destruct o; try done; simpl.
  - unfold response_WriteHeader. by rewrite H.
  - unfold write. simpl. unfold response_Write. rewrite (response_WriteHeader_started _ _ _ H).
    repeat (case_match; simpl; try done).
Qed.

Lemma sent_play ops w x : sent w = Some x -> sent (play ops w) = Some x.
Proof.
  revert w. induction ops as [|o ops IH]; intros w H; [done|]. apply IH. by apply sent_play1.
Qed.

Lemma client_status_play ops w c h : sent w = Some (c, h) -> client_status (play ops w) = c.
Proof. intros H. unfold client_status. by rewrite (sent_play _ _ _ H). Qed.

Lemma sent_write b w : sent w = None -> exists h, sent (write b w) = Some (StatusOK, h).
Proof.
  intros H. exists (hdr w). unfold write. simpl. unfold response_Write, response_WriteHeader. rewrite H. simpl.
  repeat (case_match; simpl; try done).
Qed.

(** For a disciplined handler the status a wrapper notes is the one the client receives. *)
Lemma disciplined_status pending ops w c :
  sent w = None -> (pending = false -> c = StatusOK) -> disciplined pending ops = true ->
  last_status c ops = client_status (play ops w).
Proof.
  revert pending c w. induction ops as [|o ops IH]; intros pending c w Hs Hc Hd.
  - destruct pending; [done|]. rewrite Hc by done. unfold client_status. simpl. by rewrite Hs.
  - rewrite last_status_cons. change (play (o :: ops) w) with (play ops (play1 o w)).
    destruct o as [k v|k v|k|c'|b]; cbn [disciplined] in Hd.
    1-3: by apply (IH pending).
    + destruct (informational c') eqn:E.
      * apply (IH true); [|done|done]. simpl. unfold response_WriteHeader. by rewrite Hs, E.
      * rewrite bodies_only_status by done. symmetry. apply (client_status_play _ _ c' (hdr w)).
        simpl. unfold response_WriteHeader. by rewrite Hs, E.
    + bool2prop. rewrite bodies_only_status by done. rewrite Hc by done.
      destruct (sent_write b w Hs) as [h Hh]. symmetry. by apply (client_status_play _ _ _ h).
Qed.

Lemma response_Write_counts b w :
  Z.of_nat (String.length (sent_body (response_Write b w).2)) =
    Z.of_nat (String.length (sent_body w)) + (response_Write b w).1.1.
Proof.
  unfold response_Write.
  assert (sent_body (response_WriteHeader StatusOK w) = sent_body w) as Hb
    by (unfold response_WriteHeader; by repeat case_match).
  repeat (case_match; simpl; rewrite ?Hb, ?length_append); lia.
Qed.

(** The bytes accepted by the server's writer are the bytes it sends. *)
Lemma accepted_response ops w :
  accepted ops w = Z.of_nat (String.length (sent_body (play ops w))) - Z.of_nat (String.length (sent_body w)).
Proof.
  revert w. induction ops as [|o ops IH]; intros w; cbn [accepted]; [simpl; lia|].
  change (play (o :: ops) w) with (play ops (play1 o w)). rewrite IH.
  destruct o as [k v|k v|k|c|b]; simpl; try lia.
  - assert (sent_body (response_WriteHeader c w) = sent_body w) as ->
      by (unfold response_WriteHeader; by repeat case_match). lia.
  - unfold write. simpl. pose proof (response_Write_counts b w). lia.
Qed.

(** ** Request logging *)

Module LoggerMW.

Record loggerWriter (W : Type) := mkLoggerWriter { inner : W; status : Z; bytes : Z }.
Arguments mkLoggerWriter {W} _ _ _.
Arguments inner {W} _.
Arguments status {W} _.
Arguments bytes {W} _.

#[export] Instance loggerWriter_Writer {W} `{!ResponseWriter W} : ResponseWriter (loggerWriter W) := {|
  w_header rw := w_header (inner rw);
  w_set_header h rw := mkLoggerWriter (w_set_header h (inner rw)) (status rw) (bytes rw);
  w_WriteHeader code rw := mkLoggerWriter (w_WriteHeader code (inner rw)) code (bytes rw);
  w_Write b rw :=
    let '((n, err), w) := w_Write b (inner rw) in
    ((n, err), mkLoggerWriter w (status rw) (int64 (bytes rw + n)));
|}.

#[export] Instance loggerWriter_Wraps {W} `{!ResponseWriter W} : Wraps (loggerWriter W) W inner.
Proof. constructor; intros; simpl; try done; by destruct (w_Write b (inner v)) as [[n e] w']. Qed.

Definition level_of (status : Z) : level :=
  if 500 <=? status then LevelError else if 400 <=? status then LevelWarn else LevelInfo.

(** [now] reads the clock. *)
Definition Logger {S} (now : S -> Z * S) (log : SlogLogger S) : Middleware S := fun next W RW r w s =>
  let '(startTime, s) := now s in
  let rw := mkLoggerWriter w StatusOK 0 in
  let '(o, rw, s) := next (loggerWriter W) _ r rw s in
  match o with
  | Panic v => (Panic v, inner rw, s)
  | Return =>
      let '(t, s) := now s in
      let requestID := default EmptyString (RequestIDMW.FromContext (ctx r)) in
      let s := log (mkLog (level_of (status rw)) "request"
                      [("method", AString (Method r)); ("path", AString (Path r)); ("status", AInt (status rw));
                       ("duration_ms", AMillis (Since t startTime)); ("bytes", AInt (bytes rw));
                       ("request_id", AString requestID)]) s in
      (Return, inner rw, s)
  end.

Lemma logger_status {W} `{!ResponseWriter W} ops (rw : loggerWriter W) :
  status (play ops rw) = last_status (status rw) ops.
Proof.
  revert rw. induction ops as [|o ops IH]; intros rw; [done|].
  rewrite last_status_cons. change (play (o :: ops) rw) with (play ops (play1 o rw)). rewrite IH. f_equal.
  destruct o; try done. simpl. unfold write. simpl. by destruct (w_Write b (inner rw)) as [[n e] w'].
Qed.

Lemma logger_bytes {W} `{!ResponseWriter W} ops (rw : loggerWriter W) :
  bytes rw = int64 (bytes rw) -> bytes (play ops rw) = int64 (bytes rw + accepted ops (inner rw)).
Proof.
  revert rw. induction ops as [|o ops IH]; intros rw Hr.
  - simpl. by rewrite Z.add_0_r.
  - change (play (o :: ops) rw) with (play ops (play1 o rw)). cbn [accepted].
    assert (bytes (play1 o rw) = int64 (bytes rw + match o with WBody b => (w_Write b (inner rw)).1.1 | _ => 0 end)) as E.
    { destruct o; simpl; rewrite ?Z.add_0_r; try done.
      unfold write. simpl. by destruct (w_Write b (inner rw)) as [[n e] w']. }
    rewrite IH, E, (wraps_play1 inner).
    + rewrite int64_add_l. f_equal. lia.
    + by rewrite E, int64_idem.
Qed.

(** The record of one request. *)
Definition request_record (r : Request) (status bytes duration : Z) : log_record :=
  mkLog (level_of status) "request"
    [("method", AString (Method r)); ("path", AString (Path r)); ("status", AInt status);
     ("duration_ms", AMillis duration); ("bytes", AInt bytes);
     ("request_id", AString (default EmptyString (ctx_requestID (ctx r))))].

(** For a handler that keeps to the order of [net/http] (informational
    statuses, one final status, body) the middleware changes nothing of the
    response, and if the handler returns it logs exactly one record, whose status
    is the one the client received, whose byte count is the length of the body
    the client received and whose level follows from the status. If the handler
    panics, the panic passes through and the request is not logged at all. *)
Theorem logger_reports_client_view {S} (now : S -> Z * S) (log : SlogLogger S) (next : Handler S) (r : Request)
    (s s1 s2 : S) (t0 : Z) (o : outcome) (ops : list wop)
    (Hnow : now s = (t0, s1)) (Hnext : performs next r s1 o ops s2)
    (Hops : disciplined false ops = true)
    (Hlen : Z.of_nat (String.length (sent_body (play ops new_response))) <= MaxInt) :
  let w' := play ops new_response in
  Logger now log next response _ r new_response s =
    (o, w',
     match o with
     | Panic _ => s2
     | Return =>
         log (request_record r (client_status w') (Z.of_nat (String.length (sent_body w'))) (Since (now s2).1 t0))
           (now s2).2
     end).
Proof.
  intros w'. unfold Logger. rewrite Hnow, Hnext.
  pose proof (wraps_play inner ops (mkLoggerWriter new_response StatusOK 0)) as Hin. simpl in Hin.
  destruct o as [|v]; rewrite Hin; [|done].
  destruct (now s2) as [t s3]. simpl. do 2 f_equal. unfold request_record.
  rewrite logger_status, logger_bytes by done. simpl.
  rewrite (disciplined_status false ops new_response) by done.
  rewrite accepted_response. simpl. rewrite Z.sub_0_r, int64_id; [done|].
  unfold in_int64, MinInt, MaxInt, two63 in *. lia.
Qed.

(** A handler in the manner of the reverse proxy: early hints, status, body. *)
Definition hello : Handler (list log_record) :=
  scripted (fun r s => (Return, [WHead 103; HSet "Content-Type" "text/plain"; WHead 404; WBody "gone"], s)).

Lemma logger_reports_client_view_witness :
  Logger (fun s => (7, s)) (fun x s => s ++ [x]) hello response _ RecovererMW.sample_request new_response [] =
    (Return, play [WHead 103; HSet "Content-Type" "text/plain"; WHead 404; WBody "gone"] new_response,
     [request_record RecovererMW.sample_request 404 4 0]) /\
  level_of 404 = LevelWarn.
Proof.
  split; [|reflexivity].
  rewrite (logger_reports_client_view (fun s => (7, s)) (fun x s => s ++ [x]) hello RecovererMW.sample_request
    [] [] [] 7 Return [WHead 103; HSet "Content-Type" "text/plain"; WHead 404; WBody "gone"] eq_refl).
  - vm_compute. reflexivity.
  - by apply scripted_performs.
  - reflexivity.
  - vm_compute. discriminate.
Defined.

End LoggerMW.

(** ** Tracing *)

Module TracingMW.

Record tracingWriter (W : Type) := mkTracingWriter { inner : W; status : Z }.
Arguments mkTracingWriter {W} _ _.
Arguments inner {W} _.
Arguments status {W} _.

#[export] Instance tracingWriter_Writer {W} `{!ResponseWriter W} : ResponseWriter (tracingWriter W) := {|
  w_header rw := w_header (inner rw);
  w_set_header h rw := mkTracingWriter (w_set_header h (inner rw)) (status rw);
  w_WriteHeader code rw := mkTracingWriter (w_WriteHeader code (inner rw)) code;
  w_Write b rw := let '(res, w) := w_Write b (inner rw) in (res, mkTracingWriter w (status rw));
|}.

#[export] Instance tracingWriter_Wraps {W} `{!ResponseWriter W} : Wraps (tracingWriter W) W inner.
Proof. constructor; intros; simpl; try done; by destruct (w_Write b (inner v)) as [res w']. Qed.

Inductive span_kind := SpanKindInternal | SpanKindServer | SpanKindClient.

(** The OpenTelemetry tracer and propagator: a tracer hands out spans, which
    record attributes and a status and are ended. *)
Record Tracer (S Span : Type) := mkTracer {
  Extract : Context -> Header -> Context;
  Start : Context -> string -> span_kind -> S -> (Context * Span) * S;
  SetAttributes : Span -> list (string * attr) -> S -> S;
  SetStatusError : Span -> string -> S -> S;
  End_ : Span -> S -> S;
}.
Arguments Extract {S Span} _ _ _.
Arguments Start {S Span} _ _ _ _ _.
Arguments SetAttributes {S Span} _ _ _ _.
Arguments SetStatusError {S Span} _ _ _ _.
Arguments End_ {S Span} _ _ _.

(** What follows a normal return of the handler. *)
Definition annotate {S Span} (t : Tracer S Span) (span : Span) (r : Request) (status : Z) (s : S) : S :=
  let s := SetAttributes t span [("http.method", AString (Method r)); ("http.path", AString (Path r));
                                 ("http.status", AInt status)] s in
  if 500 <=? status then SetStatusError t span (StatusText status) s else s.

(** [span.End] is deferred: it runs on return and on panic. *)
Definition Tracing {S Span} (t : Tracer S Span) : Middleware S := fun next W RW r w s =>
  let c := Extract t (ctx r) (header r) in
  let '((c, span), s) := Start t c "request" SpanKindServer s in
  let rw := mkTracingWriter w StatusOK in
  let '(o, rw, s) := next (tracingWriter W) _ (WithContext c r) rw s in
  let s := match o with Return => annotate t span r (status rw) s | Panic _ => s end in
  (o, inner rw, End_ t span s).

Lemma tracing_status {W} `{!ResponseWriter W} ops (rw : tracingWriter W) :
  status (play ops rw) = last_status (status rw) ops.
Proof.
  revert rw. induction ops as [|o ops IH]; intros rw; [done|].
  rewrite last_status_cons. change (play (o :: ops) rw) with (play ops (play1 o rw)). rewrite IH. f_equal.
  destruct o; try done. simpl. unfold write. simpl. by destruct (w_Write b (inner rw)) as [res w'].
Qed.

(** Every request gets one span, whose context the rest of the chain runs
    under. The span is ended exactly once, after the handler, whether it returns
    or panics; on return it carries the client's status and is marked failed
    exactly for 5xx. The response itself is not changed. *)
Theorem tracing_spans {S Span} (t : Tracer S Span) (next : Handler S) (r : Request)
    (s s1 s2 : S) (c : Context) (span : Span) (o : outcome) (ops : list wop)
    (Hstart : Start t (Extract t (ctx r) (header r)) "request" SpanKindServer s = ((c, span), s1))
    (Hnext : performs next (WithContext c r) s1 o ops s2) (Hops : disciplined false ops = true) :
  let w' := play ops new_response in
  let attributes := SetAttributes t span [("http.method", AString (Method r)); ("http.path", AString (Path r));
                                          ("http.status", AInt (client_status w'))] in
  Tracing t next response _ r new_response s =
    (o, w',
     End_ t span
       (match o with
        | Panic _ => s2
        | Return =>
            if 500 <=? client_status w' then SetStatusError t span (StatusText (client_status w')) (attributes s2)
            else attributes s2
        end)).
Proof.
  intros w' attributes. unfold Tracing. rewrite Hstart, Hnext.
  pose proof (wraps_play inner ops (mkTracingWriter new_response StatusOK)) as Hin. simpl in Hin. rewrite Hin.
  destruct o; [|done]. rewrite tracing_status. simpl.
  by rewrite (disciplined_status false ops new_response).
Qed.

(** A tracer that writes down what is done to its spans. *)
Inductive span_event := EStart | EAttrs (l : list (string * attr)) | EError | EEnd.

Definition sample_tracer : Tracer (list span_event) unit := {|
  Extract c _ := c;
  Start c _ _ s := ((mkContext (ctx_requestID c) (ctx_claims c) (ctx_target c) (Some "00-1"), tt), s ++ [EStart]);
  SetAttributes _ l s := s ++ [EAttrs l];
  SetStatusError _ _ s := s ++ [EError];
  End_ _ s := s ++ [EEnd];
|}.

Definition failing : Handler (list span_event) :=
  scripted (fun r s => (Return, json_ops 502 [("error", "upstream unavailable")], s)).

Lemma tracing_spans_witness :
  exists l, (Tracing sample_tracer failing response _ RecovererMW.sample_request new_response []).2
    = [EStart; EAttrs l; EError; EEnd].
Proof.
  eexists.
  rewrite (tracing_spans sample_tracer failing RecovererMW.sample_request
    [] [EStart] [EStart] (mkContext None None None (Some "00-1")) tt Return (json_ops 502 [("error", "upstream unavailable")])
    eq_refl).
  - vm_compute. reflexivity.
  - by apply scripted_performs.
  - reflexivity.
Defined.

End TracingMW.

(** ** Metrics *)

Module MetricsMW.

Record UpstreamHealthSample := mkSample { Service : string; Upstream : string; Healthy : bool }.

(** The options of an instrument; bucket boundaries in thousandths. *)
Record instrument_options := mkInstrument { description : string; unit_ : string; boundaries : list Z }.

(** An OpenTelemetry meter: it may refuse to create an instrument or to
    register a callback for one. *)
Record Meter (I : Type) := mkMeter {
  Int64Counter : string -> instrument_options -> result I;
  Float64Histogram : string -> instrument_options -> result I;
  Int64ObservableGauge : string -> instrument_options -> result I;
  RegisterCallback : I -> result unit;
}.
Arguments Int64Counter {I} _ _ _.
Arguments Float64Histogram {I} _ _ _.
Arguments Int64ObservableGauge {I} _ _ _.
Arguments RegisterCallback {I} _ _.

Record Metrics (I : Type) := mkMetrics { meter : Meter I; requestsTotal : I; requestDuration : I }.
Arguments mkMetrics {I} _ _ _.
Arguments meter {I} _.
Arguments requestsTotal {I} _.
Arguments requestDuration {I} _.

Definition NewMetrics {I} (m : Meter I) : result (Metrics I) :=
  let? total := Int64Counter m "gateway.requests.total"
    (mkInstrument "Total HTTP requests processed by the gateway." "{request}" []) in
  let? duration := Float64Histogram m "gateway.request.duration"
    (mkInstrument "HTTP request duration in seconds." "s" [1; 5; 10; 25; 50; 100; 250; 500; 1000; 2500; 5000; 10000]) in
  Ok (mkMetrics m total duration).

(** The callback of the health gauge: what one collection observes. *)
Definition observe_health {I} (gauge : I) (samples : list UpstreamHealthSample) : list (I * Z * list (string * string)) :=
  map (fun s => (gauge, if Healthy s then 1 else 0, [("service", Service s); ("upstream", Upstream s)])) samples.

(** The result is the registered callback, which every collection runs on the
    state of that moment. *)
Definition RegisterUpstreamHealth {I S} (m : Metrics I) (observe : S -> list UpstreamHealthSample) :
    result (S -> list (I * Z * list (string * string))) :=
  let? gauge := Int64ObservableGauge (meter m) "gateway.upstream.healthy"
    (mkInstrument "Health of each upstream (1 healthy, 0 unhealthy)." EmptyString []) in
  let? _ := RegisterCallback (meter m) gauge in
  Ok (fun s => observe_health gauge (observe s)).

Record metricsWriter (W : Type) := mkMetricsWriter { inner : W; status : Z }.
Arguments mkMetricsWriter {W} _ _.
Arguments inner {W} _.
Arguments status {W} _.

#[export] Instance metricsWriter_Writer {W} `{!ResponseWriter W} : ResponseWriter (metricsWriter W) := {|
  w_header rw := w_header (inner rw);
  w_set_header h rw := mkMetricsWriter (w_set_header h (inner rw)) (status rw);
  w_WriteHeader code rw := mkMetricsWriter (w_WriteHeader code (inner rw)) code;
  w_Write b rw := let '(res, w) := w_Write b (inner rw) in (res, mkMetricsWriter w (status rw));
|}.

#[export] Instance metricsWriter_Wraps {W} `{!ResponseWriter W} : Wraps (metricsWriter W) W inner.
Proof. constructor; intros; simpl; try done; by destruct (w_Write b (inner v)) as [res w']. Qed.

(** A measurement sent to an instrument: a duration in nanoseconds (recorded as
    seconds) or an increment of a counter. *)
Inductive measurement := Duration (ns : Z) | Count (n : Z).

Section Middleware.
Context {S I : Type}.
(** [now] reads the clock, [emit] sends a measurement with its attributes,
    [routePattern] reads the pattern chi has matched for the request. *)
Variable now : S -> Z * S.
Variable emit : I -> measurement -> list (string * string) -> S -> S.
Variable routePattern : Request -> S -> string.

Definition route_label (p : string) : string := if decide (p = EmptyString) then "(shed)" else p.

Definition Middleware_ (m : Metrics I) : Middleware S := fun next W RW r w s =>
  let rw := mkMetricsWriter w StatusOK in
  let '(start, s) := now s in
  let '(o, rw, s) := next (metricsWriter W) _ r rw s in
  match o with
  | Panic v => (Panic v, inner rw, s)
  | Return =>
      let '(t, s) := now s in
      let path := route_label (routePattern r s) in
      let s := emit (requestDuration m) (Duration (Since t start)) [("http.method", Method r); ("http.path", path)] s in
      let s := emit (requestsTotal m) (Count 1)
                 [("http.method", Method r); ("http.path", path); ("http.status", Itoa (status rw))] s in
      (Return, inner rw, s)
  end.

Lemma metrics_status {W} `{!ResponseWriter W} ops (rw : metricsWriter W) :
  status (play ops rw) = last_status (status rw) ops.
Proof using Type.
  revert rw. induction ops as [|o ops IH]; intros rw; [done|].
  rewrite last_status_cons. change (play (o :: ops) rw) with (play ops (play1 o rw)). rewrite IH. f_equal.
  destruct o; try done. simpl. unfold write. simpl. by destruct (w_Write b (inner rw)) as [res w'].
Qed.

(** A request whose handler returns is counted once, under its method,
    the route that served it and the status the client received, and its
    duration is recorded once; a request that no route served is labelled
    "(shed)". A panicking request passes through unmeasured. *)
Theorem metrics_counts_once (m : Metrics I) (next : Handler S) (r : Request) (s s1 s2 : S) (t0 : Z)
    (o : outcome) (ops : list wop) (Hnow : now s = (t0, s1)) (Hnext : performs next r s1 o ops s2)
    (Hops : disciplined false ops = true) :
  let w' := play ops new_response in
  let path := route_label (routePattern r (now s2).2) in
  Middleware_ m next response _ r new_response s =
    (o, w',
     match o with
     | Panic _ => s2
     | Return =>
         emit (requestsTotal m) (Count 1)
           [("http.method", Method r); ("http.path", path); ("http.status", Itoa (client_status w'))]
           (emit (requestDuration m) (Duration (Since (now s2).1 t0)) [("http.method", Method r); ("http.path", path)]
              (now s2).2)
     end).
Proof using Type.
  intros w' path. unfold Middleware_. rewrite Hnow, Hnext.
  pose proof (wraps_play inner ops (mkMetricsWriter new_response StatusOK)) as Hin. simpl in Hin. rewrite Hin.
  destruct o; [|done]. rewrite metrics_status. simpl.
  rewrite (disciplined_status false ops new_response) by done.
  subst path. by destruct (now s2) as [t s3].
Qed.
End Middleware.

Definition sample_meter : Meter string := {|
  Int64Counter n _ := Ok n; Float64Histogram n _ := Ok n; Int64ObservableGauge n _ := Ok n; RegisterCallback _ := Ok tt
|}.

Definition shed : Handler (list (string * measurement)) := scripted (fun r s => (Return, [WHead 503], s)).

Lemma metrics_counts_once_witness :
  exists m, NewMetrics sample_meter = Ok m /\
  (Middleware_ (fun s => (5, s)) (fun i x _ s => s ++ [(i, x)]) (fun _ _ => EmptyString) m shed
     response _ RecovererMW.sample_request new_response []).2
  = [("gateway.request.duration", Duration 0); ("gateway.requests.total", Count 1)].
Proof.
  eexists. split; [reflexivity|].
  rewrite (metrics_counts_once (fun s => (5, s)) (fun i x _ s => s ++ [(i, x)]) (fun _ _ => EmptyString)
    _ shed RecovererMW.sample_request [] [] [] 5 Return [WHead 503] eq_refl).
  - vm_compute. reflexivity.
  - by apply scripted_performs.
  - reflexivity.
Defined.

End MetricsMW.
