(* ===== verification/Compress.v ===== *)
(** * Response compression ([internal/middleware/compress.go])

    The compressing writer holds back status and body until enough of the body
    is known to decide; [gzip.Writer] is a parameter of class [Gzip] with the
    documented laws that decompression undoes it, also for a writer that comes
    used out of the pool ([GzipLaws]), and that [Reset] makes a used writer
    equivalent to a new one ([GzipReset]). Where a compressor writes to, its
    destination, is part of the model: a pooled one keeps that of an earlier
    request until it is reset. [http.DetectContentType] is a parameter. *)

From Stdlib Require Import Ascii.
From S2P Require Import Prelude GoStrings Http.
Import Http.

(** [compress/gzip.Writer]: what each call passes to the underlying writer, in
    order, and the decompressor. *)
Class Gzip (G : Type) := {
  gz_Reset : G -> G;
  gz_Write : string -> G -> list string * G;
  gz_Close : G -> list string * G;
  gunzip : string -> option string;
}.

Definition concat_strings (l : list string) : string := foldr String.append EmptyString l.

Lemma concat_strings_app l k : concat_strings (l ++ k) = concat_strings l +:+ concat_strings k.
Proof. induction l as [|x l IH]; simpl; [done|]. by rewrite IH, append_assoc. Qed.

(** Everything written between [Reset] and [Close]. *)
Fixpoint gz_writes {G} `{!Gzip G} (chunks : list string) (g : G) : list string * G :=
  match chunks with
  | [] => ([], g)
  | b :: chunks => let '(out, g) := gz_Write b g in let '(outs, g) := gz_writes chunks g in (out ++ outs, g)
  end.

Definition gz_stream {G} `{!Gzip G} (chunks : list string) (g : G) : list string :=
  let '(outs, g) := gz_writes chunks (gz_Reset g) in outs ++ (gz_Close g).1.

Class GzipLaws (G : Type) `{!Gzip G} : Prop :=
  gunzip_stream : forall chunks (g : G), gunzip (concat_strings (gz_stream chunks g)) = Some (concat_strings chunks).

(** "Reset discards the Writer z's state and makes it equivalent to the result of
    its original state from NewWriter": [like] is that equivalence; equivalent
    writers pass on the same bytes and stay equivalent. *)
Class GzipReset (G : Type) `{!Gzip G} (NewWriter : G) (like : relation G) : Prop := {
  like_equivalence :: Equivalence like;
  like_reset g : like (gz_Reset g) NewWriter;
  like_write b g g' : like g g' -> (gz_Write b g).1 = (gz_Write b g').1 /\ like (gz_Write b g).2 (gz_Write b g').2;
  like_close g g' : like g g' -> (gz_Close g).1 = (gz_Close g').1 /\ like (gz_Close g).2 (gz_Close g').2;
}.

Module CompressMW.

Definition compressibleContentTypes : list string :=
  ["text/"; "application/json"; "application/xml"; "application/javascript"; "application/x-www-form-urlencoded"].

Definition isCompressibleType (DetectContentType : string -> string) (contentType sniff : string) : bool :=
  let contentType := if decide (contentType = EmptyString) then DetectContentType sniff else contentType in
  let '(ct, _, _) := Cut ";" contentType in
  let ct := TrimSpace ct in
  existsb (HasPrefix ct) compressibleContentTypes.

Definition clientAcceptsGzip (header : string) : bool :=
  existsb (fun part =>
    let token := TrimSpace part in
    let '(name, _, _) := Cut ";" token in
    EqualFold (TrimSpace name) "gzip") (Split "," header).

(** The fields of the [gzip.Writer] behind [gz] are its state, its sticky error
    and whether the writer it passes its output to is [inner], the response of
    this request ([bound]). Otherwise that is [io.Discard], or the response of the
    request that used the compressor before. *)
Record compressWriter (G W : Type) := mkCompressWriter {
  inner : W;
  gz : G;
  gz_err : option string;
  bound : bool;
  minSize : Z;
  wroteHead : bool;
  compress : bool;
  buf : string;
  statusCode : Z;
}.
Arguments mkCompressWriter {G W} _ _ _ _ _ _ _ _ _.
Arguments inner {G W} _.
Arguments gz {G W} _.
Arguments gz_err {G W} _.
Arguments bound {G W} _.
Arguments minSize {G W} _.
Arguments wroteHead {G W} _.
Arguments compress {G W} _.
Arguments buf {G W} _.
Arguments statusCode {G W} _.

Section Writer.
Context {G : Type} `{!Gzip G} (DetectContentType : string -> string) {W : Type} `{!ResponseWriter W}.
Implicit Types cw : compressWriter G W.

Definition set_inner (w : W) cw : compressWriter G W :=
  mkCompressWriter w (gz cw) (gz_err cw) (bound cw) (minSize cw) (wroteHead cw) (compress cw) (buf cw) (statusCode cw).

Definition set_compress (b : bool) cw : compressWriter G W :=
  mkCompressWriter (inner cw) (gz cw) (gz_err cw) (bound cw) (minSize cw) (wroteHead cw) b (buf cw) (statusCode cw).

Definition set_gz (g : G) (err : option string) (w : W) cw : compressWriter G W :=
  mkCompressWriter w g err (bound cw) (minSize cw) (wroteHead cw) (compress cw) (buf cw) (statusCode cw).

Definition set_buf (b : string) cw : compressWriter G W :=
  mkCompressWriter (inner cw) (gz cw) (gz_err cw) (bound cw) (minSize cw) (wroteHead cw) (compress cw) b (statusCode cw).

Definition set_wroteHead cw : compressWriter G W :=
  mkCompressWriter (inner cw) (gz cw) (gz_err cw) (bound cw) (minSize cw) true (compress cw) (buf cw) (statusCode cw).

(** The compressor writes its output until the underlying writer fails. *)
Fixpoint emit (out : list string) (w : W) : option string * W :=
  match out with
  | [] => (None, w)
  | b :: out =>
      let '((_, err), w) := w_Write b w in
      match err with Some e => (Some e, w) | None => emit out w end
  end.

(** The output goes to the destination of the compressor: to the response of this
    request, or to where its client does not see it. *)
Definition zip_out (out : list string) cw : option string * W :=
  if bound cw then emit out (inner cw) else (None, inner cw).

(** [cw.gz.Reset(cw.ResponseWriter)] *)
Definition gzip_Reset cw : compressWriter G W :=
  mkCompressWriter (inner cw) (gz_Reset (gz cw)) None true (minSize cw) (wroteHead cw) (compress cw) (buf cw) (statusCode cw).

(** [cw.gz.Write(b)] *)
Definition gzip_Write (b : string) cw : (Z * option string) * compressWriter G W :=
  match gz_err cw with
  | Some e => ((0, Some e), cw)
  | None =>
      let '(out, g) := gz_Write b (gz cw) in
      let '(err, w) := zip_out out cw in
      ((match err with None => Z.of_nat (String.length b) | Some _ => 0 end, err), set_gz g err w cw)
  end.

(** [cw.gz.Close()] *)
Definition gzip_Close cw : option string * compressWriter G W :=
  match gz_err cw with
  | Some e => (Some e, cw)
  | None =>
      let '(out, g) := gz_Close (gz cw) in
      let '(err, w) := zip_out out cw in
      (err, set_gz g err w cw)
  end.

Definition decide_ cw : compressWriter G W :=
  let header := w_header (inner cw) in
  let cw :=
    if bool_decide (Get header "Content-Encoding" ≠ EmptyString) then set_compress false cw
    else if negb (isCompressibleType DetectContentType (Get header "Content-Type") (buf cw)) then set_compress false cw
    else set_compress true cw in
  if compress cw then
    let cw := set_inner (header_Set "Content-Encoding" "gzip" (inner cw)) cw in
    set_inner (header_Del "Content-Length" (inner cw)) cw
  else cw.

Definition flushBuffered cw : compressWriter G W :=
  let status := if statusCode cw =? 0 then StatusOK else statusCode cw in
  let cw := set_inner (w_WriteHeader status (inner cw)) cw in
  let cw := set_wroteHead cw in
  let cw :=
    if compress cw then
      let cw := gzip_Reset cw in
      (gzip_Write (buf cw) cw).2
    else set_inner (write (buf cw) (inner cw)) cw in
  set_buf EmptyString cw.

Definition cw_Write (b : string) cw : (Z * option string) * compressWriter G W :=
  if wroteHead cw then
    if compress cw then gzip_Write b cw
    else let '(res, w) := w_Write b (inner cw) in (res, set_inner w cw)
  else
    let cw := set_buf (buf cw +:+ b) cw in
    if Z.of_nat (String.length (buf cw)) <? minSize cw then ((Z.of_nat (String.length b), None), cw)
    else ((Z.of_nat (String.length b), None), flushBuffered (decide_ cw)).

Definition cw_WriteHeader (code : Z) cw : compressWriter G W :=
  mkCompressWriter (inner cw) (gz cw) (gz_err cw) (bound cw) (minSize cw) (wroteHead cw) (compress cw) (buf cw) code.

Definition finish cw : option string * compressWriter G W :=
  let cw := if negb (wroteHead cw) then flushBuffered (set_compress false cw) else cw in
  if compress cw then gzip_Close cw else (None, cw).

#[export] Instance compressWriter_Writer : ResponseWriter (compressWriter G W) := {|
  w_header cw := w_header (inner cw);
  w_set_header h cw := set_inner (w_set_header h (inner cw)) cw;
  w_WriteHeader := cw_WriteHeader;
  w_Write := cw_Write;
|}.
End Writer.

(** [pooled] is the writer the pool hands out, in whatever state the previous
    request left it, and not bound to the response of this one. A panic skips [finish]; the writer goes back to the pool in
    either case. *)
Definition Compress {S G} `{!Gzip G} (DetectContentType : string -> string) (pooled : G) (minSize : Z) : Middleware S :=
  fun next W RW r w s =>
    let w := header_Add "Vary" "Accept-Encoding" w in
    if negb (clientAcceptsGzip (Get (header r) "Accept-Encoding")) then next W RW r w s
    else
      let cw := mkCompressWriter w pooled None false minSize false false EmptyString 0 in
      let '(o, cw, s) := next (compressWriter G W) (compressWriter_Writer DetectContentType) r cw s in
      match o with
      | Panic v => (Panic v, inner cw, s)
      | Return => (Return, inner (finish cw).2, s)
      end.

(** ** What the writer does to a response *)

(** Room for [n] more body bytes in a response whose status is out. *)
Definition room (n : Z) (w : response) : Prop :=
  match sent w with Some (c, _) => body_allowed c = true | None => False end /\
  match declared w with Some cl => written w + n <= cl | None => True end.

Definition len (s : string) : Z := Z.of_nat (String.length s).

Lemma len_append s t : len (s +:+ t) = len s + len t.
Proof. unfold len. rewrite length_append. lia. Qed.

Lemma len_nonneg s : 0 <= len s.
Proof. unfold len. lia. Qed.

Lemma response_Write_room b w n :
  0 <= n -> room (len b + n) w ->
  exists w', response_Write b w = ((len b, None), w') /\ room n w' /\ sent w' = sent w /\ declared w' = declared w /\
    sent_body w' = sent_body w +:+ b.
Proof.
  intros Hn [Hs Hr]. unfold response_Write.
  destruct (sent w) as [[c h]|] eqn:E; [|done].
  rewrite (response_WriteHeader_started _ _ _ E), E, Hs. simpl. fold (len b).
  destruct (len b =? 0) eqn:E0.
  - bool2prop. destruct b; [|unfold len in E0; simpl in E0; lia]. exists w. unfold room. rewrite E, append_nil_r.
    split_and!; try done.
  - destruct (declared w) as [cl|] eqn:Ed; rewrite ?Ed in Hr.
    + destruct (cl <? written w + len b) eqn:Ec; bool2prop; [lia|].
      eexists. split; [reflexivity|]. unfold room. simpl. rewrite ?E, ?Ed. split_and!; try done; lia.
    + eexists. split; [reflexivity|]. unfold room. simpl. rewrite ?E, ?Ed. split_and!; done.
Qed.

(** Body writes that fit are all sent. *)
Lemma play_bodies chunks (w : response) :
  room (len (concat_strings chunks)) w ->
  sent (play (map WBody chunks) w) = sent w /\
  sent_body (play (map WBody chunks) w) = sent_body w +:+ concat_strings chunks.
Proof.
  revert w. induction chunks as [|b chunks IH]; intros w Hr; simpl.
  - by rewrite append_nil_r.
  - change (concat_strings (b :: chunks)) with (b +:+ concat_strings chunks) in *.
    rewrite len_append in Hr. unfold write at 1 2. simpl.
    destruct (response_Write_room b w _ (len_nonneg _) Hr) as (w' & E & Hr' & Hs & _ & Hb).
    rewrite E. simpl. destruct (IH w' Hr') as [-> ->]. by rewrite Hs, Hb, append_assoc.
Qed.

Lemma emit_room out (w : response) :
  declared w = None -> room 0 w ->
  exists w', emit out w = (None, w') /\ declared w' = None /\ room 0 w' /\ sent w' = sent w /\
    sent_body w' = sent_body w +:+ concat_strings out.
Proof.
  revert w. induction out as [|b out IH]; intros w Hd Hr; simpl.
  - exists w. by rewrite append_nil_r.
  - destruct (response_Write_room b w 0) as (w1 & E & Hr1 & Hs1 & Hd1 & Hb1); [lia| |].
    { destruct Hr as [Hr1 _]. split; [done|]. by rewrite Hd. }
    rewrite E. destruct (IH w1) as (w' & -> & Hd' & Hr' & Hs' & Hb'); [congruence|done|].
    exists w'. split_and!; [done..|congruence|]. rewrite Hb', Hb1, append_assoc. done.
Qed.

Lemma header_ops_fresh hops (w : response) :
  forallb is_header_op hops = true ->
  sent w = None /\ written w = 0 /\ sent_body w = EmptyString ->
  sent (play hops w) = None /\ written (play hops w) = 0 /\ sent_body (play hops w) = EmptyString.
Proof.
  revert w. induction hops as [|o hops IH]; intros w H Hw; [done|]. simpl in H. bool2prop.
  apply IH; [done|]. by destruct o.
Qed.

(** The part of the body that is buffered when the decision is taken, and the rest. *)
Fixpoint split_at (m : Z) (b : string) (chunks : list string) : option (string * list string) :=
  match chunks with
  | [] => None
  | x :: chunks => if len (b +:+ x) <? m then split_at m (b +:+ x) chunks else Some (b +:+ x, chunks)
  end.

Lemma split_at_app m b chunks b' rest :
  split_at m b chunks = Some (b', rest) -> b +:+ concat_strings chunks = b' +:+ concat_strings rest /\ m <= len b'.
Proof.
  revert b. induction chunks as [|x chunks IH]; intros b H; simpl in H; [done|].
  change (concat_strings (x :: chunks)) with (x +:+ concat_strings chunks). rewrite <- append_assoc.
  destruct (len (b +:+ x) <? m) eqn:E; [by apply IH|]. injection H as <- <-. bool2prop. done.
Qed.

Lemma split_at_none m b chunks :
  split_at m b chunks = None <-> chunks = [] \/ len (b +:+ concat_strings chunks) < m.
Proof.
  revert b. induction chunks as [|x chunks IH]; intros b; simpl; [naive_solver|].
  change (concat_strings (x :: chunks)) with (x +:+ concat_strings chunks). rewrite <- append_assoc.
  pose proof (len_nonneg (concat_strings chunks)). rewrite (len_append (b +:+ x)).
  destruct (len (b +:+ x) <? m) eqn:E; bool2prop.
  - rewrite IH, len_append. split; [|naive_solver].
    intros [-> |?]; right; [change (len (concat_strings [])) with 0|]; lia.
  - split; [done|]. intros [?|?]; [done|lia].
Qed.

Lemma response_WriteHeader_fresh c w :
  sent w = None -> body_allowed c = true ->
  response_WriteHeader c w =
    mkResponse (hdr w) (Some (c, hdr w)) (declared_length (hdr w)) (written w) (sent_body w).
Proof.
  intros Hs Hc. unfold response_WriteHeader. rewrite Hs.
  assert (informational c = false) as ->; [|done].
  unfold body_allowed, informational in *. destruct ((100 <=? c) && (c <=? 199)); [done|done].
Qed.

Section Stream.
Context {G : Type} `{!Gzip G} (DetectContentType : string -> string).
Implicit Types cw : compressWriter G response.
#[local] Instance cw_writer : ResponseWriter (compressWriter G response) := compressWriter_Writer DetectContentType.

(** Header operations go straight to the underlying writer. *)
Lemma play_headers hops cw :
  forallb is_header_op hops = true -> play hops cw = set_inner (play hops (inner cw)) cw.
Proof.
  revert cw. induction hops as [|o hops IH]; intros cw H; [by destruct cw|]. simpl in H. bool2prop.
  change (play hops (play1 o cw) = set_inner (play hops (play1 o (inner cw))) cw).
  rewrite IH by done. by destruct o.
Qed.

(** While nothing is sent, body writes only fill the buffer, until it is large
    enough to decide. *)
Lemma play_buffering chunks cw :
  wroteHead cw = false ->
  play (map WBody chunks) cw =
    match split_at (minSize cw) (buf cw) chunks with
    | None => set_buf (buf cw +:+ concat_strings chunks) cw
    | Some (b, rest) => play (map WBody rest) (flushBuffered (decide_ DetectContentType (set_buf b cw)))
    end.
Proof.
  revert cw. induction chunks as [|x chunks IH]; intros cw Hw; simpl.
  - rewrite append_nil_r. by destruct cw.
  - change (concat_strings (x :: chunks)) with (x +:+ concat_strings chunks).
    unfold write at 1. simpl. unfold cw_Write. rewrite Hw. simpl. fold (len (buf cw +:+ x)).
    destruct (len (buf cw +:+ x) <? minSize cw) eqn:E; simpl; [|done].
    rewrite IH by done. simpl. destruct (split_at _ _ chunks) as [[b rest]|]; [done|].
    by rewrite append_assoc.
Qed.

(** After a decision against compression the rest is passed on. *)
Lemma play_passing rest cw :
  wroteHead cw = true -> compress cw = false ->
  let cw' := play (map WBody rest) cw in
  inner cw' = play (map WBody rest) (inner cw) /\ wroteHead cw' = true /\ compress cw' = false.
Proof.
  revert cw. induction rest as [|x rest IH]; intros cw Hw Hc; simpl; [done|].
  assert (write x cw = set_inner (write x (inner cw)) cw) as ->.
  { unfold write at 1. simpl. unfold cw_Write. rewrite Hw, Hc. unfold write. simpl.
    by destruct (response_Write x (inner cw)). }
  by apply (IH (set_inner _ cw)).
Qed.

(** After a decision for compression the rest goes through the compressor. *)
Lemma play_zipping rest cw :
  wroteHead cw = true -> compress cw = true -> gz_err cw = None -> bound cw = true -> declared (inner cw) = None -> room 0 (inner cw) ->
  let cw' := play (map WBody rest) cw in
  gz cw' = (gz_writes rest (gz cw)).2 /\ wroteHead cw' = true /\ compress cw' = true /\ gz_err cw' = None /\ bound cw' = true /\
  declared (inner cw') = None /\ room 0 (inner cw') /\ sent (inner cw') = sent (inner cw) /\
  sent_body (inner cw') = sent_body (inner cw) +:+ concat_strings (gz_writes rest (gz cw)).1.
Proof.
  revert cw. induction rest as [|x rest IH]; intros cw Hw Hc He Ho Hd Hr; simpl.
  - rewrite append_nil_r. done.
  - unfold write. simpl. unfold cw_Write. rewrite Hw, Hc. unfold gzip_Write, zip_out. rewrite He, Ho.
    destruct (gz_Write x (gz cw)) as [out g] eqn:Eg.
    destruct (emit_room out (inner cw) Hd Hr) as (w' & -> & Hd' & Hr' & Hs' & Hb'). simpl.
    destruct (IH (set_gz g None w' cw)) as (H1 & H2 & H3 & H4 & H4' & H5 & H6 & H7 & H8); [done..|].
    simpl in *. destruct (gz_writes rest g) as [outs g'] eqn:Ew. simpl in *. split_and!; try done.
    + congruence.
    + rewrite H8, Hb', append_assoc. by rewrite concat_strings_app.
Qed.

(** The writer of a handler that has set its headers and the status [c]. *)
Definition ready (w : response) (g : G) (m c : Z) : compressWriter G response :=
  mkCompressWriter w g None false m false false EmptyString c.

Section Ready.
Context (w : response) (g : G) (m c : Z) (chunks : list string).
Hypothesis Hfresh : sent w = None.
Hypothesis Hstart : written w = 0 /\ sent_body w = EmptyString.
Hypothesis Hc : 200 <= c /\ body_allowed c = true.
Hypothesis Hcl : match declared_length (hdr w) with Some n => len (concat_strings chunks) <= n | None => True end.

Let h := hdr w.
Let status_out : (if c =? 0 then StatusOK else c) = c.
Proof. destruct (c =? 0) eqn:E; [bool2prop; lia|done]. Qed.

Lemma head_room : room (len (concat_strings chunks)) (response_WriteHeader c w).
Proof.
  rewrite response_WriteHeader_fresh by tauto. unfold room. simpl. destruct Hstart as [-> _]. tauto.
Qed.

(** Small or unsuitable bodies: sent as they are. *)
Definition plain_response (w' : response) : Prop :=
  sent w' = Some (c, h) /\ sent_body w' = concat_strings chunks.

Lemma plain_bodies parts :
  concat_strings parts = concat_strings chunks ->
  plain_response (play (map WBody parts) (response_WriteHeader c w)).
Proof.
  intros E. pose proof head_room as Hr. rewrite <- E in Hr.
  destruct (play_bodies parts _ Hr) as [H1 H2]. unfold plain_response. rewrite H1, H2, E.
  rewrite response_WriteHeader_fresh by tauto. simpl. destruct Hstart as [_ ->]. done.
Qed.

Lemma finish_small :
  split_at m EmptyString chunks = None ->
  plain_response (inner (finish (play (map WBody chunks) (ready w g m c))).2).
Proof.
  intros E. rewrite play_buffering by done. cbn [minSize buf ready]. rewrite E.
  unfold finish, flushBuffered. simpl. rewrite status_out, append_nil_l.
  apply (plain_bodies [concat_strings chunks]). simpl. by rewrite append_nil_r.
Qed.

Definition wanted (b : string) : bool :=
  bool_decide (Get h "Content-Encoding" = EmptyString) &&
  isCompressibleType DetectContentType (Get h "Content-Type") b.

Lemma decide_wanted b :
  decide_ DetectContentType (set_buf b (ready w g m c)) =
    if wanted b
    then mkCompressWriter (header_Del "Content-Length" (header_Set "Content-Encoding" "gzip" w)) g None false m false true b c
    else set_buf b (ready w g m c).
Proof.
  unfold decide_, wanted. simpl. fold h.
  destruct (decide (Get h "Content-Encoding" = EmptyString)) as [E|E].
  - rewrite bool_decide_eq_false_2 by tauto. rewrite (bool_decide_eq_true_2 _ E). simpl.
    by destruct (isCompressibleType _ _ _).
  - rewrite bool_decide_eq_true_2 by done. by rewrite (bool_decide_eq_false_2 _ E).
Qed.

Lemma finish_unwanted b rest :
  split_at m EmptyString chunks = Some (b, rest) -> wanted b = false ->
  plain_response (inner (finish (play (map WBody chunks) (ready w g m c))).2).
Proof.
  intros E Ew. rewrite play_buffering by done. cbn [minSize buf ready]. rewrite E, decide_wanted, Ew.
  apply split_at_app in E as [E _]. rewrite append_nil_l in E.
  match goal with |- context [play (map WBody rest) ?cw] => destruct (play_passing rest cw) as (H1 & H2 & H3) end;
    [done..|]. unfold finish. rewrite H2. simpl. rewrite H3. simpl. rewrite H1. simpl. rewrite status_out.
  by apply (plain_bodies (b :: rest)).
Qed.

(** Suitable bodies: compressed. *)
Definition zipped_response (w' : response) : Prop :=
  sent w' = Some (c, Del "Content-Length" (Set_ "Content-Encoding" "gzip" h)) /\
  gunzip (sent_body w') = Some (concat_strings chunks).

Lemma finish_wanted `{!GzipLaws G} b rest :
  split_at m EmptyString chunks = Some (b, rest) -> wanted b = true ->
  zipped_response (inner (finish (play (map WBody chunks) (ready w g m c))).2).
Proof.
  intros E Ew. rewrite play_buffering by done. cbn [minSize buf ready]. rewrite E, decide_wanted, Ew.
  apply split_at_app in E as [E _]. rewrite append_nil_l in E.
  set (h' := Del "Content-Length" (Set_ "Content-Encoding" "gzip" h)).
  assert (declared_length h' = None) as Hd.
  { unfold declared_length. unfold Get at 1. unfold h'. by rewrite Values_Del. }
  unfold flushBuffered at 1. simpl. rewrite status_out.
  set (w1 := mkResponse _ _ _ _ _). unfold gzip_Write, zip_out. simpl.
  assert (response_WriteHeader c w1 = mkResponse h' (Some (c, h')) None 0 EmptyString) as ->.
  { rewrite response_WriteHeader_fresh by tauto. simpl. fold h. fold h'. rewrite Hd. destruct Hstart as [-> ->]. done. }
  destruct (gz_Write b (gz_Reset g)) as [out0 g1] eqn:E0.
  destruct (emit_room out0 (mkResponse h' (Some (c, h')) None 0 EmptyString)) as (w2 & -> & Hd2 & Hr2 & Hs2 & Hb2);
    [done|split; simpl; tauto|]. simpl in *.
  match goal with |- context [play (map WBody rest) ?cw] =>
    destruct (play_zipping rest cw) as (H1 & H2 & H3 & H4 & H4' & H5 & H6 & H7 & H8); [done..|];
    generalize dependent (play (map WBody rest) cw) end. intros cw' H1 H2 H3 H4 H4' H5 H6 H7 H8. simpl in *.
  unfold finish. rewrite H2. simpl. rewrite H3. unfold gzip_Close, zip_out. rewrite H4, H4', H1.
  destruct (gz_Close _) as [out3 g3] eqn:E3.
  destruct (emit_room out3 _ H5 H6) as (w3 & -> & _ & _ & Hs3 & Hb3). cbn [set_gz inner snd].
  unfold zipped_response. split; [by rewrite Hs3, H7, Hs2|].
  pose proof (gunzip_stream (b :: rest) g) as Hz. unfold gz_stream in Hz. simpl in Hz. rewrite E0 in Hz.
  destruct (gz_writes rest g1) as [outs g2] eqn:Er. simpl in *. rewrite E3 in Hz. simpl in Hz.
  rewrite Hb3, H8, Hb2. rewrite !concat_strings_app, !append_assoc in Hz. rewrite append_nil_l, !append_assoc, Hz.
  by rewrite <- E.
Qed.

Lemma finish_result `{!GzipLaws G} :
  let w' := inner (finish (play (map WBody chunks) (ready w g m c))).2 in
  if match split_at m EmptyString chunks with Some (b, _) => wanted b | None => false end
  then zipped_response w' else plain_response w'.
Proof.
  intros w'. destruct (split_at m EmptyString chunks) as [[b rest]|] eqn:E; [|by apply finish_small].
  destruct (wanted b) eqn:Ew; [by apply (finish_wanted b rest)|by apply (finish_unwanted b rest)].
Qed.
End Ready.
End Stream.

(** The response is compressed: reference definition. The content type is
    sniffed, where the handler set none, from the part of the body that is known
    when [minSize] bytes are reached. *)
Definition compressed (DetectContentType : string -> string) (accept : string) (minSize : Z) (h : Header) (chunks : list string) : bool :=
  clientAcceptsGzip accept &&
  match split_at minSize EmptyString chunks with
  | Some (known, _) =>
      bool_decide (Get h "Content-Encoding" = EmptyString) && isCompressibleType DetectContentType (Get h "Content-Type") known
  | None => false
  end.

(** With a declared content type the sniffing plays no role. *)
Lemma compressed_typed D accept minSize h chunks :
  Get h "Content-Type" ≠ EmptyString ->
  compressed D accept minSize h chunks =
    clientAcceptsGzip accept && bool_decide (chunks ≠ []) && (minSize <=? len (concat_strings chunks)) &&
    bool_decide (Get h "Content-Encoding" = EmptyString) && isCompressibleType D (Get h "Content-Type") EmptyString.
Proof.
  intros Ht. unfold compressed. rewrite <- !andb_assoc. f_equal.
  pose proof (split_at_none minSize EmptyString chunks) as Hn. rewrite append_nil_l in Hn.
  destruct (split_at minSize EmptyString chunks) as [[b rest]|] eqn:E.
  - assert (chunks ≠ []) as Hne by (intros Hnil; specialize (proj2 Hn (or_introl Hnil)); done).
    assert (minSize <= len (concat_strings chunks)) as Hm
      by (apply Z.nlt_ge; intros Hlt; specialize (proj2 Hn (or_intror Hlt)); done).
    rewrite (bool_decide_eq_true_2 _ Hne), (proj2 (Z.leb_le _ _) Hm).
    simpl. unfold isCompressibleType. by rewrite !decide_False.
  - destruct (proj1 Hn eq_refl) as [-> |Hlt]; [done|].
    rewrite (proj2 (Z.leb_gt _ _)) by done. by rewrite andb_false_r.
Qed.

(** C17. For a handler that sets headers, sends a status that allows a body and
    then the body in any number of pieces, the client always receives the status
    and, after undoing the content encoding, exactly the body of the handler. The
    response is compressed exactly when the client accepts gzip, at least
    [minSize] bytes were written, the handler has set no encoding of its own and
    the type is compressible; then the declared length is removed and the encoding
    announced, and otherwise the headers and the body bytes are those of the
    handler. [Vary: Accept-Encoding] is added in every case. The state in which
    the pool hands out the compressor plays no role. *)
Theorem compress_preserves_response {S G} `{!Gzip G, !GzipLaws G} (DetectContentType : string -> string) (pooled : G)
    (minSize : Z) (next : Handler S) (r : Request) (s s' : S) (hops : list wop) (c : Z) (chunks : list string)
    (Hnext : performs next r s Return (hops ++ WHead c :: map WBody chunks) s')
    (Hhops : forallb is_header_op hops = true) (Hc : 200 <= c /\ body_allowed c = true) :
  let h := w_header (play hops (header_Add "Vary" "Accept-Encoding" new_response)) in
  match declared_length h with Some n => len (concat_strings chunks) <= n | None => True end ->
  exists w', Compress DetectContentType pooled minSize next response _ r new_response s = (Return, w', s') /\
    client_status w' = c /\
    if compressed DetectContentType (Get (header r) "Accept-Encoding") minSize h chunks
    then client_header w' = Del "Content-Length" (Set_ "Content-Encoding" "gzip" h) /\
         gunzip (sent_body w') = Some (concat_strings chunks)
    else client_header w' = h /\ sent_body w' = concat_strings chunks.
Proof.
  intros h Hcl. unfold Compress, compressed.
  set (w1 := header_Add "Vary" "Accept-Encoding" new_response) in *.
  assert (sent (play hops w1) = None /\ written (play hops w1) = 0 /\ sent_body (play hops w1) = EmptyString)
    as (Hf & Hw & Hb) by (by apply header_ops_fresh).
  destruct (clientAcceptsGzip _); cbn [negb andb].
  - rewrite Hnext, play_app. change (compressWriter_Writer DetectContentType) with (cw_writer DetectContentType (G := G)).
    rewrite (play_headers DetectContentType hops) by done.
    rewrite play_cons.
    pose proof (finish_result DetectContentType (play hops w1) pooled minSize c chunks Hf (conj Hw Hb) Hc Hcl) as Hres.
    eexists. split; [reflexivity|].
    set (w' := inner _) in Hres. change (inner _) with w'. clearbody w'.
    unfold wanted, zipped_response, plain_response in Hres. change (hdr (play hops w1)) with h in Hres.
    unfold client_status, client_header.
    destruct (match split_at _ _ _ with Some _ => _ | None => _ end); by destruct Hres as [-> ->].
  - rewrite Hnext. eexists. split; [reflexivity|]. rewrite play_app, play_cons.
    change (play1 (WHead c) ?w) with (response_WriteHeader c w).
    unfold client_status, client_header.
    by destruct (plain_bodies (play hops w1) c chunks Hf (conj Hw Hb) Hc Hcl chunks eq_refl) as [-> ->].
Qed.

(** ** Example *)

(** A stand-in for gzip that marks its output and buffers until it is closed. *)
#[export] Instance sample_gzip : Gzip string := {|
  gz_Reset _ := EmptyString;
  gz_Write b g := ([], g +:+ b);
  gz_Close g := (["gz:"; g], EmptyString);
  gunzip s := CutPrefix s "gz:";
|}.

#[export] Instance sample_gzip_laws : GzipLaws string.
Proof.
  intros chunks g. unfold gz_stream. simpl.
  assert (forall acc, gz_writes chunks acc = ([], acc +:+ concat_strings chunks)) as H.
  { induction chunks as [|x chunks IH]; intros acc; simpl; [by rewrite append_nil_r|].
    by rewrite IH, append_assoc. }
  rewrite H. simpl. rewrite append_nil_l, append_nil_r. done.
Qed.

#[export] Instance sample_gzip_reset : GzipReset string EmptyString eq.
Proof. by split; [apply _|..|intros b g g' ->|intros g g' ->]. Qed.

Definition sample_request (accept : string) : Request :=
  mkRequest "GET" "/" EmptyString (Set_ "Accept-Encoding" accept ∅) 0 (mkBody EmptyString None) "h" "10.0.0.1:4711" Background.

Definition sample_handler : Handler unit :=
  scripted (fun r s => (Return, [HSet "Content-Type" "application/json"; HSet "Content-Length" "7"] ++
                                WHead 200 :: map WBody ["[1,"; "2,3]"], s)).

Lemma compress_preserves_response_witness :
  exists w', Compress (fun _ => EmptyString) "stale" 5 sample_handler response _ (sample_request "br, GZIP;q=1") new_response tt
    = (Return, w', tt) /\ Get (client_header w') "Content-Encoding" = "gzip" /\ gunzip (sent_body w') = Some "[1,2,3]".
Proof.
  destruct (compress_preserves_response (fun _ => EmptyString) "stale" 5 sample_handler (sample_request "br, GZIP;q=1") tt tt
    [HSet "Content-Type" "application/json"; HSet "Content-Length" "7"] 200 ["[1,"; "2,3]"]) as (w' & H1 & H2 & H3).
  - by apply scripted_performs.
  - reflexivity.
  - split; [lia|reflexivity].
  - vm_compute. discriminate.
  - assert (compressed (fun _ => EmptyString) (Get (header (sample_request "br, GZIP;q=1")) "Accept-Encoding") 5
      (w_header (play [HSet "Content-Type" "application/json"; HSet "Content-Length" "7"]
         (header_Add "Vary" "Accept-Encoding" new_response))) ["[1,"; "2,3]"] = true) as E by (vm_compute; reflexivity).
    rewrite E in H3. destruct H3 as [H3 H4]. exists w'. split; [exact H1|]. split; [|exact H4].
    rewrite H3. vm_compute. reflexivity.
Defined.

(** A quality of zero, by which a client refuses an encoding, is not looked at. *)
Example gzip_refused_is_used : clientAcceptsGzip "gzip;q=0, identity" = true.
Proof. vm_compute. reflexivity. Qed.

End CompressMW.
