(* ===== verification/Sha256.v ===== *)
(** * SHA-256

    The hash behind the entity tags of the cache ([crypto/sha256.Sum256]),
    following FIPS 180-4 on 32-bit words. *)

From Stdlib Require Import Ascii.
From S2P Require Import Prelude GoStrings.

Module Sha256.

Definition w32 (z : Z) : Z := Z.land z 4294967295.
Definition rotr (n x : Z) : Z := w32 (Z.lor (Z.shiftr x n) (Z.shiftl x (32 - n))).
Definition notw (x : Z) : Z := Z.lxor x 4294967295.

(** The constants are not a table: the standard defines them as the first 32
    bits of the fractional parts of roots of the first primes, and so are
    they computed here. *)
Definition is_prime (n : nat) : bool :=
  forallb (fun d => negb (Nat.eqb (Nat.modulo n d) 0)) (seq 2 (n - 2)).

Definition primes : list Z :=
  Eval vm_compute in map Z.of_nat (filter (fun n => is_prime n = true) (seq 2 310)).

(** The integer cube root of [z] below [acc + 2^bits], by binary search from
    the highest bit. *)
Fixpoint cube_root (bits : nat) (acc z : Z) : Z :=
  match bits with
  | O => acc
  | S bits =>
      let try := acc + 2 ^ Z.of_nat bits in
      cube_root bits (if try * try * try <=? z then try else acc) z
  end.

Definition K : list Z :=
  Eval vm_compute in map (fun p => w32 (cube_root 40 0 (Z.shiftl p 96))) primes.

Record words := mkWords { wa : Z; wb : Z; wc : Z; wd : Z; we : Z; wf : Z; wg : Z; wh : Z }.

Definition root_word (i : nat) : Z := w32 (Z.sqrt (Z.shiftl (default 0 (primes !! i)) 64)).

Definition H0 : words :=
  Eval vm_compute in
    mkWords (root_word 0) (root_word 1) (root_word 2) (root_word 3)
            (root_word 4) (root_word 5) (root_word 6) (root_word 7).

Definition add_words (x y : words) : words :=
  mkWords (w32 (wa x + wa y)) (w32 (wb x + wb y)) (w32 (wc x + wc y)) (w32 (wd x + wd y))
          (w32 (we x + we y)) (w32 (wf x + wf y)) (w32 (wg x + wg y)) (w32 (wh x + wh y)).

Definition round (s : words) (k w : Z) : words :=
  let s1 := Z.lxor (Z.lxor (rotr 6 (we s)) (rotr 11 (we s))) (rotr 25 (we s)) in
  let ch := Z.lxor (Z.land (we s) (wf s)) (Z.land (notw (we s)) (wg s)) in
  let t1 := wh s + s1 + ch + k + w in
  let s0 := Z.lxor (Z.lxor (rotr 2 (wa s)) (rotr 13 (wa s))) (rotr 22 (wa s)) in
  let maj := Z.lxor (Z.lxor (Z.land (wa s) (wb s)) (Z.land (wa s) (wc s))) (Z.land (wb s) (wc s)) in
  let t2 := s0 + maj in
  mkWords (w32 (t1 + t2)) (wa s) (wb s) (wc s) (w32 (wd s + t1)) (we s) (wf s) (wg s).

(** The message schedule, latest word first: each step prepends one word. *)
Definition nthw (n : nat) (l : list Z) : Z := default 0 (l !! n).

Fixpoint schedule (n : nat) (rev : list Z) : list Z :=
  match n with
  | O => rev
  | S n =>
      let w15 := nthw 14 rev in
      let w2 := nthw 1 rev in
      let s0 := Z.lxor (Z.lxor (rotr 7 w15) (rotr 18 w15)) (Z.shiftr w15 3) in
      let s1 := Z.lxor (Z.lxor (rotr 17 w2) (rotr 19 w2)) (Z.shiftr w2 10) in
      schedule n (w32 (nthw 15 rev + s0 + nthw 6 rev + s1) :: rev)
  end.

Definition compress (h : words) (block : list Z) : words :=
  let ws := rev (schedule 48 (rev block)) in
  add_words h (foldl (fun s '(k, w) => round s k w) h (zip K ws)).

(** Big-endian words. *)
Fixpoint to_words (l : list Z) : list Z :=
  match l with
  | a :: b :: c :: d :: l => (Z.shiftl a 24 + Z.shiftl b 16 + Z.shiftl c 8 + d) :: to_words l
  | _ => []
  end.

Fixpoint codes (s : string) : list Z :=
  match s with EmptyString => [] | String c s => code c :: codes s end.

Definition pad (l : list Z) : list Z :=
  let n := Z.of_nat (length l) in
  let zeros := Z.to_nat ((55 - n) mod 64) in
  let bits := n * 8 in
  l ++ 128 :: replicate zeros 0 ++ map (fun i => Z.land (Z.shiftr bits i) 255) [56; 48; 40; 32; 24; 16; 8; 0].

Fixpoint blocks (n : nat) (h : words) (ws : list Z) : words :=
  match n with
  | O => h
  | S n => blocks n (compress h (take 16 ws)) (drop 16 ws)
  end.

Definition of_word (x : Z) : list Z :=
  [Z.land (Z.shiftr x 24) 255; Z.land (Z.shiftr x 16) 255; Z.land (Z.shiftr x 8) 255; Z.land x 255].

Fixpoint of_codes (l : list Z) : string :=
  match l with [] => EmptyString | z :: l => String (byte z) (of_codes l) end.

(** The 32 bytes of the digest. *)
Definition Sum256 (s : string) : string :=
  let ws := to_words (pad (codes s)) in
  let h := blocks (Nat.div (length ws) 16) H0 ws in
  of_codes (concat (map of_word [wa h; wb h; wc h; wd h; we h; wf h; wg h; wh h])).

(** The test vectors of the standard: no block boundary crossed, and one crossed. *)
Example sha256_abc :
  hex (Sum256 "abc") = "ba7816bf8f01cfea414140de5dae2223b00361a396177a9cb410ff61f20015ad".
Proof. vm_compute. reflexivity. Qed.

Example sha256_two_blocks :
  hex (Sum256 "abcdbcdecdefdefgefghfghighijhijkijkljklmklmnlmnomnopnopq")
  = "248d6a61d20638b8e5c026930c3e6039a33ce45964ff2167f6ecedd419db06c1".
Proof. vm_compute. reflexivity. Qed.

Lemma round_constants : length K = 64%nat.
Proof. reflexivity. Qed.

Lemma Sum256_length s : String.length (Sum256 s) = 32%nat.
Proof. reflexivity. Qed.

End Sha256.
