(* ===== verification/CacheMW.v ===== *)
(** * The response cache middleware ([internal/middleware/cache.go])

    [Module CacheMW] is the middleware as one request runs through it; the LRU is
    the one of [Lru.v], shared through a lens together with the table of [Vary]
    headers. Each request runs [fillCache] itself; that [singleflight], a library,
    joins concurrent calls with one key is outside the model. *)

From Stdlib Require Import Ascii.
From S2P Require Import Prelude GoStrings Http Lru Sha256 Compress.
Import Http.

(** ** Queries ([net/url]) *)

Module Url.

Definition hex_value (c : ascii) : option Z :=
  if is_digit c then Some (code c - 48)
  else if (97 <=? code c) && (code c <=? 102) then Some (code c - 87)
  else if (65 <=? code c) && (code c <=? 70) then Some (code c - 55)
  else None.

(** [url.QueryUnescape]; [None] is its error. *)
Fixpoint QueryUnescape (s : string) : option string :=
  match s with
  | EmptyString => Some EmptyString
  | String c s1 =>
      if code c =? 37 then
        match s1 with
        | String a (String b s2) =>
            match hex_value a, hex_value b with
            | Some x, Some y => String (byte (x * 16 + y)) <$> QueryUnescape s2
            | _, _ => None
            end
        | _ => None
        end
      else String (if code c =? 43 then " "%char else c) <$> QueryUnescape s1
  end.

Definition has_semicolon (s : string) : bool := negb (all_bytes (fun c => negb (code c =? 59)) s).

(** [URL.Query]: settings that do not parse are dropped. *)
Definition add_setting (m : gmap string (list string)) (part : string) : gmap string (list string) :=
  if has_semicolon part then m
  else if decide (part = EmptyString) then m
  else
    let '(k, v, _) := Cut "=" part in
    match QueryUnescape k, QueryUnescape v with
    | Some k, Some v => <[k := default [] (m !! k) ++ [v]]> m
    | _, _ => m
    end.

Definition Query (raw : string) : gmap string (list string) := foldl add_setting ∅ (Split "&" raw).

(** The byte-wise order of Go strings. *)
Definition string_le (a b : string) : Prop := String.leb a b = true.

#[export] Instance string_le_dec : RelDecision string_le.
Proof. intros a b. unfold string_le. apply _. Defined.

(** [sort.Strings] *)
Definition sort_strings (l : list string) : list string := merge_sort string_le l.

(** [url.QueryEscape] *)
Definition escape_byte (c : ascii) : string :=
  if is_upper c || is_lower c || is_digit c || existsb (fun z => code c =? z) [45; 46; 95; 126]
  then String c EmptyString
  else if code c =? 32 then "+"
  else String "%" (map_bytes upper_byte (hex (String c EmptyString))).

Fixpoint QueryEscape (s : string) : string :=
  match s with EmptyString => EmptyString | String c s => escape_byte c +:+ QueryEscape s end.

(** [Values.Encode] *)
Definition Encode (q : gmap string (list string)) : string :=
  Join "&" (concat (map (fun k => map (fun v => QueryEscape k +:+ "=" +:+ QueryEscape v) (default [] (q !! k)))
                        (sort_strings (map fst (map_to_list q))))).

End Url.

Module CacheMW.
Import Url.

(** ** Header fields *)

Definition parseVary (vary : string) : list string * bool :=
  if decide (vary = EmptyString) then ([], false)
  else
    (fix go (parts : list string) (out : list string) : list string * bool :=
       match parts with
       | [] => (out, false)
       | part :: parts =>
           let p := TrimSpace part in
           if decide (p = EmptyString) then go parts out
           else if decide (p = "*") then ([], true)
           else go parts (out ++ [p])
       end) (Split "," vary) [].

Definition parseCacheControl `{!Unicode} (value : string) : gmap string string :=
  if decide (value = EmptyString) then ∅
  else foldl (fun out part =>
         let token := TrimSpace part in
         if decide (token = EmptyString) then out
         else let '(name, val, _) := Cut "=" token in
              <[ToLower (TrimSpace name) := TrimSpace val]> out) ∅ (Split "," value).

Definition etagMatches (ifNoneMatch etag : string) : bool :=
  if decide (etag = EmptyString) then false
  else
    let stored := TrimPrefix etag "W/" in
    existsb (fun part =>
      let token := TrimPrefix (TrimSpace part) "W/" in
      bool_decide (token = "*") || bool_decide (token = stored)) (Split "," ifNoneMatch).

(** [sum[:16]] in hexadecimal, quoted. *)
Definition computeETag (body : string) : string := quoted (hex (String.substring 0 16 (Sha256.Sum256 body))).

Definition cloneHeader (h : Header) : gmap string (list string) := (fun vs => map (fun v => v) vs) <$> h.

(** ** Keys *)

Definition buildKey `{!Unicode} (r : Request) (varyHeaders : list string) : string :=
  let q := Url.Query (RawQuery r) in
  let keys := sort_strings (map fst (map_to_list q)) in
  let settings := concat (map (fun k => map (fun v => k +:+ "=" +:+ v +:+ "&") (sort_strings (default [] (q !! k)))) keys) in
  let varying := map (fun h => "|" +:+ ToLower h +:+ "=" +:+ Get (header r) h) varyHeaders in
  Method r +:+ " " +:+ Path r +:+ "?" +:+ String.concat EmptyString settings +:+ String.concat EmptyString varying.

(** ** The state shared by the requests of a service *)

Record cache_state := mkCache { lru : LRU.LRU; vary : gmap string (list string) }.

(** [newVaryState]: no response has been seen. *)
Definition newVaryState : gmap string (list string) := ∅.

(** The state a call of [Cache] starts with, around the given LRU. *)
Definition new_cache (l : LRU.LRU) : cache_state := mkCache l newVaryState.

Definition headersFor (method path : string) (c : cache_state) : list string :=
  default [] (vary c !! (method +:+ " " +:+ path)).

Definition record (method path : string) (headers : list string) (c : cache_state) : cache_state :=
  mkCache (lru c) (<[method +:+ " " +:+ path := headers]> (vary c)).

(** ** Capturing a response *)

Record captureWriter := mkCapture { status : Z; cheader : Header; body : string }.

#[export] Instance captureWriter_Writer : ResponseWriter captureWriter := {|
  w_header := cheader;
  w_set_header h cw := mkCapture (status cw) h (body cw);
  w_WriteHeader code cw := mkCapture code (cheader cw) (body cw);
  w_Write b cw :=
    ((Z.of_nat (String.length b), None),
     mkCapture (if status cw =? 0 then StatusOK else status cw) (cheader cw) (body cw +:+ b));
|}.

Definition cacheableResponse (status : Z) (cc : gmap string string) (varyAny : bool) (r : Request) : bool :=
  if negb (status =? StatusOK) then false
  else if bool_decide (is_Some (cc !! "no-store")) then false
  else if bool_decide (is_Some (cc !! "private")) then false
  else if varyAny then false
  else if bool_decide (Get (header r) "Authorization" ≠ EmptyString) && bool_decide (cc !! "public" = None) then false
  else true.

(** [sfResult]: a stored entry, or a response to replay. *)
Inductive sfResult :=
| Stored (entry : LRU.Entry)
| Raw (status : Z) (h : Header) (body : string).

(** ** Serving *)

(** [for k, vs := range header { for _, v := range vs { w.Header().Add(k, v) } }] *)
Definition header_ops (h : gmap string (list string)) : list wop :=
  concat (map (fun '(k, vs) => map (HAdd k) vs) (map_to_list h)).

Definition writeRaw {W} `{!ResponseWriter W} (status : Z) (h : Header) (body : string) (w : W) : W :=
  let w := play (header_ops h) w in
  let status := if status =? 0 then StatusOK else status in
  let w := w_WriteHeader status w in
  write body w.

Definition serveFromCache {W} `{!ResponseWriter W} (r : Request) (entry : LRU.Entry) (w : W) : W :=
  let matched := Get (header r) "If-None-Match" in
  if bool_decide (matched ≠ EmptyString) && etagMatches matched (LRU.ETag entry) then
    let h := filter (fun '(k, _) => k ≠ "Content-Length" /\ k ≠ "Content-Type") (LRU.Header entry) in
    let w := play (header_ops h) w in
    let w := header_Set "ETag" (LRU.ETag entry) w in
    w_WriteHeader StatusNotModified w
  else writeRaw (LRU.Status entry) (LRU.Header entry) (LRU.Body entry) w.

Definition respond {W} `{!ResponseWriter W} (r : Request) (res : sfResult) (w : W) : W :=
  match res with
  | Stored entry => serveFromCache r entry w
  | Raw status h body => writeRaw status h body w
  end.

Section Middleware.
Context `{!Unicode} {S : Type} `{!Lens S cache_state}.
(** [now] reads the clock; [sf_panic] is the value [singleflight] panics with
    when the function it runs does. *)
Variable now : S -> Z * S.
Variable sf_panic : panic -> panic.

Definition entry_ttl (TTL : Z) (respCC : gmap string string) : Z :=
  match respCC !! "max-age" with
  | Some maxAge =>
      match Atoi maxAge with
      | Ok secs => if 0 <? secs then int64 (secs * Second) else TTL
      | Err _ => TTL
      end
  | None => TTL
  end.

Definition fillCache (next : Handler S) (TTL : Z) (r : Request) (s : S) : (panic + sfResult) * S :=
  let '(o, cw, s) := next captureWriter _ r (mkCapture 0 ∅ EmptyString) s in
  match o with
  | Panic v => (inl v, s)
  | Return =>
      let bodyCopy := body cw in
      let respCC := parseCacheControl (Get (cheader cw) "Cache-Control") in
      let '(varyHeaders, varyAny) := parseVary (Get (cheader cw) "Vary") in
      if negb (cacheableResponse (status cw) respCC varyAny r)
      then (inr (Raw (status cw) (cheader cw) bodyCopy), s)
      else
        let ttl := entry_ttl TTL respCC in
        let s := lset (record (Method r) (Path r) varyHeaders (lget s)) s in
        let finalKey := buildKey r varyHeaders in
        let etag := Get (cheader cw) "ETag" in
        let '(etag, h) :=
          if decide (etag = EmptyString)
          then let etag := computeETag bodyCopy in (etag, Set_ "ETag" etag (cheader cw))
          else (etag, cheader cw) in
        let '(t, s) := now s in
        let entry := LRU.mkEntry (status cw) (cloneHeader h) bodyCopy etag (t + ttl) in
        let c := lget s in
        let s := lset (mkCache (LRU.Set_ finalKey entry (lru c)) (vary c)) s in
        (inr (Stored entry), s)
  end.

(** [c.Get(key)]; the clock reading is not used on a miss. *)
Definition lookup_lru (key : string) (s : S) : option LRU.Entry * S :=
  let '(t, s) := now s in
  let c := lget s in
  let '(e, l) := LRU.Get t key (lru c) in
  (e, lset (mkCache l (vary c)) s).

(** A request for which no other call with its key is in flight. *)
Definition Cache (TTL : Z) : Middleware S := fun next W RW r w s =>
  if bool_decide (Method r ≠ "GET") && bool_decide (Method r ≠ "HEAD") then next W RW r w s
  else
    let reqCC := parseCacheControl (Get (header r) "Cache-Control") in
    if bool_decide (is_Some (reqCC !! "no-store")) then next W RW r w s
    else
      let key := buildKey r (headersFor (Method r) (Path r) (lget s)) in
      let bypassLookup := bool_decide (is_Some (reqCC !! "no-cache")) in
      let '(found, s) := if bypassLookup then (None, s) else lookup_lru key s in
      match found with
      | Some entry => (Return, serveFromCache r entry w, s)
      | None =>
          match fillCache next TTL r s with
          | (inl v, s) => (Panic (sf_panic v), w, s)
          | (inr res, s) => (Return, respond r res w, s)
          end
      end.
End Middleware.

(** ** Copying headers *)

Lemma Values_hplay_adds k vs h k' :
  Values (hplay (map (HAdd k) vs) h) k' =
    Values h k' ++ (if decide (CanonicalHeaderKey k = CanonicalHeaderKey k') then vs else []).
Proof.
  revert h. induction vs as [|v vs IH]; intros h; simpl; [by case_decide; rewrite app_nil_r|].
  rewrite IH. case_decide as E; [|by rewrite Values_Add_ne].
  assert (Values (Add k v h) k' = Values h k' ++ [v]) as ->; [|by rewrite <- app_assoc].
  unfold Values at 1, Add. rewrite E, lookup_insert_eq. unfold Values. by rewrite E.
Qed.

Lemma hplay_app ops1 ops2 h : hplay (ops1 ++ ops2) h = hplay ops2 (hplay ops1 h).
Proof. apply foldl_app. Qed.

Lemma Values_hplay_pairs l h k :
  NoDup l.*1 -> Forall (fun p : string * list string => CanonicalHeaderKey p.1 = p.1) l ->
  Values (hplay (concat (map (fun '(k, vs) => map (HAdd k) vs) l)) h) k =
    Values h k ++ default [] ((list_to_map l : gmap string (list string)) !! CanonicalHeaderKey k).
Proof.
  revert h. induction l as [|[k1 vs] l IH]; intros h Hnd Hc; simpl.
  - by rewrite lookup_empty, app_nil_r.
  - apply NoDup_cons in Hnd as [Hn Hnd]. apply Forall_cons in Hc as [Hk Hc]. simpl in *.
    rewrite hplay_app, IH by done. rewrite Values_hplay_adds, Hk, <- app_assoc. f_equal.
    rewrite lookup_insert. case_decide as E; [|done]. subst k1.
    rewrite not_elem_of_list_to_map_1 by done. by rewrite app_nil_r.
Qed.

Lemma Values_header_ops h h0 k :
  canonical h -> Values (hplay (header_ops h) h0) k = Values h0 k ++ Values h k.
Proof.
  intros Hc. unfold header_ops. rewrite Values_hplay_pairs.
  - by rewrite list_to_map_to_list.
  - apply NoDup_fst_map_to_list.
  - apply Forall_forall. intros [k' vs] Hin%elem_of_map_to_list. exact (Hc _ _ Hin).
Qed.

Lemma header_ops_are h : forallb is_header_op (header_ops h) = true.
Proof.
  unfold header_ops. generalize (map_to_list h). induction l as [|[k vs] l IH]; simpl; [done|].
  rewrite forallb_app, IH, andb_true_r. by induction vs.
Qed.

Lemma cloneHeader_id h : cloneHeader h = h.
Proof.
  unfold cloneHeader. rewrite <- (map_fmap_id h) at 2. apply map_fmap_ext. intros k vs _. apply map_id.
Qed.

(** A captured response keeps to canonical names. *)
Lemma capture_header ops cw : cheader (play ops cw) = hplay ops (cheader cw).
Proof. revert cw. induction ops as [|[] ops IH]; intros cw; try done; apply IH. Qed.

Lemma captured_canonical ops : canonical (cheader (play ops (mkCapture 0 ∅ EmptyString))).
Proof. rewrite capture_header. apply canonical_hplay. by apply map_Forall_empty. Qed.

(** ** Storing and serving *)

Section Theorems.
Context `{!Unicode} {S : Type} `{!Lens S cache_state, !LensLaws S cache_state}.
Variable now : S -> Z * S.
Variable sf_panic : panic -> panic.
(** Reading the clock does not touch the cache. *)
Hypothesis now_keeps : forall s, lget (now s).2 = lget s.

(** A GET or HEAD that allows the cache to answer. *)
Definition allows_lookup (r : Request) : Prop :=
  (Method r = "GET" \/ Method r = "HEAD") /\
  parseCacheControl (Get (header r) "Cache-Control") !! "no-store" = None /\
  parseCacheControl (Get (header r) "Cache-Control") !! "no-cache" = None.

(** What the response of a handler says about caching it. *)
Definition storable (cw : captureWriter) (r : Request) : bool :=
  cacheableResponse (status cw) (parseCacheControl (Get (cheader cw) "Cache-Control"))
    (parseVary (Get (cheader cw) "Vary")).2 r.

Lemma parseVary_any v : (parseVary v).2 = true <-> "*" ∈ map TrimSpace (Split "," v).
Proof using Type.
  unfold parseVary. case_decide as E0; [subst v; split; [done|]; intros Hs%list_elem_of_In; vm_compute in Hs; by destruct Hs|].
  set (go := fix go (parts out : list string) {struct parts} := _).
  assert (forall parts out, (go parts out).2 = true <-> "*" ∈ map TrimSpace parts) as Hgo; [|apply Hgo].
  induction parts as [|p parts IH]; intros out; simpl; [split; [done|by intros ?%elem_of_nil]|].
  rewrite elem_of_cons. case_decide as E1; [rewrite IH, E1; naive_solver|].
  case_decide as E2; [naive_solver|]. rewrite IH. naive_solver.
Qed.

Lemma Get_head (h : Header) k : Get h k = default EmptyString (head (Values h k)).
Proof using Type. unfold Get. by destruct (Values h k). Qed.

Lemma storable_iff cw r :
  let cc := parseCacheControl (default EmptyString (head (Values (cheader cw) "Cache-Control"))) in
  storable cw r = true <->
    status cw = StatusOK /\ cc !! "no-store" = None /\ cc !! "private" = None /\
    "*" ∉ map TrimSpace (Split "," (default EmptyString (head (Values (cheader cw) "Vary")))) /\
    (Get (header r) "Authorization" ≠ EmptyString -> is_Some (cc !! "public")).
Proof using Type.
  intros cc. unfold storable, cacheableResponse. rewrite !(Get_head (cheader cw)). fold cc. rewrite <- parseVary_any.
  rewrite (eq_None_not_Some (cc !! "no-store")), (eq_None_not_Some (cc !! "private")).
  pose proof (eq_None_not_Some (cc !! "public")) as Hpub. destruct (status cw =? StatusOK) eqn:E; bool2prop; simpl; [|by split; [|intros [? _]]].
  case_bool_decide as E1; [by split; [|intros (_ & [] & _)]|].
  case_bool_decide as E2; [by split; [|intros (_ & _ & [] & _)]|].
  destruct (parseVary _).2; [by split; [|intros (_ & _ & _ & [] & _)]|].
  case_bool_decide as E3; simpl; [|by split; [intros _; split_and!|]].
  case_bool_decide as E4; simpl.
  - split; [done|]. intros (_ & _ & _ & _ & Hneed). by apply Hpub in E4; destruct (E4 (Hneed E3)).
  - split; [|done]. intros _. split_and!; try done. intros _. by apply not_eq_None_Some.
Qed.

(** The entity tag and header of a stored response. *)
Definition stored_etag (cw : captureWriter) : string :=
  if decide (Get (cheader cw) "ETag" = EmptyString) then computeETag (body cw) else Get (cheader cw) "ETag".

Definition stored_header (cw : captureWriter) : Header :=
  if decide (Get (cheader cw) "ETag" = EmptyString)
  then Set_ "ETag" (computeETag (body cw)) (cheader cw) else cheader cw.

(** The state in which the response of [r], captured as [cw] in state [s], has been filed. *)
Definition filed (TTL : Z) (r : Request) (cw : captureWriter) (s : S) : LRU.Entry * S :=
  let varyHeaders := (parseVary (Get (cheader cw) "Vary")).1 in
  let s1 := lset (record (Method r) (Path r) varyHeaders (lget s)) s in
  let s2 := (now s1).2 in
  let e := LRU.mkEntry (status cw) (stored_header cw) (body cw) (stored_etag cw)
             ((now s1).1 + entry_ttl TTL (parseCacheControl (Get (cheader cw) "Cache-Control"))) in
  (e, lset (mkCache (LRU.Set_ (buildKey r varyHeaders) e (lru (lget s2))) (vary (lget s2))) s2).

Lemma filed_entry TTL r cw s :
  let e := (filed TTL r cw s).1 in
  LRU.Status e = status cw /\ LRU.Body e = body cw /\ LRU.Header e = stored_header cw /\ LRU.ETag e = stored_etag cw /\
  LRU.ExpiresAt e = (now (lset (record (Method r) (Path r) (parseVary (Get (cheader cw) "Vary")).1 (lget s)) s)).1 +
    entry_ttl TTL (parseCacheControl (Get (cheader cw) "Cache-Control")).
Proof using Type. done. Qed.

Lemma fillCache_eq (next : Handler S) TTL r s o cw s1 :
  next captureWriter _ r (mkCapture 0 ∅ EmptyString) s = (o, cw, s1) ->
  fillCache now next TTL r s =
    match o with
    | Panic v => (inl v, s1)
    | Return =>
        if storable cw r then let '(e, s2) := filed TTL r cw s1 in (inr (Stored e), s2)
        else (inr (Raw (status cw) (cheader cw) (body cw)), s1)
    end.
Proof using Type.
  intros E. unfold fillCache, storable, filed, stored_header, stored_etag. rewrite E. destruct o; [|done].
  destruct (parseVary _) as [vh va]. simpl.
  destruct (cacheableResponse _ _ _ _); simpl; [|done].
  destruct (now _) as [t s2]. simpl. case_decide; by rewrite cloneHeader_id.
Qed.

(** The cache holds [e] under the key of [r], and knows what the path varies on. *)
Definition held (r : Request) (varyHeaders : list string) (e : LRU.Entry) (s : S) : Prop :=
  LRURefinement.holds (buildKey r varyHeaders) e (lru (lget s)) /\
  headersFor (Method r) (Path r) (lget s) = varyHeaders.

Lemma held_filed TTL r cw s :
  let varyHeaders := (parseVary (Get (cheader cw) "Vary")).1 in
  LRURefinement.wf (lru (lget s)) ->
  LRU.maxBytes (lru (lget s)) <= 0 \/ Z.of_nat (String.length (body cw)) <= LRU.maxBytes (lru (lget s)) ->
  held r varyHeaders (filed TTL r cw s).1 (filed TTL r cw s).2.
Proof using All.
  intros vh Hwf Hfit. unfold held, filed. fold vh. simpl. gwsimp. rewrite now_keeps. gwsimp. simpl. split.
  - by apply LRURefinement.holds_set.
  - unfold headersFor. simpl. by rewrite lookup_insert_eq.
Qed.

(** Filing another response where there is room for it. *)
Lemma held_filed_other TTL r vh e r' cw s :
  let vh' := (parseVary (Get (cheader cw) "Vary")).1 in
  held r vh e s -> buildKey r' vh' ≠ buildKey r vh ->
  (Method r' +:+ " " +:+ Path r' = Method r +:+ " " +:+ Path r -> vh' = vh) ->
  LRURefinement.room (Z.of_nat (String.length (body cw))) (lru (lget s)) ->
  held r vh e (filed TTL r' cw s).2.
Proof using All.
  intros vh' [Hh Hv] Hk Hp Hroom. unfold held, filed. fold vh'. simpl. gwsimp. rewrite now_keeps. gwsimp. simpl. split.
  - by apply LRURefinement.holds_set_other.
  - unfold headersFor in *. simpl. rewrite lookup_insert. case_decide as E; [by apply Hp|done].
Qed.

Lemma held_lookup r vh e s : held r vh e s -> (now s).1 <= LRU.ExpiresAt e ->
  exists s', lookup_lru now (buildKey r vh) s = (Some e, s') /\ held r vh e s'.
Proof using All.
  intros [Hh Hv] Hexp. unfold lookup_lru, held. pose proof (now_keeps s) as Hn. destruct (now s) as [t s1]. simpl in *. rewrite Hn.
  destruct (LRURefinement.holds_get t (buildKey r vh) e _ Hh Hexp) as [H1 H2].
  destruct (LRU.Get t (buildKey r vh) (lru (lget s))) as [x l]. simpl in *. subst x. eexists. split; [done|]. by gwsimp.
Qed.

Lemma held_lookup_other r vh e k s : held r vh e s -> k ≠ buildKey r vh -> held r vh e (lookup_lru now k s).2.
Proof using All.
  intros [Hh Hv] Hk. unfold lookup_lru, held. pose proof (now_keeps s) as Hn. destruct (now s) as [t s1]. simpl in *. rewrite Hn.
  pose proof (LRURefinement.holds_get_other t _ k e _ Hh Hk) as Hg. destruct (LRU.Get t k (lru (lget s))) as [x l]. simpl in *.
  by gwsimp.
Qed.

Lemma Cache_lookup_hit (TTL : Z) (next : Handler S) {W} (RW : ResponseWriter W) r (w : W) s e s' :
  allows_lookup r ->
  lookup_lru now (buildKey r (headersFor (Method r) (Path r) (lget s))) s = (Some e, s') ->
  Cache now sf_panic TTL next W RW r w s = (Return, serveFromCache r e w, s').
Proof using Type.
  intros (Hm & Hns & Hnc) Hl. unfold Cache.
  assert (bool_decide (Method r ≠ "GET") && bool_decide (Method r ≠ "HEAD") = false) as ->.
  { apply andb_false_iff. destruct Hm as [-> | ->]; [left|right]; reflexivity. }
  rewrite Hns, Hnc, Hl. done.
Qed.

(** A request with the key of [r] that allows the cache to answer. *)
Definition asks_again (r : Request) (varyHeaders : list string) (r' : Request) : Prop :=
  allows_lookup r' /\ Method r' = Method r /\ Path r' = Path r /\ buildKey r' varyHeaders = buildKey r varyHeaders.

(** What may happen while [e] is stored for [r] and is not expired: whatever
    leaves the cache alone; a lookup under another key; the filling of a miss, by
    a handler that leaves the cache alone, whose response is either not stored or
    stored under another key with room for it (where it answers for the same
    method and path, it varies on the same headers); and a request with the key of
    [r] itself. *)
Inductive meanwhile (TTL : Z) (r : Request) (varyHeaders : list string) (e : LRU.Entry) : S -> S -> Prop :=
| mw_other s s' : lget s' = (lget s : cache_state) -> meanwhile TTL r varyHeaders e s s'
| mw_lookup s k : k ≠ buildKey r varyHeaders -> meanwhile TTL r varyHeaders e s (lookup_lru now k s).2
| mw_filled s (next' : Handler S) r' ops s1 :
    performs next' r' s Return ops s1 -> lget s1 = (lget s : cache_state) ->
    (let cw := play ops (mkCapture 0 ∅ EmptyString) in
     let varyHeaders' := (parseVary (Get (cheader cw) "Vary")).1 in
     storable cw r' = true ->
     buildKey r' varyHeaders' ≠ buildKey r varyHeaders /\
     (Method r' +:+ " " +:+ Path r' = Method r +:+ " " +:+ Path r -> varyHeaders' = varyHeaders) /\
     LRURefinement.room (Z.of_nat (String.length (body cw))) (lru (lget s))) ->
    meanwhile TTL r varyHeaders e s (fillCache now next' TTL r' s).2
| mw_served s (next' : Handler S) W (RW : ResponseWriter W) (w : W) r' :
    asks_again r varyHeaders r' -> (now s).1 <= LRU.ExpiresAt e ->
    meanwhile TTL r varyHeaders e s (Cache now sf_panic TTL next' W RW r' w s).2.

Lemma held_serves TTL (next : Handler S) {W} (RW : ResponseWriter W) (w : W) r vh e r' s :
  held r vh e s -> asks_again r vh r' -> (now s).1 <= LRU.ExpiresAt e ->
  exists s', Cache now sf_panic TTL next W RW r' w s = (Return, serveFromCache r' e w, s') /\ held r vh e s'.
Proof using All.
  intros Hh (Ha & Hm & Hp & Hk) Hexp. destruct (held_lookup _ _ _ _ Hh Hexp) as (s' & Hl & Hh'). exists s'. split; [|done].
  apply Cache_lookup_hit; [done|]. destruct Hh as [_ Hv]. by rewrite Hm, Hp, Hv, Hk.
Qed.

Lemma held_meanwhile TTL r vh e s s' : held r vh e s -> meanwhile TTL r vh e s s' -> held r vh e s'.
Proof using All.
  intros Hh Hm. destruct Hm as [s s' E|s k Hk|s next' r' ops s1 Hp E Hst|s next' W RW w r' Ha Hexp].
  - unfold held. by rewrite E.
  - by apply held_lookup_other.
  - assert (held r vh e s1) as Hh1 by (unfold held; by rewrite E).
    rewrite (fillCache_eq next' TTL r' s Return _ s1 (Hp _ _ _)). rewrite <- E in Hst. simpl in Hst.
    destruct (storable _ r'); [|done]. destruct (Hst eq_refl) as (Hk & Hv & Hroom).
    pose proof (held_filed_other TTL r vh e r' (play ops (mkCapture 0 ∅ EmptyString)) s1 Hh1 Hk Hv Hroom) as Hg.
    by destruct (filed _ _ _ _).
  - destruct (held_serves TTL next' RW w r vh e r' s Hh Ha Hexp) as (s' & -> & Hh'). done.
Qed.


End Theorems.

(** ** Conditional requests *)

Definition not_entity (h : gmap string (list string)) : gmap string (list string) :=
  filter (fun '(k, _) => k ≠ "Content-Length" /\ k ≠ "Content-Type") h.

Lemma canonical_not_entity h : canonical h -> canonical (not_entity h).
Proof. intros H k vs [Hk _]%map_lookup_filter_Some. exact (H k vs Hk). Qed.

(** What the client receives when [e] is served and [h0] is already in the header. *)
Lemma writeRaw_response status h body h0 :
  canonical h -> status = StatusOK ->
  match declared_length (hplay (header_ops h) h0) with
  | Some n => Z.of_nat (String.length body) <= n | None => True end ->
  let w' := writeRaw status h body (w_set_header h0 new_response) in
  client_status w' = StatusOK /\ sent_body w' = body /\
  forall k, Values (client_header w') k = Values h0 k ++ Values h k.
Proof.
  intros Hc -> Hd w'. unfold w', writeRaw. rewrite play_hplay by apply header_ops_are. simpl.
  set (h1 := hplay (header_ops h) h0) in *.
  assert (forall k, Values h1 k = Values h0 k ++ Values h k) as Hv by (intros k; by apply Values_header_ops).
  unfold write. simpl. unfold response_Write, response_WriteHeader. simpl.
  destruct (Z.of_nat (String.length body) =? 0) eqn:E0; simpl.
  - bool2prop. destruct body; [done|simpl in E0; lia].
  - destruct (declared_length h1) as [n|]; [|done]. rewrite Z.add_0_l.
    destruct (n <? Z.of_nat (String.length body)) eqn:E1; bool2prop; [lia|done].
Qed.


(** Trimming leaves a quoted tag alone. *)
Lemma trim_left_quote s : trim_left (String dquote s) = String dquote s.
Proof. simpl. by destruct s as [|a [|b s]]. Qed.

Lemma trim_left_rev_quote s : trim_left_rev (String dquote s) = String dquote s.
Proof.
  assert (forall a, space2 a dquote = false) as H2 by (intros a; unfold space2; apply andb_false_r).
  assert (forall a b, space3 a b dquote = false) as H3.
  { intros a b. unfold space3. change (code dquote) with 34. simpl. by rewrite !andb_false_r. }
  simpl. destruct s as [|a [|b s]]; [done|by rewrite H2|by rewrite H2, H3].
Qed.

Lemma rev_onto_app s t acc : rev_onto (s +:+ t) acc = rev_onto t (rev_onto s acc).
Proof. revert acc. induction s as [|c s IH]; intros acc; [done|]. rewrite append_cons. apply IH. Qed.

Lemma rev_onto_spec s acc : rev_onto s acc = reverse s +:+ acc.
Proof.
  unfold reverse. revert acc. induction s as [|c s IH]; intros acc; [done|]. simpl.
  rewrite IH, (IH (String c EmptyString)), append_assoc. done.
Qed.

Lemma reverse_involutive s : reverse (reverse s) = s.
Proof.
  induction s as [|c s IH]; [done|]. unfold reverse at 2. simpl. rewrite rev_onto_spec.
  unfold reverse at 1. rewrite rev_onto_app. simpl. fold (reverse (reverse s)). by rewrite IH.
Qed.

Lemma TrimSpace_quoted s : TrimSpace (quoted s) = quoted s.
Proof.
  unfold TrimSpace, quoted. rewrite trim_left_quote.
  assert (reverse (String dquote (s +:+ String dquote EmptyString)) = String dquote (reverse (String dquote s))) as E.
  { unfold reverse at 1. simpl. rewrite rev_onto_app. simpl. done. }
  rewrite E, trim_left_rev_quote, <- E. apply reverse_involutive.
Qed.

Definition no_comma (s : string) : bool := all_bytes (fun c => negb (bool_decide (c = ","%char))) s.

Lemma etagMatches_quoted s : no_comma s = true -> etagMatches (quoted s) (quoted s) = true.
Proof.
  intros H. unfold etagMatches. rewrite decide_False by done.
  rewrite Split_plain; cycle 1.
  { unfold quoted, no_comma in *. simpl. by rewrite all_bytes_app, H. }
  simpl. rewrite TrimSpace_quoted. by rewrite (bool_decide_eq_true_2 (_ = TrimPrefix _ _)), orb_true_r.
Qed.

Lemma hex_no_comma s : no_comma (hex s) = true.
Proof.
  assert (forall c, negb (bool_decide (hex_digit (code c / 16) = ","%char)) &&
                    negb (bool_decide (hex_digit (code c mod 16) = ","%char)) = true) as Hd
    by (apply forall_bytes; vm_compute; reflexivity).
  induction s as [|c s IH]; [done|]. specialize (Hd c). apply andb_true_iff in Hd as [H1 H2].
  unfold no_comma in *. simpl. by rewrite H1, H2, IH.
Qed.

(** A client that presents the tag the cache generated is told "not modified". *)
Lemma generated_etag_matches b : etagMatches (computeETag b) (computeETag b) = true.
Proof. apply etagMatches_quoted, hex_no_comma. Qed.

(** ** Keys *)

Lemma leb_String c1 s1 c2 s2 :
  String.leb (String c1 s1) (String c2 s2) = true <->
    (N_of_ascii c1 < N_of_ascii c2)%N \/ (c1 = c2 /\ String.leb s1 s2 = true).
Proof.
  unfold String.leb. simpl. unfold Ascii.compare.
  destruct (N.compare_spec (N_of_ascii c1) (N_of_ascii c2)) as [E|E|E].
  - apply (f_equal ascii_of_N) in E. rewrite !ascii_N_embedding in E. subst c2.
    split; [by right|]. intros [H|[_ H]]; [lia|done].
  - split; [by left|done].
  - split; [done|]. intros [H|[-> _]]; lia.
Qed.

#[export] Instance string_le_trans : Transitive string_le.
Proof.
  unfold string_le. intros x. induction x as [|a x IH]; intros y z Hxy Hyz; [by destruct z|].
  destruct y as [|b y]; [done|]. destruct z as [|c z]; [done|].
  rewrite leb_String in *. destruct Hxy as [?|[-> ?]], Hyz as [?|[-> ?]]; [left; lia|left; done|left; done|right; eauto].
Qed.

#[export] Instance string_le_antisymm : AntiSymm (=) string_le.
Proof. intros x y. apply String.leb_antisym. Qed.

#[export] Instance string_le_total : Total string_le.
Proof. intros x y. apply String.leb_total. Qed.

(** Sorting forgets the order. *)
Lemma sort_strings_perm l k : l ≡ₚ k -> sort_strings l = sort_strings k.
Proof.
  intros H. unfold sort_strings. apply (Sorted_unique string_le); try apply (Sorted_merge_sort string_le).
  by rewrite !merge_sort_Permutation.
Qed.

(** The setting a part of a query stands for. *)
Definition setting (part : string) : option (string * string) :=
  if Url.has_semicolon part then None
  else if decide (part = EmptyString) then None
  else let '(k, v, _) := Cut "=" part in
       match Url.QueryUnescape k, Url.QueryUnescape v with Some k, Some v => Some (k, v) | _, _ => None end.

Lemma add_setting_eq m part :
  Url.add_setting m part = match setting part with Some (k, v) => <[k := default [] (m !! k) ++ [v]]> m | None => m end.
Proof. unfold Url.add_setting, setting. by repeat case_match. Qed.

(** The values of [k] in a list of parts, in order. *)
Definition values_of (k : string) (parts : list string) : list string :=
  omap (fun p => match setting p with Some (k', v) => if decide (k' = k) then Some v else None | None => None end) parts.

Lemma query_values parts m k :
  let q := foldl Url.add_setting m parts in
  default [] (q !! k) = default [] (m !! k) ++ values_of k parts /\
  (is_Some (q !! k) <-> is_Some (m !! k) \/ values_of k parts ≠ []).
Proof.
  revert m. induction parts as [|p parts IH]; intros m; [split; [by rewrite app_nil_r|naive_solver]|].
  simpl. destruct (IH (Url.add_setting m p)) as [H1 H2]. rewrite H1, H2, add_setting_eq. clear H1 H2 IH.
  unfold values_of. csimpl. destruct (setting p) as [[k' v]|]; csimpl; [|done].
  rewrite lookup_insert. case_decide; simpl; [|done]. subst k'. rewrite <- app_assoc. split; [done|naive_solver].
Qed.

Lemma query_perm raw1 raw2 k :
  Split "&" raw1 ≡ₚ Split "&" raw2 ->
  default [] (Url.Query raw1 !! k) ≡ₚ default [] (Url.Query raw2 !! k) /\
  (is_Some (Url.Query raw1 !! k) <-> is_Some (Url.Query raw2 !! k)).
Proof.
  intros H. unfold Url.Query.
  destruct (query_values (Split "&" raw1) ∅ k) as [-> ->], (query_values (Split "&" raw2) ∅ k) as [-> ->].
  assert (values_of k (Split "&" raw1) ≡ₚ values_of k (Split "&" raw2)) as Hv by (unfold values_of; by rewrite H).
  rewrite lookup_empty. split; [by rewrite Hv|].
  assert (values_of k (Split "&" raw1) = [] <-> values_of k (Split "&" raw2) = []) as Hn
    by (split; intros E; rewrite E in Hv; [by apply Permutation_nil_l in Hv|by apply Permutation_nil_r in Hv]).
  tauto.
Qed.

(** The order of query parameters does not matter: two requests for the same
    path whose parameters are permutations of each other, and which agree on the
    headers the response varies on, have the same cache key. *)
Theorem key_ignores_query_order `{!Unicode} (r1 r2 : Request) (varyHeaders : list string)
    (Hm : Method r1 = Method r2) (Hp : Path r1 = Path r2)
    (Hq : Split "&" (RawQuery r1) ≡ₚ Split "&" (RawQuery r2))
    (Hv : Forall (fun h => Get (header r1) h = Get (header r2) h) varyHeaders) :
  buildKey r1 varyHeaders = buildKey r2 varyHeaders.
Proof.
  unfold buildKey. rewrite Hm, Hp. do 4 f_equal.
  assert (map (fun h => "|" +:+ ToLower h +:+ "=" +:+ Get (header r1) h) varyHeaders =
          map (fun h => "|" +:+ ToLower h +:+ "=" +:+ Get (header r2) h) varyHeaders) as ->
    by (induction Hv as [|h l Hh _ IH]; simpl; [done|]; by rewrite Hh, IH).
  do 2 f_equal.
  assert (map fst (map_to_list (Url.Query (RawQuery r1))) ≡ₚ map fst (map_to_list (Url.Query (RawQuery r2)))) as Hk.
  { apply NoDup_Permutation; [apply NoDup_fst_map_to_list..|]. intros k.
    assert (forall q : gmap string (list string), k ∈ map fst (map_to_list q) <-> is_Some (q !! k)) as E.
    { intros q. rewrite list_elem_of_fmap. split.
      - intros ([k' v] & -> & Hin%elem_of_map_to_list). eauto.
      - intros [v Hv']. exists (k, v). split; [done|]. by apply elem_of_map_to_list. }
    rewrite !E. by apply query_perm. }
  rewrite (sort_strings_perm _ _ Hk). f_equal. apply list_fmap_ext. intros i k _.
  by rewrite (sort_strings_perm _ _ (proj1 (query_perm _ _ k Hq))).
Qed.

(** The key of a request, and so the call that [singleflight] joins it to, does
    not depend on who asks: without [Authorization] among the headers the path
    varies on, requests that differ only in their [Authorization] have one key. *)
Lemma key_ignores_authorization `{!Unicode} (r1 r2 : Request) (varyHeaders : list string) :
  Method r1 = Method r2 -> Path r1 = Path r2 -> RawQuery r1 = RawQuery r2 ->
  (forall h, CanonicalHeaderKey h ≠ "Authorization" -> Get (header r1) h = Get (header r2) h) ->
  Forall (fun h => CanonicalHeaderKey h ≠ "Authorization") varyHeaders ->
  buildKey r1 varyHeaders = buildKey r2 varyHeaders.
Proof.
  intros Hm Hp Hq Hh Hv. unfold buildKey. rewrite Hm, Hp, Hq. do 6 f_equal.
  induction Hv as [|h l Hne _ IH]; simpl; [done|]. by rewrite (Hh h Hne), IH.
Qed.

(** ** Examples *)

Module Sample.

Definition clock : cache_state -> Z * cache_state := fun s => (0, s).

Definition empty_cache : cache_state := new_cache (LRU.NewLRU 100 1000).

Definition get (path query : string) (hs : list (string * string)) : Request :=
  mkRequest "GET" path query (foldl (fun h '(k, v) => Set_ k v h) ∅ hs) 0 (mkBody EmptyString None) "gw" "10.0.0.1:4711" Background.

(** The operations of a handler that answers 200 with the given header and body. *)
Definition answer_ops (hs : list (string * string)) (body : string) : list wop :=
  map (fun '(k, v) => HAdd k v) hs ++ [WHead 200; WBody body].

Definition answer (hs : list (string * string)) (body : string) : Handler cache_state :=
  scripted (fun r s => (Return, answer_ops hs body, s)).

Definition run (mw : Middleware cache_state) (next : Handler cache_state) (r : Request) (s : cache_state) :
    response * cache_state :=
  let '(_, w, s) := mw next response _ r new_response s in (w, s).

Definition cache : Middleware cache_state := Cache clock (fun v => v) Minute.

End Sample.

Import Sample.




Lemma key_ignores_query_order_witness : buildKey (get "/p" "a=1&b=2" []) [] = buildKey (get "/p" "b=2&a=1" []) [].
Proof.
  apply (key_ignores_query_order (get "/p" "a=1&b=2" []) (get "/p" "b=2&a=1" []) []); [reflexivity|reflexivity|apply perm_swap|constructor].
Defined.

(** The key does not separate its fields. The query [a=1%26b%3D2] (one
    parameter) and the query [a=1&b=2] (two parameters) have the same key, so a
    request for the second is answered with the stored response of the first. *)
Theorem cache_key_collision :
  let r1 := get "/p" "a=1%26b%3D2" [] in
  let r2 := get "/p" "a=1&b=2" [] in
  let '(w1, s1) := run cache (answer [] "one parameter") r1 empty_cache in
  let '(w2, s2) := run cache (answer [] "two parameters") r2 s1 in
  Url.Query (RawQuery r1) ≠ Url.Query (RawQuery r2) /\
  sent_body w1 = "one parameter" /\ sent_body w2 = "one parameter".
Proof.
  assert (Url.Query "a=1%26b%3D2" !! "b" ≠ Url.Query "a=1&b=2" !! "b") as Hq by (vm_compute; discriminate).
  simpl. split; [intros E; by rewrite E in Hq|]. split; vm_compute; reflexivity.
Qed.

(** The service stack of the gateway: the cache outside, compression inside. *)
Definition cached_compressed : Middleware cache_state :=
  fun next => cache (CompressMW.Compress (G := string) (Gzip0 := CompressMW.sample_gzip) (fun _ => "text/plain") EmptyString 1024 next).

(** With compression inside the cache, the first [Vary] line of every
    response is the one the compression adds, and only the first line is read: the
    upstream's [Vary: Cookie] is ignored, and the response made for one cookie is
    served to a request with another. *)
Theorem vary_masked_by_compression :
  let upstream body := answer [("Vary", "Cookie")] body in
  let '(w1, s1) := run cached_compressed (upstream "for alice") (get "/me" EmptyString [("Cookie", "alice")]) empty_cache in
  let '(w2, s2) := run cached_compressed (upstream "for bob") (get "/me" EmptyString [("Cookie", "bob")]) s1 in
  Values (client_header w1) "Vary" = ["Accept-Encoding"; "Cookie"] /\
  sent_body w1 = "for alice" /\ sent_body w2 = "for alice".
Proof. vm_compute. split_and!; reflexivity. Qed.

(** Without compression the same two requests are kept apart. *)
Example vary_respected_without_compression :
  let upstream body := answer [("Vary", "Cookie")] body in
  let '(w1, s1) := run cache (upstream "for alice") (get "/me" EmptyString [("Cookie", "alice")]) empty_cache in
  let '(w2, s2) := run cache (upstream "for bob") (get "/me" EmptyString [("Cookie", "bob")]) s1 in
  sent_body w2 = "for bob".
Proof. vm_compute. reflexivity. Qed.

End CacheMW.
