(* ===== verification/CacheKey.v ===== *)
(** * What the key of the response cache distinguishes ([internal/middleware/cache.go], [buildKey])

    [buildKey] writes method, path, query and the selecting header fields into one
    string, with separators it does not escape. The theorem says for which
    requests that is an exact description: two requests without separators in
    their parts have the same key exactly when they ask for the same thing. *)

From Stdlib Require Import Ascii.
From S2P Require Import Prelude GoStrings Http CacheMW.
Import Http.

Module CacheKey.
Import Url CacheMW.

(** ** Lists of settings *)

Definition render (l : list (string * string)) : string :=
  String.concat EmptyString (map (fun '(k, v) => k +:+ "=" +:+ v +:+ "&") l).

(** A key has none of the separators, a value none that could end it. *)
Definition plain (p : string * string) : bool :=
  without "=" p.1 && without "&" p.2 && without "|" p.1 && without "|" p.2.

Lemma concat_nil_cons s l : String.concat EmptyString (s :: l) = s +:+ String.concat EmptyString l.
Proof. destruct l; simpl; [by rewrite append_nil_r|done]. Qed.

Lemma render_cons k v l : render ((k, v) :: l) = k +:+ String "=" (v +:+ String "&" (render l)).
Proof. unfold render. simpl map. rewrite concat_nil_cons, !append_assoc. done. Qed.

Lemma render_inj l1 l2 : forallb plain l1 = true -> forallb plain l2 = true -> render l1 = render l2 -> l1 = l2.
Proof.
  revert l2. induction l1 as [|[k1 v1] l1 IH]; intros [|[k2 v2] l2] H1 H2 E; [done| | |];
    rewrite ?render_cons in E; simpl in H1, H2; unfold plain in H1, H2; simpl in *.
  - change (render []) with EmptyString in E. by destruct k2.
  - change (render []) with EmptyString in E. by destruct k1.
  - repeat match goal with H : _ && _ = true |- _ => apply andb_true_iff in H as [? ?] end.
    apply cut_char in E as [-> E]; [|done..]. apply cut_char in E as [-> E]; [|done..]. f_equal. by apply IH.
Qed.

Lemma render_without l : forallb plain l = true -> without "|" (render l) = true.
Proof.
  induction l as [|[k v] l IH]; intros H; [done|]. rewrite render_cons, without_app. simpl in H. unfold plain in H. simpl in H.
  repeat match goal with H : _ && _ = true |- _ => apply andb_true_iff in H as [? ?] end.
  assert (forall t, without "|" (String "=" t) = without "|" t) as -> by done. rewrite without_app.
  assert (forall t, without "|" (String "&" t) = without "|" t) as -> by done.
  apply andb_true_iff. split; [done|]. apply andb_true_iff. split; [done|]. by apply IH.
Qed.

(** ** Selecting header fields *)

Definition selected `{!Unicode} (r : Request) (hs : list string) : string :=
  String.concat EmptyString (map (fun h => "|" +:+ ToLower h +:+ "=" +:+ Get (header r) h) hs).

Lemma selected_stops `{!Unicode} r hs : stops "|" (selected r hs).
Proof. destruct hs; [by left|]. unfold selected. simpl map. rewrite concat_nil_cons, !append_assoc. right. eexists. reflexivity. Qed.

Lemma append_inj_l s t1 t2 : s +:+ t1 = s +:+ t2 -> t1 = t2.
Proof. induction s; rewrite ?append_nil_l, ?append_cons; naive_solver. Qed.

Lemma selected_inj `{!Unicode} r1 r2 hs :
  Forall (fun h => without "|" (Get (header r1) h) = true /\ without "|" (Get (header r2) h) = true) hs ->
  selected r1 hs = selected r2 hs -> Forall (fun h => Get (header r1) h = Get (header r2) h) hs.
Proof.
  induction hs as [|h hs IH]; intros Hw E; [done|]. apply Forall_cons in Hw as [[H1 H2] Hw].
  unfold selected in E. simpl map in E. rewrite !concat_nil_cons, !append_assoc in E.
  do 3 apply append_inj_l in E. fold (selected r1 hs) (selected r2 hs) in E.
  apply (cut_at "|") in E as [Eh E]; auto using selected_stops.
Qed.

(** ** The settings of a query *)

Definition settings (q : gmap string (list string)) : list (string * string) :=
  sort_strings (map fst (map_to_list q)) ≫= fun k => map (pair k) (sort_strings (default [] (q !! k))).

Lemma render_bind (ks : list string) (f : string -> list string) :
  render (ks ≫= fun k => map (pair k) (f k)) =
    String.concat EmptyString (concat (map (fun k => map (fun v => k +:+ "=" +:+ v +:+ "&") (f k)) ks)).
Proof.
  unfold render. f_equal. induction ks as [|k ks IH]; [done|]. csimpl. rewrite map_app, IH. f_equal.
  rewrite map_map. done.
Qed.

Lemma buildKey_eq `{!Unicode} r hs :
  buildKey r hs = Method r +:+ String " " (Path r +:+ String "?" (render (settings (Query (RawQuery r))) +:+ selected r hs)).
Proof. unfold buildKey, settings. rewrite render_bind. done. Qed.

Lemma elem_of_keys (q : gmap string (list string)) k : k ∈ sort_strings (map fst (map_to_list q)) <-> is_Some (q !! k).
Proof.
  unfold sort_strings. rewrite merge_sort_Permutation, list_elem_of_fmap. split.
  - intros ([k' v] & -> & Hin%elem_of_map_to_list). eauto.
  - intros [v Hv]. exists (k, v). split; [done|]. by apply elem_of_map_to_list.
Qed.

Lemma filter_bind (ks : list string) (f : string -> list string) k :
  NoDup ks ->
  filter (fun p : string * string => p.1 = k) (ks ≫= fun k => map (pair k) (f k)) = if decide (k ∈ ks) then map (pair k) (f k) else [].
Proof.
  induction ks as [|k' ks IH]; intros Hn; [done|].
  apply NoDup_cons in Hn as [Hk Hn]. csimpl. rewrite filter_app, IH by done.
  assert (forall l, filter (fun p : string * string => p.1 = k) (map (pair k') l) = if decide (k' = k) then map (pair k') l else []) as ->.
  { intros l. induction l as [|v l IHl]; simpl map; [by destruct (decide (k' = k))|]. rewrite filter_cons. simpl.
    case_decide; [by rewrite IHl|exact IHl]. }
  destruct (decide (k' = k)) as [->|Hne].
  - rewrite (decide_False (P := k ∈ ks)), (decide_True (P := k ∈ k :: ks)) by (done || apply list_elem_of_here). by rewrite app_nil_r.
  - simpl. destruct (decide (k ∈ ks)) as [Hin|Hin].
    + by rewrite decide_True by (by apply list_elem_of_further).
    + rewrite decide_False; [done|]. by intros [?|?]%elem_of_cons.
Qed.

(** The values of a key can be read off the settings. *)
Lemma settings_values q k :
  map snd (filter (fun p : string * string => p.1 = k) (settings q)) = sort_strings (default [] (q !! k)).
Proof.
  unfold settings. rewrite filter_bind.
  - case_decide as Hin; [rewrite map_map; apply map_id|]. rewrite elem_of_keys in Hin.
    destruct (q !! k) eqn:E; [destruct Hin; eauto|]. done.
  - unfold sort_strings. rewrite merge_sort_Permutation. apply NoDup_fst_map_to_list.
Qed.

(** No key of a query is without values. *)
Lemma query_key raw k : is_Some (Query raw !! k) <-> default [] (Query raw !! k) ≠ [].
Proof.
  unfold Query. destruct (query_values (Split "&" raw) ∅ k) as [-> ->]. rewrite lookup_empty. simpl. split; [|by right].
  intros [[? ?]|?]; done.
Qed.

Lemma settings_perm raw1 raw2 :
  (forall k, default [] (Query raw1 !! k) ≡ₚ default [] (Query raw2 !! k)) -> settings (Query raw1) = settings (Query raw2).
Proof.
  intros H. unfold settings.
  assert (map fst (map_to_list (Query raw1)) ≡ₚ map fst (map_to_list (Query raw2))) as Hk.
  { apply NoDup_Permutation; [apply NoDup_fst_map_to_list..|]. intros k.
    pose proof (elem_of_keys (Query raw1) k) as E1. pose proof (elem_of_keys (Query raw2) k) as E2.
    unfold sort_strings in E1, E2. rewrite merge_sort_Permutation in E1, E2. rewrite E1, E2, !query_key.
    specialize (H k). split; intros Hn E; apply Hn; rewrite E in H; [by apply Permutation_nil_r in H|by apply Permutation_nil_l in H]. }
  rewrite (sort_strings_perm _ _ Hk). apply list_bind_ext; [|done]. intros k. by rewrite (sort_strings_perm _ _ (H k)).
Qed.

(** ** Exactness *)

(** A request whose parts contain none of the separators that could end them. *)
Record unambiguous `{!Unicode} (hs : list string) (r : Request) : Prop := {
  u_method : without " " (Method r) = true;
  u_path : without "?" (Path r) = true;
  u_query : forallb plain (settings (Query (RawQuery r))) = true;
  u_vary : Forall (fun h => without "|" (Get (header r) h) = true) hs;
}.

(** C30. The cache key is exact on unambiguous requests: two of them have the
    same key if and only if they have the same method, the same path, for every
    query parameter the same values (in whatever order), and the same values of
    the header fields the response varies on. So no request is answered with the
    stored response of a different one, and no order of parameters misses it. *)
Theorem cache_key_exact `{!Unicode} (hs : list string) (r1 r2 : Request)
    (H1 : unambiguous hs r1) (H2 : unambiguous hs r2) :
  buildKey r1 hs = buildKey r2 hs <->
  Method r1 = Method r2 /\ Path r1 = Path r2 /\
  (forall k, default [] (Query (RawQuery r1) !! k) ≡ₚ default [] (Query (RawQuery r2) !! k)) /\
  Forall (fun h => Get (header r1) h = Get (header r2) h) hs.
Proof.
  rewrite !buildKey_eq. split.
  - intros E. apply cut_char in E as [Em E]; [|apply u_method with hs; done..].
    apply cut_char in E as [Ep E]; [|apply u_path with hs; done..].
    pose proof (u_query _ _ H1) as Q1. pose proof (u_query _ _ H2) as Q2.
    apply (cut_at "|") in E as [Eq Ev]; auto using selected_stops, render_without.
    apply render_inj in Eq; [|done..]. split_and!; try done.
    + intros k. pose proof (settings_values (Query (RawQuery r1)) k) as V1. rewrite Eq, settings_values in V1.
      unfold sort_strings in V1. transitivity (merge_sort string_le (default [] (Query (RawQuery r1) !! k))).
      * symmetry. apply merge_sort_Permutation.
      * rewrite <- V1. apply merge_sort_Permutation.
    + apply selected_inj; [|done]. apply Forall_forall. intros h Hh.
      pose proof (u_vary _ _ H1) as V1. pose proof (u_vary _ _ H2) as V2. rewrite Forall_forall in V1, V2. auto.
  - intros (Em & Ep & Hq & Hv). rewrite Em, Ep, (settings_perm _ _ Hq).
    assert (selected r1 hs = selected r2 hs) as ->; [|done]. clear H1 H2. unfold selected.
    induction Hv as [|h hs' Hh _ IH]; [done|]. simpl map. by rewrite !concat_nil_cons, IH, Hh.
Qed.

(** ** Examples *)

Definition shop (query lang : string) : Request := Sample.get "/catalog/products" query [("Accept-Language", lang)].

Lemma shop_unambiguous query lang :
  forallb plain (settings (Query query)) = true -> without "|" (Get (header (shop query lang)) "Accept-Language") = true ->
  unambiguous ["Accept-Language"] (shop query lang).
Proof. intros Hq Hl. constructor; [done|done|done|]. by apply Forall_singleton. Qed.

Lemma cache_key_exact_witness :
  buildKey (shop "page=2&sort=price" "de") ["Accept-Language"] = buildKey (shop "sort=price&page=2" "de") ["Accept-Language"] /\
  buildKey (shop "page=2" "de") ["Accept-Language"] ≠ buildKey (shop "page=2" "en") ["Accept-Language"].
Proof.
  split.
  - vm_compute. reflexivity.
  - intros E. apply (cache_key_exact ["Accept-Language"] (shop "page=2" "de") (shop "page=2" "en")) in E.
    + destruct E as (_ & _ & _ & E). apply Forall_cons in E as [E _].
      assert (Get (header (shop "page=2" "de")) "Accept-Language" = "de") as E1 by (vm_compute; reflexivity).
      assert (Get (header (shop "page=2" "en")) "Accept-Language" = "en") as E2 by (vm_compute; reflexivity).
      rewrite E1, E2 in E. discriminate E.
    + apply shop_unambiguous; vm_compute; reflexivity.
    + apply shop_unambiguous; vm_compute; reflexivity.
Defined.

End CacheKey.
