(* ===== verification/Pools.v ===== *)
(** * Pooled objects ([internal/middleware/cache.go], [internal/middleware/compress.go])

    Requests run concurrently and share two [sync.Pool]s: the buffers that
    capture responses for the cache and the compressors. [Module Pool] is the
    pool: who holds which object. [Module Capture] interleaves any number of
    calls of [fillCache] over a memory of byte arrays, in which a buffer and a
    slice are views of an array, as in Go; it justifies [CacheMW.fillCache],
    which gives each call a buffer of its own. [Module Compressors] does the same
    for the [gzip.Writer]s of [Compress]. *)

From Stdlib Require Import Ascii.
From S2P Require Import Prelude GoStrings Http Lru Compress CacheMW.
Import Http.

Module Pool.

(** Objects are numbered in the order they are made. [held] says which request
    holds which object, [free] what the pool has. *)
Record pool := mkPool { free : list nat; made : nat; held : gmap nat nat }.

Definition empty : pool := mkPool [] 0 ∅.

(** [pool.Get()] by request [i]: an object of the pool, the [choice]-th, or a
    new one. A request that holds an object does not ask for another. *)
Definition Get (i : nat) (choice : option nat) (p : pool) : option (nat * pool) :=
  match held p !! i with
  | Some _ => None
  | None =>
      match choice with
      | Some k =>
          match free p !! k with
          | Some x => Some (x, mkPool (delete k (free p)) (made p) (<[i := x]> (held p)))
          | None => None
          end
      | None => Some (made p, mkPool (free p) (S (made p)) (<[i := made p]> (held p)))
      end
  end.

(** [pool.Put(x)] of the object request [i] holds. *)
Definition Put (i : nat) (p : pool) : option pool :=
  match held p !! i with
  | Some x => Some (mkPool (x :: free p) (made p) (delete i (held p)))
  | None => None
  end.

(** The collector empties a place of the pool. *)
Definition Drop (k : nat) (p : pool) : pool := mkPool (delete k (free p)) (made p) (held p).

(** No object is in two hands. *)
Record wf (p : pool) : Prop := {
  wf_nodup : NoDup (free p);
  wf_free : forall x, x ∈ free p -> (x < made p)%nat;
  wf_held : forall i x, held p !! i = Some x -> (x < made p)%nat /\ x ∉ free p;
  wf_inj : forall i j x, held p !! i = Some x -> held p !! j = Some x -> i = j;
}.

Lemma wf_empty : wf empty.
Proof. by split; simpl; try constructor; intros *; rewrite ?lookup_empty, ?elem_of_nil. Qed.

Lemma NoDup_delete_nth (k : nat) (l : list nat) x :
  NoDup l -> l !! k = Some x -> NoDup (delete k l) /\ x ∉ delete k l /\ delete k l ⊆ l.
Proof.
  intros Hn Hk. pose proof (delete_Permutation l k x Hk) as Hp. rewrite Hp in Hn.
  apply NoDup_cons in Hn as [? ?]. split_and!; try done.
  intros y Hy. rewrite Hp. by right.
Qed.

Lemma wf_Get i choice p x p' :
  wf p -> Get i choice p = Some (x, p') ->
  wf p' /\ held p' = <[i := x]> (held p) /\ (forall j, held p !! j ≠ Some x) /\
  (forall y, (y < made p')%nat -> y = x \/ (y < made p)%nat) /\
  (choice ≠ None -> (x < made p)%nat).
Proof.
  intros [Hn Hf Hh Hi]. unfold Get. destruct (held p !! i) eqn:Ei; [done|].
  destruct choice as [k|]; [destruct (free p !! k) as [y|] eqn:Ek; [|done]|]; intros [= <- <-]; simpl.
  - destruct (NoDup_delete_nth k (free p) y Hn Ek) as (Hn' & Hy & Hsub).
    assert (y ∈ free p) as Hin by (by eapply list_elem_of_lookup_2).
    assert (forall j, held p !! j ≠ Some y) as Hnot by (intros j Hj; by destruct (Hh j y Hj)).
    split_and!; [constructor; simpl|..]; try done.
    + intros z Hz. apply Hf. by apply Hsub.
    + intros j z [[<- <-]|[? Hz]]%lookup_insert_Some; [split; [by apply Hf|done]|].
      destruct (Hh j z Hz). split; [done|]. intros ?. apply H1. by apply Hsub.
    + intros j1 j2 z. rewrite !lookup_insert_Some. naive_solver.
    + by right.
    + intros _. by apply Hf.
  - assert (forall j, held p !! j ≠ Some (made p)) as Hnot by (intros j Hj; destruct (Hh j _ Hj); lia).
    split_and!; [constructor; simpl|..]; try done; try lia.
    + intros z Hz. apply Hf in Hz. lia.
    + intros j z [[<- <-]|[? Hz]]%lookup_insert_Some.
      * split; [lia|]. intros Hz%Hf. lia.
      * destruct (Hh j z Hz). split; [lia|done].
    + intros j1 j2 z. rewrite !lookup_insert_Some. naive_solver.
Qed.

Lemma wf_Put i p p' :
  wf p -> Put i p = Some p' ->
  wf p' /\ held p' = delete i (held p) /\ made p' = made p.
Proof.
  intros [Hn Hf Hh Hi]. unfold Put. destruct (held p !! i) as [x|] eqn:Ei; [|done]. intros [= <-].
  destruct (Hh i x Ei) as [Hx Hnot]. split_and!; [constructor; simpl|..]; try done.
  - by constructor.
  - intros y [->|?]%elem_of_cons; eauto.
  - intros j y [Hne Hy]%lookup_delete_Some. destruct (Hh j y Hy). split; [done|].
    intros [->|?]%elem_of_cons; [|done]. apply Hne. by eapply Hi.
  - intros j1 j2 y [_ H1]%lookup_delete_Some [_ H2]%lookup_delete_Some. by eapply Hi.
Qed.

Lemma wf_Drop k p : wf p -> wf (Drop k p) /\ held (Drop k p) = held p.
Proof.
  intros [Hn Hf Hh Hi]. split; [|done]. constructor; simpl; try done.
  - by eapply sublist_NoDup, sublist_delete.
  - intros y Hy%list_elem_of_delete_inv. by apply Hf.
  - intros i y Hy. destruct (Hh i y Hy). split; [done|]. by intros ?%list_elem_of_delete_inv.
Qed.

End Pool.

Module Capture.
Import CacheMW.

(** ** Memory *)

(** Byte arrays by address; the length of an array is its capacity. *)
Record memory := mkMem { arrays : gmap nat (list ascii); brk : nat }.

(** A slice and the [buf] of a [bytes.Buffer]: the first [len] bytes of an array. *)
Record slice := mkSlice { arr : nat; len : nat }.

Definition array (a : nat) (m : memory) : list ascii := default [] (arrays m !! a).
Definition view (s : slice) (m : memory) : list ascii := take (len s) (array (arr s) m).

(** What a reader of the slice sees. *)
Definition read (s : slice) (m : memory) : string := String.string_of_list_ascii (view s m).

Definition alloc (bs : list ascii) (m : memory) : nat * memory :=
  (brk m, mkMem (<[brk m := bs]> (arrays m)) (S (brk m))).

(** [new(bytes.Buffer)] *)
Definition new_buffer (m : memory) : slice * memory :=
  let '(a, m) := alloc [] m in (mkSlice a 0, m).

(** [buf.Reset()] keeps the array. *)
Definition Reset (s : slice) : slice := mkSlice (arr s) 0.

(** [buf.Write(b)]: in place when the array has room, else into a larger array;
    [spare] is the rest of that one. *)
Definition Write (b spare : list ascii) (s : slice) (m : memory) : slice * memory :=
  let n := (len s + length b)%nat in
  let old := array (arr s) m in
  if (n <=? length old)%nat
  then (mkSlice (arr s) n, mkMem (<[arr s := take (len s) old ++ b ++ drop n old]> (arrays m)) (brk m))
  else let '(a, m) := alloc (take (len s) old ++ b ++ spare) m in (mkSlice a n, m).

(** [append([]byte(nil), s...)] *)
Definition copy (s : slice) (m : memory) : slice * memory :=
  let '(a, m) := alloc (view s m) m in (mkSlice a (len s), m).

(** The slice is inside an allocated array. *)
Definition fits (m : memory) (s : slice) : Prop :=
  (arr s < brk m)%nat /\ (len s <= length (array (arr s) m))%nat.

(** The array at [a] is the same in both memories. *)
Definition keeps (m m' : memory) (a : nat) : Prop := array a m' = array a m.

Lemma array_insert a a' bs m n :
  array a' (mkMem (<[a := bs]> (arrays m)) n) = if decide (a = a') then bs else array a' m.
Proof. unfold array. simpl. rewrite lookup_insert. by case_decide. Qed.

Lemma alloc_spec bs m :
  let '(a, m') := alloc bs m in
  a = brk m /\ brk m' = S (brk m) /\ array a m' = bs /\ forall a', (a' < brk m)%nat -> keeps m m' a'.
Proof.
  unfold alloc, keeps. split_and!; [done..| |].
  - rewrite array_insert. by rewrite decide_True.
  - intros a' Ha. rewrite array_insert. rewrite decide_False; [done|lia].
Qed.

Lemma Write_spec b spare s m :
  fits m s ->
  let '(s', m') := Write b spare s m in
  fits m' s' /\ view s' m' = view s m ++ b /\ (brk m <= brk m')%nat /\ (arr s' = arr s \/ arr s' = brk m) /\
  forall a, (a < brk m)%nat -> a ≠ arr s -> keeps m m' a.
Proof.
  intros [Ha Hl]. unfold Write, fits, view, keeps.
  assert (length (take (len s) (array (arr s) m)) = len s) as Ht by (rewrite length_take; lia).
  destruct (Nat.leb_spec (len s + length b) (length (array (arr s) m))) as [Hle|Hgt].
  - simpl. rewrite !array_insert, decide_True by done. split_and!; try done; try lia.
    + rewrite !length_app, Ht, length_drop. lia.
    + rewrite app_assoc, take_app_length'; [done|]. rewrite length_app, Ht. lia.
    + intros a _ Hne. rewrite array_insert. by rewrite decide_False.
  - pose proof (alloc_spec (take (len s) (array (arr s) m) ++ b ++ spare) m) as H.
    destruct (alloc _ m) as [a m']. destruct H as (-> & Hb & He & Hk). simpl. rewrite He, Hb.
    split_and!; try lia.
    + rewrite !length_app, Ht. lia.
    + rewrite app_assoc, take_app_length'; [done|]. rewrite length_app, Ht. lia.
    + intros a Ha' _. by apply Hk.
Qed.

Lemma copy_spec s m :
  fits m s ->
  let '(s', m') := copy s m in
  fits m' s' /\ view s' m' = view s m /\ arr s' = brk m /\ brk m' = S (brk m) /\
  forall a, (a < brk m)%nat -> keeps m m' a.
Proof.
  intros [Ha Hl]. unfold copy. pose proof (alloc_spec (view s m) m) as H.
  assert (length (view s m) = len s) as Ht by (unfold view; rewrite length_take; lia).
  destruct (alloc (view s m) m) as [a m']. destruct H as (-> & Hb & He & Hk).
  unfold fits, view at 1. simpl. rewrite He, Hb. split_and!; try lia; try done.
  rewrite <- Ht at 1. by rewrite firstn_all.
Qed.

Lemma view_keeps s m m' : keeps m m' (arr s) -> view s m' = view s m.
Proof. unfold keeps, view. by intros ->. Qed.

Lemma fits_keeps s m m' : keeps m m' (arr s) -> (brk m <= brk m')%nat -> fits m s -> fits m' s.
Proof. unfold fits. intros -> ? [??]. split; [lia|done]. Qed.

Lemma string_of_list_app l1 l2 :
  String.string_of_list_ascii (l1 ++ l2) = String.string_of_list_ascii l1 +:+ String.string_of_list_ascii l2.
Proof. induction l1 as [|c l1 IH]; simpl; [done|]. by rewrite IH. Qed.

(** ** Calls of [fillCache] *)

(** Where a call stands: the handler runs and writes into the buffer it holds;
    the body has been copied; the buffer is back in the pool; the handler
    panicked. The operations the handler has performed are kept for reference. *)
Inductive phase :=
| Filling (x : nat) (status : Z) (h : Header) (ops : list wop)
| Copied (x : nat) (status : Z) (h : Header) (bodyCopy : slice) (ops : list wop)
| Answered (status : Z) (h : Header) (bodyCopy : slice) (ops : list wop)
| Panicked.

Record sys := mkSys { pl : Pool.pool; bufs : gmap nat slice; mem : memory; calls : gmap nat phase }.

Definition init : sys := mkSys Pool.empty ∅ (mkMem ∅ 0) ∅.

Inductive event :=
| EvGet (i : nat) (choice : option nat)
| EvOp (i : nat) (o : wop) (spare : list ascii)
| EvCopy (i : nat)
| EvPut (i : nat)
| EvPanic (i : nat)
| EvDrop (k : nat).

(** [captureBufPool.Get()] and [buf.Reset()]; [New] makes the object when the
    pool has none to give. *)
Definition Get_buffer (i : nat) (choice : option nat) (s : sys) : option sys :=
  match calls s !! i, Pool.Get i choice (pl s) with
  | None, Some (x, p) =>
      let '(b, m) :=
        match choice with
        | None => let '(b, m) := new_buffer (mem s) in (Some b, m)
        | Some _ => (bufs s !! x, mem s)
        end in
      match b with
      | Some b => Some (mkSys p (<[x := Reset b]> (bufs s)) m (<[i := Filling x 0 ∅ []]> (calls s)))
      | None => None
      end
  | _, _ => None
  end.

(** A method of [captureWriter] called by the handler. *)
Definition capture_op (i : nat) (o : wop) (spare : list ascii) (s : sys) : option sys :=
  match calls s !! i with
  | Some (Filling x st h ops) =>
      match o with
      | WBody b =>
          match bufs s !! x with
          | Some bf =>
              let '(bf, m) := Write (String.list_ascii_of_string b) spare bf (mem s) in
              Some (mkSys (pl s) (<[x := bf]> (bufs s)) m
                      (<[i := Filling x (if st =? 0 then StatusOK else st) h (ops ++ [o])]> (calls s)))
          | None => None
          end
      | WHead code => Some (mkSys (pl s) (bufs s) (mem s) (<[i := Filling x code h (ops ++ [o])]> (calls s)))
      | _ => Some (mkSys (pl s) (bufs s) (mem s) (<[i := Filling x st (hplay1 o h) (ops ++ [o])]> (calls s)))
      end
  | _ => None
  end.

(** [bodyCopy = append(bodyCopy, cw.body.Bytes()...)] after the handler returned. *)
Definition copy_body (i : nat) (s : sys) : option sys :=
  match calls s !! i with
  | Some (Filling x st h ops) =>
      match bufs s !! x with
      | Some bf =>
          let '(sl, m) := copy bf (mem s) in
          Some (mkSys (pl s) (bufs s) m (<[i := Copied x st h sl ops]> (calls s)))
      | None => None
      end
  | _ => None
  end.

(** [defer captureBufPool.Put(buf)], on return and on panic. *)
Definition put_buffer (i : nat) (panicked : bool) (s : sys) : option sys :=
  match calls s !! i, Pool.Put i (pl s) with
  | Some (Copied x st h sl ops), Some p =>
      if panicked then None else Some (mkSys p (bufs s) (mem s) (<[i := Answered st h sl ops]> (calls s)))
  | Some (Filling _ _ _ _), Some p =>
      if panicked then Some (mkSys p (bufs s) (mem s) (<[i := Panicked]> (calls s))) else None
  | _, _ => None
  end.

Definition step (ev : event) (s : sys) : option sys :=
  match ev with
  | EvGet i choice => Get_buffer i choice s
  | EvOp i o spare => capture_op i o spare s
  | EvCopy i => copy_body i s
  | EvPut i => put_buffer i false s
  | EvPanic i => put_buffer i true s
  | EvDrop k => Some (mkSys (Pool.Drop k (pl s)) (bufs s) (mem s) (calls s))
  end.

Fixpoint exec (evs : list event) (s : sys) : option sys :=
  match evs with
  | [] => Some s
  | ev :: evs => match step ev s with Some s' => exec evs s' | None => None end
  end.

(** ** Invariant *)

Definition holds (ph : phase) : option nat :=
  match ph with Filling x _ _ _ | Copied x _ _ _ _ => Some x | _ => None end.

(** The captured response of a call whose handler has returned. *)
Definition captured (ph : phase) : option (Z * Header * slice * list wop) :=
  match ph with
  | Copied _ st h sl ops | Answered st h sl ops => Some (st, h, sl, ops)
  | _ => None
  end.

Definition fresh_capture : captureWriter := mkCapture 0 ∅ EmptyString.

Record inv (s : sys) : Prop := {
  i_pool : Pool.wf (pl s);
  i_held : forall i ph x, calls s !! i = Some ph -> holds ph = Some x -> Pool.held (pl s) !! i = Some x;
  i_made : forall x, (x < Pool.made (pl s))%nat -> is_Some (bufs s !! x);
  i_fits : forall x bf, bufs s !! x = Some bf -> fits (mem s) bf;
  i_sep : forall x y bf bf', bufs s !! x = Some bf -> bufs s !! y = Some bf' -> arr bf = arr bf' -> x = y;
  i_fill : forall i x st h ops, calls s !! i = Some (Filling x st h ops) ->
    exists bf, bufs s !! x = Some bf /\ mkCapture st h (read bf (mem s)) = play ops fresh_capture;
  i_apart : forall i ph st h sl ops, calls s !! i = Some ph -> captured ph = Some (st, h, sl, ops) ->
    fits (mem s) sl /\ forall x bf, bufs s !! x = Some bf -> arr bf ≠ arr sl;
  i_done : forall i ph st h sl ops, calls s !! i = Some ph -> captured ph = Some (st, h, sl, ops) ->
    mkCapture st h (read sl (mem s)) = play ops fresh_capture;
}.

Lemma capture_inv_init : inv init.
Proof. split; simpl; try apply Pool.wf_empty; intros *; rewrite ?lookup_empty; done || lia. Qed.

(** One call changes the buffer it holds: nothing else that a call can see moves. *)
Lemma capture_inv_update s i x bf' m' p' st h ops :
  inv s -> Pool.wf p' -> Pool.held p' = <[i := x]> (Pool.held (pl s)) ->
  (forall j, j ≠ i -> Pool.held (pl s) !! j ≠ Some x) ->
  (forall y, (y < Pool.made p')%nat -> y = x \/ (y < Pool.made (pl s))%nat) ->
  fits m' bf' -> (brk (mem s) <= brk m')%nat ->
  (forall a, (a < brk (mem s))%nat -> (forall bf, bufs s !! x = Some bf -> a ≠ arr bf) -> keeps (mem s) m' a) ->
  (arr bf' = brk (mem s) \/ exists bf, bufs s !! x = Some bf /\ arr bf' = arr bf) ->
  mkCapture st h (read bf' m') = play ops fresh_capture ->
  inv (mkSys p' (<[x := bf']> (bufs s)) m' (<[i := Filling x st h ops]> (calls s))).
Proof.
  intros Hinv Hp Hheld Hmine Hmade Hfits Hbrk Hkeep Harr Hcap.
  assert (forall y bf, y ≠ x -> bufs s !! y = Some bf -> keeps (mem s) m' (arr bf)) as Hother.
  { intros y bf Hne Hy. apply Hkeep; [apply (i_fits s Hinv y bf Hy)|].
    intros bf0 H0 E. apply Hne. by eapply (i_sep s Hinv). }
  assert (forall y bf, y ≠ x -> bufs s !! y = Some bf -> arr bf ≠ arr bf') as Hne.
  { intros y bf Hy Hb E. destruct Harr as [E'|(bf0 & H0 & E')].
    - destruct (i_fits s Hinv y bf Hb). lia.
    - apply Hy. eapply (i_sep s Hinv); [done..|congruence]. }
  assert (forall j ph st h sl ops, calls s !! j = Some ph -> captured ph = Some (st, h, sl, ops) ->
    keeps (mem s) m' (arr sl) /\ arr bf' ≠ arr sl) as Hres.
  { intros j ph st0 h0 sl ops0 Hj Hc. destruct (i_apart s Hinv _ _ _ _ _ _ Hj Hc) as [[Hlt _] Hap]. split.
    - apply Hkeep; [done|]. intros bf Hbf E. by apply (Hap x bf).
    - destruct Harr as [->|(bf & Hbf & ->)]; [lia|]. by apply (Hap x). }
  constructor; simpl; [done|..].
  - intros j ph y. rewrite Hheld, !lookup_insert. case_decide as E; [subst; by intros [= <-] [= <-]|].
    apply (i_held s Hinv).
  - intros y [->|Hy]%Hmade; rewrite lookup_insert; case_decide; try done. by apply (i_made s Hinv).
  - intros y bf [[<- <-]|[Hy Hb]]%lookup_insert_Some; [done|].
    eapply fits_keeps; [by apply (Hother y)|done|]. by apply (i_fits s Hinv y).
  - intros y z b1 b2 [[<- <-]|[Hy H1]]%lookup_insert_Some [[<- <-]|[Hz H2]]%lookup_insert_Some E; try done.
    + by destruct (Hne z b2 (not_eq_sym Hz) H2).
    + by destruct (Hne y b1 (not_eq_sym Hy) H1).
    + by eapply (i_sep s Hinv).
  - intros j y st0 h0 ops0 [[<- [= <- <- <- <-]]|[Hj Hc]]%lookup_insert_Some.
    + exists bf'. by rewrite lookup_insert_eq.
    + destruct (i_fill s Hinv _ _ _ _ _ Hc) as (bf & Hbf & <-).
      assert (y ≠ x) as Hy.
      { intros ->. apply (Hmine j (not_eq_sym Hj)). by eapply (i_held s Hinv). }
      exists bf. rewrite lookup_insert_ne by done. split; [done|].
      unfold read. by rewrite (view_keeps bf (mem s) m') by (by apply (Hother y)).
  - intros j ph st0 h0 sl ops0 [[<- <-]|[Hj Hc]]%lookup_insert_Some Hcap0; [done|].
    destruct (Hres _ _ _ _ _ _ Hc Hcap0) as [Hk Hn]. destruct (i_apart s Hinv _ _ _ _ _ _ Hc Hcap0) as [Hf Hap].
    split; [by eapply fits_keeps|]. intros y bf [[<- <-]|[Hy Hb]]%lookup_insert_Some; [done|]. by apply (Hap y).
  - intros j ph st0 h0 sl ops0 [[<- <-]|[Hj Hc]]%lookup_insert_Some Hcap0; [done|].
    destruct (Hres _ _ _ _ _ _ Hc Hcap0) as [Hk _]. rewrite <- (i_done s Hinv _ _ _ _ _ _ Hc Hcap0).
    unfold read. by rewrite (view_keeps sl (mem s) m').
Qed.

(** A call moves on without touching a buffer; [m'] may have new arrays. *)
Lemma capture_inv_move s i m' p' ph :
  inv s -> Pool.wf p' -> Pool.made p' = Pool.made (pl s) ->
  (forall j, j ≠ i -> Pool.held p' !! j = Pool.held (pl s) !! j) ->
  (forall x, holds ph = Some x -> Pool.held p' !! i = Some x) ->
  (brk (mem s) <= brk m')%nat -> (forall a, (a < brk (mem s))%nat -> keeps (mem s) m' a) ->
  match ph with Filling _ _ _ _ => False | _ => True end ->
  (forall st h sl ops, captured ph = Some (st, h, sl, ops) ->
     fits m' sl /\ (forall x bf, bufs s !! x = Some bf -> arr bf ≠ arr sl) /\
     mkCapture st h (read sl m') = play ops fresh_capture) ->
  inv (mkSys p' (bufs s) m' (<[i := ph]> (calls s))).
Proof.
  intros Hinv Hp Hmade Hheld Hi Hbrk Hkeep Hph Hcap.
  assert (forall sl, fits (mem s) sl -> keeps (mem s) m' (arr sl)) as Hk by (intros sl [? _]; by apply Hkeep).
  constructor; simpl; [done|..].
  - intros j ph0 x [[<- <-]|[Hj Hc]]%lookup_insert_Some Hx; [by apply Hi|].
    rewrite Hheld by done. by eapply (i_held s Hinv).
  - rewrite Hmade. apply (i_made s Hinv).
  - intros x bf Hb. pose proof (i_fits s Hinv x bf Hb). eapply fits_keeps; [by apply Hk|done|done].
  - apply (i_sep s Hinv).
  - intros j x st h ops [[<- ->]|[Hj Hc]]%lookup_insert_Some; [done|].
    destruct (i_fill s Hinv _ _ _ _ _ Hc) as (bf & Hb & <-). exists bf. split; [done|].
    unfold read. by rewrite (view_keeps bf (mem s) m') by (by eapply Hk, (i_fits s Hinv)).
  - intros j ph0 st h sl ops [[<- <-]|[Hj Hc]]%lookup_insert_Some H0; [destruct (Hcap _ _ _ _ H0) as (? & ? & _); done|].
    destruct (i_apart s Hinv _ _ _ _ _ _ Hc H0) as [Hf Ha]. split; [|done]. eapply fits_keeps; [by apply Hk|done|done].
  - intros j ph0 st h sl ops [[<- <-]|[Hj Hc]]%lookup_insert_Some H0; [by apply (Hcap _ _ _ _ H0)|].
    rewrite <- (i_done s Hinv _ _ _ _ _ _ Hc H0). destruct (i_apart s Hinv _ _ _ _ _ _ Hc H0) as [Hf _].
    unfold read. by rewrite (view_keeps sl (mem s) m') by (by apply Hk).
Qed.

Lemma keeps_refl m a : keeps m m a.
Proof. done. Qed.

Lemma capture_inv_Get i choice s s' : inv s -> Get_buffer i choice s = Some s' -> inv s'.
Proof.
  intros Hinv. unfold Get_buffer. destruct (calls s !! i) eqn:Hc; [done|].
  destruct (Pool.Get i choice (pl s)) as [[x p]|] eqn:Hg; [|done].
  destruct (Pool.wf_Get _ _ _ _ _ (i_pool s Hinv) Hg) as (Hp & Hheld & Hno & Hmade & Hold).
  destruct choice as [k|].
  - destruct (bufs s !! x) as [b|] eqn:Hb; [|done]. intros [= <-]. destruct (i_fits s Hinv x b Hb).
    apply capture_inv_update; try done; eauto; try (split; simpl; lia).
  - pose proof (alloc_spec [] (mem s)) as Ha. unfold new_buffer.
    destruct (alloc [] (mem s)) as [a m]. destruct Ha as (-> & Hbrk & He & Hk). intros [= <-].
    apply capture_inv_update; try done; eauto; try lia; split; simpl; lia.
Qed.

(** The acting call holds its buffer alone. *)
Lemma filling_holds s i x st h ops :
  inv s -> calls s !! i = Some (Filling x st h ops) ->
  Pool.held (pl s) = <[i := x]> (Pool.held (pl s)) /\ (forall j, j ≠ i -> Pool.held (pl s) !! j ≠ Some x).
Proof.
  intros Hinv Hc. assert (Pool.held (pl s) !! i = Some x) as Hi by (by eapply (i_held s Hinv)). split.
  - by rewrite insert_id.
  - intros j Hj Hx. apply Hj. by eapply (Pool.wf_inj _ (i_pool s Hinv)).
Qed.

Lemma capture_inv_op i o spare s s' : inv s -> capture_op i o spare s = Some s' -> inv s'.
Proof.
  intros Hinv. unfold capture_op. destruct (calls s !! i) as [[x st h ops| | |]|] eqn:Hc; try done.
  destruct (i_fill s Hinv _ _ _ _ _ Hc) as (bf & Hb & Hcap).
  destruct (filling_holds _ _ _ _ _ _ Hinv Hc) as [Hheld Hmine].
  pose proof (i_fits s Hinv x bf Hb) as Hf.
  assert (forall st' h', mkCapture st' h' (read bf (mem s)) = play (ops ++ [o]) fresh_capture ->
    inv (mkSys (pl s) (bufs s) (mem s) (<[i := Filling x st' h' (ops ++ [o])]> (calls s)))) as Hsame.
  { intros st' h' Hcap'. rewrite <- (insert_id (bufs s) x bf) by done.
    apply capture_inv_update; try done; eauto using i_pool. }
  rewrite play_app, <- Hcap in Hsame. destruct o as [k v|k v|k|code|b]; try (intros [= <-]; by apply Hsame).
  rewrite Hb. pose proof (Write_spec (String.list_ascii_of_string b) spare bf (mem s) Hf) as Hw.
  destruct (Write _ spare bf (mem s)) as [bf' m']. destruct Hw as (Hf' & Hv & Hbrk & Harr & Hk). intros [= <-].
  apply capture_inv_update; try done; eauto using i_pool.
  - destruct Harr as [->|?]; eauto.
  - rewrite play_app, <- Hcap. simpl. unfold write. simpl. unfold read. rewrite Hv, string_of_list_app.
    by rewrite String.string_of_list_ascii_of_string.
Qed.

Lemma capture_inv_copy i s s' : inv s -> copy_body i s = Some s' -> inv s'.
Proof.
  intros Hinv. unfold copy_body. destruct (calls s !! i) as [[x st h ops| | |]|] eqn:Hc; try done.
  destruct (i_fill s Hinv _ _ _ _ _ Hc) as (bf & Hb & Hcap). rewrite Hb.
  pose proof (copy_spec bf (mem s) (i_fits s Hinv x bf Hb)) as Hcp.
  destruct (copy bf (mem s)) as [sl m']. destruct Hcp as (Hf & Hv & Harr & Hbrk & Hk). intros [= <-].
  apply capture_inv_move; try done; [apply (i_pool s Hinv)| |lia|].
  - intros y [= <-]. by eapply (i_held s Hinv).
  - intros st0 h0 sl0 ops0 [= <- <- <- <-]. split_and!; [done| |].
    + intros y bf0 [? _]%(i_fits s Hinv). lia.
    + rewrite <- Hcap. unfold read. by rewrite Hv.
Qed.

Lemma capture_inv_put i b s s' : inv s -> put_buffer i b s = Some s' -> inv s'.
Proof.
  intros Hinv. unfold put_buffer.
  destruct (Pool.Put i (pl s)) as [p|] eqn:Hput; [|by destruct (calls s !! i) as [[]|]].
  destruct (Pool.wf_Put _ _ _ (i_pool s Hinv) Hput) as (Hp & Hheld & Hmade).
  assert (forall j, j ≠ i -> Pool.held p !! j = Pool.held (pl s) !! j) as Ho
    by (intros j Hj; by rewrite Hheld, lookup_delete_ne).
  destruct (calls s !! i) as [[x st h ops|x st h sl ops| |]|] eqn:Hc; try done; destruct b; try done; intros [= <-];
    apply capture_inv_move; try done.
  intros st0 h0 sl0 ops0 [= <- <- <- <-].
  destruct (i_apart s Hinv _ _ _ _ _ _ Hc eq_refl). split_and!; try done. by apply (i_done s Hinv _ _ _ _ _ _ Hc).
Qed.

Lemma capture_inv_step ev s s' : inv s -> step ev s = Some s' -> inv s'.
Proof.
  intros Hinv. destruct ev as [i c|i o sp|i|i|i|k]; simpl;
    eauto using capture_inv_Get, capture_inv_op, capture_inv_copy, capture_inv_put.
  intros [= <-]. destruct (Pool.wf_Drop k (pl s) (i_pool s Hinv)). by destruct Hinv; constructor.
Qed.

Lemma capture_inv_exec evs s s' : inv s -> exec evs s = Some s' -> inv s'.
Proof.
  revert s. induction evs as [|ev evs IH]; intros s Hinv; simpl; [by intros [= <-]|].
  destruct (step ev s) eqn:Hs; [|done]. apply IH. by eapply capture_inv_step.
Qed.

(** The response a call has captured, as a reader sees it now. *)
Definition capture_of (s : sys) (i : nat) : option (captureWriter * list wop) :=
  match calls s !! i with
  | Some ph =>
      match captured ph with
      | Some (st, h, sl, ops) => Some (mkCapture st h (read sl (mem s)), ops)
      | None => None
      end
  | None => None
  end.

(** C16. Sharing buffers is invisible. However the calls of [fillCache] of
    concurrent requests interleave, whatever the pool hands out and however its
    arrays are reused, the response a call captured, read at any later time, is
    what its own handler wrote; so [fillCache] computes from it what it computes
    with a buffer of its own, and the body of a stored entry never changes. *)
Theorem pooled_capture_is_private `{!Unicode} {S : Type} `{!Lens S cache_state} (now : S -> Z * S)
    (evs : list event) (s : sys) (i : nat) (cw : captureWriter) (ops : list wop)
    (next : Handler S) (TTL : Z) (r : Request) (t t1 : S)
    (Hrun : exec evs init = Some s) (Hcap : capture_of s i = Some (cw, ops))
    (Hnext : performs next r t Return ops t1) :
  fillCache now next TTL r t =
    if storable cw r then let '(e, t2) := filed now TTL r cw t1 in (inr (Stored e), t2)
    else (inr (Raw (status cw) (cheader cw) (body cw)), t1).
Proof.
  pose proof (capture_inv_exec _ _ _ capture_inv_init Hrun) as Hinv. unfold capture_of in Hcap.
  destruct (calls s !! i) as [ph|] eqn:Hc; [|done].
  destruct (captured ph) as [[[[st h] sl] ops']|] eqn:Hp; [|done]. injection Hcap as <- <-.
  rewrite (i_done s Hinv _ _ _ _ _ _ Hc Hp).
  exact (fillCache_eq now next TTL r t Return _ t1 (Hnext captureWriter _ fresh_capture)).
Qed.

(** ** Example: what the copy is for

    The first call is done and its buffer serves the second. The array of the
    buffer now has the bytes of the second response, the copy still those of the
    first. *)
Definition reuse : list event :=
  [EvGet 0 None; EvOp 0 (WBody "alice") ["."%char; "."%char; "."%char]; EvCopy 0; EvPut 0;
   EvGet 1 (Some 0%nat); EvOp 1 (WBody "bob") []].

Example buffer_is_overwritten :
  exists s, exec reuse init = Some s /\
  fst <$> capture_of s 0 = Some (mkCapture 200 ∅ "alice") /\
  read (mkSlice 1 5) (mem s) = "bobce".
Proof. eexists. split; [vm_compute; reflexivity|]. vm_compute. done. Qed.

Lemma pooled_capture_is_private_witness :
  exists s cw, exec reuse init = Some s /\ capture_of s 0 = Some (cw, [WBody "alice"]) /\
  fillCache Sample.clock (scripted (fun _ t => (Return, [WBody "alice"], t))) Minute
    (Sample.get "/me" EmptyString []) Sample.empty_cache =
    if storable cw (Sample.get "/me" EmptyString [])
    then let '(e, t2) := filed Sample.clock Minute (Sample.get "/me" EmptyString []) cw Sample.empty_cache in (inr (Stored e), t2)
    else (inr (Raw (status cw) (cheader cw) (body cw)), Sample.empty_cache).
Proof.
  destruct (exec reuse init) as [s|] eqn:E; [|exfalso; revert E; vm_compute; discriminate].
  exists s, (mkCapture 200 ∅ "alice").
  assert (capture_of s 0 = Some (mkCapture 200 ∅ "alice", [WBody "alice"])) as Hc.
  { revert E. vm_compute. by intros [= <-]. }
  split; [done|]. split; [done|].
  apply (pooled_capture_is_private Sample.clock reuse s 0 _ [WBody "alice"] _ Minute _ Sample.empty_cache
           Sample.empty_cache E Hc). by apply scripted_performs.
Defined.

End Capture.

Module Compressors.
Import CompressMW.

Section Model.
Context {G : Type} `{!Gzip G} (DetectContentType : string -> string) {W : Type} `{!ResponseWriter W}.
(** [gzip.NewWriter(io.Discard)] *)
Variable NewWriter : G.

#[local] Instance cw_writer : ResponseWriter (compressWriter G W) := compressWriter_Writer DetectContentType.

(** A request in [Compress]: the handler runs with the compressor [x]; it has
    returned and the response is finished; the compressor is back in the pool.
    [cw0] is the writer the handler was given, with the compressor as it came
    out of the pool. *)
Inductive phase :=
| Serving (x : nat) (cw : compressWriter G W) (cw0 : compressWriter G W) (ops : list wop)
| Flushed (x : nat) (w : W) (cw0 : compressWriter G W) (ops : list wop)
| Done (w : W) (cw0 : compressWriter G W) (o : outcome) (ops : list wop).

(** A [gzip.Writer]: the state of the compressor, its sticky error and the
    request whose response it was last reset to ([None] is [io.Discard]). *)
Notation zipper := (G * option string * option nat)%type.

(** [zips] are the [gzip.Writer]s. A [compressWriter] has a pointer to one; its
    own fields [gz], [gz_err] and [bound] are refreshed by [load] before each
    call. *)
Record sys := mkSys { pl : Pool.pool; zips : gmap nat zipper; calls : gmap nat phase }.

Definition init : sys := mkSys Pool.empty ∅ ∅.

(** Request [i] looks at the compressor. *)
Definition load (i : nat) (z : zipper) (cw : compressWriter G W) : compressWriter G W :=
  mkCompressWriter (inner cw) z.1.1 z.1.2 (bool_decide (z.2 = Some i)) (minSize cw) (wroteHead cw) (compress cw) (buf cw) (statusCode cw).

(** The compressor after a call of request [i], which may have reset it. *)
Definition zip_of (i : nat) (z : zipper) (cw : compressWriter G W) : zipper :=
  (gz cw, gz_err cw, if bound cw then Some i else z.2).

Inductive event :=
| EvGet (i : nat) (choice : option nat) (w : W) (minSize : Z)
| EvOp (i : nat) (o : wop)
| EvFinish (i : nat)
| EvPut (i : nat)
| EvPanic (i : nat) (v : panic)
| EvDrop (k : nat).

Definition step (ev : event) (s : sys) : option sys :=
  match ev with
  | EvGet i choice w minSize =>
      match calls s !! i, Pool.Get i choice (pl s) with
      | None, Some (x, p) =>
          match (match choice with None => Some (NewWriter, None, None) | Some _ => zips s !! x end) with
          | Some z =>
              let cw := mkCompressWriter w z.1.1 z.1.2 (bool_decide (z.2 = Some i)) minSize false false EmptyString 0 in
              Some (mkSys p (<[x := z]> (zips s)) (<[i := Serving x cw cw []]> (calls s)))
          | None => None
          end
      | _, _ => None
      end
  | EvOp i o =>
      match calls s !! i with
      | Some (Serving x cw cw0 ops) =>
          match zips s !! x with
          | Some z =>
              let cw := play1 o (load i z cw) in
              Some (mkSys (pl s) (<[x := zip_of i z cw]> (zips s)) (<[i := Serving x cw cw0 (ops ++ [o])]> (calls s)))
          | None => None
          end
      | _ => None
      end
  | EvFinish i =>
      match calls s !! i with
      | Some (Serving x cw cw0 ops) =>
          match zips s !! x with
          | Some z =>
              let cw := (finish (load i z cw)).2 in
              Some (mkSys (pl s) (<[x := zip_of i z cw]> (zips s)) (<[i := Flushed x (inner cw) cw0 ops]> (calls s)))
          | None => None
          end
      | _ => None
      end
  | EvPut i =>
      match calls s !! i, Pool.Put i (pl s) with
      | Some (Flushed x w cw0 ops), Some p =>
          Some (mkSys p (zips s) (<[i := Done w cw0 Return ops]> (calls s)))
      | _, _ => None
      end
  | EvPanic i v =>
      match calls s !! i, Pool.Put i (pl s) with
      | Some (Serving x cw cw0 ops), Some p =>
          Some (mkSys p (zips s) (<[i := Done (inner cw) cw0 (Panic v) ops]> (calls s)))
      | _, _ => None
      end
  | EvDrop k => Some (mkSys (Pool.Drop k (pl s)) (zips s) (calls s))
  end.

Fixpoint exec (evs : list event) (s : sys) : option sys :=
  match evs with
  | [] => Some s
  | ev :: evs => match step ev s with Some s' => exec evs s' | None => None end
  end.

Definition holds (ph : phase) : option nat :=
  match ph with Serving x _ _ _ | Flushed x _ _ _ => Some x | Done _ _ _ _ => None end.

(** A writer as [Compress] makes it. *)
Definition pristine (cw0 : compressWriter G W) : Prop :=
  cw0 = mkCompressWriter (inner cw0) (gz cw0) (gz_err cw0) (bound cw0) (minSize cw0) false false EmptyString 0.

(** The state of a request is the one it would have alone. *)
Definition alone (zips : gmap nat zipper) (i : nat) (ph : phase) : Prop :=
  match ph with
  | Serving x cw cw0 ops => pristine cw0 /\ exists z, zips !! x = Some z /\ load i z cw = play ops cw0 /\ inner cw = inner (play ops cw0)
  | Flushed x w cw0 ops => pristine cw0 /\ w = inner (finish (play ops cw0)).2
  | Done w cw0 Return ops => pristine cw0 /\ w = inner (finish (play ops cw0)).2
  | Done w cw0 (Panic _) ops => pristine cw0 /\ w = inner (play ops cw0)
  end.

Record inv (s : sys) : Prop := {
  c_pool : Pool.wf (pl s);
  c_held : forall i ph x, calls s !! i = Some ph -> holds ph = Some x -> Pool.held (pl s) !! i = Some x;
  c_alone : forall i ph, calls s !! i = Some ph -> alone (zips s) i ph;
}.

Lemma zip_inv_init : inv init.
Proof using Type. split; simpl; try apply Pool.wf_empty; intros *; by rewrite lookup_empty. Qed.

(** A compressor another request does not hold may change. *)
Lemma alone_insert z x (m : gmap nat zipper) i ph :
  holds ph ≠ Some x -> alone m i ph -> alone (<[x := z]> m) i ph.
Proof using Type.
  destruct ph as [y cw cw0 ops|y w cw0 ops|w cw0 o ops]; simpl; try done.
  intros Hne (Hp & z' & Hz & H). split; [done|]. exists z'. by rewrite lookup_insert_ne by congruence.
Qed.

(** The request [i] moves on and may change the compressor it holds. *)
Lemma zip_inv_move s i x z p' ph :
  inv s -> Pool.wf p' -> (forall j, j ≠ i -> Pool.held p' !! j = Pool.held (pl s) !! j) ->
  (forall j, j ≠ i -> Pool.held (pl s) !! j ≠ Some x) ->
  (forall y, holds ph = Some y -> Pool.held p' !! i = Some y) -> alone (<[x := z]> (zips s)) i ph ->
  inv (mkSys p' (<[x := z]> (zips s)) (<[i := ph]> (calls s))).
Proof using Type.
  intros Hinv Hp Hheld Hmine Hi Hph. constructor; simpl; [done|..].
  - intros j ph0 y [[<- <-]|[Hj Hc]]%lookup_insert_Some Hy; [by apply Hi|].
    rewrite Hheld by done. by eapply (c_held s Hinv).
  - intros j ph0 [[<- <-]|[Hj Hc]]%lookup_insert_Some; [done|].
    apply alone_insert; [|by eapply (c_alone s Hinv)].
    intros Hx. apply (Hmine j); [done|]. by eapply (c_held s Hinv).
Qed.

Lemma held_alone s i ph x :
  inv s -> calls s !! i = Some ph -> holds ph = Some x ->
  Pool.held (pl s) !! i = Some x /\ forall j, j ≠ i -> Pool.held (pl s) !! j ≠ Some x.
Proof using Type.
  intros Hinv Hc Hx. pose proof (c_held s Hinv _ _ _ Hc Hx) as Hi. split; [done|].
  intros j Hj Hjx. apply Hj. by eapply (Pool.wf_inj _ (c_pool s Hinv)).
Qed.

(** Only [Reset] changes the destination. *)
Lemma bound_flush (cw : compressWriter G W) : bound cw = true -> bound (flushBuffered cw) = true.
Proof using Type.
  intros H. unfold flushBuffered. simpl. destruct (compress cw); [|done]. unfold gzip_Write. simpl.
  destruct (gz_Write _ _). by destruct (zip_out _ _).
Qed.

Lemma bound_op o (cw : compressWriter G W) : bound cw = true -> bound (play1 o cw) = true.
Proof using Type.
  intros H. destruct o as [k v|k v|k|c|b]; try done.
  change (bound (cw_Write DetectContentType b cw).2 = true). unfold cw_Write. destruct (wroteHead cw).
  - destruct (compress cw); [|by destruct (w_Write b _)]. unfold gzip_Write.
    destruct (gz_err cw); [done|]. destruct (gz_Write _ _). by destruct (zip_out _ _).
  - cbv zeta. destruct (_ <? _); [done|]. cbn [snd]. apply bound_flush. unfold decide_. by repeat case_match.
Qed.

Lemma load_zip_of i z cw cw' : (bound (load i z cw) = true -> bound cw' = true) -> load i (zip_of i z cw') cw' = cw'.
Proof using Type.
  intros H. unfold load, zip_of in *. destruct cw' as [w' g' e' b' m' h' c' f' s']. simpl in *. f_equal.
  destruct b'; [by apply bool_decide_eq_true_2|]. case_bool_decide; [|done]. by destruct (H eq_refl).
Qed.

(** The compressor goes back. *)
Lemma zip_inv_put s i p' w cw0 o ops :
  inv s -> Pool.Put i (pl s) = Some p' -> alone (zips s) i (Done w cw0 o ops) ->
  inv (mkSys p' (zips s) (<[i := Done w cw0 o ops]> (calls s))).
Proof using Type.
  intros Hinv Hput Hph. destruct (Pool.wf_Put _ _ _ (c_pool s Hinv) Hput) as (Hp & Hheld & _).
  constructor; simpl; [done|..].
  - intros j ph0 y [[<- <-]|[Hj Hc]]%lookup_insert_Some Hy; [done|].
    rewrite Hheld, lookup_delete_ne by done. by eapply (c_held s Hinv).
  - intros j ph0 [[<- <-]|[Hj Hc]]%lookup_insert_Some; [done|]. by eapply (c_alone s Hinv).
Qed.

Lemma zip_inv_step ev s s' : inv s -> step ev s = Some s' -> inv s'.
Proof using Type.
  intros Hinv. destruct ev as [i choice w ms|i o|i|i|i v|k]; simpl.
  - destruct (calls s !! i) eqn:Hc; [done|].
    destruct (Pool.Get i choice (pl s)) as [[x p]|] eqn:Hg; [|done].
    destruct (Pool.wf_Get _ _ _ _ _ (c_pool s Hinv) Hg) as (Hp & Hheld & Hno & _ & _).
    destruct (match choice with None => _ | Some _ => _ end) as [z|]; [|done]. intros [= <-].
    apply zip_inv_move; try done; rewrite ?Hheld.
    + intros j Hj. by rewrite lookup_insert_ne.
    + intros y [= <-]. by rewrite lookup_insert_eq.
    + split; [done|]. exists z. by rewrite lookup_insert_eq.
  - destruct (calls s !! i) as [[x cw cw0 ops| |]|] eqn:Hc; try done.
    destruct (c_alone s Hinv _ _ Hc) as (Hp & z & Hz & Hl & _). rewrite Hz. intros [= <-].
    destruct (held_alone s i _ x Hinv Hc eq_refl) as [Hi Hmine].
    apply zip_inv_move; try done; [apply (c_pool s Hinv)|by intros y [= <-]|].
    split; [done|]. eexists. rewrite lookup_insert_eq. split; [done|].
    rewrite (load_zip_of i z cw) by apply bound_op. by rewrite Hl, play_app.
  - destruct (calls s !! i) as [[x cw cw0 ops| |]|] eqn:Hc; try done.
    destruct (c_alone s Hinv _ _ Hc) as (Hp & z & Hz & Hl & _). rewrite Hz. intros [= <-].
    destruct (held_alone s i _ x Hinv Hc eq_refl) as [Hi Hmine].
    apply zip_inv_move; try done; [apply (c_pool s Hinv)|by intros y [= <-]|].
    split; [done|]. by rewrite Hl.
  - destruct (calls s !! i) as [[|x w cw0 ops|]|] eqn:Hc; try done.
    destruct (Pool.Put i (pl s)) as [p|] eqn:Hput; [|done]. intros [= <-].
    apply zip_inv_put; try done. apply (c_alone s Hinv _ _ Hc).
  - destruct (calls s !! i) as [[x cw cw0 ops| |]|] eqn:Hc; try done.
    destruct (Pool.Put i (pl s)) as [p|] eqn:Hput; [|done]. intros [= <-].
    apply zip_inv_put; try done. destruct (c_alone s Hinv _ _ Hc) as (? & z & _ & _ & ?). done.
  - intros [= <-]. destruct (Pool.wf_Drop k (pl s) (c_pool s Hinv)). by destruct Hinv; constructor.
Qed.

Lemma zip_inv_exec evs s s' : inv s -> exec evs s = Some s' -> inv s'.
Proof using Type.
  revert s. induction evs as [|ev evs IH]; intros s Hinv; simpl; [by intros [= <-]|].
  destruct (step ev s) eqn:Hs; [|done]. apply IH. by eapply zip_inv_step.
Qed.

(** ** What the previous request left

    [Reset] discards it before the compressor is used: two writers that differ in
    the compressor only (its state, its error, its destination) pass the same
    bytes to their responses, as they agree on it from the first use on. *)

Section Resets.
Context (like : relation G) `{!GzipReset G NewWriter like}.

Definition zipping (cw : compressWriter G W) : bool := wroteHead cw && compress cw.

Record agree (cw cw' : compressWriter G W) : Prop := {
  a_inner : inner cw' = inner cw;
  a_minSize : minSize cw' = minSize cw;
  a_wroteHead : wroteHead cw' = wroteHead cw;
  a_compress : compress cw' = compress cw;
  a_buf : buf cw' = buf cw;
  a_status : statusCode cw' = statusCode cw;
  a_zip : zipping cw = true -> like (gz cw) (gz cw') /\ gz_err cw' = gz_err cw /\ bound cw' = bound cw;
}.

(** A call of the compressor, with what it passes on. *)
Lemma agree_call out g g' cw cw' :
  agree cw cw' -> zipping cw = true -> like g g' ->
  (zip_out out cw').1 = (zip_out out cw).1 /\
  agree (set_gz g (zip_out out cw).1 (zip_out out cw).2 cw) (set_gz g' (zip_out out cw').1 (zip_out out cw').2 cw').
Proof using Type.
  intros H Hz Hg. destruct (a_zip _ _ H Hz) as (_ & _ & Hb).
  assert (zip_out out cw' = zip_out out cw) as -> by (unfold zip_out; by rewrite Hb, (a_inner _ _ H)).
  split; [done|]. destruct H. by constructor.
Qed.

Lemma agree_gzip_Write b cw cw' : agree cw cw' -> zipping cw = true -> agree (gzip_Write b cw).2 (gzip_Write b cw').2.
Proof using All.
  intros H Hz. destruct (a_zip _ _ H Hz) as (Hg & He & Hb). unfold gzip_Write. rewrite He.
  destruct (gz_err cw); [done|]. destruct (like_write b _ _ Hg) as [E Hg'].
  destruct (gz_Write b (gz cw)) as [out g], (gz_Write b (gz cw')) as [out' g']. simpl in *. subst out'.
  destruct (agree_call out g g' cw cw' H Hz Hg') as [_ Ha]. by destruct (zip_out out cw), (zip_out out cw').
Qed.

Lemma agree_gzip_Close cw cw' : agree cw cw' -> zipping cw = true -> inner (gzip_Close cw').2 = inner (gzip_Close cw).2.
Proof using All.
  intros H Hz. destruct (a_zip _ _ H Hz) as (Hg & He & Hb). unfold gzip_Close. rewrite He.
  destruct (gz_err cw); [apply H|]. destruct (like_close _ _ Hg) as [E Hg'].
  destruct (gz_Close (gz cw)) as [out g], (gz_Close (gz cw')) as [out' g']. simpl in *. subst out'.
  destruct (agree_call out g g' cw cw' H Hz Hg') as [_ Ha]. destruct (zip_out out cw), (zip_out out cw'). apply Ha.
Qed.

Lemma agree_flush cw cw' : agree cw cw' -> agree (flushBuffered cw) (flushBuffered cw').
Proof using All.
  intros H. unfold flushBuffered. simpl. rewrite (a_status _ _ H), (a_inner _ _ H), (a_compress _ _ H), (a_buf _ _ H).
  set (st := if statusCode cw =? 0 then _ else _).
  destruct (compress cw) eqn:Hc.
  - set (c1 := gzip_Reset _). set (c1' := gzip_Reset _).
    assert (agree c1 c1') as H1.
    { destruct H as [? ? ? ? ? ? Hz]. unfold c1, c1'. constructor; simpl; try done. intros _. split_and!; try done.
      transitivity NewWriter; [|symmetry]; apply like_reset. }
    assert (zipping c1 = true) as Hz1 by (unfold zipping, c1; simpl; by rewrite Hc).
    pose proof (agree_gzip_Write (buf cw) c1 c1' H1 Hz1) as [? ? ? ? ? ? Hz]. by constructor.
  - destruct H as [? ? ? ? ? ? Hz]. constructor; simpl; try done. unfold zipping. simpl. by rewrite Hc.
Qed.

Lemma agree_decide cw cw' : agree cw cw' -> wroteHead cw = false -> agree (decide_ DetectContentType cw) (decide_ DetectContentType cw').
Proof using Type.
  intros H Hw. unfold decide_. rewrite (a_inner _ _ H), (a_buf _ _ H). destruct H as [? ? ? ? ? ? Hz].
  repeat case_match; simpl in *; try done; constructor; simpl; try congruence; unfold zipping; simpl; by rewrite Hw.
Qed.

Lemma agree_op o cw cw' : agree cw cw' -> agree (play1 o cw) (play1 o cw').
Proof using All.
  intros H. destruct o as [k v|k v|k|c|b];
    try (destruct H as [Hi ? ? ? ? ? Hz]; simpl; constructor; simpl; by rewrite ?Hi).
  change (agree (cw_Write DetectContentType b cw).2 (cw_Write DetectContentType b cw').2). unfold cw_Write.
  rewrite (a_wroteHead _ _ H), (a_compress _ _ H). destruct (wroteHead cw) eqn:Hw.
  - destruct (compress cw) eqn:Hc; [apply agree_gzip_Write; [done|unfold zipping; by rewrite Hw, Hc]|].
    rewrite (a_inner _ _ H). destruct (w_Write b (inner cw)) as [res w]. destruct H as [? ? ? ? ? ? Hz]. by constructor.
  - assert (agree (set_buf (buf cw +:+ b) cw) (set_buf (buf cw' +:+ b) cw')) as Hb
      by (destruct H as [? ? ? ? Hbuf ? Hz]; constructor; simpl; try done; by rewrite Hbuf).
    cbv zeta. rewrite (a_buf _ _ Hb), (a_minSize _ _ Hb). destruct (_ <? _); cbn [snd]; [done|].
    apply agree_flush, agree_decide; done.
Qed.

Lemma agree_play ops cw cw' : agree cw cw' -> agree (play ops cw) (play ops cw').
Proof using All.
  revert cw cw'. induction ops as [|o ops IH]; intros cw cw' H; [done|]. rewrite !play_cons. by apply IH, agree_op.
Qed.

Lemma agree_finish cw cw' : agree cw cw' -> inner (finish cw').2 = inner (finish cw).2.
Proof using All.
  intros H. unfold finish. rewrite (a_wroteHead _ _ H). destruct (wroteHead cw) eqn:Hw; simpl.
  - rewrite (a_compress _ _ H). destruct (compress cw) eqn:Hc; [|apply H].
    apply agree_gzip_Close; [done|]. unfold zipping. by rewrite Hw, Hc.
  - assert (agree (set_compress false cw) (set_compress false cw')) as H1.
    { destruct H as [? ? ? ? ? ? Hz]. constructor; simpl; try done. unfold zipping. simpl. by rewrite andb_false_r. }
    apply (a_inner _ _ (agree_flush _ _ H1)).
Qed.
End Resets.
End Model.

(** C18. Sharing compressors is invisible. However concurrent requests
    interleave, and whatever the previous request left in the compressor (bytes
    in the middle of a stream, the error of a client that hung up, its own
    response as the destination), the bytes a request's client receives are those
    of the middleware run alone with a compressor fresh from [gzip.NewWriter], so
    what is shown of [Compress] for one request holds for all of them. *)
Theorem pooled_compressor_is_private {S G W : Type} `{!Gzip G} `{RW : !ResponseWriter W}
    (DetectContentType : string -> string) (NewWriter : G) (like : relation G) (Hreset : GzipReset G NewWriter like)
    (evs : list event) (s : sys)
    (i : nat) (w w0 : W) (cw0 : compressWriter G W) (o : outcome) (ops : list wop)
    (next : Handler S) (r : Request) (t t1 : S)
    (Hrun : exec DetectContentType NewWriter evs init = Some s)
    (Hdone : calls s !! i = Some (Done w cw0 o ops))
    (Hgzip : clientAcceptsGzip (Get (header r) "Accept-Encoding") = true)
    (Hw0 : inner cw0 = header_Add "Vary" "Accept-Encoding" w0)
    (Hnext : performs next r t o ops t1) :
  Compress DetectContentType NewWriter (minSize cw0) next W RW r w0 t = (o, w, t1).
Proof.
  pose proof (zip_inv_exec DetectContentType NewWriter _ _ _ (zip_inv_init DetectContentType) Hrun) as Hinv.
  pose proof (c_alone _ _ Hinv _ _ Hdone) as Halone.
  unfold Compress. rewrite Hgzip. simpl. rewrite <- Hw0, (Hnext _ (compressWriter_Writer DetectContentType)).
  assert (pristine cw0) as Hp by (by destruct o, Halone).
  set (c := mkCompressWriter (inner cw0) NewWriter None false (minSize cw0) false false EmptyString 0).
  assert (agree like (@play _ (compressWriter_Writer DetectContentType) ops cw0)
            (@play _ (compressWriter_Writer DetectContentType) ops c)) as Hsame.
  { apply (agree_play DetectContentType NewWriter like). rewrite Hp. by constructor. }
  destruct o; destruct Halone as [_ ->]; [by rewrite (agree_finish DetectContentType NewWriter like _ _ Hsame)|by rewrite (a_inner _ _ _ Hsame)].
Qed.

(** ** Example: a compressor left in the middle of a stream *)

Definition vary : response := header_Add "Vary" "Accept-Encoding" new_response.

Definition page : list wop := [HSet "Content-Type" "text/html"; WBody "hello"; WBody " bob"].

Definition abandoned : list (event (W := response)) :=
  [EvGet 0 None vary 2; EvOp 0 (HSet "Content-Type" "text/html"); EvOp 0 (WBody "alice"); EvPanic 0 ErrAbortHandler;
   EvGet 1 (Some 0%nat) vary 2] ++ map (EvOp 1) page ++ [EvFinish 1; EvPut 1].

Definition after_abandoned : option (sys (G := string) (W := response)) :=
  exec (fun _ => EmptyString) EmptyString abandoned init.

Definition second_call : option phase := after_abandoned ≫= fun s => calls s !! 1%nat.

Definition second_reply : response :=
  match second_call with Some (Done w _ _ _) => w | _ => new_response end.

Lemma second_call_done :
  second_call = Some (Done second_reply (mkCompressWriter vary "alice" None false 2 false false EmptyString 0) Return page).
Proof. vm_compute. reflexivity. Qed.

Lemma pooled_compressor_is_private_witness :
  gunzip (sent_body second_reply) = Some "hello bob" /\
  Compress (fun _ => EmptyString) EmptyString 2 (scripted (fun _ t => (Return, page, t))) response _
    (sample_request "gzip") new_response tt = (Return, second_reply, tt).
Proof.
  split; [vm_compute; reflexivity|].
  pose proof second_call_done as H. unfold second_call in H.
  destruct after_abandoned as [s|] eqn:E; [|discriminate H].
  apply (pooled_compressor_is_private (fun _ => EmptyString) EmptyString eq sample_gzip_reset abandoned s 1 second_reply new_response
           (mkCompressWriter vary "alice" None false 2 false false EmptyString 0) Return page
           (scripted (fun _ t => (Return, page, t))) (sample_request "gzip") tt tt E H).
  - vm_compute. reflexivity.
  - reflexivity.
  - by apply scripted_performs.
Defined.

End Compressors.
