(* ===== verification/Proxy.v ===== *)
(** * The reverse proxy ([internal/proxy/proxy.go], [internal/proxy/rewrite.go])

    The handler of a service: it asks the balancer for an upstream, the breaker
    of that upstream for admission, and hands the request to
    [httputil.ReverseProxy], whose [Rewrite], [ModifyResponse] and [ErrorHandler]
    are the gateway's. [Module ReverseProxy] is the part of [net/http/httputil]
    that calls them; the transport (the network and the upstream) is a parameter,
    and so are [url.Parse] and the trace propagator. *)

From Stdlib Require Import Ascii.
From S2P Require Import Prelude GoStrings Http Breaker Balancer Auth Guards Compress CacheMW.
Import Http.

(** [proxy.LoadBalancer] *)
Class LoadBalancer (L : Type) := { lb_Next : L -> result string * L }.

(** What the handler relies on: a balancer only hands out the upstreams it was
    built with. *)
Class LoadBalancerLaws (L : Type) `{!LoadBalancer L} (upstreams : L -> list string) : Prop := {
  lb_member : forall l u l', lb_Next l = (Ok u, l') -> u ∈ upstreams l;
  lb_stable : forall l, upstreams (lb_Next l).2 = upstreams l;
}.

(** The round-robin balancer with the health checker it consults is one. *)
#[export] Instance roundrobin_LoadBalancer {H} `{!HealthChecker H} : LoadBalancer (RoundRobin.RoundRobin * H) := {|
  lb_Next '(rr, checker) := let '(u, rr) := RoundRobin.Next checker rr in (u, (rr, checker))
|}.

#[export] Instance roundrobin_LoadBalancerLaws {H} `{!HealthChecker H} :
  LoadBalancerLaws (RoundRobin.RoundRobin * H) (fun l => RoundRobin.urls l.1).
Proof.
  assert (forall (checker : H) n rr, match RoundRobin.next_loop checker n rr with
    | (Ok u, rr') => u ∈ RoundRobin.urls rr /\ RoundRobin.urls rr' = RoundRobin.urls rr
    | (Err _, rr') => RoundRobin.urls rr' = RoundRobin.urls rr end) as Hloop.
  { intros checker n. induction n as [|n IH]; intros rr; simpl; [done|].
    destruct (RoundRobin.urls rr !! _) as [u|] eqn:Eu; simpl; [|done].
    destruct (IsHealthy checker u).
    - split; [by eapply list_elem_of_lookup_2|done].
    - specialize (IH (RoundRobin.mkRR (RoundRobin.urls rr) (uint64 (RoundRobin.counter rr + 1)))). simpl in IH. exact IH. }
  split.
  - intros [rr checker] u l' E. simpl in E. unfold RoundRobin.Next in E.
    specialize (Hloop checker (length (RoundRobin.urls rr)) rr).
    destruct (RoundRobin.next_loop _ _ _) as [res rr']. injection E as -> <-. simpl. tauto.
  - intros [rr checker]. simpl. unfold RoundRobin.Next.
    specialize (Hloop checker (length (RoundRobin.urls rr)) rr).
    destruct (RoundRobin.next_loop _ _ _) as [[u|e] rr']; simpl; tauto.
Qed.

(** ** [net/http/httputil] *)

Module ReverseProxy.

(** The request sent to the upstream. *)
Record OutRequest := mkOut { Scheme : string; UrlHost : string; out : Request }.

(** What an error of the round trip is, as far as the gateway tells errors apart. *)
Inductive transport_error :=
| MaxBytesError
| DeadlineExceeded
| NetError (timeout : bool)
| Canceled
| OtherError.

(** A response of the upstream: the body arrives in pieces and may break off. *)
Record Response := mkResp { StatusCode : Z; resp_header : Header; chunks : list string; broken : bool }.

Definition hopHeaders : list string :=
  ["Connection"; "Proxy-Connection"; "Keep-Alive"; "Proxy-Authenticate"; "Proxy-Authorization"; "Te"; "Trailer";
   "Transfer-Encoding"; "Upgrade"].

(** Names listed in [Connection]. *)
Definition connection_tokens (h : Header) : list string :=
  filter (fun t => t ≠ EmptyString) (concat (map (fun f => map TrimSpace (Split "," f)) (Values h "Connection"))).

Definition removeHopByHopHeaders (h : Header) : Header :=
  let h' := foldl (fun h t => Del t h) h (connection_tokens h) in
  foldl (fun h t => Del t h) h' hopHeaders.

(** Equality of tokens up to the case of ASCII letters. *)
Definition tokenEqual (s t : string) : bool := bool_decide (map_bytes lower_byte s = map_bytes lower_byte t).

Definition has_token (values : list string) (token : string) : bool :=
  existsb (fun v => existsb (fun t => tokenEqual (TrimSpace t) token) (Split "," v)) values.

(** A query that [url.ParseQuery] would reject in part is parsed and encoded anew. *)
Fixpoint malformed_query (s : string) : bool :=
  match s with
  | EmptyString => false
  | String c s1 =>
      if code c =? 59 then true
      else if code c =? 37 then
        match s1 with
        | String a (String b s2) =>
            if bool_decide (is_Some (Url.hex_value a)) && bool_decide (is_Some (Url.hex_value b)) then malformed_query s2 else true
        | _ => true
        end
      else malformed_query s1
  end.

Definition cleanQueryParams (raw : string) : string :=
  if malformed_query raw then Url.Encode (Url.Query raw) else raw.

Definition upgradeType (h : Header) : string :=
  if has_token (Values h "Connection") "Upgrade" then Get h "Upgrade" else EmptyString.

(** The header of the outgoing request before [Rewrite] sees it. *)
Definition prepare (h : Header) : Header :=
  let reqUpType := upgradeType h in
  let te := has_token (Values h "Te") "trailers" in
  let h := removeHopByHopHeaders h in
  let h := if te then Set_ "Te" "trailers" h else h in
  let h := if decide (reqUpType = EmptyString) then h else Set_ "Upgrade" reqUpType (Set_ "Connection" "Upgrade" h) in
  Del "X-Forwarded-Proto" (Del "X-Forwarded-Host" (Del "X-Forwarded-For" (Del "Forwarded" h))).

(** The request [Rewrite] is given to work on. *)
Definition outgoing (req : Request) : Request :=
  WithQuery (cleanQueryParams (RawQuery req)) (WithHeader (prepare (header req)) req).

(** [ProxyRequest.SetXForwarded]: [inp] is the incoming request, always over
    plain HTTP. *)
Definition SetXForwarded (inp : Request) (h : Header) : Header :=
  let h := match RateLimitMW.SplitHostPort (RemoteAddr inp) with
           | Ok (clientIP, _) => Set_ "X-Forwarded-For" (Join ", " (Values h "X-Forwarded-For" ++ [clientIP])) h
           | Err _ => Del "X-Forwarded-For" h
           end in
  Set_ "X-Forwarded-Proto" "http" (Set_ "X-Forwarded-Host" (Host inp) h).

(** Without a [User-Agent] the transport would add its own. *)
Definition finish_header (h : Header) : Header :=
  match h !! "User-Agent" with Some _ => h | None => Set_ "User-Agent" EmptyString h end.

(** [copyResponse]: pieces are written as they arrive; a failed or short write or
    a broken body is an error. *)
Fixpoint copyResponse {W} `{!ResponseWriter W} (chunks : list string) (broken : bool) (w : W) : bool * W :=
  match chunks with
  | [] => (negb broken, w)
  | b :: chunks =>
      let '((n, err), w) := w_Write b w in
      match err with
      | Some _ => (false, w)
      | None => if n =? Z.of_nat (String.length b) then copyResponse chunks broken w else (false, w)
      end
  end.

Section ServeHTTP.
Context {S : Type}.
(** [Rewrite] and [ModifyResponse] may panic ([inl]). *)
Variable Rewrite : Request -> Request -> panic + OutRequest.
Variable RoundTrip : OutRequest -> S -> (transport_error + Response) * S.
Variable ModifyResponse : Request -> Response -> S -> panic + S.
Variable ErrorHandler : forall W, ResponseWriter W -> Request -> transport_error -> W -> S -> outcome * W * S.

Definition ServeHTTP : Handler S := fun W RW req w s =>
  match Rewrite req (outgoing req) with
  | inl v => (Panic v, w, s)
  | inr o =>
      let o := mkOut (Scheme o) (UrlHost o) (WithHeader (finish_header (header (out o))) (out o)) in
      match RoundTrip o s with
      | (inl e, s) => ErrorHandler W RW (out o) e w s
      | (inr res, s) =>
          if StatusCode res =? 101 then
            match ModifyResponse (out o) res s with
            | inl v => (Panic v, w, s)
            | inr s => ErrorHandler W RW (out o) OtherError w s  (* no writer of the chain can be hijacked *)
            end
          else
            let res := mkResp (StatusCode res) (removeHopByHopHeaders (resp_header res)) (chunks res) (broken res) in
            match ModifyResponse (out o) res s with
            | inl v => (Panic v, w, s)
            | inr s =>
                let w := play (CacheMW.header_ops (resp_header res)) w in
                let w := w_WriteHeader (StatusCode res) w in
                let '(ok, w) := copyResponse (chunks res) (broken res) w in
                (if ok then Return else Panic ErrAbortHandler, w, s)
            end
      end
  end.
End ServeHTTP.

End ReverseProxy.

Module Proxy.
Import ReverseProxy.

(** ** Context *)

Definition newTargetContext (c : Context) (target : string) : Context :=
  mkContext (ctx_requestID c) (ctx_claims c) (Some target) (ctx_span c).

Definition TargetFromContext (c : Context) : option string := ctx_target c.

Definition mustGetTargetFromContext (c : Context) : panic + string :=
  match TargetFromContext c with
  | Some target => inr target
  | None => inl (PanicValue "proxy: target URL not found in request context")
  end.

(** ** Outgoing headers *)

(** [Inject] of the global propagator writes the trace headers of the context. *)
Definition injectTraceContext (Inject : Context -> Header -> Header) (c : Context) (h : Header) : Header := Inject c h.

Definition injectUserHeaders (c : Context) (h : Header) : Header :=
  match Auth.ClaimsFromContext c with
  | None => h
  | Some claims => Set_ "X-Roles" (Join "," (Roles claims)) (Set_ "X-User" (Subject claims) h)
  end.

(** ** Errors *)

Definition classifyProxyError (err : transport_error) : Z * string :=
  match err with
  | DeadlineExceeded => (StatusGatewayTimeout, "upstream timeout")
  | NetError true => (StatusGatewayTimeout, "upstream timeout")
  | _ => (StatusBadGateway, "upstream unavailable")
  end.

(** ** The transport *)

Record TransportConfig := mkTransportConfig {
  tc_MaxIdleConns : Z;
  tc_MaxIdleConnsPerHost : Z;
  tc_IdleConnTimeout : Z;
  tc_DialTimeout : Z;
  tc_TLSHandshakeTimeout : Z;
}.

(** The fields of [http.Transport] the proxy sets; zero is no limit. *)
Record http_Transport := mkHttpTransport {
  dial_Timeout : Z;
  dial_KeepAlive : Z;
  MaxIdleConns : Z;
  MaxIdleConnsPerHost : Z;
  IdleConnTimeout : Z;
  TLSHandshakeTimeout : Z;
  ExpectContinueTimeout : Z;
  ForceAttemptHTTP2 : bool;
  ResponseHeaderTimeout : Z;
}.

Definition newUpstreamTransport (tc : TransportConfig) : http_Transport :=
  mkHttpTransport (tc_DialTimeout tc) (30 * Second) (tc_MaxIdleConns tc) (tc_MaxIdleConnsPerHost tc) (tc_IdleConnTimeout tc)
    (tc_TLSHandshakeTimeout tc) (1 * Second) true 0.

(** ** The handler *)

Record proxy_state (L : Type) := mkProxy { lb : L; breakers : gmap string Breaker.Breaker }.
Arguments mkProxy {L} _ _.
Arguments lb {L} _.
Arguments breakers {L} _.

Section Handler.
Context {L S : Type} `{!LoadBalancer L, !Lens S (proxy_state L)}.
(** [url.Parse], reduced to scheme and host. *)
Variable url_Parse : string -> option (string * string).
Variable Inject : Context -> Header -> Header.
Variable now : S -> Z * S.
Variable log : SlogLogger S.
Variable error_text : transport_error -> string.
Variable RoundTrip : OutRequest -> S -> (transport_error + Response) * S.

Definition mustParseURL (raw : string) : panic + (string * string) :=
  match url_Parse raw with
  | Some u => inr u
  | None => inl (PanicValue ("proxy: invalid upstream URL: " +:+ raw))
  end.

Definition mustGetBreaker (upstream : string) (s : S) : panic + Breaker.Breaker :=
  match breakers (lget s) !! upstream with
  | Some b => inr b
  | None => inl (PanicValue "proxy: circuit breaker not found")
  end.

(** The breakers are shared pointers: a method call updates the map's entry. *)
Definition put_breaker (upstream : string) (b : Breaker.Breaker) (s : S) : S :=
  let p := lget s in lset (mkProxy (lb p) (<[upstream := b]> (breakers p))) s.

Definition Rewrite (inp outreq : Request) : panic + OutRequest :=
  match mustGetTargetFromContext (ctx outreq) with
  | inl v => inl v
  | inr target =>
      match mustParseURL target with
      | inl v => inl v
      | inr (scheme, host) =>
          let h := SetXForwarded inp (header outreq) in
          let h := injectTraceContext Inject (ctx outreq) h in
          let h := injectUserHeaders (ctx outreq) h in
          inr (mkOut scheme host
                 (mkRequest (Method outreq) (Path outreq) (RawQuery outreq) h (ContentLength outreq) (Body outreq)
                    host (RemoteAddr outreq) (ctx outreq)))
      end
  end.

Definition ModifyResponse (req : Request) (resp : Response) (s : S) : panic + S :=
  match mustGetTargetFromContext (ctx req) with
  | inl v => inl v
  | inr target =>
      match mustGetBreaker target s with
      | inl v => inl v
      | inr b =>
          if 500 <=? StatusCode resp
          then let '(t, s) := now s in inr (put_breaker target (Breaker.RecordFailure t b) s)
          else inr (put_breaker target (Breaker.RecordSuccess b) s)
      end
  end.

Definition ErrorHandler (W : Type) (RW : ResponseWriter W) (req : Request) (err : transport_error) (w : W) (s : S) :
    outcome * W * S :=
  match err with
  | MaxBytesError =>
      (Return, writeJSON StatusRequestEntityTooLarge [("error", "request body too large")] w, s)
  | _ =>
      match mustGetTargetFromContext (ctx req) with
      | inl v => (Panic v, w, s)
      | inr target =>
          match mustGetBreaker target s with
          | inl v => (Panic v, w, s)
          | inr b =>
              let '(t, s) := now s in
              let s := put_breaker target (Breaker.RecordFailure t b) s in
              let s := log (mkLog LevelError "proxy" [("error", AString (error_text err))]) s in
              let '(status, msg) := classifyProxyError err in
              (Return, writeJSON status [("error", msg)] w, s)
          end
      end
  end.

Definition proxy_ServeHTTP : Handler S := ReverseProxy.ServeHTTP Rewrite RoundTrip ModifyResponse ErrorHandler.

(** [Handler.ServeHTTP] *)
Definition ServeHTTP : Handler S := fun W RW r w s =>
  let '(next, l) := lb_Next (lb (lget s)) in
  let s := lset (mkProxy l (breakers (lget s))) s in
  match next with
  | Err _ => (Return, writeJSON StatusServiceUnavailable [("error", "no healthy upstreams")] w, s)
  | Ok upstream =>
      match mustGetBreaker upstream s with
      | inl v => (Panic v, w, s)
      | inr b =>
          let '(t, s) := now s in
          let '(allowed, b) := Breaker.Allow t b in
          let s := put_breaker upstream b s in
          match allowed with
          | Err _ =>
              (Return, writeJSON StatusServiceUnavailable [("error", "circuit breaker is open"); ("upstream", upstream)] w, s)
          | Ok _ =>
              let c := newTargetContext (ctx r) upstream in
              proxy_ServeHTTP W RW (WithContext c r) w s
          end
      end
  end.
End Handler.

(** ** Theorems *)

(** The verdict on the upstream that a finished round trip records. *)
Definition verdict (t : Z) (result : transport_error + Response) (b : Breaker.Breaker) : Breaker.Breaker :=
  match result with
  | inl MaxBytesError => b
  | inl _ => Breaker.RecordFailure t b
  | inr res => if 500 <=? StatusCode res then Breaker.RecordFailure t b else Breaker.RecordSuccess b
  end.

(** The answer to a request whose round trip fails. *)
Definition error_answer (e : transport_error) : Z * string :=
  match e with
  | MaxBytesError => (StatusRequestEntityTooLarge, "request body too large")
  | DeadlineExceeded | NetError true => (StatusGatewayTimeout, "upstream timeout")
  | NetError false | Canceled | OtherError => (StatusBadGateway, "upstream unavailable")
  end.

Section Theorems.
Context {L S : Type} `{!LoadBalancer L, !Lens S (proxy_state L), !LensLaws S (proxy_state L)}.
Variable url_Parse : string -> option (string * string).
Variable Inject : Context -> Header -> Header.
Variable now : S -> Z * S.
Variable log : SlogLogger S.
Variable error_text : transport_error -> string.
Variable RoundTrip : OutRequest -> S -> (transport_error + Response) * S.
(** The clock and the log are not part of the proxy's state. *)
Hypothesis now_keeps : forall s, lget (now s).2 = lget s.
Hypothesis log_keeps : forall x s, lget (log x s) = lget s.

Notation serve := (ServeHTTP url_Parse Inject now log error_text RoundTrip).
Notation relay := (proxy_ServeHTTP url_Parse Inject now log error_text RoundTrip).

Lemma lget_put u b s : lget (put_breaker u b s) = mkProxy (lb (lget s)) (<[u := b]> (breakers (lget s))).
Proof using Type*. unfold put_breaker. apply lget_lset. Qed.

(** The request that reaches the upstream [u] for [r]. *)
Definition out_header (u : string) (r : Request) : Header :=
  let c := newTargetContext (ctx r) u in
  finish_header (injectUserHeaders c (Inject c (SetXForwarded r (prepare (header r))))).

Definition out_request (u scheme host : string) (r : Request) : OutRequest :=
  mkOut scheme host
    (mkRequest (Method r) (Path r) (cleanQueryParams (RawQuery r)) (out_header u r) (ContentLength r) (Body r) host (RemoteAddr r)
       (newTargetContext (ctx r) u)).

Lemma Rewrite_target u scheme host r :
  url_Parse u = Some (scheme, host) ->
  let req := WithContext (newTargetContext (ctx r) u) r in
  match Rewrite url_Parse Inject req (outgoing req) with
  | inl _ => False
  | inr o => mkOut (Scheme o) (UrlHost o) (WithHeader (finish_header (header (out o))) (out o)) = out_request u scheme host r
  end.
Proof using Type. intros E. unfold Rewrite, mustParseURL. simpl. rewrite E. done. Qed.

(** The relay, once the target is chosen. *)
Lemma relay_eq u scheme host r {W} (RW : ResponseWriter W) (w : W) s :
  url_Parse u = Some (scheme, host) ->
  let o := out_request u scheme host r in
  relay W RW (WithContext (newTargetContext (ctx r) u) r) w s =
    match RoundTrip o s with
    | (inl e, s) => ErrorHandler now log error_text W RW (out o) e w s
    | (inr res, s) =>
        if StatusCode res =? 101 then
          match ModifyResponse now (out o) res s with
          | inl v => (Panic v, w, s)
          | inr s => ErrorHandler now log error_text W RW (out o) OtherError w s
          end
        else
          let res := mkResp (StatusCode res) (removeHopByHopHeaders (resp_header res)) (chunks res) (broken res) in
          match ModifyResponse now (out o) res s with
          | inl v => (Panic v, w, s)
          | inr s =>
              let w := play (CacheMW.header_ops (resp_header res)) w in
              let w := w_WriteHeader (StatusCode res) w in
              let '(ok, w) := copyResponse (chunks res) (broken res) w in
              (if ok then Return else Panic ErrAbortHandler, w, s)
          end
    end.
Proof using Type.
  intros E o. unfold proxy_ServeHTTP, ReverseProxy.ServeHTTP.
  pose proof (Rewrite_target u scheme host r E) as H. cbv zeta in H.
  destruct (Rewrite _ _ _ _) as [v|o']; [done|]. rewrite H. done.
Qed.

(** The handler, step by step. *)
Lemma serve_next r {W} (RW : ResponseWriter W) (w : W) s u l b :
  lb_Next (lb (lget s)) = (Ok u, l) -> breakers (lget s) !! u = Some b ->
  exists t s1, lget s1 = mkProxy l (<[u := (Breaker.Allow t b).2]> (breakers (lget s))) /\
    t = (now (lset (mkProxy l (breakers (lget s))) s)).1 /\
    serve W RW r w s =
      match (Breaker.Allow t b).1 with
      | Err _ => (Return, play (json_ops StatusServiceUnavailable [("error", "circuit breaker is open"); ("upstream", u)]) w, s1)
      | Ok _ => relay W RW (WithContext (newTargetContext (ctx r) u) r) w s1
      end.
Proof using Type*.
  intros Hn Hb. unfold ServeHTTP. rewrite Hn. unfold mustGetBreaker. rewrite lget_lset. simpl. rewrite Hb.
  set (s0 := lset _ s). pose proof (now_keeps s0) as Hk. destruct (now s0) as [t s'] eqn:Et. simpl in Hk.
  exists t, (put_breaker u (Breaker.Allow t b).2 s'). split_and!; [|done|].
  - rewrite lget_put, Hk. unfold s0. by rewrite lget_lset.
  - destruct (Breaker.Allow t b) as [[[]|e] b']; reflexivity.
Qed.

Lemma ErrorHandler_eq e req u b {W} (RW : ResponseWriter W) (w : W) s :
  ctx_target (ctx req) = Some u -> breakers (lget s) !! u = Some b ->
  exists t s', ErrorHandler now log error_text W RW req e w s =
      (Return, play (json_ops (error_answer e).1 [("error", (error_answer e).2)]) w, s') /\
    lget s' = mkProxy (lb (lget s)) (<[u := verdict t (inl e) b]> (breakers (lget s))).
Proof using Type*.
  intros Ht Hb. pose proof (now_keeps s) as Hk. destruct (now s) as [t s1] eqn:En. simpl in Hk.
  exists t. unfold ErrorHandler, mustGetTargetFromContext, TargetFromContext, mustGetBreaker. rewrite Ht, Hb, En.
  destruct e as [| |[]| |]; eexists; (split; [reflexivity|]); simpl;
    rewrite ?log_keeps, ?lget_put, ?Hk; try done.
  rewrite insert_id by done. by destruct (lget s).
Qed.

Lemma ModifyResponse_eq res req u b s :
  ctx_target (ctx req) = Some u -> breakers (lget s) !! u = Some b ->
  exists t s', ModifyResponse now req res s = inr s' /\
    lget s' = mkProxy (lb (lget s)) (<[u := verdict t (inr res) b]> (breakers (lget s))).
Proof using Type*.
  intros Ht Hb. pose proof (now_keeps s) as Hk. destruct (now s) as [t s1] eqn:En. simpl in Hk.
  exists t. unfold ModifyResponse, mustGetTargetFromContext, TargetFromContext, mustGetBreaker. rewrite Ht, Hb, En.
  simpl. destruct (500 <=? StatusCode res); eexists; (split; [reflexivity|]); by rewrite lget_put, ?Hk.
Qed.

(** An admitted request: the balancer chose [u], its breaker [b] let it through
    as [b1], and the round trip ends with [result] without other requests of the
    service interfering. *)
Record admitted (r : Request) (s : S) (u : string) (b1 : Breaker.Breaker) (l : L) (result : transport_error + Response) : Prop := {
  adm_next : lb_Next (lb (lget s)) = (Ok u, l);
  adm_breaker : exists b, breakers (lget s) !! u = Some b /\
    Breaker.Allow (now (lset (mkProxy l (breakers (lget s))) s)).1 b = (Ok tt, b1);
  adm_trip : exists scheme host, url_Parse u = Some (scheme, host) /\
    forall s1, exists s2, RoundTrip (out_request u scheme host r) s1 = (result, s2) /\ lget s2 = lget s1;
}.

(** C12. A request whose round trip fails is answered by the gateway: 413 when
    the body exceeded its limit, 504 on a timeout, 502 otherwise, as JSON. Every
    failure except an oversized body counts against the upstream that was tried,
    exactly once, and no other breaker changes. *)
Theorem proxy_answers_errors (r : Request) (s : S) (u : string) (b1 : Breaker.Breaker) (l : L) (e : transport_error)
    {W} (RW : ResponseWriter W) (w : W) (Hadm : admitted r s u b1 l (inl e)) :
  exists t s', serve W RW r w s =
      (Return, play (json_ops (error_answer e).1 [("error", (error_answer e).2)]) w, s') /\
    lget s' = mkProxy l (<[u := verdict t (inl e) b1]> (breakers (lget s))).
Proof using Type*.
  destruct Hadm as [Hn (b & Hb & Ha) (scheme & host & Hu & Hr)].
  destruct (serve_next r RW w s u l b Hn Hb) as (t & s1 & Hs1 & Et & ->).
  rewrite <- Et in Ha. rewrite Ha in *. simpl in *.
  rewrite (relay_eq u scheme host) by done. destruct (Hr s1) as (s2 & -> & Hs2).
  destruct (ErrorHandler_eq e (out (out_request u scheme host r)) u b1 RW w s2) as (t2 & s' & -> & Hs');
    [done|rewrite Hs2, Hs1; apply lookup_insert_eq|].
  exists t2, s'. split; [done|]. rewrite Hs', Hs2, Hs1. simpl. by rewrite insert_insert_eq.
Qed.

Lemma copyResponse_whole parts (w : response) :
  CompressMW.room (CompressMW.len (concat_strings parts)) w ->
  exists w', copyResponse parts false w = (true, w') /\ sent w' = sent w /\ sent_body w' = sent_body w +:+ concat_strings parts.
Proof using Type.
  revert w. induction parts as [|b parts IH]; intros w Hr; simpl; [exists w; by rewrite append_nil_r|].
  change (concat_strings (b :: parts)) with (b +:+ concat_strings parts) in *. rewrite CompressMW.len_append in Hr.
  destruct (CompressMW.response_Write_room b w _ (CompressMW.len_nonneg _) Hr) as (w1 & -> & Hr1 & Hs1 & _ & Hb1).
  unfold CompressMW.len. rewrite Z.eqb_refl. destruct (IH w1 Hr1) as (w' & -> & Hs' & Hb').
  exists w'. split_and!; [done|congruence|]. by rewrite Hb', Hb1, append_assoc.
Qed.

(** C13. A response of the upstream is relayed: the client receives its status,
    its body byte for byte and its headers without the hop-by-hop ones, and the
    breaker of that upstream records success below 500 and failure from 500 on. *)
Theorem proxy_relays_response (r : Request) (s : S) (u : string) (b1 : Breaker.Breaker) (l : L) (res : Response) (h0 : Header)
    (Hadm : admitted r s u b1 l (inr res)) (Hwhole : broken res = false)
    (Hst : 200 <= StatusCode res /\ body_allowed (StatusCode res) = true)
    (Hcanon : canonical (removeHopByHopHeaders (resp_header res)))
    (Hlen : match declared_length (hplay (CacheMW.header_ops (removeHopByHopHeaders (resp_header res))) h0) with
            | Some n => CompressMW.len (concat_strings (chunks res)) <= n | None => True end) :
  exists t s' w', serve response _ r (w_set_header h0 new_response) s = (Return, w', s') /\
    client_status w' = StatusCode res /\ sent_body w' = concat_strings (chunks res) /\
    (forall k, Values (client_header w') k = Values h0 k ++ Values (removeHopByHopHeaders (resp_header res)) k) /\
    lget s' = mkProxy l (<[u := verdict t (inr res) b1]> (breakers (lget s))).
Proof using Type*.
  destruct Hadm as [Hn (b & Hb & Ha) (scheme & host & Hu & Hr)].
  destruct (serve_next r response_Writer (w_set_header h0 new_response) s u l b Hn Hb) as (t & s1 & Hs1 & Et & ->).
  rewrite <- Et in Ha. rewrite Ha in *. simpl in Hs1.
  rewrite (relay_eq u scheme host) by done. destruct (Hr s1) as (s2 & -> & Hs2).
  assert ((StatusCode res =? 101) = false) as -> by (apply Z.eqb_neq; lia).
  cbn [resp_header StatusCode chunks broken]. set (h1 := removeHopByHopHeaders (resp_header res)) in *.
  set (res' := mkResp _ _ _ _).
  destruct (ModifyResponse_eq res' (out (out_request u scheme host r)) u b1 s2) as (t2 & s' & -> & Hs');
    [done|rewrite Hs2, Hs1; apply lookup_insert_eq|].
  rewrite (play_hplay (CacheMW.header_ops h1)) by apply CacheMW.header_ops_are.
  set (w1 := w_set_header _ _).
  assert (w_WriteHeader (StatusCode res) w1 = response_WriteHeader (StatusCode res) w1) as -> by done.
  rewrite (CompressMW.response_WriteHeader_fresh (StatusCode res) w1 eq_refl (proj2 Hst)), Hwhole.
  match goal with |- context [copyResponse _ false ?w] => destruct (copyResponse_whole (chunks res) w) as (w' & -> & Hw1 & Hw2) end.
  { split; [exact (proj2 Hst)|]. cbn [declared written].
    change (hdr w1) with (hplay (CacheMW.header_ops h1) h0). change (written w1) with 0.
    destruct (declared_length _); [lia|done]. }
  exists t2, s', w'. split_and!; [done| | | |].
  - unfold client_status. by rewrite Hw1.
  - rewrite Hw2. reflexivity.
  - intros k. unfold client_header. rewrite Hw1. cbn [sent]. by apply (CacheMW.Values_header_ops h1 h0).
  - rewrite Hs', Hs2, Hs1. simpl. by rewrite insert_insert_eq.
Qed.

(** *** The breaker and requests that say nothing about the upstream *)

(** An oversized request as half-open probe disables the upstream for good.
    When the probe that an open breaker admits ends in a 413, nothing is
    recorded and the breaker stays half-open; from then on every request that
    the balancer sends to this upstream is rejected with 503, however much time
    passes, and leaves the breaker as it is. *)
Theorem oversized_probe_sticks (r : Request) (s : S) (u : string) (b b1 : Breaker.Breaker) (l : L)
    {W} (RW : ResponseWriter W) (w : W)
    (Hb : breakers (lget s) !! u = Some b) (Hopen : Breaker.st b = Breaker.stateOpen)
    (Hadm : admitted r s u b1 l (inl MaxBytesError)) :
  exists s', serve W RW r w s = (Return, play (json_ops 413 [("error", "request body too large")]) w, s') /\
    breakers (lget s') !! u = Some b1 /\ Breaker.st b1 = Breaker.stateHalfOpen /\
    forall (r2 : Request) (s2 : S) (l2 : L) W2 (RW2 : ResponseWriter W2) (w2 : W2),
      breakers (lget s2) !! u = Some b1 -> lb_Next (lb (lget s2)) = (Ok u, l2) ->
      exists s3, serve W2 RW2 r2 w2 s2 =
          (Return, play (json_ops 503 [("error", "circuit breaker is open"); ("upstream", u)]) w2, s3) /\
        breakers (lget s3) !! u = Some b1.
Proof using Type*.
  destruct Hadm as [Hn (b' & Hb' & Ha) (scheme & host & Hu & Hr)]. rewrite Hb in Hb'. injection Hb' as <-.
  assert (Breaker.st b1 = Breaker.stateHalfOpen) as Hhalf.
  { unfold Breaker.Allow in Ha. rewrite Hopen in Ha. case_match; simplify_eq/=; done. }
  destruct (serve_next r RW w s u l b Hn Hb) as (t & s1 & Hs1 & Et & ->).
  rewrite <- Et in Ha. rewrite Ha in *. simpl in *.
  rewrite (relay_eq u scheme host) by done. destruct (Hr s1) as (s2 & -> & Hs2).
  exists s2. split; [done|]. split; [rewrite Hs2, Hs1; apply lookup_insert_eq|]. split; [done|].
  intros r2 s3 l2 W2 RW2 w2 Hb2 Hn2.
  destruct (serve_next r2 RW2 w2 s3 u l2 b1 Hn2 Hb2) as (t3 & s4 & Hs4 & _ & ->).
  assert (Breaker.Allow t3 b1 = (Err Breaker.ErrOpen, b1)) as Ea by (unfold Breaker.Allow; by rewrite Hhalf).
  rewrite Ea in *. simpl in *. exists s4. split; [done|]. rewrite Hs4. apply lookup_insert_eq.
Qed.

(** A client that hangs up counts against the upstream. A round trip that
    ends because the client's request was cancelled is recorded as a failure: if
    the closed breaker was one failure short of its limit, it opens. *)
Theorem cancelled_request_opens_breaker (r : Request) (s : S) (u : string) (b : Breaker.Breaker) (l : L)
    {W} (RW : ResponseWriter W) (w : W)
    (Hb : breakers (lget s) !! u = Some b) (Hclosed : Breaker.st b = Breaker.stateClosed)
    (Hadm : admitted r s u b l (inl Canceled))
    (Hlast : Breaker.maxFailures b = Breaker.failures b + 1) (Hrange : 0 <= Breaker.failures b < MaxInt) :
  exists s' b', serve W RW r w s = (Return, play (json_ops 502 [("error", "upstream unavailable")]) w, s') /\
    breakers (lget s') !! u = Some b' /\ Breaker.st b' = Breaker.stateOpen.
Proof using Type*.
  destruct Hadm as [Hn (b' & Hb' & Ha) (scheme & host & Hu & Hr)]. rewrite Hb in Hb'. injection Hb' as <-.
  destruct (serve_next r RW w s u l b Hn Hb) as (t & s1 & Hs1 & Et & ->).
  rewrite <- Et in Ha. rewrite Ha in *. simpl in *.
  rewrite (relay_eq u scheme host) by done. destruct (Hr s1) as (s2 & -> & Hs2).
  destruct (ErrorHandler_eq Canceled (out (out_request u scheme host r)) u b RW w s2) as (t2 & s' & -> & Hs');
    [done|rewrite Hs2, Hs1; apply lookup_insert_eq|].
  exists s', (Breaker.RecordFailure t2 b). split; [done|]. split; [rewrite Hs'; apply lookup_insert_eq|].
  unfold Breaker.RecordFailure. rewrite int64_id by (unfold in_int64, MinInt, MaxInt, two63 in *; lia).
  rewrite (proj2 (Z.leb_le _ _)) by lia. by rewrite orb_true_r.
Qed.

(** *** No internal failure *)

Context (upstreams : L -> list string) `{!LoadBalancerLaws L upstreams}.

(** Every upstream of the balancer has a breaker and a valid URL: what
    [NewHandler] asks for. *)
Definition covered (s : S) : Prop :=
  forall u, u ∈ upstreams (lb (lget s)) -> is_Some (breakers (lget s) !! u) /\ is_Some (url_Parse u).

(** A step that keeps the upstreams and forgets no breaker. *)
Definition keeps (s s' : S) : Prop :=
  upstreams (lb (lget s')) = upstreams (lb (lget s)) /\
  forall u, is_Some (breakers (lget s) !! u) -> is_Some (breakers (lget s') !! u).

#[local] Instance keeps_preorder : PreOrder keeps.
Proof using Type.
  split; [by intros s|]. intros s1 s2 s3 [H1 H2] [H3 H4]. split; [congruence|]. intros u Hu. auto.
Qed.

Lemma keeps_covered s s' : keeps s s' -> covered s -> covered s'.
Proof using Type. intros [H1 H2] Hc u Hu. rewrite H1 in Hu. destruct (Hc u Hu). auto. Qed.

Lemma keeps_lget s s' : lget s' = (lget s : proxy_state L) -> keeps s s'.
Proof using Type. intros E. split; by rewrite E. Qed.

Lemma keeps_update s s' l u b :
  lget s' = mkProxy l (<[u := b]> (breakers (lget s))) -> upstreams l = upstreams (lb (lget s)) -> keeps s s'.
Proof using Type.
  intros E El. split; rewrite E; [done|]. intros u' Hu. simpl. by apply lookup_insert_is_Some'; right.
Qed.

Lemma keeps_now s : keeps s (now s).2.
Proof using now_keeps. apply keeps_lget, now_keeps. Qed.

(** Other requests of the service may run during the round trip; they keep the
    breakers, as this theorem says of every request. *)
Variable trip_keeps : forall o s, keeps s (RoundTrip o s).2.

Lemma ErrorHandler_keeps e req u {W} (RW : ResponseWriter W) (w : W) s :
  ctx_target (ctx req) = Some u -> is_Some (breakers (lget s) !! u) ->
  let '(o, _, s') := ErrorHandler now log error_text W RW req e w s in o = Return /\ keeps s s'.
Proof using Type*.
  intros Ht [b Hb]. destruct (ErrorHandler_eq e req u b RW w s Ht Hb) as (t & s' & -> & Hs').
  split; [done|]. by eapply keeps_update.
Qed.

Lemma ModifyResponse_keeps res req u s :
  ctx_target (ctx req) = Some u -> is_Some (breakers (lget s) !! u) ->
  exists s', ModifyResponse now req res s = inr s' /\ keeps s s'.
Proof using Type*.
  intros Ht [b Hb]. destruct (ModifyResponse_eq res req u b s Ht Hb) as (t & s' & -> & Hs').
  exists s'. split; [done|]. by eapply keeps_update.
Qed.

Definition no_internal_panic (o : outcome) : Prop := o = Return \/ o = Panic ErrAbortHandler.

Lemma relay_keeps r u {W} (RW : ResponseWriter W) (w : W) s :
  is_Some (url_Parse u) -> is_Some (breakers (lget s) !! u) ->
  let '(o, _, s') := relay W RW (WithContext (newTargetContext (ctx r) u) r) w s in no_internal_panic o /\ keeps s s'.
Proof using All.
  intros [[scheme host] Hu] Hb. rewrite (relay_eq u scheme host) by done.
  set (o := out_request u scheme host r). pose proof (trip_keeps o s) as Hk.
  destruct (RoundTrip o s) as [[e|res] s1]; simpl in Hk.
  - pose proof (ErrorHandler_keeps e (out o) u RW w s1 eq_refl (proj2 Hk u Hb)) as H.
    destruct (ErrorHandler _ _ _ _ _ _ _ _ _) as [[o' w'] s']. destruct H as [-> H].
    split; [by left|]. by transitivity s1.
  - destruct (StatusCode res =? 101).
    + destruct (ModifyResponse_keeps res (out o) u s1 eq_refl (proj2 Hk u Hb)) as (s2 & -> & Hk2).
      pose proof (ErrorHandler_keeps OtherError (out o) u RW w s2 eq_refl (proj2 Hk2 u (proj2 Hk u Hb))) as H.
      destruct (ErrorHandler _ _ _ _ _ _ _ _ _) as [[o' w'] s']. destruct H as [-> H].
      split; [by left|]. transitivity s1; [done|]. by transitivity s2.
    + cbv zeta. match goal with |- context [ModifyResponse now (out o) ?x s1] =>
        destruct (ModifyResponse_keeps x (out o) u s1 eq_refl (proj2 Hk u Hb)) as (s2 & -> & Hk2) end.
      destruct (copyResponse _ _ _) as [ok w']. split; [|by transitivity s1].
      destruct ok; [by left|by right].
Qed.

(** C39. If every upstream has a breaker and a parseable URL, the handler's own
    consistency panics (missing breaker, missing target, bad URL) never occur:
    each request returns, or aborts because a response broke off, and the
    condition continues to hold for the next request. *)
Theorem proxy_no_internal_panic (r : Request) (s : S) {W} (RW : ResponseWriter W) (w : W) (Hcov : covered s) :
  let '(o, _, s') := serve W RW r w s in (o = Return \/ o = Panic ErrAbortHandler) /\ covered s'.
Proof using All.
  destruct (lb_Next (lb (lget s))) as [[u|e] l] eqn:Hn.
  - destruct (Hcov u (lb_member _ _ _ Hn)) as [[b Hb] Hp].
    destruct (serve_next r RW w s u l b Hn Hb) as (t & s1 & Hs1 & _ & ->).
    assert (keeps s s1) as Hk1.
    { eapply keeps_update; [done|]. rewrite <- (lb_stable (lb (lget s))). by rewrite Hn. }
    destruct (Breaker.Allow t b).1; [|split; [by left|by apply (keeps_covered s)]].
    pose proof (relay_keeps r u RW w s1 Hp) as H. destruct (relay _ _ _ _ _) as [[o w'] s'].
    destruct H as [Ho Hk]; [rewrite Hs1; simpl; rewrite lookup_insert_eq; eauto|].
    split; [done|]. by apply (keeps_covered s1), (keeps_covered s).
  - unfold ServeHTTP. rewrite Hn. split; [by left|]. apply (keeps_covered s); [|done].
    split; rewrite lget_lset; simpl; [|done]. rewrite <- (lb_stable (lb (lget s))). by rewrite Hn.
Qed.
End Theorems.

(** *** Identity of the client *)


(** ** Example: one upstream *)

Module Sample.

#[export] Existing Instance Health.checker_HealthChecker.

Definition upstream : string := "http://a:1".

Definition balancer : RoundRobin.RoundRobin * Health.Checker :=
  (RoundRobin.NewRoundRobin [upstream],
   Health.checkAll [(upstream, Health.Responded 200)] (Health.NewChecker [upstream] Second "/healthz")).

(** The proxy's state and the time. *)
Definition state : Type := proxy_state (RoundRobin.RoundRobin * Health.Checker) * Z.

#[export] Instance state_lens : Lens state (proxy_state (RoundRobin.RoundRobin * Health.Checker)) := lens_fst.
#[export] Instance state_laws : LensLaws state (proxy_state (RoundRobin.RoundRobin * Health.Checker)) := lens_fst_laws.

Definition with_breaker (b : Breaker.Breaker) (t : Z) : state := (mkProxy balancer {[upstream := b]}, t).

Definition parse (u : string) : option (string * string) := if decide (u = upstream) then Some ("http", "a:1") else None.
Definition inject (c : Context) (h : Header) : Header := h.
Definition clock (s : state) : Z * state := (s.2, s).
Definition nolog : SlogLogger state := fun _ s => s.
Definition etext (e : transport_error) : string := EmptyString.
Definition trip (result : transport_error + Response) (o : OutRequest) (s : state) : (transport_error + Response) * state :=
  (result, s).

Definition ups (l : RoundRobin.RoundRobin * Health.Checker) : list string := RoundRobin.urls l.1.

Definition request : Request :=
  mkRequest "POST" "/orders" EmptyString (Set_ "X-User" "admin" (Set_ "Connection" "X-User" ∅)) 3 (mkBody "abc" None) "gw"
    "10.0.0.1:4711" (mkContext None (Some (mkClaims "alice" ["user"; "ops"])) None None).

Definition after : RoundRobin.RoundRobin * Health.Checker := (lb_Next balancer).2.

Lemma admitted_sample b t b1 result :
  Breaker.Allow t b = (Ok tt, b1) ->
  admitted parse inject clock (trip result) request (with_breaker b t) upstream b1 after result.
Proof.
  intros Ha. constructor.
  - vm_compute. reflexivity.
  - exists b. split; [apply lookup_singleton_eq|exact Ha].
  - exists "http", "a:1". split; [reflexivity|]. intros s1. exists s1. split; reflexivity.
Qed.

End Sample.

Import Sample.

Lemma proxy_answers_errors_witness :
  exists t s', ServeHTTP parse inject clock nolog etext (trip (inl DeadlineExceeded)) response _ request new_response
      (with_breaker (Breaker.NewBreaker 3 Second) 5) =
    (Return, play (json_ops 504 [("error", "upstream timeout")]) new_response, s') /\
    breakers (lget s') !! upstream = Some (Breaker.RecordFailure t (Breaker.NewBreaker 3 Second)).
Proof.
  destruct (proxy_answers_errors parse inject clock nolog etext (trip (inl DeadlineExceeded)) (fun s => eq_refl)
    (fun x s => eq_refl) request (with_breaker (Breaker.NewBreaker 3 Second) 5) upstream (Breaker.NewBreaker 3 Second) after
    DeadlineExceeded response_Writer new_response (admitted_sample (Breaker.NewBreaker 3 Second) 5 (Breaker.NewBreaker 3 Second) _ eq_refl)) as (t & s' & H1 & H2).
  exists t, s'. split; [exact H1|]. rewrite H2. apply lookup_insert_eq.
Defined.

Definition sample_response : Response := mkResp 200 (Set_ "Keep-Alive" "5" (Set_ "Content-Type" "text/plain" ∅)) ["he"; "llo"] false.

Lemma proxy_relays_response_witness :
  exists s' w', ServeHTTP parse inject clock nolog etext (trip (inr sample_response)) response _ request (w_set_header ∅ new_response)
      (with_breaker (Breaker.NewBreaker 3 Second) 5) = (Return, w', s') /\
    client_status w' = 200 /\ sent_body w' = "hello" /\ Values (client_header w') "Content-Type" = ["text/plain"] /\
    Values (client_header w') "Keep-Alive" = [].
Proof.
  assert (canonical (removeHopByHopHeaders (resp_header sample_response))) as Hc.
  { apply (bool_decide_unpack _). vm_compute. exact I. }
  destruct (proxy_relays_response parse inject clock nolog etext (trip (inr sample_response)) (fun s => eq_refl)
    (fun x s => eq_refl) request (with_breaker (Breaker.NewBreaker 3 Second) 5) upstream (Breaker.NewBreaker 3 Second) after
    sample_response ∅ (admitted_sample (Breaker.NewBreaker 3 Second) 5 (Breaker.NewBreaker 3 Second) _ eq_refl) eq_refl) as (t & s' & w' & H1 & H2 & H3 & H4 & H5).
  - split; [vm_compute; discriminate|reflexivity].
  - exact Hc.
  - vm_compute. exact I.
  - exists s', w'. split; [exact H1|]. split; [exact H2|]. split; [exact H3|].
    split; rewrite H4; vm_compute; reflexivity.
Defined.

Lemma proxy_no_internal_panic_witness :
  exists o w' s', ServeHTTP parse inject clock nolog etext (trip (inl OtherError)) response _ request new_response
      (with_breaker (Breaker.NewBreaker 3 Second) 5) = (o, w', s') /\ covered parse ups s'.
Proof.
  assert (covered parse ups (with_breaker (Breaker.NewBreaker 3 Second) 5)) as Hc.
  { intros u Hu. apply list_elem_of_singleton in Hu as ->. split; eexists; reflexivity. }
  pose proof (proxy_no_internal_panic parse inject clock nolog etext (trip (inl OtherError)) (fun s => eq_refl)
    (fun x s => eq_refl) ups (fun o s => conj eq_refl (fun u H => H)) request (with_breaker (Breaker.NewBreaker 3 Second) 5) response_Writer new_response Hc) as H.
  destruct (ServeHTTP _ _ _ _ _ _ _ _ _ _ _) as [[o w'] s']. exists o, w', s'. split; [reflexivity|exact (proj2 H)].
Defined.

(** A breaker that opened at time 0 for a second. *)
Definition opened : Breaker.Breaker := Breaker.mkBreaker Breaker.stateOpen 3 3 Second 0.

Definition probing : Breaker.Breaker := Breaker.mkBreaker Breaker.stateHalfOpen 3 3 Second 0.

Lemma oversized_probe_sticks_witness :
  exists s', ServeHTTP parse inject clock nolog etext (trip (inl MaxBytesError)) response _ request new_response
      (with_breaker opened (2 * Second)) =
    (Return, play (json_ops 413 [("error", "request body too large")]) new_response, s') /\
  exists b1, breakers (lget s') !! upstream = Some b1 /\ Breaker.st b1 = Breaker.stateHalfOpen.
Proof.
  assert (breakers (lget (with_breaker opened (2 * Second))) !! upstream = Some opened) as Hb by apply lookup_singleton_eq.
  destruct (oversized_probe_sticks parse inject clock nolog etext (trip (inl MaxBytesError)) (fun s => eq_refl)
    (fun x s => eq_refl) request (with_breaker opened (2 * Second)) upstream opened probing after response_Writer new_response
    Hb eq_refl (admitted_sample opened (2 * Second) probing _ eq_refl)) as (s' & H1 & H2 & H3 & _).
  exists s'. split; [exact H1|]. eexists. split; [exact H2|exact H3].
Defined.

Lemma cancelled_request_opens_breaker_witness :
  exists s' b', ServeHTTP parse inject clock nolog etext (trip (inl Canceled)) response _ request new_response
      (with_breaker (Breaker.NewBreaker 1 Second) 5) =
    (Return, play (json_ops 502 [("error", "upstream unavailable")]) new_response, s') /\
    breakers (lget s') !! upstream = Some b' /\ Breaker.st b' = Breaker.stateOpen.
Proof.
  assert (breakers (lget (with_breaker (Breaker.NewBreaker 1 Second) 5)) !! upstream = Some (Breaker.NewBreaker 1 Second))
    as Hb by apply lookup_singleton_eq.
  assert (0 <= Breaker.failures (Breaker.NewBreaker 1 Second) < MaxInt) as Hr by (split; [discriminate|reflexivity]).
  exact (cancelled_request_opens_breaker parse inject clock nolog etext (trip (inl Canceled)) (fun s => eq_refl)
    (fun x s => eq_refl) request (with_breaker (Breaker.NewBreaker 1 Second) 5) upstream (Breaker.NewBreaker 1 Second) after
    response_Writer new_response Hb eq_refl (admitted_sample (Breaker.NewBreaker 1 Second) 5 (Breaker.NewBreaker 1 Second) _ eq_refl) eq_refl Hr).
Defined.


(** On a route without authentication the header of the client goes through. *)
Example anonymous_identity_is_forwarded :
  let r := WithContext (newTargetContext Background upstream)
             (WithHeader (Set_ "X-User" "admin" ∅) request) in
  match Rewrite parse inject r (outgoing r) with
  | inr o => Values (header (out o)) "X-User" = ["admin"]
  | inl _ => False
  end.
Proof. vm_compute. reflexivity. Qed.

End Proxy.
