(* ===== verification/Routing.v ===== *)
(** * Which upstream a request is sent to

    The balancer, the health checker, the breakers and the proxy handler of one
    service in operation: probes report on upstreams, requests arrive one after
    the other and are answered. [Module Routing] runs the components of
    [Balancer], [Breaker] and [Proxy] on such a history and relates the round
    trips to what the history says of each upstream: its last probe and the
    outcomes of its requests. *)

From S2P Require Import Prelude Http Breaker Balancer CacheMW Proxy.
Import Http ReverseProxy.

Module Routing.

(** ** A service in operation *)

(** A round trip: the upstream, when, and how it ended. *)
Record contact := mkContact { c_url : string; c_time : Z; c_res : transport_error + Response }.

(** Around the proxy: the clock, the answer the network gives to the next round
    trip, and the round trips so far. *)
Record world := mkWorld { clk : Z; reply : transport_error + Response; contacts : list contact }.

Notation balancer := (RoundRobin.RoundRobin * Health.Checker)%type.
Notation state := (Proxy.proxy_state balancer * world)%type.

#[export] Instance state_lens : Lens state (Proxy.proxy_state balancer) := lens_fst.
#[export] Existing Instance Health.checker_HealthChecker.

Definition now (s : state) : Z * state := (clk s.2, s).
Definition log : SlogLogger state := fun _ s => s.

(** The transport notes where the request goes. *)
Definition trip (o : OutRequest) (s : state) : (transport_error + Response) * state :=
  (reply s.2, (s.1, mkWorld (clk s.2) (reply s.2)
                      (contacts s.2 ++ match ctx_target (ctx (out o)) with Some u => [mkContact u (clk s.2) (reply s.2)] | None => [] end))).

(** A probe goroutine stores its verdict, or a request arrives at time [t] and
    its round trip, if there is one, ends with [res]. *)
Inductive event :=
| EvProbe (u : string) (p : Health.probe)
| EvRequest (t : Z) (r : Request) (res : transport_error + Response).

Section Run.
Variable url_Parse : string -> option (string * string).
Variable Inject : Context -> Header -> Header.
Variable error_text : transport_error -> string.

Definition serve : Handler state := Proxy.ServeHTTP (L := balancer) url_Parse Inject now log error_text trip.

Definition step (s : state) (ev : event) : state :=
  match ev with
  | EvProbe u p =>
      let '(rr, c) := Proxy.lb s.1 in
      (Proxy.mkProxy (rr, Health.check u p c) (Proxy.breakers s.1), s.2)
  | EvRequest t r res =>
      (serve response _ r new_response (s.1, mkWorld t res (contacts s.2))).2
  end.

Definition run (evs : list event) (s : state) : state := foldl step s evs.

(** The service as [buildServiceHandler] makes it. *)
Definition start (urls : list string) (interval : Z) (path : string) (maxF timeout : Z) : state :=
  (Proxy.mkProxy (RoundRobin.NewRoundRobin urls, Health.NewChecker urls interval path)
     (list_to_map (map (fun u => (u, Breaker.NewBreaker maxF timeout)) urls)),
   mkWorld 0 (inl OtherError) []).

(** ** What the history says of an upstream *)

(** The result of the last probe of [u]. *)
Definition last_probe (u : string) (evs : list event) : option Health.probe :=
  foldl (fun acc ev => match ev with
                       | EvProbe v p => if decide (v = u) then Some p else acc
                       | EvRequest _ _ _ => acc
                       end) None evs.

(** What a round trip shows of the upstream. An oversized body shows nothing; an
    answer that switches protocols is a success for [ModifyResponse], and then a
    failure since the writer cannot be hijacked. *)
Definition outcomes (res : transport_error + Response) : list BreakerTheorems.outcome :=
  match res with
  | inl MaxBytesError => []
  | inl _ => [BreakerTheorems.Failure]
  | inr res =>
      if StatusCode res =? 101 then [BreakerTheorems.Success; BreakerTheorems.Failure]
      else if 500 <=? StatusCode res then [BreakerTheorems.Failure] else [BreakerTheorems.Success]
  end.

(** The outcomes of the round trips to [u], with their times. *)
Definition ledger (u : string) (s : state) : list (Z * BreakerTheorems.outcome) :=
  contacts s.2 ≫= fun c => if decide (c_url c = u) then map (pair (c_time c)) (outcomes (c_res c)) else [].

(** The failures at the end of a ledger, and when the last one was. *)
Definition failures_of (l : list (Z * BreakerTheorems.outcome)) : Z := BreakerTheorems.trailing 0 (map snd l).

Definition last_time (l : list (Z * BreakerTheorems.outcome)) : Z :=
  match last l with Some (t, _) => t | None => 0 end.

(** ** One request *)

(** The relay, once the breaker has admitted the request. *)
Lemma relay_step u r (w : response) P wd b scheme host :
  url_Parse u = Some (scheme, host) -> Proxy.breakers P !! u = Some b ->
  (Proxy.proxy_ServeHTTP (L := balancer) url_Parse Inject now log error_text trip response _
     (WithContext (Proxy.newTargetContext (ctx r) u) r) w (P, wd)).2 =
  (Proxy.mkProxy (Proxy.lb P) (<[u := BreakerTheorems.records (clk wd) (outcomes (reply wd)) b]> (Proxy.breakers P)),
   mkWorld (clk wd) (reply wd) (contacts wd ++ [mkContact u (clk wd) (reply wd)])).
Proof using Type.
  intros Eu Hb. rewrite (Proxy.relay_eq (L := balancer) url_Parse Inject now log error_text trip u scheme host) by done.
  unfold trip. cbn [fst snd]. change (ctx_target (ctx (out (Proxy.out_request Inject u scheme host r)))) with (Some u).
  cbn [app]. set (wd' := mkWorld _ _ _).
  assert (forall P b (w : response) e, Proxy.breakers P !! u = Some b ->
    (Proxy.ErrorHandler (L := balancer) now log error_text response _ (out (Proxy.out_request Inject u scheme host r)) e w (P, wd')).2 =
    (Proxy.mkProxy (Proxy.lb P) (<[u := BreakerTheorems.records (clk wd) (outcomes (inl e)) b]> (Proxy.breakers P)), wd')) as Herr.
  { intros P0 b0 w0 e H0. unfold Proxy.ErrorHandler.
    change (Proxy.mustGetTargetFromContext (ctx (out (Proxy.out_request Inject u scheme host r)))) with (@inr panic string u).
    unfold Proxy.mustGetBreaker. cbn [lget state_lens lens_fst fst]. rewrite H0.
    destruct e as [| |[]| |]; cbn; try done. rewrite insert_id by done. by destruct P0. }
  assert (forall res, Proxy.ModifyResponse (L := balancer) now (out (Proxy.out_request Inject u scheme host r)) res (P, wd') =
    inr (Proxy.mkProxy (Proxy.lb P)
           (<[u := if 500 <=? StatusCode res then Breaker.RecordFailure (clk wd) b else Breaker.RecordSuccess b]> (Proxy.breakers P)), wd')) as Hmod.
  { intros res. unfold Proxy.ModifyResponse.
    change (Proxy.mustGetTargetFromContext (ctx (out (Proxy.out_request Inject u scheme host r)))) with (@inr panic string u).
    unfold Proxy.mustGetBreaker. cbn [lget state_lens lens_fst fst]. rewrite Hb. by destruct (500 <=? StatusCode res). }
  destruct (reply wd) as [e|res]; [by apply Herr|]. unfold outcomes.
  destruct (StatusCode res =? 101) eqn:E101.
  - rewrite Hmod. apply Z.eqb_eq in E101. rewrite E101.
    rewrite (Herr _ (Breaker.RecordSuccess b)) by (cbn; by rewrite lookup_insert_eq).
    cbn. by rewrite insert_insert_eq.
  - rewrite Hmod. cbn [StatusCode]. destruct (copyResponse _ _ _) as [ok w'].
    by destruct (500 <=? StatusCode res).
Qed.

(** How a request can go, with the breakers and round trips it leaves. *)
Inductive served (s : state) (t : Z) (res : transport_error + Response) (s' : state) : Prop :=
| NoHealthy l :
    lb_Next (Proxy.lb s.1) = (Err RoundRobin.ErrNoHealthyUpstreams, l) ->
    s' = (Proxy.mkProxy l (Proxy.breakers s.1), mkWorld t res (contacts s.2)) -> served s t res s'
| Refused u l b :
    lb_Next (Proxy.lb s.1) = (Ok u, l) -> Proxy.breakers s.1 !! u = Some b ->
    Breaker.Allow t b = (Err Breaker.ErrOpen, b) ->
    s' = (Proxy.mkProxy l (Proxy.breakers s.1), mkWorld t res (contacts s.2)) -> served s t res s'
| Sent u l b b1 :
    lb_Next (Proxy.lb s.1) = (Ok u, l) -> Proxy.breakers s.1 !! u = Some b ->
    Breaker.Allow t b = (Ok tt, b1) ->
    s' = (Proxy.mkProxy l (<[u := BreakerTheorems.records t (outcomes res) b1]> (Proxy.breakers s.1)),
          mkWorld t res (contacts s.2 ++ [mkContact u t res])) -> served s t res s'.

Lemma next_error (l l' : balancer) e : lb_Next l = (Err e, l') -> RoundRobin.urls l.1 ≠ [] -> e = RoundRobin.ErrNoHealthyUpstreams.
Proof using Type.
  destruct l as [rr c]. simpl. unfold RoundRobin.Next. intros H Hne.
  assert (forall n rr0, RoundRobin.urls rr0 = RoundRobin.urls rr ->
    match (RoundRobin.next_loop c n rr0).1 with Err e => e = RoundRobin.ErrNoHealthyUpstreams | Ok u => IsHealthy c u = true end) as Hloop.
  { induction n as [|n IH]; intros rr0 E; [done|]. simpl. rewrite E.
    match goal with |- context [RoundRobin.urls rr !! ?k] => destruct (RoundRobin.urls rr !! k) as [u|] eqn:Eu end.
    - destruct (Health.isHealthy c u) eqn:Eh; [done|]. by apply IH.
    - apply lookup_ge_None in Eu. exfalso. assert (0 < Z.of_nat (length (RoundRobin.urls rr))) by (destruct (RoundRobin.urls rr); [done|simpl; lia]).
      match type of Eu with context [Z.to_nat (?x mod ?y)] => pose proof (Z.mod_pos_bound x y ltac:(lia)) end. lia. }
  specialize (Hloop (length (RoundRobin.urls rr)) rr eq_refl).
  destruct (RoundRobin.next_loop _ _ _) as [[u|e'] rr']; simplify_eq/=. done.
Qed.

Lemma request_served s t r res :
  RoundRobin.urls (Proxy.lb s.1).1 ≠ [] ->
  (forall u, u ∈ RoundRobin.urls (Proxy.lb s.1).1 -> is_Some (Proxy.breakers s.1 !! u) /\ is_Some (url_Parse u)) ->
  served s t res (step s (EvRequest t r res)).
Proof using Type.
  intros Hne Hall. unfold step, serve, Proxy.ServeHTTP. cbn [lget lset state_lens lens_fst fst snd].
  destruct (lb_Next (Proxy.lb s.1)) as [[u|e] l] eqn:En.
  2:{ pose proof (next_error _ _ _ En Hne) as ->. by eapply NoHealthy. }
  assert (u ∈ RoundRobin.urls (Proxy.lb s.1).1) as Hu by (by eapply (lb_member (upstreams := fun l => RoundRobin.urls l.1))).
  destruct (Hall u Hu) as [[b Hb] [[scheme host] Eu]].
  unfold Proxy.mustGetBreaker. cbn [lget state_lens lens_fst fst Proxy.breakers]. rewrite Hb.
  unfold now. cbn [snd clk]. destruct (Breaker.Allow t b) as [[[]|e] b1] eqn:Ea.
  - eapply Sent; [done..|]. unfold Proxy.put_breaker. cbn [lget lset state_lens lens_fst fst snd Proxy.lb Proxy.breakers].
    rewrite (relay_step _ _ _ _ _ b1 scheme host) by (done || (cbn; by rewrite lookup_insert_eq)).
    cbn. by rewrite insert_insert_eq.
  - assert (e = Breaker.ErrOpen /\ b1 = b) as [-> ->].
    { revert Ea. unfold Breaker.Allow. destruct (Breaker.st b); try case_match; by intros [= <- <-]. }
    eapply Refused; [done..|]. unfold Proxy.put_breaker. cbn. by rewrite insert_id.
Qed.

(** ** Invariant *)

(** The breaker knows the ledger: it is closed exactly when fewer than [maxF]
    outcomes at its end are failures, and then it has counted them; an open one
    remembers when the last failure was. *)
Definition tracks (maxF timeout : Z) (l : list (Z * BreakerTheorems.outcome)) (b : Breaker.Breaker) : Prop :=
  Breaker.maxFailures b = maxF /\ Breaker.timeout b = timeout /\
  match Breaker.st b with
  | Breaker.stateClosed => Breaker.failures b = failures_of l /\ failures_of l < maxF
  | Breaker.stateOpen => maxF <= failures_of l /\ Breaker.openedAt b = last_time l
  | Breaker.stateHalfOpen => maxF <= failures_of l
  end.

Lemma trailing_snoc k os o :
  BreakerTheorems.trailing k (os ++ [o]) =
    match o with BreakerTheorems.Success => 0 | BreakerTheorems.Failure => BreakerTheorems.trailing k os + 1 end.
Proof using Type. revert k. induction os as [|[] os IH]; intros k; simpl; [by destruct o|apply IH..]. Qed.

Lemma trailing_nonneg k os : 0 <= k -> 0 <= BreakerTheorems.trailing k os.
Proof using Type. revert k. induction os as [|[] os IH]; intros k Hk; simpl; [done|by apply IH|apply IH; lia]. Qed.

Lemma tracks_record maxF timeout l b t o :
  1 <= maxF <= MaxInt -> tracks maxF timeout l b -> Breaker.st b ≠ Breaker.stateOpen ->
  tracks maxF timeout (l ++ [(t, o)]) (BreakerTheorems.record t o b).
Proof using Type.
  intros Hm (H1 & H2 & H3) Hst. unfold tracks, failures_of, last_time in *. rewrite map_app, last_snoc. simpl. rewrite trailing_snoc.
  pose proof (trailing_nonneg 0 (map snd l) ltac:(lia)) as H0. destruct o; simpl.
  - split_and!; [done..|]. destruct (Breaker.st b) eqn:E; try done; rewrite ?decide_True, ?decide_False by done; lia.
  - unfold Breaker.RecordFailure. destruct (Breaker.st b) eqn:E; try done; simpl.
    + rewrite int64_id by (unfold in_int64, MinInt, MaxInt, two63 in *; lia).
      destruct (Z.leb_spec (Breaker.maxFailures b) (Breaker.failures b + 1)); simpl; split_and!; try done; try lia; simpl; rewrite ?E; lia.
    + split_and!; try done. lia.
Qed.

(** What a round trip shows is recorded while the breaker is not open. *)
Lemma tracks_records maxF timeout l b t res :
  1 <= maxF <= MaxInt -> tracks maxF timeout l b -> Breaker.st b ≠ Breaker.stateOpen ->
  tracks maxF timeout (l ++ map (pair t) (outcomes res)) (BreakerTheorems.records t (outcomes res) b).
Proof using Type.
  intros Hm Ht Hst.
  assert (forall o, tracks maxF timeout (l ++ map (pair t) [o]) (BreakerTheorems.records t [o] b)) as H1
    by (intros o; by apply tracks_record).
  unfold outcomes. destruct res as [[]|res]; simpl map; rewrite ?app_nil_r; try done; try apply H1.
  destruct (StatusCode res =? 101); [|destruct (500 <=? StatusCode res); apply H1].
  change (map (pair t) ?l) with (map (pair t) [BreakerTheorems.Success] ++ map (pair t) [BreakerTheorems.Failure]).
  rewrite app_assoc. apply (tracks_record _ _ _ (Breaker.RecordSuccess b)); [done|apply H1|].
  simpl. destruct (Breaker.st b); try done.
Qed.

Lemma tracks_allow maxF timeout l b t b1 :
  tracks maxF timeout l b -> Breaker.Allow t b = (Ok tt, b1) ->
  tracks maxF timeout l b1 /\ Breaker.st b1 ≠ Breaker.stateOpen /\
  (maxF <= failures_of l -> timeout <= Since t (last_time l)).
Proof using Type.
  intros (H1 & H2 & H3). unfold Breaker.Allow, tracks. destruct (Breaker.st b) eqn:E; [| |done].
  - intros [= <-]. rewrite E. split_and!; try done; lia.
  - destruct (Z.leb_spec (Breaker.timeout b) (Since t (Breaker.openedAt b))); [|done]. intros [= <-]. simpl.
    destruct H3 as [H3 H4]. rewrite H4 in *. split_and!; try done; lia.
Qed.

Section Invariant.
Variable urls : list string.
Variable maxF timeout : Z.
Hypothesis Hurls : urls ≠ [].
Hypothesis Hparse : forall u, u ∈ urls -> is_Some (url_Parse u).
Hypothesis Hmax : 1 <= maxF <= MaxInt.

Definition requests (evs : list event) : Z :=
  Z.of_nat (length (filter (fun ev => match ev with EvRequest _ _ _ => true | EvProbe _ _ => false end = true) evs)).

Record inv (evs : list event) (s : state) : Prop := {
  i_urls : RoundRobin.urls (Proxy.lb s.1).1 = urls;
  i_health : forall u, Health.status (Proxy.lb s.1).2 !! u = Health.verdict <$> last_probe u evs;
  i_breaker : forall u, u ∈ urls -> exists b, Proxy.breakers s.1 !! u = Some b /\ tracks maxF timeout (ledger u s) b;
}.

Lemma routing_inv_start interval path : inv [] (start urls interval path maxF timeout).
Proof using Hmax.
  constructor; simpl; [done|intros u; by rewrite lookup_empty|].
  intros u Hu. exists (Breaker.NewBreaker maxF timeout). split; [|by split_and!; cbn; lia].
  assert (forall l : list string, u ∈ l ->
    (list_to_map (map (fun u => (u, Breaker.NewBreaker maxF timeout)) l) : gmap string Breaker.Breaker) !! u =
      Some (Breaker.NewBreaker maxF timeout)) as H; [|by apply H].
  induction l as [|v l IH]; intros Hin; [by apply not_elem_of_nil in Hin|]. simpl. rewrite lookup_insert.
  case_decide; [done|]. apply IH. by apply elem_of_cons in Hin as [->|?].
Qed.

(** The ledgers after a round trip to [u]. *)
Lemma ledger_contact u v P wd t res (s : state) :
  contacts wd = contacts s.2 ++ [mkContact u t res] ->
  ledger v (P, wd) = ledger v s ++ (if decide (u = v) then map (pair t) (outcomes res) else []).
Proof using Type. intros E. unfold ledger. simpl. rewrite E, bind_app. simpl. by rewrite app_nil_r. Qed.

Lemma routing_inv_step evs s ev : inv evs s -> inv (evs ++ [ev]) (step s ev).
Proof using Type*.
  intros Hinv. destruct ev as [v p|t r res].
  - destruct s as [[[rr c] brs] wd]. destruct Hinv as [H1 H2 H3]. constructor; simpl in *; [done| |done].
    intros u. rewrite Health.check_status. unfold last_probe. rewrite foldl_app. simpl. rewrite lookup_insert.
    case_decide; [by subst|]. apply H2.
  - assert (served s t res (step s (EvRequest t r res))) as Hs.
    { apply request_served; rewrite (i_urls _ _ Hinv); [done|]. intros u Hu.
      destruct (i_breaker _ _ Hinv u Hu) as (b & Hb & _). split; [by eexists|by apply Hparse]. }
    assert (forall l e, lb_Next (Proxy.lb s.1) = (e, l) ->
      RoundRobin.urls l.1 = urls /\ l.2 = (Proxy.lb s.1).2) as Hl.
    { intros l e E. pose proof (lb_stable (upstreams := fun l => RoundRobin.urls l.1) (Proxy.lb s.1)) as Hst. rewrite E in Hst. simpl in Hst.
      split; [by rewrite Hst, (i_urls _ _ Hinv)|]. destruct (Proxy.lb s.1) as [rr c]. simpl in E.
      destruct (RoundRobin.Next c rr). by injection E as <- <-. }
    assert (forall u, last_probe u (evs ++ [EvRequest t r res]) = last_probe u evs) as Hp
      by (intros u; unfold last_probe; by rewrite foldl_app).
    destruct Hs as [l En Es|u l b En Hb Ea Es|u l b b1 En Hb Ea Es]; destruct (Hl _ _ En) as [Hl1 Hl2]; rewrite Es;
      constructor; cbn [fst snd Proxy.lb Proxy.breakers]; try done;
      try (intros v; rewrite Hp, Hl2; apply (i_health _ _ Hinv)); try apply (i_breaker _ _ Hinv).
    intros v Hv. destruct (i_breaker _ _ Hinv v Hv) as (bv & Hbv & Ht). rewrite (ledger_contact u v _ _ t res s) by done.
    destruct (decide (u = v)) as [->|Hne].
    + rewrite Hb in Hbv. injection Hbv as <-. rewrite lookup_insert_eq. eexists. split; [done|].
      destruct (tracks_allow _ _ _ _ _ _ Ht Ea) as (Ht1 & Hst & _). by apply tracks_records.
    + rewrite lookup_insert_ne, app_nil_r by done. eauto.
Qed.

Lemma routing_inv_run evs interval path : inv evs (run evs (start urls interval path maxF timeout)).
Proof using Type*.
  induction evs as [|ev evs IH] using rev_ind; [apply routing_inv_start|].
  unfold run. rewrite foldl_app. by apply routing_inv_step.
Qed.

Lemma requests_snoc evs ev :
  requests (evs ++ [ev]) = requests evs + match ev with EvRequest _ _ _ => 1 | EvProbe _ _ => 0 end.
Proof using Type. unfold requests. rewrite filter_app, length_app. destruct ev; simpl; lia. Qed.

(** Each request takes at most one ticket per upstream. *)
Lemma counter_run evs interval path :
  requests evs * Z.of_nat (length urls) < two64 ->
  0 <= RoundRobin.counter (Proxy.lb (run evs (start urls interval path maxF timeout)).1).1 <= requests evs * Z.of_nat (length urls).
Proof using Type*.
  induction evs as [|ev evs IH] using rev_ind; [intros _; change (requests []) with 0; simpl; lia|]. rewrite requests_snoc. intros Hw.
  pose proof (routing_inv_run evs interval path) as Hinv. unfold run in *. rewrite foldl_app. cbn [foldl].
  set (s := foldl step _ evs) in *. destruct ev as [v p|t r res].
  - assert (RoundRobin.counter (Proxy.lb (step s (EvProbe v p)).1).1 = RoundRobin.counter (Proxy.lb s.1).1) as ->
      by (simpl; by destruct (Proxy.lb s.1)). rewrite Z.add_0_r in *. by apply IH.
  - specialize (IH ltac:(lia)).
    assert (served s t res (step s (EvRequest t r res))) as Hs.
    { apply request_served; rewrite (i_urls _ _ Hinv); [done|]. intros u Hu.
      destruct (i_breaker _ _ Hinv u Hu) as (b & Hb & _). split; [by eexists|by apply Hparse]. }
    assert (forall l e, lb_Next (Proxy.lb s.1) = (e, l) ->
      0 <= RoundRobin.counter l.1 <= (requests evs + 1) * Z.of_nat (length urls)) as Hl.
    { intros l e. pose proof (i_urls _ _ Hinv) as Hu. destruct (Proxy.lb s.1) as [rr c]. simpl in *.
      destruct (RoundRobin.next_spec c rr) as (_ & Hc & _).
      { unfold RoundRobin.no_wrap. rewrite Hu. lia. }
      destruct (RoundRobin.Next c rr) as [x rr']. intros [= _ <-]. simpl in *. rewrite Hu in Hc. lia. }
    destruct Hs as [l En ->|u l b En Hb Ea ->|u l b b1 En Hb Ea ->]; by eapply Hl.
Qed.

Lemma healthy_iff evs s u :
  inv evs s -> Health.isHealthy (Proxy.lb s.1).2 u = true <-> last_probe u evs = Some (Health.Responded 200).
Proof using Type.
  intros Hinv. unfold Health.isHealthy. rewrite (i_health _ _ Hinv u).
  destruct (last_probe u evs) as [[| |code]|]; simpl; try (split; by intros ?).
  rewrite Z.eqb_eq. split; congruence.
Qed.

(** What the handler does with a request, in terms of the history. *)
Lemma request_outcome evs interval path t r res :
  (requests evs + 1) * Z.of_nat (length urls) < two64 ->
  let s := run evs (start urls interval path maxF timeout) in
  let s' := step s (EvRequest t r res) in
  (contacts s'.2 = contacts s.2 /\
   ((forall u, u ∈ urls -> last_probe u evs ≠ Some (Health.Responded 200)) \/
    exists u, u ∈ urls /\ last_probe u evs = Some (Health.Responded 200) /\ maxF <= failures_of (ledger u s))) \/
  exists u, contacts s'.2 = contacts s.2 ++ [mkContact u t res] /\ u ∈ urls /\
    last_probe u evs = Some (Health.Responded 200) /\
    (maxF <= failures_of (ledger u s) -> timeout <= Since t (last_time (ledger u s))).
Proof using Type*.
  intros Hw s s'. pose proof (routing_inv_run evs interval path) as Hinv. fold s in Hinv.
  assert (served s t res s') as Hs.
  { apply request_served; rewrite (i_urls _ _ Hinv); [done|]. intros u Hu.
    destruct (i_breaker _ _ Hinv u Hu) as (b & Hb & _). split; [by eexists|by apply Hparse]. }
  assert (forall x l, lb_Next (Proxy.lb s.1) = (x, l) ->
    match x with
    | Ok u => u ∈ urls /\ last_probe u evs = Some (Health.Responded 200)
    | Err _ => forall u, u ∈ urls -> last_probe u evs ≠ Some (Health.Responded 200)
    end) as Hnext.
  { intros x l E. pose proof (fun u => healthy_iff evs s u Hinv) as Hh. pose proof (i_urls _ _ Hinv) as Hu.
    pose proof (counter_run evs interval path ltac:(lia)) as Hc. fold s in Hc.
    destruct (Proxy.lb s.1) as [rr c]. simpl in *. destruct (RoundRobin.next_spec c rr) as (_ & _ & Hn).
    { unfold RoundRobin.no_wrap. rewrite Hu. lia. }
    destruct (RoundRobin.Next c rr) as [y rr']. injection E as <- _. simpl in Hn. rewrite Hu in Hn. destruct y as [u|e].
    - destruct Hn as [H1 H2]. split; [done|]. by apply Hh.
    - destruct Hn as [_ Hn]. intros u Hin Hp%Hh. specialize (Hn u Hin). congruence. }
  destruct Hs as [l En E|u l b En Hb Ea E|u l b b1 En Hb Ea E]; rewrite E; cbn [snd contacts]; pose proof (Hnext _ _ En) as Hn.
  - left. split; [done|]. by left.
  - destruct Hn as [Hu Hp]. left. split; [done|]. right. exists u. split_and!; try done.
    destruct (i_breaker _ _ Hinv u Hu) as (b' & Hb' & (H1 & H2 & Ht)). rewrite Hb in Hb'. injection Hb' as <-.
    unfold Breaker.Allow in Ea. destruct (Breaker.st b); [done|by destruct Ht|done].
  - destruct Hn as [Hu Hp]. right. exists u. split_and!; try done.
    destruct (i_breaker _ _ Hinv u Hu) as (b' & Hb' & Ht). rewrite Hb in Hb'. injection Hb' as <-.
    by destruct (tracks_allow _ _ _ _ _ _ Ht Ea) as (_ & _ & ?).
Qed.

(** C9. Where a request goes. After any history of probes and requests, a
    request leads to at most one round trip, to a configured upstream whose last
    probe answered 200; and if the last [maxF] or more outcomes of that upstream
    were failures, then not before [timeout] has passed since the last of them. *)
Theorem routing_discipline (evs : list event) (interval : Z) (path : string) (t : Z) (r : Request) (res : transport_error + Response)
    (Hcount : (requests evs + 1) * Z.of_nat (length urls) < two64) :
  let s := run evs (start urls interval path maxF timeout) in
  let s' := step s (EvRequest t r res) in
  contacts s'.2 = contacts s.2 \/
  exists u, contacts s'.2 = contacts s.2 ++ [mkContact u t res] /\ u ∈ urls /\
    last_probe u evs = Some (Health.Responded 200) /\
    (maxF <= failures_of (ledger u s) -> timeout <= Since t (last_time (ledger u s))).
Proof using Type*.
  destruct (request_outcome evs interval path t r res Hcount) as [[H _]|H]; [by left|by right].
Qed.

(** C10. Availability, for requests that are served one after the other. If some
    upstream answered its last probe with 200, and no such upstream has failed
    [maxF] times in a row since its last success, the request is sent to one of
    them: neither the balancer nor a breaker refuses it. (Concurrent calls of
    [Next] share the counter, and one of them can miss the only healthy upstream:
    [concurrent_next_spurious_error].) *)
Theorem request_is_sent (evs : list event) (interval : Z) (path : string) (t : Z) (r : Request) (res : transport_error + Response)
    (Hcount : (requests evs + 1) * Z.of_nat (length urls) < two64)
    (Hsome : exists u, u ∈ urls /\ last_probe u evs = Some (Health.Responded 200))
    (Hgood : forall u, u ∈ urls -> last_probe u evs = Some (Health.Responded 200) ->
       failures_of (ledger u (run evs (start urls interval path maxF timeout))) < maxF) :
  let s := run evs (start urls interval path maxF timeout) in
  exists u, contacts (step s (EvRequest t r res)).2 = contacts s.2 ++ [mkContact u t res] /\ u ∈ urls /\
    last_probe u evs = Some (Health.Responded 200).
Proof using Type*.
  destruct (request_outcome evs interval path t r res Hcount) as [[_ [H|(u & Hu & Hp & Hf)]]|(u & H1 & H2 & H3 & _)].
  - destruct Hsome as (u & Hu & Hp). by destruct (H u Hu).
  - specialize (Hgood u Hu Hp). lia.
  - by exists u.
Qed.
End Invariant.
End Run.

(** ** Example: two upstreams, one of them down *)

Definition parse (u : string) : option (string * string) := Some ("http", u).
Definition inject (c : Context) (h : Header) : Header := h.
Definition etext (e : transport_error) : string := EmptyString.

Definition request : Request :=
  mkRequest "GET" "/products" EmptyString ∅ 0 (mkBody EmptyString None) "gw" "10.0.0.1:4711" Background.

Definition fine : transport_error + Response := inr (mkResp 200 ∅ ["ok"] false).
Definition refused : transport_error + Response := inl (NetError false).

Definition morning : list event :=
  [EvProbe "a" (Health.Responded 200); EvProbe "b" Health.ClientError; EvRequest 1 request refused; EvRequest 2 request refused].

Notation service := (start ["a"; "b"] Second "/healthz" 2 (10 * Second)).
Notation after evs := (run parse inject etext evs service).

Lemma routing_discipline_witness :
  contacts (step parse inject etext (after morning) (EvRequest (Minute) request fine)).2 =
    [mkContact "a" 1 refused; mkContact "a" 2 refused; mkContact "a" Minute fine] /\
  10 * Second <= Since Minute 2.
Proof.
  assert (contacts (step parse inject etext (after morning) (EvRequest (Minute) request fine)).2 =
    contacts (after morning).2 ++ [mkContact "a" Minute fine]) as E by (vm_compute; reflexivity).
  split; [vm_compute; reflexivity|].
  destruct (routing_discipline parse inject etext ["a"; "b"] 2 (10 * Second) ltac:(discriminate) ltac:(by eexists) ltac:(vm_compute; split; discriminate)
    morning Second "/healthz" Minute request fine ltac:(vm_compute; reflexivity)) as [H|(u & H & _ & _ & Hto)]; rewrite E in H.
  - vm_compute in H. discriminate H.
  - apply app_inv_head in H. injection H as <-.
    replace (last_time (ledger "a" (after morning))) with 2 in Hto by (vm_compute; reflexivity).
    apply Hto. vm_compute. discriminate.
Defined.

(** Before the timeout the same request is refused. *)
Example cooling_down :
  contacts (step parse inject etext (after morning) (EvRequest Second request fine)).2 = contacts (after morning).2.
Proof. vm_compute. reflexivity. Qed.

Definition noon : list event := [EvProbe "a" (Health.Responded 200); EvProbe "b" Health.ClientError; EvRequest 1 request refused].

Lemma request_is_sent_witness :
  exists u, contacts (step parse inject etext (after noon) (EvRequest 2 request fine)).2 =
    contacts (after noon).2 ++ [mkContact u 2 fine] /\ u ∈ ["a"; "b"] /\ last_probe u noon = Some (Health.Responded 200).
Proof.
  apply (request_is_sent parse inject etext ["a"; "b"] 2 (10 * Second) ltac:(discriminate) ltac:(by eexists) ltac:(vm_compute; split; discriminate)).
  - vm_compute. reflexivity.
  - exists "a". split; [apply list_elem_of_here|reflexivity].
  - intros u [->|[->|Hn%not_elem_of_nil]%elem_of_cons]%elem_of_cons Hp; [vm_compute; reflexivity|discriminate Hp|destruct Hn].
Defined.

End Routing.
