(* ===== verification/ProxyRace.v ===== *)
(** * Requests that race through the proxy ([internal/proxy/proxy.go])

    [Routing] serves one request after the other. Here any number of requests is
    in the handler at once, and probes report meanwhile: the accesses of a
    request to what it shares with others are separate steps. Atomic are the
    increment of the balancer's counter, a look at the health checker's map, and
    the methods of a breaker, which hold its mutex. *)

From S2P Require Import Prelude Http Breaker Balancer CacheMW Proxy Routing.
Import Http ReverseProxy.

Module ProxyRace.

Notation balancer := (RoundRobin.RoundRobin * Health.Checker)%type.
Notation shared := (Proxy.proxy_state balancer).
#[export] Existing Instance Health.checker_HealthChecker.

(** How a request ended. *)
Inductive fate :=
| NoUpstream
| Rejected (u : string)
| Served (u : string) (res : transport_error + Response)
| Panicked (v : panic).

(** Where a request is: in the loop of [Next] with some attempts left, holding
    the URL it has drawn, before [Allow], in the round trip, with an outcome to
    record, or behind the record that [ModifyResponse] made of an upgrade. *)
Inductive phase :=
| Picking (left : nat)
| Drawn (u : string) (left : nat)
| Picked (u : string)
| Sent (u : string)
| Answered (u : string) (res : transport_error + Response)
| Upgrading (u : string) (res : transport_error + Response)
| Finished (f : fate).

Definition no_breaker : phase := Finished (Panicked (PanicValue "proxy: circuit breaker not found")).

Definition put (u : string) (b : Breaker.Breaker) (p : shared) : shared :=
  Proxy.mkProxy (Proxy.lb p) (<[u := b]> (Proxy.breakers p)).

Section Race.
Variable url_Parse : string -> option (string * string).

(** The next access of a request: [now] is what it reads from the clock, [res] the
    outcome of its round trip. *)
Definition advance (now : Z) (res : transport_error + Response) (ph : phase) (p : shared) : phase * shared :=
  match ph with
  | Picking 0 => (Finished NoUpstream, p)
  | Picking (S n) =>
      let '(u, rr) := RoundRobin.ticket (Proxy.lb p).1 in
      match u with
      | Some u => (Drawn u n, Proxy.mkProxy (rr, (Proxy.lb p).2) (Proxy.breakers p))
      | None => (Finished (Panicked (PanicValue "index out of range")), p)
      end
  | Drawn u n => (if IsHealthy (Proxy.lb p).2 u then Picked u else Picking n, p)
  | Picked u =>
      match Proxy.breakers p !! u with
      | None => (no_breaker, p)
      | Some b =>
          let '(allowed, b) := Breaker.Allow now b in
          (match allowed with
           | Err _ => Finished (Rejected u)
           | Ok _ => match url_Parse u with
                     | Some _ => Sent u
                     | None => Finished (Panicked (PanicValue ("proxy: invalid upstream URL: " +:+ u)))
                     end
           end, put u b p)
      end
  | Sent u => (Answered u res, p)
  | Answered u res =>
      match Proxy.breakers p !! u with
      | None => (match res with inl MaxBytesError => Finished (Served u res) | _ => no_breaker end, p)
      | Some b =>
          (match res with
           | inr r => if StatusCode r =? 101 then Upgrading u res else Finished (Served u res)
           | inl _ => Finished (Served u res)
           end, put u (Proxy.verdict now res b) p)
      end
  | Upgrading u res =>
      match Proxy.breakers p !! u with
      | None => (no_breaker, p)
      | Some b => (Finished (Served u res), put u (Proxy.verdict now (inl OtherError) b) p)
      end
  | Finished _ => (ph, p)
  end.

(** The shared objects, the requests, and the verdicts of the probes so far. *)
Record sys := mkSys { sh : shared; reqs : list phase; seen : list (string * Health.probe) }.

Definition probed (u : string) (v : Health.probe) (p : shared) : shared :=
  Proxy.mkProxy ((Proxy.lb p).1, Health.check u v (Proxy.lb p).2) (Proxy.breakers p).

(** The outcomes of round trips that are possible. *)
Variable possible : transport_error + Response -> Prop.

Inductive step : sys -> sys -> Prop :=
| st_arrive p l h :
    step (mkSys p l h) (mkSys p (l ++ [Picking (length (RoundRobin.urls (Proxy.lb p).1))]) h)
| st_advance p l h i ph now res :
    l !! i = Some ph -> possible res ->
    step (mkSys p l h) (mkSys (advance now res ph p).2 (<[i := (advance now res ph p).1]> l) h)
| st_probe p l h u v :
    step (mkSys p l h) (mkSys (probed u v p) l (h ++ [(u, v)])).

(** The round trip to [u] has begun and the handler is not through with it. *)
Definition at_upstream (u : string) (ph : phase) : bool :=
  match ph with Sent v | Answered v _ | Upgrading v _ => bool_decide (v = u) | _ => false end.

Definition in_flight (u : string) (l : list phase) : nat := length (filter (fun ph => at_upstream u ph = true) l).

(** ** One access *)

Lemma in_flight_split u l i ph : l !! i = Some ph ->
  exists n, in_flight u l = (n + Nat.b2n (at_upstream u ph))%nat /\
    forall ph', in_flight u (<[i := ph']> l) = (n + Nat.b2n (at_upstream u ph'))%nat.
Proof using Type.
  intros Hi. exists (in_flight u (take i l) + in_flight u (drop (S i) l))%nat.
  assert (forall x, in_flight u (take i l ++ x :: drop (S i) l) =
    (in_flight u (take i l) + in_flight u (drop (S i) l) + Nat.b2n (at_upstream u x))%nat) as H.
  { intros x. unfold in_flight. rewrite filter_app, filter_cons, length_app. by destruct (at_upstream u x); simpl; lia. }
  split; [rewrite <- H; f_equal; symmetry; by apply take_drop_middle|].
  intros ph'. rewrite insert_take_drop by (by eapply lookup_lt_Some). apply H.
Qed.

(** *** What one breaker sees of its requests

    A breaker and the number of its requests in flight. A request is admitted or
    rejected; one in flight is done with a success (a response below 500) or with
    a failure (a failed round trip, a response from 500 on). Two ends are not of
    that shape: a body beyond the limit ends the request and records nothing, and
    an answer 101 records a success, after which the upgrade fails and records a
    failure. *)
Inductive own_step : BreakerTheorems.sys -> BreakerTheorems.sys -> Prop :=
| o_admit now b n :
    is_ok (Breaker.Allow now b).1 = true ->
    own_step (BreakerTheorems.mkSys b n) (BreakerTheorems.mkSys (Breaker.Allow now b).2 (S n))
| o_reject now b n :
    is_ok (Breaker.Allow now b).1 = false ->
    own_step (BreakerTheorems.mkSys b n) (BreakerTheorems.mkSys (Breaker.Allow now b).2 n)
| o_success b n r :
    possible (inr r) -> StatusCode r ≠ 101 -> StatusCode r < 500 ->
    own_step (BreakerTheorems.mkSys b (S n)) (BreakerTheorems.mkSys (Breaker.RecordSuccess b) n)
| o_server_error now b n r :
    possible (inr r) -> 500 <= StatusCode r ->
    own_step (BreakerTheorems.mkSys b (S n)) (BreakerTheorems.mkSys (Breaker.RecordFailure now b) n)
| o_transport_error now b n e :
    possible (inl e) -> e ≠ MaxBytesError ->
    own_step (BreakerTheorems.mkSys b (S n)) (BreakerTheorems.mkSys (Breaker.RecordFailure now b) n)
| o_oversized b n :
    possible (inl MaxBytesError) ->
    own_step (BreakerTheorems.mkSys b (S n)) (BreakerTheorems.mkSys b n)
| o_upgrade b n r :
    possible (inr r) -> StatusCode r = 101 ->
    own_step (BreakerTheorems.mkSys b (S n)) (BreakerTheorems.mkSys (Breaker.RecordSuccess b) (S n))
| o_upgrade_fails now b n r :
    possible (inr r) -> StatusCode r = 101 ->
    own_step (BreakerTheorems.mkSys b (S n)) (BreakerTheorems.mkSys (Breaker.RecordFailure now b) n).

(** What a round trip shows of the upstream is one outcome. *)
Definition reporting (res : transport_error + Response) : Prop := length (Routing.outcomes res) = 1%nat.

(** Where every round trip shows one outcome, that is the breaker of [Breaker]
    with requests that record once each. *)
Lemma own_step_reporting : (forall res, possible res -> reporting res) ->
  forall x y, own_step x y -> BreakerTheorems.sstep x y.
Proof using Type.
  intros Hp x y H. destruct H as [now b n E|now b n E|b n r _ _ _|now b n r _ _|now b n e _ _|b n Hbad|b n r Hbad E|now b n r Hbad E].
  - by constructor.
  - by constructor.
  - apply BreakerTheorems.s_success.
  - apply BreakerTheorems.s_failure.
  - apply BreakerTheorems.s_failure.
  - by apply Hp in Hbad.
  - apply Hp in Hbad. unfold reporting, Routing.outcomes in Hbad. by rewrite E in Hbad.
  - apply Hp in Hbad. unfold reporting, Routing.outcomes in Hbad. by rewrite E in Hbad.
Qed.

(** The record of an outcome, and of a failed upgrade, as a step of the breaker. *)
Lemma own_step_verdict now res b n : possible res ->
  own_step (BreakerTheorems.mkSys b (S n))
    (BreakerTheorems.mkSys (Proxy.verdict now res b)
       match res with inr r => if StatusCode r =? 101 then S n else n | inl _ => n end).
Proof using Type.
  intros Hp. destruct res as [e|r]; [destruct e; by econstructor|]. cbn [Proxy.verdict].
  destruct (StatusCode r =? 101) eqn:E; bool2prop; [rewrite E; by eapply o_upgrade|].
  destruct (500 <=? StatusCode r) eqn:E5; bool2prop; [by eapply o_server_error|by eapply o_success].
Qed.

(** The upstream a request has chosen. *)
Definition target (ph : phase) : option string :=
  match ph with Picked u | Sent u | Answered u _ | Upgrading u _ => Some u | Finished (Served u _) => Some u | _ => None end.

(** A request that has not gone wrong, with an outcome that is possible. *)
Definition fine (ph : phase) : Prop :=
  match ph with
  | Answered _ res => possible res
  | Upgrading _ res => exists r, res = inr r /\ possible (inr r) /\ StatusCode r = 101
  | Finished (Panicked _) => False
  | _ => True
  end.

(** Where the breakers of the targets are and their URLs parse, an access of a
    request is at most one step of the breaker of its target, and none of any
    other. *)
Lemma advance_project u b n now res ph p :
  fine ph -> Proxy.breakers p !! u = Some b ->
  (forall v, target ph = Some v -> is_Some (Proxy.breakers p !! v) /\ is_Some (url_Parse v)) ->
  exists b', Proxy.breakers (advance now res ph p).2 !! u = Some b' /\
    rtc own_step (BreakerTheorems.mkSys b (n + Nat.b2n (at_upstream u ph)))
      (BreakerTheorems.mkSys b' (n + Nat.b2n (at_upstream u (advance now res ph p).1))).
Proof using Type.
  intros Hf Hb Ht.
  assert (forall v c, v ≠ u -> Proxy.breakers (put v c p) !! u = Some b) as Hother
    by (intros v c Hv; simpl; by rewrite lookup_insert_ne).
  assert (forall c, Proxy.breakers (put u c p) !! u = Some c) as Hself by (intros c; apply lookup_insert_eq).
  destruct ph as [[|k]|v k|v|v|v res'|v res'|f]; try done.
  - exists b. by split.
  - cbn [advance]. destruct (RoundRobin.ticket _) as [[v|] rr]; exists b; by split.
  - exists b. split; [done|]. cbn [advance]. by destruct (IsHealthy _ _).
  - destruct (Ht v eq_refl) as [[c Hc] [x Hx]]. cbn [advance]. rewrite Hc, Hx. destruct (Breaker.Allow now c) as [allowed c'] eqn:Ea.
    destruct (decide (v = u)) as [->|Hne].
    + simplify_eq. exists c'. split; [apply Hself|]. apply rtc_once.
      pose proof (o_admit now b n) as Hadm. pose proof (o_reject now b n) as Hrej.
      rewrite Ea in Hadm, Hrej. destruct allowed; simpl in *; rewrite ?bool_decide_true, ?Nat.add_0_r, ?Nat.add_1_r by done; eauto.
    + exists b. split; [by apply Hother|]. destruct allowed; simpl; rewrite ?bool_decide_false by done; done.
  - exists b. by split.
  - destruct (Ht v eq_refl) as [[c Hc] _]. cbn [advance]. rewrite Hc. cbn [fst snd]. pose proof (own_step_verdict now res' c n Hf) as Hv.
    assert (at_upstream u match res' with inr r => if StatusCode r =? 101 then Upgrading v res' else Finished (Served v res') | inl _ => Finished (Served v res') end =
      match res' with inr r => if StatusCode r =? 101 then bool_decide (v = u) else false | inl _ => false end) as ->.
    { destruct res' as [|r]; [done|]. by destruct (StatusCode r =? 101). }
    cbn [at_upstream]. destruct (decide (v = u)) as [->|Hne].
    + simplify_eq. rewrite !bool_decide_true by done. eexists. split; [apply Hself|]. apply rtc_once.
      destruct res' as [|r]; [|destruct (StatusCode r =? 101)]; cbn [Nat.b2n]; rewrite ?Nat.add_0_r, ?Nat.add_1_r; exact Hv.
    + rewrite !bool_decide_false by done. exists b. split; [by apply Hother|].
      by destruct res' as [|r]; [|destruct (StatusCode r =? 101)].
  - destruct (Ht v eq_refl) as [[c Hc] _]. destruct Hf as (r & -> & Hp & E). cbn [advance]. rewrite Hc. cbn [fst snd at_upstream].
    destruct (decide (v = u)) as [->|Hne].
    + simplify_eq. rewrite bool_decide_true by done. eexists. split; [apply Hself|]. apply rtc_once. rewrite Nat.add_0_r, Nat.add_1_r.
      by eapply o_upgrade_fails.
    + rewrite bool_decide_false by done. exists b. split; [by apply Hother|done].
  - exists b. by split.
Qed.

(** ** Every interleaving *)

Section Interleavings.
Variable urls : list string.
Variable maxF timeout : Z.
Hypothesis Hurls : urls ≠ [].
Hypothesis Hparse : forall u, u ∈ urls -> is_Some (url_Parse u).

(** The service as it is built, without requests. *)
Definition start (interval : Z) (path : string) : sys := mkSys (Routing.start urls interval path maxF timeout).1 [] [].

Definition healthy_once (h : list (string * Health.probe)) (u : string) : Prop := (u, Health.Responded 200) ∈ h.

(** What holds of a request: nothing has gone wrong, the URL it has drawn is
    configured, and the upstream it has chosen has answered a probe. *)
Definition in_order (h : list (string * Health.probe)) (ph : phase) : Prop :=
  fine ph /\ (forall u, target ph = Some u -> u ∈ urls /\ healthy_once h u) /\
  match ph with Drawn u _ => u ∈ urls | _ => True end.

Record inv (s : sys) : Prop := {
  i_urls : RoundRobin.urls (Proxy.lb (sh s)).1 = urls;
  i_breakers : forall u, u ∈ urls -> exists b, Proxy.breakers (sh s) !! u = Some b /\
    rtc own_step (BreakerTheorems.mkSys (Breaker.NewBreaker maxF timeout) 0) (BreakerTheorems.mkSys b (in_flight u (reqs s)));
  i_requests : Forall (in_order (seen s)) (reqs s);
  i_healthy : forall u, Health.isHealthy (Proxy.lb (sh s)).2 u = true -> healthy_once (seen s) u;
}.

Lemma proxy_inv_start interval path : inv (start interval path).
Proof using Type.
  constructor; simpl; [done| |done|done].
  intros u Hu. exists (Breaker.NewBreaker maxF timeout). split; [|done].
  apply elem_of_list_to_map_1'; [|apply list_elem_of_In, in_map_iff; exists u; split; [done|by apply list_elem_of_In]].
  intros y Hy%list_elem_of_In. apply in_map_iff in Hy as (v & [= _ <-] & _). done.
Qed.

Lemma ticket_drawn rr : RoundRobin.urls rr = urls ->
  exists u c, RoundRobin.ticket rr = (Some u, RoundRobin.mkRR urls c) /\ u ∈ urls.
Proof using Hurls.
  intros E. unfold RoundRobin.ticket. rewrite E.
  assert (length urls ≠ 0%nat) by (by intros ?%nil_length_inv).
  match goal with |- context [urls !! Z.to_nat (?x mod ?y)] => pose proof (Z.mod_pos_bound x y ltac:(lia)) as Hm; generalize dependent (x mod y) end.
  intros k Hk. destruct (lookup_lt_is_Some_2 urls (Z.to_nat k)) as [u Hu]; [lia|]. rewrite Hu. eexists _, _. split; [done|].
  apply list_elem_of_lookup. eauto.
Qed.

Lemma advance_balancer now res ph p : RoundRobin.urls (Proxy.lb p).1 = urls ->
  RoundRobin.urls (Proxy.lb (advance now res ph p).2).1 = urls /\ (Proxy.lb (advance now res ph p).2).2 = (Proxy.lb p).2.
Proof using Hurls Hparse.
  intros E. destruct ph as [[|k]|v k|v|v|v res'|v res'|f]; cbn [advance]; try done.
  - destruct (ticket_drawn _ E) as (u & c & -> & _). done.
  - destruct (Proxy.breakers p !! v); [|done]. by destruct (Breaker.Allow now _).
  - by destruct (Proxy.breakers p !! v).
  - by destruct (Proxy.breakers p !! v).
Qed.

Lemma advance_in_order s now res ph : inv s -> in_order (seen s) ph -> possible res -> in_order (seen s) (advance now res ph (sh s)).1.
Proof using Hurls Hparse.
  intros [Iu Ib _ Ih] (Hf & Ht & Hd) Hres. unfold in_order.
  destruct ph as [[|k]|v k|v|v|v res'|v res'|f]; cbn [advance]; try done.
  - destruct (ticket_drawn _ Iu) as (u & c & -> & Hu). done.
  - destruct (IsHealthy (Proxy.lb (sh s)).2 v) eqn:E; [|done]. split_and!; try done. intros u [= <-]. split; [done|]. by apply Ih.
  - destruct (Ht v eq_refl) as [Hv Hh]. destruct (Ib v Hv) as (b & -> & _). destruct (Hparse v Hv) as [x ->].
    by destruct (Breaker.Allow now b) as [[[]|e] b'].
  - destruct (Ht v eq_refl) as [Hv Hh]. destruct (Ib v Hv) as (b & -> & _).
    destruct res' as [e|r]; [by split_and!|]. cbn [fst]. destruct (StatusCode r =? 101) eqn:E; [|by split_and!]. bool2prop.
    split_and!; try done. by exists r.
  - destruct (Ht v eq_refl) as [Hv Hh]. by destruct (Ib v Hv) as (b & -> & _).
Qed.

Lemma proxy_inv_step s s' : inv s -> step s s' -> inv s'.
Proof using Hurls Hparse.
  intros I Hstep. destruct Hstep as [p l h|p l h i ph now res Hi Hp|p l h u v].
  - destruct I as [Iu Ib Ir Ih]. constructor; try done; simpl in *.
    + intros u Hu. destruct (Ib u Hu) as (b & Hb & Hr). exists b. split; [done|].
      assert (in_flight u (l ++ [Picking (length (RoundRobin.urls (Proxy.lb p).1))]) = in_flight u l) as ->; [|done].
      unfold in_flight. by rewrite filter_app, app_nil_r.
    + apply Forall_app. split; [done|]. by repeat constructor.
  - pose proof (proj1 (Forall_lookup _ _) (i_requests _ I) _ _ Hi) as Hph. simpl in Hph.
    pose proof (advance_in_order _ now res ph I Hph Hp) as Hph'. simpl in Hph'.
    destruct I as [Iu Ib Ir Ih]. simpl in *. destruct (advance_balancer now res ph p Iu) as [Eu Ec]. constructor; simpl.
    + done.
    + intros u Hu. destruct (Ib u Hu) as (b & Hb & Hr). destruct (in_flight_split u l i ph Hi) as (n & En & En').
      destruct (advance_project u b n now res ph p) as (b' & Hb' & Hr'); try done; [apply Hph| |].
      { intros v Hv. destruct (proj1 (proj2 Hph) v Hv) as [Hvu _]. split; [|by apply Hparse]. by destruct (Ib v Hvu) as (c & -> & _). }
      exists b'. split; [done|]. rewrite En'. etransitivity; [exact Hr|]. by rewrite En.
    + by apply Forall_insert.
    + rewrite Ec. done.
  - destruct I as [Iu Ib Ir Ih]. constructor; try done; simpl in *.
    + eapply Forall_impl; [exact Ir|]. intros ph (H1 & H2 & H3). split_and!; try done. intros w Hw. destruct (H2 w Hw).
      split; [done|]. apply elem_of_app. by left.
    + intros w Hw. apply elem_of_app. destruct (Health.healthy_was_probed [(u, v)] _ w Hw) as [H|H]; [left; by apply Ih|by right].
Qed.

Lemma reachable_inv interval path s : rtc step (start interval path) s -> inv s.
Proof using Hurls Hparse. apply rtc_invariant; [apply proxy_inv_step|apply proxy_inv_start]. Qed.

(** C11. However requests and probes interleave, and whatever the round trips
    show, each upstream has its breaker to itself: the breaker of an upstream,
    with the number of requests in flight to it, is at all times a state that a
    single breaker reaches from [NewBreaker] by the calls of its own requests
    alone, one call at a time: admitted, rejected, done with a success or a
    failure, done without a record for a body beyond the limit, or upgraded
    (a success and then a failure). Requests to other upstreams have no part in
    it, and no request panics. Where no body is oversized and no upstream answers
    101, every request records exactly once, and the breaker is a reachable state
    of the single breaker of [Breaker], whose invariants apply. *)
Theorem racing_requests_refine_breakers (interval : Z) (path : string) (s : sys) (Hreach : rtc step (start interval path) s) :
  (forall u, u ∈ urls -> exists b, Proxy.breakers (sh s) !! u = Some b /\
     rtc own_step (BreakerTheorems.mkSys (Breaker.NewBreaker maxF timeout) 0)
       (BreakerTheorems.mkSys b (in_flight u (reqs s))) /\
     ((forall res, possible res -> reporting res) ->
      rtc BreakerTheorems.sstep (BreakerTheorems.mkSys (Breaker.NewBreaker maxF timeout) 0)
        (BreakerTheorems.mkSys b (in_flight u (reqs s))))) /\
  forall v, Finished (Panicked v) ∉ reqs s.
Proof using Hurls Hparse.
  destruct (reachable_inv _ _ _ Hreach) as [_ Ib Ir _]. split.
  - intros u Hu. destruct (Ib u Hu) as (b & Hb & Hr). exists b. split_and!; [done..|].
    intros Hp. eapply rtc_subrel; [|exact Hr]. by apply own_step_reporting.
  - intros v Hv. rewrite Forall_forall in Ir. by destruct (Ir _ Hv).
Qed.

(** A request is in flight only to an upstream that has answered a probe with
    200; and where every round trip reports once, an upstream whose breaker is
    half-open has a request in flight, whose outcome leaves that state. *)
Theorem racing_requests_sound (interval : Z) (path : string) (s : sys) (Hm : 1 <= maxF <= MaxInt)
    (Hreach : rtc step (start interval path) s) (u : string) :
  ((0 < in_flight u (reqs s))%nat -> u ∈ urls /\ healthy_once (seen s) u) /\
  ((forall res, possible res -> reporting res) ->
   forall b, u ∈ urls -> Proxy.breakers (sh s) !! u = Some b -> Breaker.st b = Breaker.stateHalfOpen -> (0 < in_flight u (reqs s))%nat).
Proof using Hurls Hparse.
  destruct (reachable_inv _ _ _ Hreach) as [_ Ib Ir _]. split.
  - unfold in_flight. destruct (filter _ (reqs s)) as [|ph l] eqn:E; simpl; [lia|]. intros _.
    assert (ph ∈ filter (fun ph => at_upstream u ph = true) (reqs s)) as [Ha Hin]%list_elem_of_filter by (rewrite E; left).
    rewrite Forall_forall in Ir. destruct (Ir ph Hin) as (_ & Ht & _). apply Ht.
    destruct ph; try done; simpl in *; apply bool_decide_eq_true in Ha; by subst.
  - intros Hp b Hu Hb. destruct (Ib u Hu) as (b' & Hb' & Hr). simplify_eq.
    assert (BreakerTheorems.sys_inv maxF (BreakerTheorems.mkSys b (in_flight u (reqs s)))) as (_ & _ & H); [|done].
    eapply (rtc_invariant own_step (BreakerTheorems.sys_inv maxF)); [|..|exact Hr].
    + intros x y Hx Hxy%own_step_reporting; [|done]. by eapply BreakerTheorems.sys_inv_step.
    + unfold BreakerTheorems.sys_inv. simpl. split_and!; [done|lia|done].
Qed.
End Interleavings.

(** ** One request alone *)

(** The accesses of a request with no other between them, at one reading of the clock. *)
Definition solo (now : Z) (res : transport_error + Response) : relation (phase * shared) :=
  fun x y => y = advance now res x.1 x.2.

Lemma solo_next now res c brs n rr :
  match RoundRobin.next_loop c n rr with
  | (Ok u, rr') => rtc (solo now res) (Picking n, Proxy.mkProxy (rr, c) brs) (Picked u, Proxy.mkProxy (rr', c) brs)
  | (Err e, rr') => e = RoundRobin.ErrNoHealthyUpstreams ->
      rtc (solo now res) (Picking n, Proxy.mkProxy (rr, c) brs) (Finished NoUpstream, Proxy.mkProxy (rr', c) brs)
  end.
Proof using Type.
  revert rr. induction n as [|n IH]; intros rr; [intros _; by apply rtc_once|]. cbn [RoundRobin.next_loop].
  destruct (RoundRobin.ticket rr) as [[v|] rr1] eqn:Et; [|done].
  assert (forall y, rtc (solo now res) (if IsHealthy c v then Picked v else Picking n, Proxy.mkProxy (rr1, c) brs) y ->
    rtc (solo now res) (Picking (S n), Proxy.mkProxy (rr, c) brs) y) as Hdraw.
  { intros y Hy. eapply rtc_l; [reflexivity|]. cbn [advance fst snd Proxy.lb Proxy.breakers]. rewrite Et. by eapply rtc_l; [reflexivity|]. }
  destruct (IsHealthy c v); [by apply Hdraw|]. specialize (IH rr1).
  destruct (RoundRobin.next_loop c n rr1) as [[u|e] rr']; [by apply Hdraw|]. intros He. by apply Hdraw, IH.
Qed.

(** The steps are those of the handler: a request whose accesses nothing
    interrupts comes to its end with the balancer and the breakers as
    [Handler.ServeHTTP] leaves them, whatever its round trip shows. *)
Theorem solo_is_ServeHTTP (Inject : Context -> Header -> Header) (error_text : transport_error -> string)
    (s : Routing.state) (t : Z) (r : Request) (res : transport_error + Response)
    (Hne : RoundRobin.urls (Proxy.lb s.1).1 ≠ [])
    (Hall : forall u, u ∈ RoundRobin.urls (Proxy.lb s.1).1 -> is_Some (Proxy.breakers s.1 !! u) /\ is_Some (url_Parse u)) :
  exists f, rtc (solo t res) (Picking (length (RoundRobin.urls (Proxy.lb s.1).1)), s.1)
    (Finished f, (Routing.step url_Parse Inject error_text s (Routing.EvRequest t r res)).1).
Proof using Type.
  assert (forall x l, lb_Next (Proxy.lb s.1) = (x, l) ->
    match x with
    | Ok u => rtc (solo t res) (Picking (length (RoundRobin.urls (Proxy.lb s.1).1)), s.1) (Picked u, Proxy.mkProxy l (Proxy.breakers s.1)) /\
        u ∈ RoundRobin.urls (Proxy.lb s.1).1
    | Err e => e = RoundRobin.ErrNoHealthyUpstreams ->
        rtc (solo t res) (Picking (length (RoundRobin.urls (Proxy.lb s.1).1)), s.1) (Finished NoUpstream, Proxy.mkProxy l (Proxy.breakers s.1))
    end) as Hnext.
  { intros x l Hl. assert (match x with Ok u => u ∈ RoundRobin.urls (Proxy.lb s.1).1 | Err _ => True end) as Hin.
    { destruct x; [|done]. by eapply (lb_member (upstreams := fun l : balancer => RoundRobin.urls l.1)). }
    destruct s as [[[rr c] brs] wd]. simpl in *. pose proof (solo_next t res c brs (length (RoundRobin.urls rr)) rr) as H.
    unfold RoundRobin.Next in Hl. destruct (RoundRobin.next_loop c _ rr) as [[u|e] rr']; injection Hl as <- <-; done. }
  destruct (Routing.request_served url_Parse Inject error_text s t r res Hne Hall) as [l Hl ->|u l b Hl Hb Ha ->|u l b b1 Hl Hb Ha ->].
  - exists NoUpstream. by apply (Hnext _ _ Hl).
  - destruct (Hnext _ _ Hl) as [H _]. exists (Rejected u). eapply rtc_r; [exact H|]. unfold solo. cbn [advance fst snd Proxy.breakers].
    rewrite Hb, Ha. unfold put. cbn. by rewrite insert_id.
  - destruct (Hnext _ _ Hl) as [H Hu]. destruct (Hall u Hu) as [_ [x Hx]]. exists (Served u res). etransitivity; [exact H|].
    eapply rtc_l; [reflexivity|]. cbn [advance fst snd Proxy.breakers]. rewrite Hb, Ha, Hx. eapply rtc_l; [reflexivity|].
    cbn [advance fst snd]. eapply rtc_l; [reflexivity|]. unfold put. cbn [advance fst snd Proxy.breakers Proxy.lb]. rewrite lookup_insert_eq. unfold put.
    cbn [Proxy.breakers Proxy.lb]. rewrite insert_insert_eq.
    destruct res as [e|resp]; [by destruct e|]. unfold Proxy.verdict at 1, Routing.outcomes. cbn [BreakerTheorems.records foldl].
    destruct (StatusCode resp =? 101) eqn:E; [|by destruct (500 <=? StatusCode resp)]. apply Z.eqb_eq in E. rewrite E.
    apply rtc_once. unfold solo. cbn [advance fst snd put Proxy.breakers Proxy.lb]. rewrite lookup_insert_eq. unfold put. cbn. by rewrite insert_insert_eq.
Qed.
End Race.

(** ** Schedules *)

Inductive event :=
| Arrive
| Advance (i : nat) (now : Z) (res : transport_error + Response)
| ProbeDone (u : string) (v : Health.probe).

Section Schedules.
Variable url_Parse : string -> option (string * string).

Definition exec1 (s : sys) (ev : event) : sys :=
  match ev with
  | Arrive => mkSys (sh s) (reqs s ++ [Picking (length (RoundRobin.urls (Proxy.lb (sh s)).1))]) (seen s)
  | Advance i now res =>
      match reqs s !! i with
      | Some ph => let '(ph, p) := advance url_Parse now res ph (sh s) in mkSys p (<[i := ph]> (reqs s)) (seen s)
      | None => s
      end
  | ProbeDone u v => mkSys (probed u v (sh s)) (reqs s) (seen s ++ [(u, v)])
  end.

Definition exec (evs : list event) (s : sys) : sys := foldl exec1 s evs.

Definition results (evs : list event) : list (transport_error + Response) :=
  omap (fun ev => match ev with Advance _ _ res => Some res | _ => None end) evs.

Lemma exec_steps (possible : transport_error + Response -> Prop) evs s :
  Forall possible (results evs) -> rtc (step url_Parse possible) s (exec evs s).
Proof using Type.
  revert s. induction evs as [|ev evs IH]; intros s Hp; [done|].
  assert (Forall possible (results evs)) as Hp' by (destruct ev; [done|by apply Forall_cons in Hp as [_ ?]|done]).
  etransitivity; [|apply IH; exact Hp']. destruct s as [p l h]. destruct ev as [|i t res|u v]; simpl.
  - apply rtc_once, st_arrive.
  - apply Forall_cons in Hp as [Hres _]. destruct (l !! i) as [ph|] eqn:Hi; [|done].
    pose proof (st_advance url_Parse possible p l h i ph t res Hi Hres) as H. destruct (advance _ _ _ _ _). by apply rtc_once.
  - apply rtc_once, st_probe.
Qed.
End Schedules.

Definition ok200 : transport_error + Response := Routing.fine.
Definition down : transport_error + Response := Routing.refused.

(** One upstream, one failure opens its breaker for ten seconds. *)
Notation begin := (start ["a"] 1 (10 * Second) Second "/healthz").

(** Through [Next] and [Allow] at time [t]. *)
Definition enter (i : nat) (t : Z) : list event := [Advance i t ok200; Advance i t ok200; Advance i t ok200].

(** Two requests are admitted; the first fails and opens the breaker; a minute
    later a third is admitted as the test request. *)
Definition opening : list event :=
  [ProbeDone "a" (Health.Responded 200); Arrive; Arrive; Arrive] ++ enter 0 1 ++ enter 1 1 ++
  [Advance 0 2 down; Advance 0 2 down] ++ enter 2 Minute.

(** The second request is answered at last. *)
Definition straggler : list event := [Advance 1 Minute ok200; Advance 1 Minute ok200].

Lemma opening_reports : Forall reporting (results opening) /\ Forall reporting (results (opening ++ straggler)).
Proof. split; repeat constructor. Qed.

(** The outcome that ends the half-open state need not be that of the test
    request: the success of a request that was admitted before the breaker opened
    closes it, while the test request is still on its way. *)
Theorem straggler_closes_breaker :
  let s := exec Routing.parse opening begin in
  let s' := exec Routing.parse straggler s in
  rtc (step Routing.parse reporting) begin s' /\
  (Breaker.st <$> Proxy.breakers (sh s) !! "a") = Some Breaker.stateHalfOpen /\ reqs s !! 2%nat = Some (Sent "a") /\
  (Breaker.st <$> Proxy.breakers (sh s') !! "a") = Some Breaker.stateClosed /\ reqs s' !! 2%nat = Some (Sent "a").
Proof.
  split_and!; try (vm_compute; reflexivity).
  etransitivity; apply exec_steps; [apply opening_reports|]. repeat constructor.
Qed.

(** The test request carries a body beyond the limit: it leaves without a record. *)
Definition oversized : list event := [Advance 2 Minute (inl MaxBytesError); Advance 2 Minute (inl MaxBytesError)].

Lemma racing_requests_refine_breakers_witness :
  (exists b, Proxy.breakers (sh (exec Routing.parse opening begin)) !! "a" = Some b /\
    Breaker.st b = Breaker.stateHalfOpen /\
    rtc BreakerTheorems.sstep (BreakerTheorems.mkSys (Breaker.NewBreaker 1 (10 * Second)) 0) (BreakerTheorems.mkSys b 2)) /\
  (exists b, Proxy.breakers (sh (exec Routing.parse (opening ++ oversized) begin)) !! "a" = Some b /\
    Breaker.st b = Breaker.stateHalfOpen /\
    rtc (own_step (fun _ => True)) (BreakerTheorems.mkSys (Breaker.NewBreaker 1 (10 * Second)) 0) (BreakerTheorems.mkSys b 1)).
Proof.
  split.
  - destruct (racing_requests_refine_breakers Routing.parse reporting ["a"] 1 (10 * Second) ltac:(discriminate) ltac:(by eexists)
      Second "/healthz" (exec Routing.parse opening begin) (exec_steps Routing.parse reporting opening begin (proj1 opening_reports))) as [H _].
    destruct (H "a" ltac:(apply list_elem_of_here)) as (b & Hb & _ & Hr). exists b. split; [exact Hb|].
    assert (in_flight "a" (reqs (exec Routing.parse opening begin)) = 2%nat) as E by (vm_compute; reflexivity).
    rewrite E in Hr. split; [|by apply Hr]. vm_compute in Hb. injection Hb as <-. reflexivity.
  - destruct (racing_requests_refine_breakers Routing.parse (fun _ => True) ["a"] 1 (10 * Second) ltac:(discriminate) ltac:(by eexists)
      Second "/healthz" (exec Routing.parse (opening ++ oversized) begin)
      (exec_steps Routing.parse (fun _ => True) (opening ++ oversized) begin ltac:(by apply Forall_true))) as [H _].
    destruct (H "a" ltac:(apply list_elem_of_here)) as (b & Hb & Hr & _). exists b. split; [exact Hb|].
    assert (in_flight "a" (reqs (exec Routing.parse (opening ++ oversized) begin)) = 1%nat) as E by (vm_compute; reflexivity).
    rewrite E in Hr. split; [|exact Hr]. vm_compute in Hb. injection Hb as <-. reflexivity.
Defined.

End ProxyRace.
