(* ===== verification/Config.v ===== *)
(** * Configuration ([internal/config/config.go], [internal/config/validate.go])

    The records of [gateway.yaml] with the Go zero values where a field is absent,
    [Load] and the validation with its defaults. Durations are nanoseconds, rates
    are IEEE doubles ([spec_float]), pointers are options. Validation writes
    through pointers into the configuration it checks; here it returns the
    configuration it leaves behind. YAML decoding is a parameter. *)

From Stdlib Require Import SpecFloat.
From S2P Require Import Prelude.

Module Config.

Record TelemetryConfig := mkTelemetry { MetricInterval : Z; TraceBatchTimeout : Z; LogBatchTimeout : Z }.

Record TransportConfig := mkTransport {
  MaxIdleConns : Z; MaxIdleConnsPerHost : Z; IdleConnTimeout : Z; DialTimeout : Z; TLSHandshakeTimeout : Z;
}.

Record RedisConfig := mkRedis {
  Addr : string; PoolSize : Z; RedisDialTimeout : Z; ReadTimeout : Z; WriteTimeout : Z; TLS : bool;
}.

Record RateLimitConfig := mkRateLimit {
  Backend : string; Rate : spec_float; Burst : Z; CleanupInterval : Z; CleanupMaxIdle : Z; Redis : RedisConfig;
}.

Record CompressionConfig := mkCompression { Enabled : bool; MinBytes : Z }.

Record HealthCheckConfig := mkHealthCheck { Interval : Z; Path : string }.

Record CBConfig := mkCB { MaxFailures : Z; Timeout : Z }.

Record ServiceRateLimitConfig := mkServiceRate { SvcRate : spec_float; SvcBurst : Z; KeyBy : string }.

Record ServiceCacheConfig := mkServiceCache { TTL : Z; MaxEntries : Z; MaxBytes : Z }.

Record ServiceConfig := mkService {
  Name : string;
  Prefix : string;
  Upstreams : list string;
  Auth : bool;
  RequiredRoles : list string;
  SvcRateLimit : option ServiceRateLimitConfig;
  Cache : option ServiceCacheConfig;
}.

Record GatewayConfig := mkGateway {
  Port : Z;
  MaxBodyBytes : Z;
  MaxHeaderBytes : Z;
  MaxInFlight : Z;
  Compression : CompressionConfig;
  RateLimit : option RateLimitConfig;
  HealthCheck : HealthCheckConfig;
  CircuitBreaker : option CBConfig;
  Transport : TransportConfig;
  Telemetry : TelemetryConfig;
  Services : list ServiceConfig;
  OTelEndpoint : string;
  JWTPublicKey : string;
  RedisPassword : string;
}.

(** ** Errors, one per message *)

Inductive config_error :=
| NoServices
| NameRequired (i : nat)
| PrefixRequired (name : string)
| UpstreamRequired (name : string)
| DuplicateName (name : string)
| DuplicatePrefix (name prefix : string)
| RolesNeedAuth (name : string)
| SvcRatePositive (name : string)
| SvcBurstPositive (name : string)
| JwtSubNeedsAuth (name : string)
| KeyByUnknown (name keyBy : string)
| RatePositive
| BurstPositive
| RedisAddrRequired
| BackendUnknown (backend : string)
| MaxFailuresPositive
| TimeoutPositive.

Notation check A := (config_error + A)%type.

Definition check_bind {A B} (c : check A) (k : A -> check B) : check B :=
  match c with inl e => inl e | inr a => k a end.

Notation "'try' x := c1 'in' c2" := (check_bind c1 (fun x => c2))
  (at level 10, x pattern, c1 at level 200, c2 at level 200).

Notation "'reject' e 'when' b ; c" := (if b then inl e else c)
  (at level 10, e at level 9, b at level 200, c at level 200).

(** [x <= 0] on doubles: false for a NaN. *)
Definition float_le_zero (x : spec_float) : bool := SFleb x (S754_zero false).

(** ** Validation *)

Definition validateServiceRateLimit (svc : ServiceConfig) : check ServiceConfig :=
  match SvcRateLimit svc with
  | None => inr svc
  | Some rl =>
      reject (SvcRatePositive (Name svc)) when float_le_zero (SvcRate rl);
      reject (SvcBurstPositive (Name svc)) when SvcBurst rl <=? 0;
      if bool_decide (KeyBy rl = EmptyString) || bool_decide (KeyBy rl = "ip") then
        inr (mkService (Name svc) (Prefix svc) (Upstreams svc) (Auth svc) (RequiredRoles svc)
               (Some (mkServiceRate (SvcRate rl) (SvcBurst rl) "ip")) (Cache svc))
      else if bool_decide (KeyBy rl = "jwt_sub") then
        reject (JwtSubNeedsAuth (Name svc)) when negb (Auth svc); inr svc
      else inl (KeyByUnknown (Name svc) (KeyBy rl))
  end.

Definition positive_or (d x : Z) : Z := if x <=? 0 then d else x.

Definition applyServiceCacheDefaults (svc : ServiceConfig) : ServiceConfig :=
  match Cache svc with
  | None => svc
  | Some cc =>
      mkService (Name svc) (Prefix svc) (Upstreams svc) (Auth svc) (RequiredRoles svc) (SvcRateLimit svc)
        (Some (mkServiceCache (positive_or (60 * Second) (TTL cc)) (positive_or 1024 (MaxEntries cc))
                 (positive_or (Z.shiftl 16 20) (MaxBytes cc))))
  end.

(** The loop of [validateServices] from index [i] on. *)
Fixpoint validate_services (i : nat) (seenName seenPrefix : gset string) (svcs : list ServiceConfig) :
    check (list ServiceConfig) :=
  match svcs with
  | [] => inr []
  | svc :: svcs =>
      reject (NameRequired i) when bool_decide (Name svc = EmptyString);
      reject (PrefixRequired (Name svc)) when bool_decide (Prefix svc = EmptyString);
      reject (UpstreamRequired (Name svc)) when bool_decide (Upstreams svc = []);
      reject (DuplicateName (Name svc)) when bool_decide (Name svc ∈ seenName);
      reject (DuplicatePrefix (Name svc) (Prefix svc)) when bool_decide (Prefix svc ∈ seenPrefix);
      reject (RolesNeedAuth (Name svc)) when bool_decide (RequiredRoles svc ≠ []) && negb (Auth svc);
      try svc' := validateServiceRateLimit svc in
      let svc' := applyServiceCacheDefaults svc' in
      try rest := validate_services (S i) ({[Name svc]} ∪ seenName) ({[Prefix svc]} ∪ seenPrefix) svcs in
      inr (svc' :: rest)
  end.

Definition validateServices (svcs : list ServiceConfig) : check (list ServiceConfig) :=
  reject NoServices when bool_decide (svcs = []);
  validate_services 0 ∅ ∅ svcs.

Definition validateRateLimit (rl : option RateLimitConfig) : check (option RateLimitConfig) :=
  match rl with
  | None => inr None
  | Some rl =>
      reject RatePositive when float_le_zero (Rate rl);
      reject BurstPositive when Burst rl <=? 0;
      let backend := if decide (Backend rl = EmptyString) then "memory" else Backend rl in
      let finish := Some (mkRateLimit backend (Rate rl) (Burst rl) (positive_or (1 * Minute) (CleanupInterval rl))
                            (positive_or (3 * Minute) (CleanupMaxIdle rl)) (Redis rl)) in
      if decide (backend = "memory") then inr finish
      else if decide (backend = "redis") then
        reject RedisAddrRequired when bool_decide (Addr (Redis rl) = EmptyString); inr finish
      else inl (BackendUnknown backend)
  end.

Definition validateCircuitBreaker (cb : option CBConfig) : check unit :=
  match cb with
  | None => inr tt
  | Some cb =>
      reject MaxFailuresPositive when MaxFailures cb <=? 0;
      reject TimeoutPositive when Timeout cb <=? 0;
      inr tt
  end.

Definition applyHealthCheckDefaults (hc : HealthCheckConfig) : HealthCheckConfig :=
  mkHealthCheck (positive_or (5 * Second) (Interval hc)) (if decide (Path hc = EmptyString) then "/healthz" else Path hc).

Definition applyCompressionDefaults (cmp : CompressionConfig) : CompressionConfig :=
  if Enabled cmp && (MinBytes cmp <=? 0) then mkCompression (Enabled cmp) 1024 else cmp.

Definition applyTelemetryDefaults (t : TelemetryConfig) : TelemetryConfig :=
  mkTelemetry (positive_or (10 * Second) (MetricInterval t)) (positive_or (5 * Second) (TraceBatchTimeout t))
    (positive_or (1 * Second) (LogBatchTimeout t)).

Definition applyTransportDefaults (t : TransportConfig) : TransportConfig :=
  mkTransport (positive_or 1000 (MaxIdleConns t)) (positive_or 200 (MaxIdleConnsPerHost t))
    (positive_or (90 * Second) (IdleConnTimeout t)) (positive_or (5 * Second) (DialTimeout t))
    (positive_or (5 * Second) (TLSHandshakeTimeout t)).

(** [applyServerLimitDefaults]: body and header bounds. *)
Definition default_MaxBodyBytes (cfg : GatewayConfig) : Z := positive_or (Z.shiftl 1 20) (MaxBodyBytes cfg).
Definition default_MaxHeaderBytes (cfg : GatewayConfig) : Z := positive_or (Z.shiftl 32 10) (MaxHeaderBytes cfg).

Definition validate (cfg : GatewayConfig) : check GatewayConfig :=
  try services := validateServices (Services cfg) in
  try rateLimit := validateRateLimit (RateLimit cfg) in
  try _ := validateCircuitBreaker (CircuitBreaker cfg) in
  inr (mkGateway (Port cfg) (default_MaxBodyBytes cfg) (default_MaxHeaderBytes cfg) (MaxInFlight cfg)
         (applyCompressionDefaults (Compression cfg)) rateLimit (applyHealthCheckDefaults (HealthCheck cfg))
         (CircuitBreaker cfg) (applyTransportDefaults (Transport cfg)) (applyTelemetryDefaults (Telemetry cfg))
         services (OTelEndpoint cfg) (JWTPublicKey cfg) (RedisPassword cfg)).

(** [Load]: [file] is what [os.ReadFile] returns, [Unmarshal] the YAML decoder,
    [Getenv] the environment. *)
Inductive load_error := ReadError (e : string) | ParseError (e : string) | Invalid (e : config_error).

Definition Load (file : result string) (Unmarshal : string -> result GatewayConfig) (Getenv : string -> string) :
    load_error + GatewayConfig :=
  match file with
  | Err e => inl (ReadError e)
  | Ok data =>
      match Unmarshal data with
      | Err e => inl (ParseError e)
      | Ok cfg =>
          let cfg := mkGateway (if Port cfg =? 0 then 8080 else Port cfg) (MaxBodyBytes cfg) (MaxHeaderBytes cfg)
                       (MaxInFlight cfg) (Compression cfg) (RateLimit cfg) (HealthCheck cfg) (CircuitBreaker cfg)
                       (Transport cfg) (Telemetry cfg) (Services cfg)
                       (Getenv "OTEL_EXPORTER_OTLP_ENDPOINT") (Getenv "JWT_PUBLIC_KEY_PATH") (Getenv "REDIS_PASSWORD") in
          match validate cfg with
          | inl e => inl (Invalid e)
          | inr cfg => inr cfg
          end
      end
  end.

(** ** What validation accepts and what it leaves behind

    The specification is written out without the functions of the code. *)

(** A rate that passes: positive, infinite, or not a number. *)
Definition rate_passes (x : spec_float) : Prop :=
  match x with S754_finite false _ _ | S754_infinity false | S754_nan => True | _ => False end.

Lemma rate_passes_iff x : float_le_zero x = false <-> rate_passes x.
Proof. destruct x as [[]|[]| |[] m e]; done. Qed.

Record rate_ok (auth : bool) (rl : ServiceRateLimitConfig) : Prop := {
  rate_ok_rate : rate_passes (SvcRate rl);
  rate_ok_burst : 0 < SvcBurst rl;
  rate_ok_key : KeyBy rl = EmptyString \/ KeyBy rl = "ip" \/ (KeyBy rl = "jwt_sub" /\ auth = true);
}.

Record service_ok (svc : ServiceConfig) : Prop := {
  svc_name : Name svc ≠ EmptyString;
  svc_prefix : Prefix svc ≠ EmptyString;
  svc_upstreams : Upstreams svc ≠ [];
  svc_roles : RequiredRoles svc ≠ [] -> Auth svc = true;
  svc_rate : forall rl, SvcRateLimit svc = Some rl -> rate_ok (Auth svc) rl;
}.

Definition normal_rate (rl : ServiceRateLimitConfig) : ServiceRateLimitConfig :=
  mkServiceRate (SvcRate rl) (SvcBurst rl) (if decide (KeyBy rl = EmptyString) then "ip" else KeyBy rl).

Definition normal_cache (cc : ServiceCacheConfig) : ServiceCacheConfig :=
  mkServiceCache (positive_or (60 * Second) (TTL cc)) (positive_or 1024 (MaxEntries cc)) (positive_or 16777216 (MaxBytes cc)).

Definition normal_service (svc : ServiceConfig) : ServiceConfig :=
  mkService (Name svc) (Prefix svc) (Upstreams svc) (Auth svc) (RequiredRoles svc)
    (normal_rate <$> SvcRateLimit svc) (normal_cache <$> Cache svc).

Record limit_ok (rl : RateLimitConfig) : Prop := {
  limit_ok_rate : rate_passes (Rate rl);
  limit_ok_burst : 0 < Burst rl;
  limit_ok_backend : Backend rl = EmptyString \/ Backend rl = "memory" \/ (Backend rl = "redis" /\ Addr (Redis rl) ≠ EmptyString);
}.

Definition normal_limit (rl : RateLimitConfig) : RateLimitConfig :=
  mkRateLimit (if decide (Backend rl = EmptyString) then "memory" else Backend rl) (Rate rl) (Burst rl)
    (positive_or Minute (CleanupInterval rl)) (positive_or (3 * Minute) (CleanupMaxIdle rl)) (Redis rl).

Record acceptable (cfg : GatewayConfig) : Prop := {
  acc_some : Services cfg ≠ [];
  acc_names : NoDup (Name <$> Services cfg);
  acc_prefixes : NoDup (Prefix <$> Services cfg);
  acc_services : Forall service_ok (Services cfg);
  acc_limit : forall rl, RateLimit cfg = Some rl -> limit_ok rl;
  acc_breaker : forall cb, CircuitBreaker cfg = Some cb -> 0 < MaxFailures cb /\ 0 < Timeout cb;
}.

(** The configuration with every default filled in. *)
Definition normal (cfg : GatewayConfig) : GatewayConfig :=
  mkGateway (Port cfg) (positive_or 1048576 (MaxBodyBytes cfg)) (positive_or 32768 (MaxHeaderBytes cfg)) (MaxInFlight cfg)
    (applyCompressionDefaults (Compression cfg)) (normal_limit <$> RateLimit cfg) (applyHealthCheckDefaults (HealthCheck cfg))
    (CircuitBreaker cfg) (applyTransportDefaults (Transport cfg)) (applyTelemetryDefaults (Telemetry cfg))
    (normal_service <$> Services cfg) (OTelEndpoint cfg) (JWTPublicKey cfg) (RedisPassword cfg).

Lemma check_bind_inr {A B} (c : check A) (k : A -> check B) b :
  check_bind c k = inr b <-> exists a, c = inr a /\ k a = inr b.
Proof. destruct c; simpl; naive_solver. Qed.

Lemma reject_inr {A} (e : config_error) (b : bool) (c : check A) a :
  (if b then inl e else c) = inr a <-> b = false /\ c = inr a.
Proof. destruct b; naive_solver. Qed.

Lemma service_rate_iff svc svc' :
  validateServiceRateLimit svc = inr svc' <->
    (forall rl, SvcRateLimit svc = Some rl -> rate_ok (Auth svc) rl) /\
    svc' = mkService (Name svc) (Prefix svc) (Upstreams svc) (Auth svc) (RequiredRoles svc)
             (normal_rate <$> SvcRateLimit svc) (Cache svc).
Proof.
  destruct svc as [n p us au rs [rl|] ca]; unfold validateServiceRateLimit; simpl; [|naive_solver].
  rewrite !reject_inr, Z.leb_gt, rate_passes_iff. destruct rl as [rate burst key]; unfold normal_rate; simpl.
  destruct (decide (key = EmptyString)) as [->|Hk1]; simpl.
  { split.
    - intros (? & ? & [= <-]). split; [|done]. intros rl [= <-]. split; simpl; auto.
    - intros [H ->]. destruct (H _ eq_refl). done. }
  rewrite (bool_decide_eq_false_2 _ Hk1). simpl.
  destruct (decide (key = "ip")) as [->|Hk2]; simpl.
  { split.
    - intros (? & ? & [= <-]). split; [|done]. intros rl [= <-]. split; simpl; auto.
    - intros [H ->]. destruct (H _ eq_refl). done. }
  rewrite (bool_decide_eq_false_2 _ Hk2). simpl.
  destruct (decide (key = "jwt_sub")) as [->|Hk3]; simpl.
  { rewrite reject_inr. split.
    - intros (? & ? & Ha%negb_false_iff & [= <-]). split; [|done]. intros rl [= <-]. split; simpl; auto.
    - intros [H ->]. destruct (H _ eq_refl) as [? ? [?|[?|[_ Ha]]]]; try done. simpl in *. by rewrite Ha. }
  rewrite (bool_decide_eq_false_2 _ Hk3). split; [naive_solver|].
  intros [H _]. destruct (H _ eq_refl) as [? ? [?|[?|[? _]]]]; done.
Qed.

Lemma services_iff i N P svcs svcs' :
  validate_services i N P svcs = inr svcs' <->
    Forall service_ok svcs /\ NoDup (Name <$> svcs) /\ NoDup (Prefix <$> svcs) /\
    (forall svc, svc ∈ svcs -> Name svc ∉ N /\ Prefix svc ∉ P) /\ svcs' = normal_service <$> svcs.
Proof.
  revert i N P svcs'. induction svcs as [|svc svcs IH]; intros i N P svcs'; csimpl.
  - split; [intros [= <-]|naive_solver]. split_and!; try constructor; set_solver.
  - rewrite !reject_inr, check_bind_inr, !bool_decide_eq_false.
    setoid_rewrite check_bind_inr. setoid_rewrite IH. setoid_rewrite service_rate_iff.
    rewrite Forall_cons, !NoDup_cons. split.
    + intros (H1 & H2 & H3 & H4 & H5 & H6 & svc1 & (H7 & ->) & rest & (H8 & H9 & H10 & H11 & ->) & [= <-]).
      apply andb_false_iff in H6. split_and!; try done.
      * constructor; try done. intros Hr. destruct H6 as [H6|H6]; [by bool2prop|by apply negb_false_iff in H6].
      * intros (x & Hx & Hin)%list_elem_of_fmap. destruct (H11 x Hin) as [Hn _]. apply Hn. set_solver.
      * intros (x & Hx & Hin)%list_elem_of_fmap. destruct (H11 x Hin) as [_ Hn]. apply Hn. set_solver.
      * intros x [-> |Hin]%elem_of_cons; [done|]. destruct (H11 x Hin). set_solver.
      * f_equal. by destruct svc as [n p us au rs [rl|] [ca|]].
    + intros ((Hok & H8) & (Hn & H9) & (Hp & H10) & H11 & ->). destruct Hok as [K1 K2 K3 K4 K5].
      destruct (H11 svc) as [H4 H5]; [set_solver|]. split_and!; try done.
      { apply andb_false_iff. destruct (decide (RequiredRoles svc = [])) as [E|E];
          [left; by apply bool_decide_eq_false_2; intros ?|right; by rewrite K4]. }
      eexists. split; [by split|]. eexists. split.
      * split_and!; [done..| |done]. intros x Hin. destruct (H11 x) as [Hx1 Hx2]; [set_solver|].
        split; intros [E|?]%elem_of_union; try done; apply elem_of_singleton in E.
        -- apply Hn. rewrite <- E. by apply list_elem_of_fmap_2.
        -- apply Hp. rewrite <- E. by apply list_elem_of_fmap_2.
      * by destruct svc as [n p us au rs [rl|] [ca|]].
Qed.

Lemma limit_iff rl rl' :
  validateRateLimit rl = inr rl' <-> (forall x, rl = Some x -> limit_ok x) /\ rl' = normal_limit <$> rl.
Proof.
  destruct rl as [[be ra bu ci cm re]|]; unfold validateRateLimit; simpl; [|naive_solver].
  rewrite !reject_inr, Z.leb_gt, rate_passes_iff. unfold normal_limit. simpl.
  destruct (decide (be = EmptyString)) as [->|Hb1].
  { rewrite decide_True by done. split.
    - intros (? & ? & [= <-]). split; [|done]. intros x [= <-]. split; simpl; auto.
    - intros [H ->]. destruct (H _ eq_refl). done. }
  destruct (decide (be = "memory")) as [->|Hb2].
  { split.
    - intros (? & ? & [= <-]). split; [|done]. intros x [= <-]. split; simpl; auto.
    - intros [H ->]. destruct (H _ eq_refl). done. }
  destruct (decide (be = "redis")) as [->|Hb3].
  { rewrite reject_inr, bool_decide_eq_false. split.
    - intros (? & ? & ? & [= <-]). split; [|done]. intros x [= <-]. split; simpl; auto.
    - intros [H ->]. destruct (H _ eq_refl) as [? ? [?|[?|[_ Ha]]]]; done. }
  split; [naive_solver|]. intros [H _]. destruct (H _ eq_refl) as [? ? [?|[?|[? _]]]]; done.
Qed.

Lemma breaker_iff cb :
  validateCircuitBreaker cb = inr tt <-> forall x, cb = Some x -> 0 < MaxFailures x /\ 0 < Timeout x.
Proof.
  destruct cb as [cb|]; unfold validateCircuitBreaker; simpl; [|naive_solver].
  rewrite !reject_inr, !Z.leb_gt. naive_solver.
Qed.

Lemma validate_spec cfg cfg' : validate cfg = inr cfg' <-> acceptable cfg /\ cfg' = normal cfg.
Proof.
  unfold validate, validateServices. rewrite check_bind_inr.
  setoid_rewrite reject_inr. setoid_rewrite bool_decide_eq_false. setoid_rewrite services_iff.
  setoid_rewrite check_bind_inr. setoid_rewrite limit_iff. setoid_rewrite check_bind_inr. split.
  - intros (svcs & (H1 & H2 & H3 & H4 & _ & ->) & rl & (H5 & ->) & [] & H6 & [= <-]).
    split; [|done]. constructor; try done. by apply breaker_iff.
  - intros [[H1 H2 H3 H4 H5 H6] ->]. eexists. split; [split_and!; done || set_solver|].
    eexists. split; [by split|]. exists tt. split; [by apply breaker_iff|done].
Qed.

(** *** The defaults *)

(** [y] is in effect for the configured [x]: [x] itself if it is positive, else the default [d]. *)
Definition in_effect (d x y : Z) : Prop := (0 < x /\ y = x) \/ (x <= 0 /\ y = d).

Definition given_or (d x y : string) : Prop := (x ≠ EmptyString /\ y = x) \/ (x = EmptyString /\ y = d).

Definition both_or_none {A} (R : A -> A -> Prop) (x y : option A) : Prop :=
  match x, y with Some a, Some b => R a b | None, None => True | _, _ => False end.

Record completed_rate (x y : ServiceRateLimitConfig) : Prop := {
  cr_rate : SvcRate y = SvcRate x;
  cr_burst : SvcBurst y = SvcBurst x;
  cr_key : given_or "ip" (KeyBy x) (KeyBy y);
}.

Record completed_cache (x y : ServiceCacheConfig) : Prop := {
  cc_ttl : in_effect (60 * Second) (TTL x) (TTL y);
  cc_entries : in_effect 1024 (MaxEntries x) (MaxEntries y);
  cc_bytes : in_effect 16777216 (MaxBytes x) (MaxBytes y);
}.

Record completed_service (x y : ServiceConfig) : Prop := {
  cs_name : Name y = Name x;
  cs_prefix : Prefix y = Prefix x;
  cs_upstreams : Upstreams y = Upstreams x;
  cs_auth : Auth y = Auth x;
  cs_roles : RequiredRoles y = RequiredRoles x;
  cs_rate : both_or_none completed_rate (SvcRateLimit x) (SvcRateLimit y);
  cs_cache : both_or_none completed_cache (Cache x) (Cache y);
}.

Record completed_limit (x y : RateLimitConfig) : Prop := {
  cl_backend : given_or "memory" (Backend x) (Backend y);
  cl_rate : Rate y = Rate x;
  cl_burst : Burst y = Burst x;
  cl_interval : in_effect Minute (CleanupInterval x) (CleanupInterval y);
  cl_idle : in_effect (3 * Minute) (CleanupMaxIdle x) (CleanupMaxIdle y);
  cl_redis : Redis y = Redis x;
}.

(** [y] is [x] with every default filled in and nothing else changed. *)
Record completed (x y : GatewayConfig) : Prop := {
  co_port : Port y = Port x;
  co_body : in_effect 1048576 (MaxBodyBytes x) (MaxBodyBytes y);
  co_header : in_effect 32768 (MaxHeaderBytes x) (MaxHeaderBytes y);
  co_inflight : MaxInFlight y = MaxInFlight x;
  co_compression : Enabled (Compression y) = Enabled (Compression x) /\
    if Enabled (Compression x) then in_effect 1024 (MinBytes (Compression x)) (MinBytes (Compression y))
    else MinBytes (Compression y) = MinBytes (Compression x);
  co_limit : both_or_none completed_limit (RateLimit x) (RateLimit y);
  co_interval : in_effect (5 * Second) (Interval (HealthCheck x)) (Interval (HealthCheck y));
  co_path : given_or "/healthz" (Path (HealthCheck x)) (Path (HealthCheck y));
  co_breaker : CircuitBreaker y = CircuitBreaker x;
  co_idle : in_effect 1000 (MaxIdleConns (Transport x)) (MaxIdleConns (Transport y));
  co_idle_host : in_effect 200 (MaxIdleConnsPerHost (Transport x)) (MaxIdleConnsPerHost (Transport y));
  co_idle_timeout : in_effect (90 * Second) (IdleConnTimeout (Transport x)) (IdleConnTimeout (Transport y));
  co_dial : in_effect (5 * Second) (DialTimeout (Transport x)) (DialTimeout (Transport y));
  co_handshake : in_effect (5 * Second) (TLSHandshakeTimeout (Transport x)) (TLSHandshakeTimeout (Transport y));
  co_metrics : in_effect (10 * Second) (MetricInterval (Telemetry x)) (MetricInterval (Telemetry y));
  co_traces : in_effect (5 * Second) (TraceBatchTimeout (Telemetry x)) (TraceBatchTimeout (Telemetry y));
  co_logs : in_effect (1 * Second) (LogBatchTimeout (Telemetry x)) (LogBatchTimeout (Telemetry y));
  co_services : Forall2 completed_service (Services x) (Services y);
  co_endpoint : OTelEndpoint y = OTelEndpoint x;
  co_key : JWTPublicKey y = JWTPublicKey x;
  co_password : RedisPassword y = RedisPassword x;
}.

Lemma in_effect_iff d x y : in_effect d x y <-> y = positive_or d x.
Proof. unfold in_effect, positive_or. destruct (Z.leb_spec x 0); intuition lia. Qed.

Lemma given_or_iff d x y : given_or d x y <-> y = if decide (x = EmptyString) then d else x.
Proof. unfold given_or. case_decide; naive_solver. Qed.

Lemma both_or_none_iff {A} (R : A -> A -> Prop) (f : A -> A) x y :
  (forall a b, R a b <-> b = f a) -> both_or_none R x y <-> y = f <$> x.
Proof. intros H. destruct x, y; simpl; [rewrite H; naive_solver|split; [done|by intros [=]]..|done]. Qed.

Lemma completed_service_iff x y : completed_service x y <-> y = normal_service x.
Proof.
  assert (forall a b, completed_rate a b <-> b = normal_rate a) as Hr.
  { intros [] []. split.
    - intros [H1 H2 H3%given_or_iff]. simpl in *. by subst.
    - intros [= -> -> ->]. constructor; simpl; try done. by apply given_or_iff. }
  assert (forall a b, completed_cache a b <-> b = normal_cache a) as Hc.
  { intros [] []. split.
    - intros [H1%in_effect_iff H2%in_effect_iff H3%in_effect_iff]. simpl in *. by subst.
    - intros [= -> -> ->]. constructor; by apply in_effect_iff. }
  destruct x, y. split.
  - intros [H1 H2 H3 H4 H5 H6 H7]. simpl in *. apply (both_or_none_iff _ _ _ _ Hr) in H6. apply (both_or_none_iff _ _ _ _ Hc) in H7.
    unfold normal_service. simpl. by subst.
  - intros [= -> -> -> -> -> -> ->]. constructor; simpl; try done; by eapply both_or_none_iff.
Qed.

Lemma completed_limit_iff x y : completed_limit x y <-> y = normal_limit x.
Proof.
  destruct x, y. split.
  - intros [H1%given_or_iff H2 H3 H4%in_effect_iff H5%in_effect_iff H6]. simpl in *. unfold normal_limit. simpl. by subst.
  - intros [= -> -> -> -> -> ->]. constructor; simpl; try done; by (apply given_or_iff || apply in_effect_iff).
Qed.

Lemma completed_iff x y : completed x y <-> y = normal x.
Proof.
  assert (forall l k, Forall2 completed_service l k <-> k = normal_service <$> l) as Hs.
  { induction l as [|a l IH]; intros k; [destruct k; split; intros H; done || inversion H|].
    csimpl. split.
    - intros (b & k' & Hb%completed_service_iff & Hk%IH & ->)%Forall2_cons_inv_l. by subst.
    - intros ->. constructor; [by apply completed_service_iff|by apply IH]. }
  destruct x as [po mb mh mi [en mn] rl [iv pa] cb [a b c d e] [f g h] svcs ot jw re].
  destruct y as [po' mb' mh' mi' [en' mn'] rl' [iv' pa'] cb' [a' b' c' d' e'] [f' g' h'] svcs' ot' jw' re'].
  assert ((if en then in_effect 1024 mn mn' else mn' = mn) <-> mn' = if en && (mn <=? 0) then 1024 else mn) as Hm.
  { destruct en; [|done]. rewrite in_effect_iff. unfold positive_or. by destruct (mn <=? 0). }
  split.
  - intros [H1 H2%in_effect_iff H3%in_effect_iff H4 [H5 H6%Hm] H7%(both_or_none_iff _ _ _ _ completed_limit_iff) H8%in_effect_iff
      H9%given_or_iff H10 H11%in_effect_iff H12%in_effect_iff H13%in_effect_iff H14%in_effect_iff H15%in_effect_iff H16%in_effect_iff
      H17%in_effect_iff H18%in_effect_iff H19%Hs H20 H21 H22]. simpl in *. subst.
    unfold normal, applyCompressionDefaults. simpl. by destruct (en && (mn <=? 0)).
  - unfold normal, applyCompressionDefaults. simpl. intros [= -> -> -> -> Hc -> -> -> -> -> -> -> -> -> -> -> -> -> -> -> ->].
    constructor; simpl; try done; try (by apply in_effect_iff).
    + destruct (en && (mn <=? 0)) eqn:E; simplify_eq; split; try done; by apply Hm.
    + by apply (both_or_none_iff _ _ _ _ completed_limit_iff).
    + by apply given_or_iff.
    + by apply Hs.
Qed.

(** ** Theorems *)

(** C20. Validation is exact: it succeeds precisely on configurations with at
    least one service, distinct non-empty names and prefixes, at least one
    upstream per service, authentication where roles or per-subject limits need
    it, positive bursts and breaker settings, and rates that are neither zero nor
    negative (a rate that is not a number passes too); and the result is the given
    configuration with the documented defaults, in [completed] field by field,
    wherever a value was missing or not positive, and nothing else changed. *)
Theorem validate_exact (cfg cfg' : GatewayConfig) :
  validate cfg = inr cfg' <-> acceptable cfg /\ completed cfg cfg'.
Proof. rewrite completed_iff. apply validate_spec. Qed.

Lemma positive_or_positive d x : 0 < d -> 0 < positive_or d x.
Proof. unfold positive_or. destruct (x <=? 0) eqn:E; bool2prop; lia. Qed.

Lemma positive_or_idem d x : 0 < d -> positive_or d (positive_or d x) = positive_or d x.
Proof. unfold positive_or. intros. destruct (x <=? 0) eqn:E; [|by rewrite E]. rewrite (proj2 (Z.leb_gt _ _)) by lia. done. Qed.

(** A configuration the rest of the gateway can rely on. *)
Record ready (cfg : GatewayConfig) : Prop := {
  ready_acceptable : acceptable cfg;
  ready_body : 0 < MaxBodyBytes cfg;
  ready_header : 0 < MaxHeaderBytes cfg;
  ready_health : 0 < Interval (HealthCheck cfg) /\ Path (HealthCheck cfg) ≠ EmptyString;
  ready_compression : Enabled (Compression cfg) = true -> 0 < MinBytes (Compression cfg);
  ready_transport : 0 < MaxIdleConns (Transport cfg) /\ 0 < MaxIdleConnsPerHost (Transport cfg) /\
    0 < IdleConnTimeout (Transport cfg) /\ 0 < DialTimeout (Transport cfg) /\ 0 < TLSHandshakeTimeout (Transport cfg);
  ready_telemetry : 0 < MetricInterval (Telemetry cfg) /\ 0 < TraceBatchTimeout (Telemetry cfg) /\ 0 < LogBatchTimeout (Telemetry cfg);
  ready_limit : forall rl, RateLimit cfg = Some rl ->
    (Backend rl = "memory" \/ Backend rl = "redis" /\ Addr (Redis rl) ≠ EmptyString) /\
    0 < CleanupInterval rl /\ 0 < CleanupMaxIdle rl;
  ready_caches : forall svc cc, svc ∈ Services cfg -> Cache svc = Some cc -> 0 < TTL cc /\ 0 < MaxEntries cc /\ 0 < MaxBytes cc;
  ready_keys : forall svc rl, svc ∈ Services cfg -> SvcRateLimit svc = Some rl ->
    KeyBy rl = "ip" \/ KeyBy rl = "jwt_sub" /\ Auth svc = true;
}.

Lemma normal_caches cfg svc cc :
  svc ∈ Services (normal cfg) -> Cache svc = Some cc -> 0 < TTL cc /\ 0 < MaxEntries cc /\ 0 < MaxBytes cc.
Proof.
  intros (svc0 & -> & _)%list_elem_of_fmap. simpl. intros (cc0 & _ & ->)%fmap_Some. simpl.
  split_and!; by apply positive_or_positive.
Qed.

Lemma service_ok_normal svc : service_ok svc -> service_ok (normal_service svc).
Proof.
  intros [H1 H2 H3 H4 H5]. constructor; simpl; try done. intros rl (rl0 & E & ->)%fmap_Some.
  destruct (H5 _ E) as [R1 R2 R3]. constructor; simpl; [done..|]. case_decide; tauto.
Qed.

Lemma normal_acceptable cfg : acceptable cfg -> acceptable (normal cfg).
Proof.
  intros [H1 H2 H3 H4 H5 H6]. constructor; simpl; try done.
  - by intros ?%fmap_nil_inv.
  - by rewrite <- list_fmap_compose.
  - by rewrite <- list_fmap_compose.
  - apply Forall_fmap. eapply Forall_impl; [exact H4|]. apply service_ok_normal.
  - intros rl (rl0 & E & ->)%fmap_Some. destruct (H5 _ E) as [R1 R2 R3]. constructor; simpl; [done..|]. case_decide; tauto.
Qed.

Lemma validated_ready cfg cfg' : validate cfg = inr cfg' -> ready cfg'.
Proof.
  intros Hv. apply validate_spec in Hv as [Hacc ->]. pose proof (normal_acceptable _ Hacc) as Hn.
  destruct Hacc as [H1 H2 H3 H4 H5 H6].
  constructor; simpl; try done; try (split_and!; apply positive_or_positive; done); try (by apply positive_or_positive).
  - split; [by apply positive_or_positive|]. by case_decide.
  - unfold applyCompressionDefaults. destruct (Enabled (Compression cfg)) eqn:E; simpl; [|congruence].
    destruct (MinBytes _ <=? 0) eqn:E2; simpl; [lia|]. bool2prop. lia.
  - intros rl (rl0 & E & ->)%fmap_Some. destruct (H5 _ E) as [R1 R2 R3]. simpl.
    split_and!; [case_decide; tauto|by apply positive_or_positive..].
  - intros svc cc. by apply (normal_caches cfg).
  - intros svc rl (svc0 & -> & Hin)%list_elem_of_fmap (rl0 & E & ->)%fmap_Some. simpl.
    rewrite Forall_forall in H4. destruct (svc_rate _ (H4 _ Hin) _ E) as [_ _ R3]. case_decide; tauto.
Qed.

(** Everything the gateway relies on holds after a successful validation:
    positive body, header, pool, timeout and cache bounds, a known rate-limit
    backend, and per-subject keys only on authenticated services. *)
Theorem validate_establishes (cfg cfg' : GatewayConfig) (Hv : validate cfg = inr cfg') : ready cfg'.
Proof. exact (validated_ready _ _ Hv). Qed.

Lemma normal_service_idem svc : normal_service (normal_service svc) = normal_service svc.
Proof.
  destruct svc as [n p us au rs rl ca]. unfold normal_service. simpl. f_equal.
  - destruct rl as [[r b k]|]; [|done]. simpl. unfold normal_rate. simpl. do 2 f_equal. by repeat case_decide.
  - destruct ca as [[t e b]|]; [|done]. simpl. unfold normal_cache. simpl. by rewrite !positive_or_idem.
Qed.

Lemma normal_idem cfg : normal (normal cfg) = normal cfg.
Proof.
  destruct cfg as [po mb mh mi [en mn] rl [iv pa] cb [a b c d e] [f g h] svcs ot jw re].
  unfold normal, applyHealthCheckDefaults, applyTransportDefaults, applyTelemetryDefaults. simpl.
  rewrite !positive_or_idem by done. f_equal.
  - unfold applyCompressionDefaults. simpl. destruct en; simpl; [|done]. destruct (mn <=? 0) eqn:E; simpl; [done|by rewrite E].
  - destruct rl as [[be ra bu ci cm rd]|]; [|done]. simpl. unfold normal_limit. simpl. rewrite !positive_or_idem by done.
    do 2 f_equal. by repeat case_decide.
  - f_equal. by repeat case_decide.
  - rewrite <- list_fmap_compose. apply list_fmap_ext. intros i svc _. apply normal_service_idem.
Qed.

(** Validation is idempotent: what it returned it accepts again unchanged. *)
Theorem validate_idempotent (cfg cfg' : GatewayConfig) (Hv : validate cfg = inr cfg') : validate cfg' = inr cfg'.
Proof.
  apply validate_spec in Hv as [Hacc ->]. apply validate_spec. split; [by apply normal_acceptable|]. by rewrite normal_idem.
Qed.

(** ** Examples *)

Definition zero_float : spec_float := S754_zero false.
Definition five : spec_float := S754_finite false 5 0.

Definition orders : ServiceConfig :=
  mkService "orders" "/orders" ["http://orders:8080"; "http://orders-2:8080"] true ["admin"]
    (Some (mkServiceRate five 10 "jwt_sub")) None.

Definition catalog : ServiceConfig :=
  mkService "catalog" "/catalog" ["http://catalog:8080"; "http://catalog-2:8080"] false [] None (Some (mkServiceCache 0 0 0)).

Definition sample (rate : spec_float) (svcs : list ServiceConfig) : GatewayConfig :=
  mkGateway 8080 0 0 300 (mkCompression true 0)
    (Some (mkRateLimit EmptyString rate 30 0 0 (mkRedis EmptyString 0 0 0 0 false)))
    (mkHealthCheck 0 EmptyString) (Some (mkCB 3 (10 * Second))) (mkTransport 0 0 0 0 0) (mkTelemetry 0 0 0)
    svcs EmptyString EmptyString EmptyString.

Lemma validate_establishes_witness : ready (normal (sample five [catalog; orders])).
Proof. apply (validate_establishes (sample five [catalog; orders])). vm_compute. reflexivity. Defined.

Lemma validate_idempotent_witness :
  validate (normal (sample five [catalog; orders])) = inr (normal (sample five [catalog; orders])).
Proof. apply (validate_idempotent (sample five [catalog; orders])). vm_compute. reflexivity. Defined.

(** A rate that is not a number passes the check for a positive rate. *)
Example nan_rate_accepted : exists cfg, validate (sample S754_nan [catalog]) = inr cfg.
Proof. eexists. vm_compute. reflexivity. Qed.

Example duplicate_prefix_rejected :
  validate (sample five [catalog; mkService "other" "/catalog" ["http://x"] false [] None None]) =
    inl (DuplicatePrefix "other" "/catalog").
Proof. vm_compute. reflexivity. Qed.

End Config.
