(* ===== verification/Router.v ===== *)
(** * Assembling the gateway ([cmd/gateway/server.go], [cmd/gateway/handlers.go])

    [Module Build] is the construction from a validated configuration: which
    limiter, key function, breakers, balancer and options each service gets, and
    every way construction can fail. [Module Gateway] is the handler that results:
    the global middleware chain, the routing and the per-service chains, composed
    in the order of the source. The chi router is a parameter (it maps a request
    to a registered route). *)

From Stdlib Require Import SpecFloat Ascii.
From S2P Require Import Prelude GoStrings Http Lru Breaker Balancer Auth Guards Observers Compress CacheMW Proxy Config.
Import Http.

Module Build.
Import Config.

(** ** Redis *)

Record redis_Options := mkOptions {
  opt_Addr : string; opt_Password : string; opt_PoolSize : Z; opt_DialTimeout : Z; opt_ReadTimeout : Z;
  opt_WriteTimeout : Z; opt_TLS12 : bool;
}.

(** A field that is not set stays zero, and go-redis uses its default. *)
Definition set_if_positive (x : Z) : Z := if 0 <? x then x else 0.

Definition buildRedisOptions (rc : RedisConfig) (password : string) : redis_Options :=
  mkOptions (Addr rc) password (set_if_positive (PoolSize rc)) (set_if_positive (RedisDialTimeout rc))
    (set_if_positive (ReadTimeout rc)) (set_if_positive (WriteTimeout rc)) (TLS rc).

(** [ping] is what the server answers to a client with these options. *)
Definition buildRedisClient (ping : redis_Options -> result unit) (cfg : GatewayConfig) : result (option redis_Options) :=
  match RateLimit cfg with
  | None => Ok None
  | Some rl =>
      if bool_decide (Backend rl ≠ "redis") then Ok None
      else
        let opts := buildRedisOptions (Redis rl) (RedisPassword cfg) in
        match ping opts with
        | Err e => Err ("redis ping at " +:+ Addr (Redis rl) +:+ ": " +:+ e)
        | Ok _ => Ok (Some opts)
        end
  end.

(** ** Limiters *)

(** The limiter a service gets: constructor and arguments. *)
Inductive limiter_spec :=
| NewMemoryLimiter (prefix : string) (rate : spec_float) (burst interval maxIdle : Z)
| NewRedisLimiter (prefix : string) (rate : spec_float) (burst : Z).

Inductive key_func := KeyByIP | KeyByJWTSub.

Definition service_prefix (name : string) : string := "svc:" +:+ name +:+ ":".

Definition buildServiceLimiter (svc : ServiceConfig) (cfg : GatewayConfig) (redisClient : option redis_Options) :
    option (limiter_spec * key_func) :=
  match match SvcRateLimit svc, RateLimit cfg with
        | Some rl, _ => Some (SvcRate rl, SvcBurst rl, KeyBy rl)
        | None, Some rl => Some (Rate rl, Burst rl, "ip")
        | None, None => None
        end with
  | None => None
  | Some (r, b, keyBy) =>
      let keyFunc := if decide (keyBy = "jwt_sub") then KeyByJWTSub else KeyByIP in
      let prefix := service_prefix (Name svc) in
      match redisClient with
      | Some _ => Some (NewRedisLimiter prefix r b, keyFunc)
      | None =>
          let '(interval, maxIdle) :=
            match RateLimit cfg with
            | Some rl => (CleanupInterval rl, CleanupMaxIdle rl)
            | None => (Minute, 3 * Minute)
            end in
          Some (NewMemoryLimiter prefix r b interval maxIdle, keyFunc)
      end
  end.

(** ** The handler of a service *)

Definition service_breaker (cfg : GatewayConfig) : Breaker.Breaker :=
  match CircuitBreaker cfg with
  | Some cb => Breaker.NewBreaker (MaxFailures cb) (Timeout cb)
  | None => Breaker.NewBreaker MaxInt Hour
  end.

Record built_handler := mkBuiltHandler {
  checker : Health.Checker;
  balancer : RoundRobin.RoundRobin;
  bh_breakers : gmap string Breaker.Breaker;
  transport : Proxy.http_Transport;
}.

Definition buildServiceHandler (svc : ServiceConfig) (cfg : GatewayConfig) : built_handler :=
  mkBuiltHandler (Health.NewChecker (Upstreams svc) (Interval (HealthCheck cfg)) (Config.Path (HealthCheck cfg)))
    (RoundRobin.NewRoundRobin (Upstreams svc))
    (foldl (fun m u => <[u := service_breaker cfg]> m) ∅ (Upstreams svc))
    (let t := Transport cfg in
     Proxy.newUpstreamTransport
       (Proxy.mkTransportConfig (MaxIdleConns t) (MaxIdleConnsPerHost t) (IdleConnTimeout t) (DialTimeout t) (TLSHandshakeTimeout t))).

(** ** Keys *)

Section PublicKey.
Context {Key : Type}.
(** [pem.Decode] and [x509.ParsePKIXPublicKey]; the latter may return a key
    that is not an RSA key ([None]). *)
Variable pem_Decode : string -> option string.
Variable ParsePKIX : string -> result (option Key).

Definition loadPublicKey (path : string) (file : result string) : result Key :=
  match file with
  | Err e => Err ("reading public key: " +:+ e)
  | Ok data =>
      match pem_Decode data with
      | None => Err ("no PEM block found in " +:+ path)
      | Some bytes =>
          match ParsePKIX bytes with
          | Err e => Err ("parsing public key: " +:+ e)
          | Ok None => Err "key is not RSA"
          | Ok (Some k) => Ok k
          end
      end
  end.
End PublicKey.

(** ** The router *)

Record built_service (Key : Type) := mkBuilt {
  bs_config : ServiceConfig;
  bs_key : option Key;
  bs_limiter : option (limiter_spec * key_func);
  bs_cache : option LRU.LRU;
  bs_handler : built_handler;
}.
Arguments mkBuilt {Key} _ _ _ _ _.
Arguments bs_config {Key} _.
Arguments bs_key {Key} _.
Arguments bs_limiter {Key} _.
Arguments bs_cache {Key} _.
Arguments bs_handler {Key} _.

(** What [buildRouter] returns: the instruments, the limiter of the edge, the
    services and the callback of the health gauge. *)
Record built_router (Key I : Type) := mkRouter {
  br_metrics : MetricsMW.Metrics I;
  br_edge : limiter_spec;
  br_services : list (built_service Key);
  br_gauge : list (built_service Key) -> list (I * Z * list (string * string));
}.
Arguments mkRouter {Key I} _ _ _ _.
Arguments br_metrics {Key I} _.
Arguments br_edge {Key I} _.
Arguments br_services {Key I} _.
Arguments br_gauge {Key I} _ _.

(** The samples the health gauge asks for: every upstream of every service. *)
Definition health_samples {Key} (bs : list (built_service Key)) : list MetricsMW.UpstreamHealthSample :=
  bs ≫= (fun b => map (fun u => MetricsMW.mkSample (Name (bs_config b)) u (Health.isHealthy (checker (bs_handler b)) u))
                     (Upstreams (bs_config b))).

(** [cache.NewLRU] for a service with a cache. *)
Definition service_cache (svc : ServiceConfig) : option LRU.LRU :=
  match Config.Cache svc with
  | Some cc => Some (LRU.NewLRU (MaxEntries cc) (MaxBytes cc))
  | None => None
  end.

(** [rate.Limit(10)] *)
Definition ten : spec_float := S754_finite false 5629499534213120 (-49).

Definition edge_limiter : limiter_spec := NewMemoryLimiter EmptyString ten 20 Minute (3 * Minute).

(** What the environment answers during construction: the meter, the files, the
    decoders of PEM and PKIX, the Redis server, the probes of each service in the
    startup pass and in the first pass of [Start], and the order in which the
    goroutines of the startup pass finish. *)
Record environment (Key I : Type) := mkEnv {
  env_meter : MetricsMW.Meter I;
  env_file : string -> result string;
  env_pem : string -> option string;
  env_pkix : string -> result (option Key);
  env_ping : redis_Options -> result unit;
  env_probe : string -> list (string * Health.probe);
  env_finish : list string;
  env_start : string -> list (string * Health.probe);
}.
Arguments env_meter {Key I} _.
Arguments env_file {Key I} _ _.
Arguments env_pem {Key I} _ _.
Arguments env_pkix {Key I} _ _.
Arguments env_ping {Key I} _ _.
Arguments env_probe {Key I} _ _.
Arguments env_finish {Key I} _.
Arguments env_start {Key I} _ _.

Section Router.
Context {Key I : Type} (env : environment Key I).

(** The loop over the services. *)
Fixpoint build_services (cfg : GatewayConfig) (publicKey : option Key) (redisClient : option redis_Options)
    (svcs : list ServiceConfig) : result (list (built_service Key)) :=
  match svcs with
  | [] => Ok []
  | svc :: svcs =>
      if Auth svc && bool_decide (publicKey = None)
      then Err ("service " +:+ Quote (Name svc) +:+ " requires auth but JWT_PUBLIC_KEY_PATH is not set")
      else
        let handler := buildServiceHandler svc cfg in
        let limiter := buildServiceLimiter svc cfg redisClient in
        let? rest := build_services cfg publicKey redisClient svcs in
        Ok (mkBuilt svc publicKey limiter (service_cache svc) handler :: rest)
  end.

(** The service with its checker in a later state. *)
Definition set_checker (c : Health.Checker) (b : built_service Key) : built_service Key :=
  let h := bs_handler b in
  mkBuilt (bs_config b) (bs_key b) (bs_limiter b) (bs_cache b)
    (mkBuiltHandler c (balancer h) (bh_breakers h) (transport h)).

(** One goroutine of the startup pass. *)
Definition probe_service (b : built_service Key) : result (built_service Key) :=
  let name := Name (bs_config b) in
  let '(res, c) := Health.Probe (env_probe env name) (checker (bs_handler b)) in
  match wrap_err ("service " +:+ Quote name) res with
  | Err e => Err e
  | Ok _ => Ok (set_checker c b)
  end.

Definition failure (b : built_service Key) : option string :=
  match probe_service b with Err e => Some e | Ok _ => None end.

(** [errgroup]: all goroutines run; the group's error is that of the one that
    failed first. *)
Definition probe_services (bs : list (built_service Key)) : result (list (built_service Key)) :=
  let finished := env_finish env ≫= (fun n => filter (fun b => Name (bs_config b) = n) bs) in
  match omap failure (finished ++ bs) with
  | e :: _ => Err e
  | [] => Ok (omap (fun b => match probe_service b with Ok b => Some b | Err _ => None end) bs)
  end.

(** [Start] runs a first pass before the polling goroutine takes over. *)
Definition start_service (b : built_service Key) : built_service Key :=
  set_checker (Health.Start (env_start env (Name (bs_config b))) [] (checker (bs_handler b))) b.

Definition load_key (path : string) : result Key := loadPublicKey (env_pem env) (env_pkix env) path (env_file env path).

(** [buildRouter]. Its log lines are not part of the model. *)
Definition buildRouter (cfg : GatewayConfig) : result (built_router Key I) :=
  let? m := wrap_err "creating metrics" (MetricsMW.NewMetrics (env_meter env)) in
  let? publicKey := (if bool_decide (JWTPublicKey cfg ≠ EmptyString)
                     then match wrap_err "loading JWT public key" (load_key (JWTPublicKey cfg)) with
                          | Ok k => Ok (Some k)
                          | Err e => Err e
                          end
                     else Ok None) in
  let? redisClient := wrap_err "building redis client" (buildRedisClient (env_ping env) cfg) in
  let? services := build_services cfg publicKey redisClient (Services cfg) in
  let? gauge := wrap_err "registering upstream health" (MetricsMW.RegisterUpstreamHealth m health_samples) in
  let? services := wrap_err "startup probe" (probe_services services) in
  Ok (mkRouter m edge_limiter (map start_service services) gauge).
End Router.

(** ** What construction guarantees *)

Lemma foldl_insert_lookup {A} (x : A) (us : list string) (m : gmap string A) u :
  foldl (fun m u => <[u := x]> m) m us !! u = if decide (u ∈ us) then Some x else m !! u.
Proof.
  revert m. induction us as [|v us IH]; intros m; [by rewrite decide_False by set_solver|].
  cbn [foldl]. rewrite IH. destruct (decide (u ∈ us)) as [H|H].
  - by rewrite decide_True by set_solver.
  - destruct (decide (u = v)) as [->|Hne].
    + rewrite lookup_insert_eq. by rewrite decide_True by set_solver.
    + rewrite lookup_insert_ne by done. by rewrite decide_False by set_solver.
Qed.

Lemma built_breakers svc cfg u :
  bh_breakers (buildServiceHandler svc cfg) !! u =
    if decide (u ∈ Upstreams svc) then Some (service_breaker cfg) else None.
Proof. unfold buildServiceHandler. simpl. by rewrite foldl_insert_lookup, lookup_empty. Qed.

(** A limit per subject is only built where tokens are verified. *)
Lemma limiter_by_subject svc cfg redis spec :
  service_ok svc -> buildServiceLimiter svc cfg redis = Some (spec, KeyByJWTSub) -> Auth svc = true.
Proof.
  intros Hsvc Hl. unfold buildServiceLimiter in Hl. destruct (SvcRateLimit svc) as [rl|] eqn:Er.
  - destruct (svc_rate _ Hsvc _ Er) as [_ _ Hk]. simpl in Hl.
    destruct (decide (KeyBy rl = "jwt_sub")) as [Ek|Ek]; [|by repeat case_match].
    destruct Hk as [?|[?|[_ ?]]]; congruence.
  - destruct (RateLimit cfg); by repeat case_match.
Qed.

Section BuildFacts.
Context {Key I : Type} (env : environment Key I).

(** A service as the loop leaves it. *)
Definition built_from (cfg : GatewayConfig) (publicKey : option Key) (redis : option redis_Options) (svc : ServiceConfig)
    (b : built_service Key) : Prop :=
  b = mkBuilt svc publicKey (buildServiceLimiter svc cfg redis) (service_cache svc) (buildServiceHandler svc cfg) /\
  (Auth svc = true -> is_Some publicKey).

Lemma build_services_spec cfg publicKey redis svcs bs :
  build_services cfg publicKey redis svcs = Ok bs -> Forall2 (built_from cfg publicKey redis) svcs bs.
Proof using Type.
  revert bs. induction svcs as [|svc svcs IH]; intros bs; simpl; [intros [= <-]; constructor|].
  destruct (Auth svc && bool_decide (publicKey = None)) eqn:E; [done|].
  intros (rest & H & [= <-])%result_bind_ok. constructor; [|by apply IH].
  split; [done|]. intros Ha. rewrite Ha in E. simpl in E. bool2prop. destruct publicKey; [by eexists|done].
Qed.

Lemma probe_service_ok (b b' : built_service Key) :
  probe_service env b = Ok b' ->
  exists c u, b' = set_checker c b /\ u ∈ Health.urls (checker (bs_handler b)) /\
    c = Health.checkAll (env_probe env (Name (bs_config b))) (checker (bs_handler b)) /\ Health.isHealthy c u = true.
Proof using Type.
  unfold probe_service, Health.Probe. set (c := Health.checkAll _ _).
  destruct (existsb (Health.isHealthy c) (Health.urls c)) eqn:E; simpl; [|done]. intros [= <-].
  apply existsb_exists in E as (u & Hu%list_elem_of_In & Hh). exists c, u. split_and!; try done.
  unfold c in Hu. by rewrite Health.checkAll_urls in Hu.
Qed.

(** The group succeeds only if every goroutine does. *)
Lemma probe_services_spec bs bs' :
  probe_services env bs = Ok bs' -> Forall2 (fun b b' => probe_service env b = Ok b') bs bs'.
Proof using Type.
  unfold probe_services. rewrite omap_app. set (early := omap (failure env) (_ ≫= _)). clearbody early.
  destruct early as [|e early]; [|done]. simpl. revert bs'.
  induction bs as [|b bs IH]; intros bs'; [by intros [= <-]|]. csimpl. unfold failure at 1.
  destruct (probe_service env b) as [b1|e] eqn:E; [|done].
  intros H. destruct (omap (failure env) bs) as [|e l] eqn:Eo; [|done]. injection H as <-.
  constructor; [done|]. by apply IH.
Qed.

(** A service of the finished router. *)
Definition assembled (cfg : GatewayConfig) (publicKey : option Key) (redis : option redis_Options) (svc : ServiceConfig)
    (b : built_service Key) : Prop :=
  (exists c, b = mkBuilt svc publicKey (buildServiceLimiter svc cfg redis) (service_cache svc)
     (let h := buildServiceHandler svc cfg in mkBuiltHandler c (balancer h) (bh_breakers h) (transport h)) /\
     Health.urls c = Upstreams svc /\ Health.interval c = Interval (HealthCheck cfg) /\ Health.path c = Config.Path (HealthCheck cfg)) /\
  (Auth svc = true -> is_Some publicKey) /\
  exists u, u ∈ Upstreams svc /\ (u, Health.Responded 200) ∈ env_probe env (Name svc).

(** Whether the limiters are in Redis. *)
Definition redis_backed (cfg : GatewayConfig) : bool :=
  match RateLimit cfg with Some rl => bool_decide (Backend rl = "redis") | None => false end.

Lemma checkAll_settings done c :
  Health.interval (Health.checkAll done c) = Health.interval c /\ Health.path (Health.checkAll done c) = Health.path c.
Proof using Type.
  revert c. induction done as [|[u p] done IH]; intros c; [done|]. simpl. destruct (IH (Health.check u p c)) as [-> ->].
  destruct p as [| |code]; simpl; try done. by destruct (code =? 200).
Qed.

Lemma buildRouter_spec cfg rt :
  buildRouter env cfg = Ok rt ->
  br_edge rt = edge_limiter /\ exists key redis, Forall2 (assembled cfg key redis) (Services cfg) (br_services rt) /\
    bool_decide (is_Some redis) = redis_backed cfg /\
    match key with Some k => load_key env (JWTPublicKey cfg) = Ok k | None => JWTPublicKey cfg = EmptyString end.
Proof using Type.
  unfold buildRouter. intros (mt & _ & (key & Hkey0 & (redis & Hredis & (bs0 & H0 & (gauge & _ & (bs1 & H1 & [= <-])
    %result_bind_ok)%result_bind_ok)%result_bind_ok)%result_bind_ok)%result_bind_ok)%result_bind_ok.
  split; [done|]. exists key, redis. split_and!.
  - simpl. apply wrap_err_ok in H1. apply build_services_spec in H0. apply probe_services_spec in H1. revert bs1 H1.
    induction H0 as [|svc b svcs bs0 [-> Hkey] _ IH]; intros bs1 H1.
    { apply Forall2_nil_inv_l in H1 as ->. constructor. }
    apply Forall2_cons_inv_l in H1 as (b' & bs' & Hp & H1 & ->). csimpl. constructor; [|by apply IH].
    apply probe_service_ok in Hp as (c & u & -> & Hu & Hc & Hh). simpl in Hu, Hc.
    unfold assembled. split_and!; [|done|].
    + eexists. split; [reflexivity|]. simpl. unfold Health.Start, Health.poll.
      rewrite Health.checkAll_urls, !(proj1 (checkAll_settings _ _)), !(proj2 (checkAll_settings _ _)), Hc.
      by rewrite Health.checkAll_urls, (proj1 (checkAll_settings _ _)), (proj2 (checkAll_settings _ _)).
    + exists u. split; [done|]. rewrite Hc in Hh. apply Health.healthy_was_probed in Hh as [Hh|Hh]; [|done].
      unfold Health.isHealthy in Hh. simpl in Hh. by rewrite lookup_empty in Hh.
  - apply wrap_err_ok in Hredis. unfold buildRedisClient, redis_backed in *. destruct (RateLimit cfg) as [rl|]; [|by simplify_eq].
    destruct (bool_decide (Backend rl ≠ "redis")) eqn:E; bool2prop.
    + injection Hredis as <-. by rewrite (bool_decide_eq_false_2 (Backend rl = "redis")).
    + destruct (env_ping env _); [|done]. injection Hredis as <-. symmetry. apply bool_decide_eq_true.
      destruct (decide (Backend rl = "redis")); tauto.
  - destruct (bool_decide (JWTPublicKey cfg ≠ EmptyString)) eqn:E; bool2prop.
    + destruct (load_key env (JWTPublicKey cfg)) as [k|e] eqn:Ek; simpl in Hkey0; by simplify_eq.
    + injection Hkey0 as <-. destruct (decide (JWTPublicKey cfg = EmptyString)); tauto.
Qed.

(** ** What a service is configured to have

    Written out without the functions of the code. *)

(** The limit of a service: its own, else the global one by address, else none;
    in Redis if the global backend is Redis, with the global settings for the
    clean-up or their defaults. *)
Definition limiter_as_configured (cfg : GatewayConfig) (svc : ServiceConfig) (l : option (limiter_spec * key_func)) : Prop :=
  let limited (rate : spec_float) (burst : Z) (kf : key_func) :=
    if redis_backed cfg then l = Some (NewRedisLimiter ("svc:" +:+ Name svc +:+ ":") rate burst, kf)
    else exists interval maxIdle, l = Some (NewMemoryLimiter ("svc:" +:+ Name svc +:+ ":") rate burst interval maxIdle, kf) /\
      match RateLimit cfg with
      | Some g => interval = CleanupInterval g /\ maxIdle = CleanupMaxIdle g
      | None => interval = 60 * Second /\ maxIdle = 180 * Second
      end in
  match SvcRateLimit svc, RateLimit cfg with
  | Some own, _ => (KeyBy own = "jwt_sub" /\ limited (SvcRate own) (SvcBurst own) KeyByJWTSub) \/
                   (KeyBy own = "ip" /\ limited (SvcRate own) (SvcBurst own) KeyByIP)
  | None, Some g => limited (Rate g) (Burst g) KeyByIP
  | None, None => l = None
  end.

(** A new cache with the configured bounds. *)
Definition cache_as_configured (svc : ServiceConfig) (c : option LRU.LRU) : Prop :=
  match Config.Cache svc, c with
  | Some cc, Some c => LRU.maxEntries c = MaxEntries cc /\ LRU.maxBytes c = MaxBytes cc /\
      LRU.order c = [] /\ LRU.index c = ∅ /\ LRU.bytes c = 0 /\ 0 < LRU.maxEntries c /\ 0 < LRU.maxBytes c
  | None, None => True
  | _, _ => False
  end.

(** A closed breaker with the configured threshold and timeout; without a
    configuration, a threshold that is out of reach. *)
Definition breaker_as_configured (cfg : GatewayConfig) (br : Breaker.Breaker) : Prop :=
  Breaker.st br = Breaker.stateClosed /\ Breaker.failures br = 0 /\
  match CircuitBreaker cfg with
  | Some cb => Breaker.maxFailures br = MaxFailures cb /\ Breaker.timeout br = Timeout cb
  | None => Breaker.maxFailures br = 9223372036854775807
  end.

Definition transport_as_configured (cfg : GatewayConfig) (t : Proxy.http_Transport) : Prop :=
  Proxy.MaxIdleConns t = MaxIdleConns (Transport cfg) /\ Proxy.MaxIdleConnsPerHost t = MaxIdleConnsPerHost (Transport cfg) /\
  Proxy.IdleConnTimeout t = IdleConnTimeout (Transport cfg) /\ Proxy.dial_Timeout t = DialTimeout (Transport cfg) /\
  Proxy.TLSHandshakeTimeout t = TLSHandshakeTimeout (Transport cfg).

Record as_configured (cfg : GatewayConfig) (b : built_service Key) : Prop := {
  ac_key : Auth (bs_config b) = true -> exists k, bs_key b = Some k /\ load_key env (JWTPublicKey cfg) = Ok k;
  ac_roles : RequiredRoles (bs_config b) ≠ [] -> Auth (bs_config b) = true;
  ac_limiter : limiter_as_configured cfg (bs_config b) (bs_limiter b);
  ac_subject : forall spec, bs_limiter b = Some (spec, KeyByJWTSub) -> Auth (bs_config b) = true;
  ac_cache : cache_as_configured (bs_config b) (bs_cache b);
  ac_balancer : balancer (bs_handler b) = RoundRobin.mkRR (Upstreams (bs_config b)) 0;
  ac_breakers : forall u, u ∈ Upstreams (bs_config b) ->
    exists br, bh_breakers (bs_handler b) !! u = Some br /\ breaker_as_configured cfg br;
  ac_checker : Health.urls (checker (bs_handler b)) = Upstreams (bs_config b) /\
    Health.interval (checker (bs_handler b)) = Interval (HealthCheck cfg) /\
    Health.path (checker (bs_handler b)) = Config.Path (HealthCheck cfg);
  ac_transport : transport_as_configured cfg (transport (bs_handler b));
  ac_probed : exists u, u ∈ Upstreams (bs_config b) /\ (u, Health.Responded 200) ∈ env_probe env (Name (bs_config b));
}.

Lemma limiter_configured cfg svc redis :
  bool_decide (is_Some redis) = redis_backed cfg ->
  (forall rl, SvcRateLimit svc = Some rl -> KeyBy rl = "ip" \/ KeyBy rl = "jwt_sub" /\ Auth svc = true) ->
  limiter_as_configured cfg svc (buildServiceLimiter svc cfg redis).
Proof using Type.
  intros Hr Hk. unfold limiter_as_configured, buildServiceLimiter, service_prefix. rewrite <- Hr. clear Hr.
  destruct (SvcRateLimit svc) as [own|].
  - destruct (Hk own eq_refl) as [E|[E _]]; rewrite E; [right|left]; (split; [done|]);
      (destruct redis; simpl; [done|]); destruct (RateLimit cfg); eexists _, _; (split; [reflexivity|]); done.
  - destruct (RateLimit cfg) as [g|]; [|done]. destruct redis; simpl; [done|]. by eexists _, _.
Qed.

End BuildFacts.

(** *** Keys in Redis *)

(** Services that share one Redis do not share buckets, provided no service
    name contains a colon: equal Redis keys come from the same service and the
    same client key. *)
Theorem redis_keys_disjoint (n1 n2 k1 k2 : string)
    (H1 : without ":" n1 = true) (H2 : without ":" n2 = true)
    (Heq : service_prefix n1 +:+ k1 = service_prefix n2 +:+ k2) : n1 = n2 /\ k1 = k2.
Proof.
  unfold service_prefix in Heq. rewrite !append_assoc in Heq.
  change ("svc:" +:+ ?x) with (String "s" (String "v" (String "c" (String ":" x)))) in Heq.
  injection Heq as Heq. by apply (cut_char ":"%char).
Qed.

Lemma redis_keys_disjoint_witness :
  exists k2, service_prefix "orders" +:+ "10.0.0.1" = service_prefix "orders" +:+ k2 /\ "10.0.0.1" = k2.
Proof.
  exists "10.0.0.1". split; [reflexivity|].
  exact (proj2 (redis_keys_disjoint "orders" "orders" "10.0.0.1" "10.0.0.1" eq_refl eq_refl eq_refl)).
Defined.

(** With a colon in a name two services can meet in one bucket. *)
Example redis_keys_collide : service_prefix "a" +:+ "b:x" = service_prefix "a:b" +:+ "x".
Proof. reflexivity. Qed.

(** ** Example: the configuration of the repository *)

Definition sample_probe (name : string) : list (string * Health.probe) :=
  if decide (name = "catalog")
  then [("http://catalog:8080", Health.Responded 200); ("http://catalog-2:8080", Health.ClientError)]
  else [("http://orders:8080", Health.Responded 200); ("http://orders-2:8080", Health.Responded 200)].

Definition sample_env : environment string string :=
  mkEnv string string MetricsMW.sample_meter (fun _ => Ok "pem") Some (fun _ => Ok (Some "key")) (fun _ => Ok tt)
  sample_probe ["orders"; "catalog"] sample_probe.

Definition sample_config : GatewayConfig :=
  let c := sample five [catalog; orders] in
  mkGateway (Port c) (MaxBodyBytes c) (MaxHeaderBytes c) (MaxInFlight c) (Compression c) (RateLimit c) (HealthCheck c)
    (CircuitBreaker c) (Transport c) (Telemetry c) (Services c) EmptyString "key.pem" EmptyString.


End Build.

Module Gateway.
Import Config Build.

(** ** Handlers of the edge ([handlers.go]) *)

Definition healthzHandler {S} : Handler S := fun W RW r w s =>
  let w := header_Set "Cache-Control" "no-store" w in
  (Return, w_WriteHeader StatusOK w, s).

Definition error_page {S} (status : Z) (msg : string) : Handler S := fun W RW r w s =>
  let w := header_Set "Content-Type" "application/json" w in
  let w := header_Set "Cache-Control" "no-store" w in
  let w := w_WriteHeader status w in
  (Return, write (json_map [("error", msg)]) w, s).

Definition notFoundHandler {S} : Handler S := error_page StatusNotFound "not found".
Definition methodNotAllowedHandler {S} : Handler S := error_page StatusMethodNotAllowed "method not allowed".

(** ** [http.StripPrefix] *)

(** [http.NotFound] *)
Definition NotFound {S} : Handler S := fun W RW r w s =>
  let w := header_Del "Content-Length" w in
  let w := header_Set "Content-Type" "text/plain; charset=utf-8" w in
  let w := header_Set "X-Content-Type-Options" "nosniff" w in
  let w := w_WriteHeader StatusNotFound w in
  (Return, write ("404 page not found" +:+ String (byte 10) EmptyString) w, s).

Definition StripPrefix {S} (prefix : string) (h : Handler S) : Handler S := fun W RW r w s =>
  let p := TrimPrefix (Http.Path r) prefix in
  if (String.length p <? String.length (Http.Path r))%nat then h W RW (WithPath p r) w s
  else NotFound W RW r w s.

(** What chi makes of a request: a registered route, or one of its two fallbacks. *)
Inductive target := THealthz | TService (i : nat) | TNotFound | TMethodNotAllowed.

Section Gateway.
Context `{!Unicode} {Key : Type} `{!Auth.JWT Key} {G : Type} `{!Gzip G} {S Span I : Type} `{!Lens S Z}.

(** The objects the handlers work with: clock, log, random source, tracer,
    instruments, the compressor pool, and the router. *)
Variable now : S -> Z * S.
Variable log : SlogLogger S.
Variable read : S -> result (list Z) * S.
Variable tracer : TracingMW.Tracer S Span.
Variable m : MetricsMW.Metrics I.
Variable emit : I -> MetricsMW.measurement -> list (string * string) -> S -> S.
Variable routePattern : Request -> S -> string.
Variable DetectContentType : string -> string.
Variable pooled : G.
Variable sf_panic : panic -> panic.
Variable route : Request -> target.

(** The shared objects of one service. *)
Record service_objects := mkObjects {
  so_limiter : RateLimitMW.Limiter S;
  so_cache : Lens S CacheMW.cache_state;
  so_proxy : Handler S;
}.

Definition key_function (k : key_func) : Request -> string :=
  match k with KeyByIP => RateLimitMW.KeyByIP | KeyByJWTSub => RateLimitMW.KeyByJWTSub end.

(** The chain inside authentication: rate limit, cache, compression, proxy. *)
Definition inner_chain (cfg : GatewayConfig) (b : built_service Key) (o : service_objects) : Handler S :=
  let svc := bs_config b in
  let h := StripPrefix (Prefix svc) (so_proxy o) in
  let h := if Enabled (Compression cfg)
           then CompressMW.Compress DetectContentType pooled (MinBytes (Compression cfg)) h else h in
  let h := match Config.Cache svc with
           | Some cc => @CacheMW.Cache _ S (so_cache o) now sf_panic (TTL cc) h
           | None => h
           end in
  match bs_limiter b with
  | Some (_, kf) => RateLimitMW.RateLimit (so_limiter o) (key_function kf) log h
  | None => h
  end.

(** The chain of a service. [build_router_sound] excludes a service with
    authentication but without a key. *)
Definition service_chain (cfg : GatewayConfig) (b : built_service Key) (o : service_objects) : Handler S :=
  let svc := bs_config b in
  let h := inner_chain cfg b o in
  let h := if bool_decide (RequiredRoles svc ≠ []) then Auth.RequireAnyRole (RequiredRoles svc) h else h in
  if Config.Auth svc then
    match bs_key b with
    | Some k => Auth.JWTAuth k h
    | None => fun W RW r w s => (Panic (PanicValue "nil public key"), w, s)
    end
  else h.

Definition dispatch (cfg : GatewayConfig) (services : list (built_service Key * service_objects))
    (edgeLimiter : RateLimitMW.Limiter S) : Handler S := fun W RW r w s =>
  let edgeRateLimit := RateLimitMW.RateLimit edgeLimiter RateLimitMW.KeyByIP log in
  match route r with
  | THealthz => edgeRateLimit healthzHandler W RW r w s
  | TNotFound => edgeRateLimit notFoundHandler W RW r w s
  | TMethodNotAllowed => edgeRateLimit methodNotAllowedHandler W RW r w s
  | TService i =>
      match services !! i with
      | Some (b, o) => service_chain cfg b o W RW r w s
      | None => edgeRateLimit notFoundHandler W RW r w s
      end
  end.

(** [r.Use(...)] in the order of [buildRouter]. *)
Definition gateway (cfg : GatewayConfig) (services : list (built_service Key * service_objects))
    (edgeLimiter : RateLimitMW.Limiter S) : Handler S :=
  RecovererMW.Recoverer log
    (RequestIDMW.RequestID read
      (LoggerMW.Logger now log
        (MaxBodyMW.MaxBody (MaxBodyBytes cfg)
          (MetricsMW.Middleware_ now emit routePattern m
            (TracingMW.Tracing tracer
              (ConcurrencyLimitMW.ConcurrencyLimit (MaxInFlight cfg)
                (dispatch cfg services edgeLimiter))))))).
End Gateway.

(** ** Requests answered by the outer layers *)

(** The writer operations end in a final status that satisfies [P]: only header
    operations come before it. *)
Definition answers_with (P : Z -> Prop) (ops : list wop) : Prop :=
  exists hops c rest, ops = hops ++ WHead c :: rest /\ forallb is_header_op hops = true /\ P c.

Lemma answers_cons P o ops : is_header_op o = true -> answers_with P ops -> answers_with P (o :: ops).
Proof.
  intros Ho (hops & c & rest & -> & Hh & Hc). exists (o :: hops), c, rest. simpl. by rewrite Ho.
Qed.

Lemma answers_head (P : Z -> Prop) hops c rest :
  forallb is_header_op hops = true -> P c -> answers_with P (hops ++ WHead c :: rest).
Proof. intros. by exists hops, c, rest. Qed.

Lemma answers_status (P : Z -> Prop) ops :
  (forall c, P c -> informational c = false) -> answers_with P ops -> P (client_status (play ops new_response)).
Proof.
  intros HP (hops & c & rest & -> & Hh & Hc). rewrite play_app, play_cons.
  rewrite (play_hplay hops) by done. rewrite (client_status_play _ _ c (hplay hops ∅)); [done|].
  simpl. unfold response_WriteHeader. simpl. by rewrite HP.
Qed.

(** [h] answers every request in [R] with a status in [P] and does not touch the
    part [core] of the state. *)
Definition answers {S C} (core : S -> C) (R : Request -> Prop) (P : Z -> Prop) (h : Handler S) : Prop :=
  forall r, R r -> forall W (RW : ResponseWriter W) (w : W) s,
    exists ops s', h W RW r w s = (Return, play ops w, s') /\ answers_with P ops /\ core s' = core s.

#[local] Existing Instances LoggerMW.loggerWriter_Writer LoggerMW.loggerWriter_Wraps TracingMW.tracingWriter_Writer
  TracingMW.tracingWriter_Wraps MetricsMW.metricsWriter_Writer MetricsMW.metricsWriter_Wraps.

Section Layers.
Context {S C Span I : Type} `{!Lens S Z, !LensLaws S Z} (core : S -> C).
Variable now : S -> Z * S.
Variable log : SlogLogger S.
Variable read : S -> result (list Z) * S.
Variable tracer : TracingMW.Tracer S Span.
Variable emit : I -> MetricsMW.measurement -> list (string * string) -> S -> S.
(** None of the observers touches the core. *)
Hypothesis now_core : forall s, core (now s).2 = core s.
Hypothesis log_core : forall x s, core (log x s) = core s.
Hypothesis read_core : forall s, core (read s).2 = core s.
Hypothesis emit_core : forall i x l s, core (emit i x l s) = core s.
Hypothesis sem_core : forall (z : Z) s, core (lset z s) = core s.
Hypothesis start_core : forall c n k s, core (TracingMW.Start tracer c n k s).2 = core s.
Hypothesis attrs_core : forall x l s, core (TracingMW.SetAttributes tracer x l s) = core s.
Hypothesis error_core : forall x l s, core (TracingMW.SetStatusError tracer x l s) = core s.
Hypothesis end_core : forall x s, core (TracingMW.End_ tracer x s) = core s.

Variable R : Request -> Prop.
(** [R] looks neither at the context nor at the body. *)
Hypothesis R_context : forall c r, R r -> R (WithContext c r).
Hypothesis R_body : forall b r, R r -> R (WithBody b r).
Variable P : Z -> Prop.

Lemma answers_recoverer h : answers core R P h -> answers core R P (RecovererMW.Recoverer log h).
Proof using Type.
  intros H r Hr W RW w s. destruct (H r Hr W RW w s) as (ops & s' & E & Ha & Hc).
  exists ops, s'. unfold RecovererMW.Recoverer. by rewrite E.
Qed.

Lemma answers_requestid h :
  P StatusInternalServerError -> answers core R P h -> answers core R P (RequestIDMW.RequestID read h).
Proof using read_core R_context.
  intros HP H r Hr W RW w s. unfold RequestIDMW.RequestID. pose proof (read_core s) as Hc.
  destruct (read s) as [x s1]. simpl in Hc. destruct (RequestIDMW.newUUID x) as [u|e].
  - destruct (H _ (R_context (RequestIDMW.newContext (ctx r) u) r Hr) W RW (header_Set "X-Request-ID" u w) s1)
      as (ops & s' & E & Ha & Hc').
    exists (HSet "X-Request-ID" u :: ops), s'. rewrite E. split_and!; [done|by apply answers_cons|congruence].
  - exists [WHead StatusInternalServerError], s1. split_and!; [done|by apply (answers_head P [])|done].
Qed.

Lemma answers_logger h : answers core R P h -> answers core R P (LoggerMW.Logger now log h).
Proof using now_core log_core.
  intros H r Hr W RW w s. unfold LoggerMW.Logger. pose proof (now_core s) as H1.
  destruct (now s) as [t s1]. simpl in H1.
  destruct (H r Hr (LoggerMW.loggerWriter W) _ (LoggerMW.mkLoggerWriter w StatusOK 0) s1) as (ops & s2 & -> & Ha & H2).
  pose proof (now_core s2) as H3. destruct (now s2) as [t2 s3]. simpl in H3.
  rewrite (wraps_play LoggerMW.inner). simpl. eexists ops, _. split_and!; [done|done|]. rewrite log_core. congruence.
Qed.

Lemma answers_metrics (mt : MetricsMW.Metrics I) routePattern h :
  answers core R P h -> answers core R P (MetricsMW.Middleware_ now emit routePattern mt h).
Proof using now_core emit_core.
  intros H r Hr W RW w s. unfold MetricsMW.Middleware_. pose proof (now_core s) as H1.
  destruct (now s) as [t s1]. simpl in H1.
  destruct (H r Hr (MetricsMW.metricsWriter W) _ (MetricsMW.mkMetricsWriter w StatusOK) s1) as (ops & s2 & -> & Ha & H2).
  pose proof (now_core s2) as H3. destruct (now s2) as [t2 s3]. simpl in H3.
  rewrite (wraps_play MetricsMW.inner). simpl. eexists ops, _. split_and!; [done|done|]. rewrite !emit_core. congruence.
Qed.

Lemma answers_tracing h : answers core R P h -> answers core R P (TracingMW.Tracing tracer h).
Proof using start_core attrs_core error_core end_core R_context.
  intros H r Hr W RW w s. unfold TracingMW.Tracing.
  pose proof (start_core (TracingMW.Extract tracer (ctx r) (header r)) "request" TracingMW.SpanKindServer s) as H1.
  destruct (TracingMW.Start _ _ _ _ _) as [[c span] s1]. simpl in H1.
  destruct (H _ (R_context c r Hr) (TracingMW.tracingWriter W) _ (TracingMW.mkTracingWriter w StatusOK) s1)
    as (ops & s2 & -> & Ha & H2).
  rewrite (wraps_play TracingMW.inner). simpl. eexists ops, _. split_and!; [done|done|].
  rewrite end_core. unfold TracingMW.annotate. case_match; rewrite ?error_core, attrs_core; congruence.
Qed.

Lemma answers_maxbody limit h :
  P StatusRequestEntityTooLarge -> answers core R P h -> answers core R P (MaxBodyMW.MaxBody limit h).
Proof using R_body.
  intros HP H r Hr W RW w s. unfold MaxBodyMW.MaxBody. case_match.
  - exists MaxBodyMW.too_large_ops, s. split_and!; [done| |done].
    by apply (answers_head P [HSet "Content-Type" "application/json"] StatusRequestEntityTooLarge).
  - apply (H _ (R_body _ r Hr)).
Qed.

Lemma answers_concurrency limit h :
  P StatusServiceUnavailable -> answers core R P h -> answers core R P (ConcurrencyLimitMW.ConcurrencyLimit limit h).
Proof using sem_core.
  intros HP H r Hr W RW w s. unfold ConcurrencyLimitMW.ConcurrencyLimit. case_match; [by apply H|]. case_match.
  - destruct (H r Hr W RW w (lset (lget s + 1) s)) as (ops & s' & -> & Ha & Hc).
    eexists ops, _. split_and!; [done|done|]. rewrite sem_core, Hc. apply sem_core.
  - exists ConcurrencyLimitMW.shed_ops, s. split_and!; [done| |done].
    by apply (answers_head P [HSet "Content-Type" "application/json"; HSet "Retry-After" "1"] StatusServiceUnavailable).
Qed.
End Layers.

(** ** Who reaches a protected service *)

(** The request carries a token that verifies under [k] and, if roles are
    required, one of them. *)
Definition authorised {Key} `{!Auth.JWT Key, !Auth.JWTLaws Key} (k : Key) (roles : list string) (r : Request) : Prop :=
  exists tok t c, Get (header r) "Authorization" = "Bearer " +:+ tok /\ Auth.verified k tok t /\ Auth.token_identity t c /\
    (roles = [] \/ exists role, role ∈ roles /\ role ∈ Roles c).

Section Protected.
Context `{!Unicode} {Key : Type} `{!Auth.JWT Key, !Auth.JWTLaws Key} {G : Type} `{!Gzip G}.
Context {S C Span I : Type} `{!Lens S Z, !LensLaws S Z} (core : S -> C).
Variable now : S -> Z * S.
Variable log : SlogLogger S.
Variable read : S -> result (list Z) * S.
Variable tracer : TracingMW.Tracer S Span.
Variable m : MetricsMW.Metrics I.
Variable emit : I -> MetricsMW.measurement -> list (string * string) -> S -> S.
Variable routePattern : Request -> S -> string.
Variable DetectContentType : string -> string.
Variable pooled : G.
Variable sf_panic : panic -> panic.
Variable route : Request -> target.
(** Clock, log, random source, instruments, tracer and semaphore are not part
    of the core: limiters, caches, breakers and the upstreams. *)
Record observers_keep_core : Prop := {
  k_now : forall s, core (now s).2 = core s;
  k_log : forall x s, core (log x s) = core s;
  k_read : forall s, core (read s).2 = core s;
  k_emit : forall i x l s, core (emit i x l s) = core s;
  k_sem : forall (z : Z) s, core (lset z s) = core s;
  k_start : forall c n k s, core (TracingMW.Start tracer c n k s).2 = core s;
  k_attrs : forall x l s, core (TracingMW.SetAttributes tracer x l s) = core s;
  k_error : forall x l s, core (TracingMW.SetStatusError tracer x l s) = core s;
  k_end : forall x s, core (TracingMW.End_ tracer x s) = core s;
}.

(** Routing looks at method and path, not at the context or the body. *)
Definition routes_by_url : Prop :=
  (forall c r, route (WithContext c r) = route r) /\ (forall b r, route (WithBody b r) = route r).

Definition refusal (c : Z) : Prop := c = StatusUnauthorized \/ c = StatusForbidden.

Lemma json_refusal c msg : refusal c -> answers_with refusal (json_ops c [("error", msg)]).
Proof using Type. intros Hc. by apply (answers_head refusal [HSet "Content-Type" "application/json"] c). Qed.

Lemma service_chain_refuses cfg (b : built_service Key) o k :
  Config.Auth (bs_config b) = true -> bs_key b = Some k ->
  answers core (fun r => ~ authorised k (RequiredRoles (bs_config b)) r) refusal
    (service_chain now log DetectContentType pooled sf_panic cfg b o).
Proof using Type.
  intros Ha Hk r Hr W RW w s. unfold service_chain. rewrite Ha, Hk. unfold Auth.JWTAuth.
  assert (forall msg, exists ops s', (Return, writeJSON StatusUnauthorized [("error", msg)] w, s) = (Return, play ops w, s') /\
    answers_with refusal ops /\ core s' = core s) as H401.
  { intros msg. exists (json_ops StatusUnauthorized [("error", msg)]), s.
    split_and!; [done|apply json_refusal; by left|done]. }
  destruct (CutPrefix _ _) as [tok|] eqn:Ecut; [|apply H401].
  destruct (Auth.parseAndValidateToken tok k) as [t|e] eqn:Ep; [|apply H401].
  destruct (Auth.extractClaims t) as [c|e] eqn:Ec; [|apply H401].
  destruct (Auth.parse_sound _ _ _ _ Ep) as (_ & k' & Hkf & Hver).
  unfold Auth.keyFunc in Hkf. destruct (Auth.method_rsa t); [|done]. injection Hkf as <-.
  assert (forall role, role ∈ RequiredRoles (bs_config b) -> role ∉ Roles c) as Hno.
  { intros role Hro1 Hro2. apply Hr. exists tok, t, c. split_and!; [by apply CutPrefix_spec|done|by apply Auth.extractClaims_spec|eauto]. }
  assert (RequiredRoles (bs_config b) ≠ []) as Hne.
  { intros E. apply Hr. exists tok, t, c. split_and!; [by apply CutPrefix_spec|done|by apply Auth.extractClaims_spec|by left]. }
  rewrite bool_decide_eq_true_2 by done. unfold Auth.RequireAnyRole. simpl.
  assert (existsb (Auth.Contains (Roles c)) (RequiredRoles (bs_config b)) = false) as ->.
  { apply not_true_iff_false. intros (role & Hin%list_elem_of_In & Hc)%existsb_exists.
    apply bool_decide_eq_true in Hc. by apply (Hno role). }
  exists (json_ops StatusForbidden [("error", "forbidden")]), s.
  split_and!; [done|apply json_refusal; by right|done].
Qed.

(** C1. End to end: a request that is routed to a service with authentication,
    and does not carry a verifying token with one of the required roles, never
    gets past the service's gate. Whatever else happens in the chain, the
    gateway returns an answer with status 401 or 403 (or 413, 500 or 503 from an
    outer layer), and no rate limiter is charged, no cache consulted or filled,
    no breaker touched and no upstream contacted. *)
Theorem gateway_blocks_unauthorised (cfg : GatewayConfig)
    (services : list (built_service Key * service_objects)) (edgeLimiter : RateLimitMW.Limiter S)
    (i : nat) (b : built_service Key) (o : service_objects) (k : Key) (r : Request) (s : S)
    (Hcore : observers_keep_core) (Hroute : routes_by_url)
    (Hi : services !! i = Some (b, o)) (Hr : route r = TService i)
    (Hauth : Config.Auth (bs_config b) = true) (Hkey : bs_key b = Some k) :
  ~ authorised k (RequiredRoles (bs_config b)) r ->
  exists w' s', gateway now log read tracer m emit routePattern DetectContentType pooled sf_panic route cfg services
      edgeLimiter response _ r new_response s = (Return, w', s') /\
    client_status w' ∈ [401; 403; 413; 500; 503] /\ core s' = core s.
Proof using Type*.
  intros Hno. set (P := fun c : Z => c ∈ [401; 403; 413; 500; 503]).
  set (R := fun r => route r = TService i /\ ~ authorised k (RequiredRoles (bs_config b)) r).
  assert (answers core R P (dispatch now log DetectContentType pooled sf_panic route cfg services edgeLimiter)) as Hd.
  { intros r' [Hr' Hno'] W RW w s'. unfold dispatch. rewrite Hr', Hi.
    destruct (service_chain_refuses cfg b o k Hauth Hkey r' Hno' W RW w s') as (ops & s2 & E & (hops & c & rest & Ho & Hh & Hc) & Hk).
    exists ops, s2. split_and!; [done| |done]. exists hops, c, rest. split_and!; [done..|].
    destruct Hc as [-> | ->]; apply (bool_decide_unpack _); vm_compute; exact Logic.I. }
  assert (forall c r, R r -> R (WithContext c r)) as RC by (intros c r' [Hra Hrb]; split; [by rewrite (proj1 Hroute)|done]).
  assert (forall x r, R r -> R (WithBody x r)) as RB by (intros x r' [Hra Hrb]; split; [by rewrite (proj2 Hroute)|done]).
  assert (P StatusInternalServerError /\ P StatusRequestEntityTooLarge /\ P StatusServiceUnavailable) as (P5 & P4 & P3)
    by (split_and!; apply (bool_decide_unpack _); vm_compute; exact Logic.I).
  destruct Hcore.
  assert (answers core R P (gateway now log read tracer m emit routePattern DetectContentType pooled sf_panic route cfg services edgeLimiter)) as Hg.
  { apply answers_recoverer, answers_requestid, answers_logger, answers_maxbody, answers_metrics, answers_tracing,
      answers_concurrency; done. }
  destruct (Hg r (conj Hr Hno) response _ new_response s) as (ops & s' & -> & Ha & Hc).
  exists (play ops new_response), s'. split_and!; [done| |done].
  apply (answers_status P); [|done]. intros c Hc'. repeat (apply elem_of_cons in Hc' as [-> |Hc']; [done|]). set_solver.
Qed.
End Protected.

(** ** Example: an anonymous request for the orders *)

Module Sample.

(** The semaphore and the requests that reached the upstream. *)
Definition state : Type := Z * list string.

#[export] Instance state_lens : Lens state Z := lens_fst.
#[export] Instance state_laws : LensLaws state Z := lens_fst_laws.
#[export] Existing Instances Auth.Sample.jwt Auth.Sample.jwt_laws CompressMW.sample_gzip.

Definition clock (s : state) : Z * state := (0, s).
Definition nolog : SlogLogger state := fun _ s => s.
Definition random (s : state) : result (list Z) * state := (Ok RequestIDMW.sample_random, s).

Definition tracer : TracingMW.Tracer state unit := {|
  TracingMW.Extract c _ := c;
  TracingMW.Start c _ _ s := ((c, tt), s);
  TracingMW.SetAttributes _ _ s := s;
  TracingMW.SetStatusError _ _ s := s;
  TracingMW.End_ _ s := s;
|}.

Definition metrics : MetricsMW.Metrics string := MetricsMW.mkMetrics MetricsMW.sample_meter "total" "duration".
Definition noemit (i : string) (x : MetricsMW.measurement) (l : list (string * string)) (s : state) : state := s.

Definition objects : @service_objects state := mkObjects (fun k s => (Ok true, s))
  {| lget _ := CacheMW.Sample.empty_cache; lset _ s := s |}
  (fun W RW r w s => (Return, write "order 1" w, (s.1, s.2 ++ [Http.Path r]))).

Definition orders_service : built_service string :=
  mkBuilt orders (Some "key") None None (buildServiceHandler orders (normal sample_config)).

Definition run (r : Request) : outcome * response * state :=
  gateway clock nolog random tracer metrics noemit (fun _ _ => EmptyString) (fun _ => EmptyString) EmptyString (fun v => v)
    (fun _ => TService 0) (normal sample_config) [(orders_service, objects)] (fun k s => (Ok true, s)) response _ r new_response (0, []).

End Sample.
Import Sample.

Lemma gateway_blocks_unauthorised_witness :
  exists w' s', Sample.run (Auth.Sample.request EmptyString) = (Return, w', s') /\
    client_status w' ∈ [401; 403; 413; 500; 503] /\ s'.2 = [].
Proof.
  apply (gateway_blocks_unauthorised (G := string) snd clock nolog random tracer metrics noemit (fun _ _ => EmptyString)
    (fun _ => EmptyString) EmptyString (fun v => v) (fun _ => TService 0) (normal sample_config) [(orders_service, objects)]
    (fun k s => (Ok true, s)) 0 orders_service objects "key" (Auth.Sample.request EmptyString) (0, [])).
  - constructor; reflexivity.
  - split; reflexivity.
  - reflexivity.
  - reflexivity.
  - reflexivity.
  - reflexivity.
  - intros (tok & t & c & H & _). vm_compute in H. discriminate H.
Defined.

(** With the token of an administrator the same request reaches the upstream,
    under the path without the prefix. *)
Example authorised_request_is_served :
  let '(_, w, s) := Sample.run (Auth.Sample.request "Bearer tok") in
  client_status w = 200 /\ sent_body w = "order 1" /\ s.2 = [EmptyString].
Proof. vm_compute. split_and!; reflexivity. Qed.

End Gateway.
