(* ===== verification/Fanout.v ===== *)
(** * Log fan-out ([internal/otel/fanout.go])

    A [slog.Handler] that passes every record on to several handlers. Handlers are
    any type of the class [SlogHandler]; the fan-out is another instance. *)

From S2P Require Import Prelude Http.
Import Http.

(** [slog.Handler]; what handling a record does to the state (the terminal, the
    exporter's queue) is part of the handler. *)
Class SlogHandler (S H : Type) := {
  Enabled : H -> level -> bool;
  Handle : H -> log_record -> S -> option string * S;
  WithAttrs : list (string * attr) -> H -> H;
  WithGroup : string -> H -> H;
}.

Module Fanout.

Record fanoutHandler (H : Type) := mkFanout { handlers : list H }.
Arguments mkFanout {H} _.
Arguments handlers {H} _.

Section Fanout.
Context {S H : Type} `{!SlogHandler S H}.

Definition fanout_Enabled (f : fanoutHandler H) (l : level) : bool := existsb (fun h => Enabled h l) (handlers f).

Fixpoint handle_all (hs : list H) (r : log_record) (s : S) : option string * S :=
  match hs with
  | [] => (None, s)
  | h :: hs =>
      if Enabled h (log_level r) then
        let '(err, s) := Handle h r s in
        match err with
        | Some e => (Some e, s)
        | None => handle_all hs r s
        end
      else handle_all hs r s
  end.

Definition fanout_Handle (f : fanoutHandler H) (r : log_record) (s : S) : option string * S := handle_all (handlers f) r s.

Definition fanout_WithAttrs (attrs : list (string * attr)) (f : fanoutHandler H) : fanoutHandler H :=
  mkFanout (map (WithAttrs attrs) (handlers f)).

Definition fanout_WithGroup (name : string) (f : fanoutHandler H) : fanoutHandler H :=
  mkFanout (map (WithGroup name) (handlers f)).

#[export] Instance fanout_SlogHandler : SlogHandler S (fanoutHandler H) := {|
  Enabled := fanout_Enabled;
  Handle := fanout_Handle;
  WithAttrs := fanout_WithAttrs;
  WithGroup := fanout_WithGroup;
|}.

(** Records handed to handlers in order, whatever they answer. *)
Definition deliver (hs : list H) (r : log_record) (s : S) : S := foldl (fun s h => (Handle h r s).2) s hs.

(** The handlers that want a record. *)
Definition wanting (f : fanoutHandler H) (r : log_record) : list H :=
  filter (fun h => Enabled h (log_level r) = true) (handlers f).

Lemma handle_all_filter hs r s :
  handle_all hs r s = handle_all (filter (fun h => Enabled h (log_level r) = true) hs) r s.
Proof using Type.
  revert s. induction hs as [|h hs IH]; intros s; [done|]. rewrite filter_cons. simpl. case_decide as E; simpl.
  - rewrite E. destruct (Handle h r s) as [[e|] s1]; [done|apply IH].
  - destruct (Enabled h (log_level r)); [done|]. apply IH.
Qed.

(** A record goes to the handlers enabled for its level, in order, until one
    fails: if none fails all of them receive it, and otherwise the handlers
    behind the first failing one do not, and its error is returned. *)
Theorem fanout_stops_at_first_error (f : fanoutHandler H) (r : log_record) (s : S) :
  (fanout_Handle f r s = (None, deliver (wanting f r) r s)) \/
  exists pre h post e, wanting f r = pre ++ h :: post /\
    (Handle h r (deliver pre r s)).1 = Some e /\
    fanout_Handle f r s = (Some e, deliver (pre ++ [h]) r s).
Proof using Type.
  unfold fanout_Handle, wanting. rewrite handle_all_filter.
  assert (Forall (fun h => Enabled h (log_level r) = true) (filter (fun h => Enabled h (log_level r) = true) (handlers f))) as Hf
    by (apply Forall_forall; intros h [? _]%list_elem_of_filter; done).
  generalize dependent (filter (fun h => Enabled h (log_level r) = true) (handlers f)).
  intros hs. revert s. induction hs as [|h hs IH]; intros s Hf; [by left|].
  apply Forall_cons in Hf as [Hh Hf]. simpl. rewrite Hh. destruct (Handle h r s) as [[e|] s1] eqn:E.
  - right. exists [], h, hs, e. unfold deliver. simpl. rewrite E. done.
  - destruct (IH s1 Hf) as [->|(pre & h' & post & e & -> & H1 & H2)]; [by left|].
    right. exists (h :: pre), h', post, e. unfold deliver in *. simpl. rewrite E. done.
Qed.
End Fanout.

End Fanout.
