(* ===== verification/Telemetry.v ===== *)
(** * Telemetry set-up ([internal/otel/otel.go])

    [Setup] starts three providers (traces, metrics, logs), each with an exporter
    and a background flusher, and registers them globally; [Shutdown] stops them;
    [NewLogger] joins the terminal and the exporter with the fan-out of
    [Fanout]. The OpenTelemetry SDK is a parameter ([library]): which of its
    calls fail. What is kept is which providers are running. *)

From Stdlib Require Import Ascii.
From S2P Require Import Prelude GoStrings Http Fanout.
Import Http Fanout.

Module Otel.

Inductive signal := Traces | Metrics | Logs.

(** A provider: an object of its own ([pid]), the endpoint its exporter sends
    to, and how often. *)
Record provider := mkProvider { pid : nat; kind : signal; url : string; interval : Z }.

#[export] Instance provider_eq_dec : EqDecision provider.
Proof. intros [] []. unfold Decision. repeat decide equality; (apply string_eq_dec || apply Z.eq_dec). Defined.

Record SDK := mkSDK { TracerProvider : provider; MeterProvider : provider; LoggerProvider : provider }.

Record Intervals := mkIntervals { MetricInterval : Z; TraceBatchTimeout : Z; LogBatchTimeout : Z }.

(** The process: providers whose flushers run, and OpenTelemetry's globals. *)
Record world := mkWorld {
  next_id : nat;
  running : list provider;
  global_tracer : option provider;
  global_meter : option provider;
  propagator : bool;
  runtime_metrics : option provider;
}.

(** The calls of the SDK that can fail. *)
Record library := mkLibrary {
  resource_Merge : result unit;
  exporter_New : signal -> string -> result unit;
  runtime_Start : result unit;
  provider_Shutdown : signal -> option string;
}.

(** [strings.TrimRight(s, "/")] *)
Fixpoint trim_slashes (s : string) : string :=
  match s with
  | EmptyString => EmptyString
  | String c s =>
      match trim_slashes s with
      | EmptyString => if code c =? 47 then EmptyString else String c EmptyString
      | t => String c t
      end
  end.

(** [errors.Join] *)
Definition errors_Join (errs : list (option string)) : option string :=
  match omap id errs with [] => None | l => Some (Join (String (byte 10) EmptyString) l) end.

Definition start (k : signal) (url : string) (interval : Z) (w : world) : provider * world :=
  let p := mkProvider (next_id w) k url interval in
  (p, mkWorld (S (next_id w)) (running w ++ [p]) (global_tracer w) (global_meter w) (propagator w) (runtime_metrics w)).

Section Library.
Context (lib : library).

(** [provider.Shutdown]: flushes, which may fail, and stops. *)
Definition stop (p : provider) (w : world) : option string * world :=
  (provider_Shutdown lib (kind p),
   mkWorld (next_id w) (filter (fun x => x ≠ p) (running w)) (global_tracer w) (global_meter w) (propagator w) (runtime_metrics w)).

Definition Shutdown (s : SDK) (w : world) : option string * world :=
  let '(e1, w) := stop (TracerProvider s) w in
  let '(e2, w) := stop (MeterProvider s) w in
  let '(e3, w) := stop (LoggerProvider s) w in
  (errors_Join [e1; e2; e3], w).

Definition set_globals (tp mp : provider) (w : world) : world :=
  mkWorld (next_id w) (running w) (Some tp) (Some mp) true (runtime_metrics w).

Definition Setup (endpoint : string) (iv : Intervals) (w : world) : result SDK * world :=
  match resource_Merge lib with
  | Err e => (Err e, w)
  | Ok _ =>
      let base := trim_slashes endpoint in
      match exporter_New lib Traces (base +:+ "/v1/traces") with
      | Err e => (Err e, w)
      | Ok _ =>
          let '(tp, w) := start Traces (base +:+ "/v1/traces") (TraceBatchTimeout iv) w in
          match exporter_New lib Metrics (base +:+ "/v1/metrics") with
          | Err e => let '(_, w) := stop tp w in (Err e, w)
          | Ok _ =>
              let '(mp, w) := start Metrics (base +:+ "/v1/metrics") (MetricInterval iv) w in
              match exporter_New lib Logs (base +:+ "/v1/logs") with
              | Err e =>
                  let '(_, w) := stop tp w in
                  let '(_, w) := stop mp w in
                  (Err e, w)
              | Ok _ =>
                  let '(lp, w) := start Logs (base +:+ "/v1/logs") (LogBatchTimeout iv) w in
                  let w := set_globals tp mp w in
                  let sdk := mkSDK tp mp lp in
                  match runtime_Start lib with
                  | Err e =>
                      let '(err, w) := Shutdown sdk w in
                      (Err (default EmptyString (errors_Join [Some e; err])), w)
                  | Ok _ =>
                      (Ok sdk, mkWorld (next_id w) (running w) (global_tracer w) (global_meter w) (propagator w) (Some mp))
                  end
              end
          end
      end
  end.
End Library.

(** *** The logger *)

Section Logger.
Context {S J O : Type} `{!SlogHandler S J, !SlogHandler S O}.

(** A handler of either kind, as an interface value. *)
#[export] Instance sum_SlogHandler : SlogHandler S (J + O) := {|
  Enabled h l := match h with inl j => Enabled j l | inr o => Enabled o l end;
  Handle h r s := match h with inl j => Handle j r s | inr o => Handle o r s end;
  WithAttrs a h := match h with inl j => inl (WithAttrs a j) | inr o => inr (WithAttrs a o) end;
  WithGroup g h := match h with inl j => inl (WithGroup g j) | inr o => inr (WithGroup g o) end;
|}.

(** [slog.New(h)]: a record of an enabled level is handled; errors are ignored. *)
Definition slog_New {H} `{!SlogHandler S H} (h : H) : SlogLogger S := fun r s =>
  if Enabled h (log_level r) then (Handle h r s).2 else s.

Definition NewLogger (jsonHandler : J) (otelHandler : O) : SlogLogger S :=
  slog_New (mkFanout [inl jsonHandler; inr otelHandler]).

(** Every record reaches the terminal, and the exporter too unless writing to the
    terminal failed. *)
Lemma NewLogger_both j o r s :
  Enabled j (log_level r) = true -> Enabled o (log_level r) = true ->
  NewLogger j o r s =
    match Handle j r s with
    | (None, s1) => (Handle o r s1).2
    | (Some _, s1) => s1
    end.
Proof using Type.
  intros Hj Ho. unfold NewLogger, slog_New. simpl. unfold fanout_Enabled, fanout_Handle. simpl. rewrite Hj, Ho. simpl.
  destruct (Handle j r s) as [[e|] s1]; [done|]. by destruct (Handle o r s1) as [[e|] s2].
Qed.
End Logger.

(** ** Nothing is left running *)

Definition fresh (w : world) : Prop := Forall (fun p => (pid p < next_id w)%nat) (running w).

Lemma filter_fresh w p : fresh w -> (next_id w <= pid p)%nat -> filter (fun x => x ≠ p) (running w) = running w.
Proof.
  unfold fresh. induction 1 as [|x l Hx Hl IH]; intros Hp; [done|]. rewrite filter_cons, decide_True, IH; [done|done|].
  intros ->. lia.
Qed.

(** Stopping a provider that was started after [l] leaves [l] alone. *)
Lemma filter_started (l : list provider) n p ps :
  Forall (fun x => (pid x < n)%nat) l -> (n <= pid p)%nat -> filter (fun x => x ≠ p) (l ++ ps) = l ++ filter (fun x => x ≠ p) ps.
Proof.
  intros Hl Hp. rewrite filter_app. f_equal. by apply (filter_fresh (mkWorld n l None None false None) p).
Qed.

Lemma filter_ne_eq (p : provider) l : filter (fun x => x ≠ p) (p :: l) = filter (fun x => x ≠ p) l.
Proof. rewrite filter_cons, decide_False; [done|]. by intros []. Qed.

Lemma filter_ne_ne (p q : provider) l : pid q ≠ pid p -> filter (fun x => x ≠ p) (q :: l) = q :: filter (fun x => x ≠ p) l.
Proof. intros H. rewrite filter_cons, decide_True; [done|]. by intros ->. Qed.

Lemma errors_Join_None errs : errors_Join errs = None <-> Forall (fun e => e = None) errs.
Proof.
  unfold errors_Join. induction errs as [|[e|] errs IH]; simpl; [done| |rewrite Forall_cons, <- IH; tauto].
  split; [done|]. by intros [? _]%Forall_cons.
Qed.

(** The three providers for an endpoint. *)
Definition providers (n : nat) (base : string) (iv : Intervals) : list provider :=
  [mkProvider n Traces (base +:+ "/v1/traces") (TraceBatchTimeout iv);
   mkProvider (S n) Metrics (base +:+ "/v1/metrics") (MetricInterval iv);
   mkProvider (S (S n)) Logs (base +:+ "/v1/logs") (LogBatchTimeout iv)].

(** Evaluate the list of running providers. *)
Ltac evaluate_stops :=
  repeat first [ rewrite filter_ne_eq | rewrite filter_ne_ne by (simpl; lia) | rewrite filter_nil
               | rewrite <- app_assoc | progress cbn [app]
               | erewrite filter_started by (eassumption || (simpl; lia)) ].

Lemma Shutdown_spec lib w n l base iv :
  Forall (fun p => (pid p < n)%nat) l -> running w = l ++ providers n base iv ->
  forall tp mp lp, [tp; mp; lp] = providers n base iv ->
  running (Shutdown lib (mkSDK tp mp lp) w).2 = l /\
  ((Shutdown lib (mkSDK tp mp lp) w).1 = None <-> forall k, provider_Shutdown lib k = None).
Proof.
  intros Hl Hw tp mp lp [= -> -> ->]. unfold Shutdown, stop. cbn [running kind TracerProvider MeterProvider LoggerProvider fst snd].
  rewrite Hw. unfold providers. split.
  - evaluate_stops. apply app_nil_r.
  - rewrite errors_Join_None, !Forall_cons. split; [|intros H; by rewrite !H]. by intros (? & ? & ? & _) [].
Qed.

Lemma Setup_Ok lib endpoint iv w sdk w' :
  fresh w -> Setup lib endpoint iv w = (Ok sdk, w') ->
  running w' = running w ++ providers (next_id w) (trim_slashes endpoint) iv /\
  global_tracer w' = Some (TracerProvider sdk) /\ global_meter w' = Some (MeterProvider sdk) /\
  propagator w' = true /\ runtime_metrics w' = Some (MeterProvider sdk) /\
  running (Shutdown lib sdk w').2 = running w.
Proof.
  intros Hw. unfold Setup. set (base := trim_slashes endpoint).
  destruct (resource_Merge lib) as [[]|e]; [|done]. destruct (exporter_New lib Traces _) as [[]|e]; [|done]. cbn [start].
  destruct (exporter_New lib Metrics _) as [[]|e]; [|done]. cbn [start].
  destruct (exporter_New lib Logs _) as [[]|e]; [|done]. cbn [start].
  destruct (runtime_Start lib) as [[]|e]; [|by destruct (Shutdown _ _ _)]. intros [= <- <-].
  cbn [running global_tracer global_meter propagator runtime_metrics set_globals next_id].
  assert (forall a b c, ((running w ++ [a]) ++ [b]) ++ [c] = running w ++ [a; b; c]) as Happ by (intros; by rewrite <- !app_assoc).
  split_and!; [apply Happ|done..|]. eapply (Shutdown_spec lib _ (next_id w) _ base iv Hw); [|done]. apply Happ.
Qed.

(** C25. [Setup] succeeds exactly if every call of the SDK does; then the three
    providers are running, each sending to its path below the endpoint, and those
    of traces and metrics are the global ones (the logger provider has no global
    and is used through the returned value). If any call fails, every provider started so far has been
    stopped again. Providers that were running before are not affected, and
    [Shutdown] of what [Setup] returned leaves exactly those. *)
Theorem setup_leaves_nothing (lib : library) (endpoint : string) (iv : Intervals) (w : world) (Hw : fresh w) :
  let base := trim_slashes endpoint in
  match Setup lib endpoint iv w with
  | (Err _, w') => running w' = running w
  | (Ok sdk, w') =>
      running w' = running w ++ providers (next_id w) base iv /\
      global_tracer w' = Some (TracerProvider sdk) /\ global_meter w' = Some (MeterProvider sdk) /\
      propagator w' = true /\ runtime_metrics w' = Some (MeterProvider sdk) /\
      running (Shutdown lib sdk w').2 = running w
  end /\
  (is_ok (Setup lib endpoint iv w).1 = true <->
   resource_Merge lib = Ok tt /\ runtime_Start lib = Ok tt /\
   forall p, p ∈ providers (next_id w) base iv -> exporter_New lib (kind p) (url p) = Ok tt).
Proof.
  intros base. split.
  - destruct (Setup lib endpoint iv w) as [[sdk|e] w'] eqn:E; [by apply (Setup_Ok lib)|].
    revert E. unfold Setup. fold base. unfold fresh in Hw.
    repeat (case_match; simplify_eq/=; try done); intros [= _ <-]; unfold start in *; simplify_eq; cbn [next_id running set_globals] in *;
      (reflexivity || (evaluate_stops; apply app_nil_r)).
  - unfold Setup. fold base. rewrite <- (Forall_forall (fun p => exporter_New lib (kind p) (url p) = Ok tt)). unfold providers.
    rewrite !Forall_cons, Forall_nil. cbn [kind url]. unfold start, stop, Shutdown. cbn [fst].
    repeat (case_match; simplify_eq/=); repeat match goal with x : unit |- _ => destruct x end; naive_solver.
Qed.

(** *** Endpoints *)

Lemma trim_slashes_end s t : trim_slashes s ≠ t +:+ "/".
Proof.
  revert t. induction s as [|c s IH]; intros t; [by destruct t|]. simpl. destruct (trim_slashes s) as [|c' s'] eqn:E.
  - destruct (code c =? 47) eqn:Ec; [by destruct t|]. destruct t as [|d [|]]; rewrite ?append_nil_l, ?append_cons; [|done..].
    intros [= ->]. done.
  - destruct t as [|d t]; rewrite ?append_nil_l, ?append_cons; [done|]. intros [= _ E']. by apply (IH t).
Qed.

(** Slashes at the end of the endpoint make no difference. *)
Lemma trim_slashes_app s : trim_slashes (s +:+ "/") = trim_slashes s.
Proof. induction s as [|c s IH]; [done|]. rewrite append_cons. simpl. by rewrite IH. Qed.

Lemma setup_ignores_trailing_slash lib endpoint iv w : Setup lib (endpoint +:+ "/") iv w = Setup lib endpoint iv w.
Proof. unfold Setup. by rewrite trim_slashes_app. Qed.

(** ** Example *)

Definition idle : world := mkWorld 0 [] None None false None.

(** The exporter for logs cannot be made. *)
Definition no_logs : library := mkLibrary (Ok tt) (fun k _ => match k with Logs => Err "bad URL" | _ => Ok tt end) (Ok tt) (fun _ => None).

Lemma setup_leaves_nothing_witness :
  (Setup no_logs "http://otel:4318/" (mkIntervals 1 2 3) idle).1 = Err "bad URL" /\
  running (Setup no_logs "http://otel:4318/" (mkIntervals 1 2 3) idle).2 = [].
Proof.
  split; [reflexivity|].
  pose proof (setup_leaves_nothing no_logs "http://otel:4318/" (mkIntervals 1 2 3) idle (Forall_nil_2 _)) as [H _].
  destruct (Setup _ _ _ _) as [[sdk|e] w'] eqn:E; [vm_compute in E; discriminate E|exact H].
Defined.

End Otel.
