(* ===== verification/Process.v ===== *)
(** * The gateway process ([cmd/gateway/main.go])

    [main] as the sequence of what it does to the outside (telemetry, listening,
    shutting down, exiting), from the inputs it meets: the configuration file and
    environment, the answers during construction of the router, and how serving
    ends. It is composed of [Config.Load], [Otel.Setup] and [Build.buildRouter]. *)

From S2P Require Import Prelude GoStrings Http Observers Config Router Telemetry.
Import Http.

Module Process.
Import Config.

(** The fields of [http.Server]. *)
Record http_Server (Router : Type) := mkServer {
  Addr : string;
  Handler : Router;
  ReadHeaderTimeout : Z;
  ReadTimeout : Z;
  WriteTimeout : Z;
  IdleTimeout : Z;
  srv_MaxHeaderBytes : Z;
}.
Arguments mkServer {Router} _ _ _ _ _ _ _.
Arguments Addr {Router} _.
Arguments Handler {Router} _.
Arguments srv_MaxHeaderBytes {Router} _.

Inductive event (Router : Type) :=
| Log (l : level) (msg : string)
| TelemetryUp (sdk : Otel.SDK)
| Serving (srv : http_Server Router)
| ServerShutdown (timeout : Z)
| TelemetryDown (err : option string)
| Exit (code : Z).
Arguments Log {Router} _ _.
Arguments TelemetryUp {Router} _.
Arguments Serving {Router} _.
Arguments ServerShutdown {Router} _.
Arguments TelemetryDown {Router} _.
Arguments Exit {Router} _.

(** [ListenAndServe] fails, or a signal arrives and [Shutdown] returns. *)
Inductive ending := ServeFailed (e : string) | Signalled (shutdown : result unit).

Section Main.
Context {Key I : Type} (env : Build.environment Key I).
Variable file : result string.
Variable Unmarshal : string -> result GatewayConfig.
Variable Getenv : string -> string.
Variable lib : Otel.library.

Notation trace := (list (event (Build.built_router Key I))).

Definition intervals (cfg : GatewayConfig) : Otel.Intervals :=
  Otel.mkIntervals (MetricInterval (Telemetry cfg)) (TraceBatchTimeout (Telemetry cfg)) (LogBatchTimeout (Telemetry cfg)).

Definition new_server (cfg : GatewayConfig) (router : Build.built_router Key I) : http_Server (Build.built_router Key I) :=
  mkServer (":" +:+ Itoa (Port cfg)) router (5 * Second) (30 * Second) (30 * Second) (120 * Second) (MaxHeaderBytes cfg).

(** The block under [cfg.OTelEndpoint != ""]; [None]: the process has exited. *)
Definition telemetry (cfg : GatewayConfig) (w : Otel.world) : trace * option (option Otel.SDK) * Otel.world :=
  if decide (OTelEndpoint cfg = EmptyString) then ([], Some None, w)
  else match Otel.Setup lib (OTelEndpoint cfg) (intervals cfg) w with
       | (Err _, w) => ([Log LevelError "failed to setup OTel"; Exit 1], None, w)
       | (Ok sdk, w) => ([TelemetryUp sdk; Log LevelInfo "OTel enabled"], Some (Some sdk), w)
       end.

(** The deferred [sdk.Shutdown]. *)
Definition flush (sdk : option Otel.SDK) (w : Otel.world) : trace * Otel.world :=
  match sdk with
  | None => ([], w)
  | Some sdk =>
      let '(err, w) := Otel.Shutdown lib sdk w in
      (TelemetryDown err :: match err with Some _ => [Log LevelError "OTel shutdown"] | None => [] end, w)
  end.

(** From [ListenAndServe] to the end; [os.Exit] skips the deferred calls. *)
Definition serve (srv : http_Server (Build.built_router Key I)) (sdk : option Otel.SDK) (e : ending) (w : Otel.world) :
    trace * Otel.world :=
  match e with
  | ServeFailed _ => ([Log LevelInfo "gateway started"; Serving srv; Log LevelError "server failed"; Exit 1], w)
  | Signalled r =>
      let '(down, w) := flush sdk w in
      ([Log LevelInfo "gateway started"; Serving srv; Log LevelInfo "shutting down"; ServerShutdown (10 * Second)] ++
       match r with Err _ => [Log LevelError "server shutdown"] | Ok _ => [] end ++ down ++ [Exit 0], w)
  end.

Definition main (e : ending) (w : Otel.world) : trace * Otel.world :=
  match Load file Unmarshal Getenv with
  | inl _ => ([Log LevelError "failed to load config"; Exit 1], w)
  | inr cfg =>
      let '(tr, sdk, w) := telemetry cfg w in
      match sdk with
      | None => (tr, w)
      | Some sdk =>
          match Build.buildRouter env cfg with
          | Err _ => (tr ++ [Log LevelError "failed to build router"; Exit 1], w)
          | Ok router => let '(tr', w) := serve (new_server cfg router) sdk e w in (tr ++ tr', w)
          end
      end
  end.

(** ** Theorems *)

Lemma flush_events sdk w x : x ∈ (flush sdk w).1 -> (exists err, x = TelemetryDown err) \/ exists l m, x = Log l m.
Proof using Type.
  unfold flush. destruct sdk as [sdk|]; [|by intros ?%not_elem_of_nil].
  destruct (Otel.Shutdown lib sdk w) as [[e|] w']; simpl; rewrite !elem_of_cons, elem_of_nil;
    [intros [->|[->|[]]]|intros [->|[]]]; eauto.
Qed.

Lemma telemetry_events cfg w x : x ∈ (telemetry cfg w).1.1 -> (forall srv, x ≠ Serving srv) /\ x ≠ Exit 0.
Proof using All.
  unfold telemetry. case_decide; simpl; [set_solver|]. destruct (Otel.Setup _ _ _ _) as [[sdk|e] w']; set_solver.
Qed.

Lemma Load_validated cfg : Load file Unmarshal Getenv = inr cfg -> exists cfg0, validate cfg0 = inr cfg.
Proof using Type. 
  unfold Load. destruct file as [text|e]; [|done]. destruct (Unmarshal text) as [c|e]; [|done]. cbv zeta.
  destruct (validate _) as [e|c'] eqn:E; [done|]. intros [= <-]. eauto.
Qed.

(** What [main] serves, if it serves: a router built from a validated
    configuration, on the configured port and within the configured header size. *)
Theorem serves_validated_router (e : ending) (w : Otel.world) (srv : http_Server (Build.built_router Key I))
    (Hs : Serving srv ∈ (main e w).1) :
  exists cfg0 cfg, validate cfg0 = inr cfg /\ Load file Unmarshal Getenv = inr cfg /\
    Build.buildRouter env cfg = Ok (Handler srv) /\ Addr srv = ":" +:+ Itoa (Port cfg) /\
    0 < srv_MaxHeaderBytes srv.
Proof using Type.
  unfold main in Hs. destruct (Load _ _ _) as [l|cfg] eqn:El; [set_solver|].
  destruct (Load_validated _ El) as [cfg0 Hv]. pose proof (telemetry_events cfg w (Serving srv)) as Ht.
  destruct (telemetry cfg w) as [[tr [sdk|]] w1]; simpl in *; [|by destruct (proj1 (Ht Hs) srv)].
  assert (Serving srv ∉ tr) as Hn by (intros Hin; by destruct (proj1 (Ht Hin) srv)).
  destruct (Build.buildRouter env cfg) as [router|er] eqn:Eb; [|set_solver].
  assert (srv = new_server cfg router) as ->.
  { pose proof (flush_events sdk w1 (Serving srv)) as Hf. unfold serve in Hs. destruct e as [er|r]; [set_solver|].
    destruct (flush sdk w1) as [down w2]. simpl in *.
    assert (Serving srv ∉ down) by (intros [[? [=]]|(? & ? & [=])]%Hf). destruct r; set_solver. }
  exists cfg0, cfg. split_and!; try done. simpl.
  apply validate_spec in Hv as [_ ->]. by apply positive_or_positive.
Qed.

(** C26. A gateway that is asked to stop stops cleanly: it first shuts the server
    down, then, exactly once, telemetry if it had been enabled; then it exits with 0,
    and none of the providers it started is left running. *)
Theorem stops_cleanly (r : result unit) (w : Otel.world) (Hw : Otel.fresh w) (cfg : GatewayConfig)
    (router : Build.built_router Key I) (Hc : Load file Unmarshal Getenv = inr cfg)
    (Hb : Build.buildRouter env cfg = Ok router)
    (Ht : OTelEndpoint cfg = EmptyString \/ is_ok (Otel.Setup lib (OTelEndpoint cfg) (intervals cfg) w).1 = true) :
  exists pre down, (main (Signalled r) w).1 = pre ++ down ++ [Exit 0] /\
    Serving (new_server cfg router) ∈ pre /\ ServerShutdown (10 * Second) ∈ pre /\ (forall x, TelemetryDown x ∉ pre) /\
    (OTelEndpoint cfg = EmptyString /\ down = [] \/
     exists sdk err post, TelemetryUp sdk ∈ pre /\ down = TelemetryDown err :: post /\ (forall x, TelemetryDown x ∉ post)) /\
    Otel.running (main (Signalled r) w).2 = Otel.running w.
Proof using Type.
  unfold main. rewrite Hc. unfold telemetry. destruct (decide (OTelEndpoint cfg = EmptyString)) as [E|E].
  - rewrite Hb. simpl.
    exists ([Log LevelInfo "gateway started"; Serving (new_server cfg router); Log LevelInfo "shutting down"; ServerShutdown (10 * Second)] ++
      match r with Err _ => [Log LevelError "server shutdown"] | Ok _ => [] end), [].
    split_and!; [by destruct r|set_solver|set_solver|destruct r; set_solver|by left|done].
  - destruct Ht as [?|Ht]; [done|].
    destruct (Otel.Setup _ _ _ _) as [[sdk|er] w1] eqn:Es; [|done].
    destruct (Otel.Setup_Ok _ _ _ _ _ _ Hw Es) as (_ & _ & _ & _ & _ & Hrun). rewrite Hb. unfold serve, flush.
    destruct (Otel.Shutdown lib sdk w1) as [err w2]. simpl in *.
    exists ([TelemetryUp sdk; Log LevelInfo "OTel enabled"; Log LevelInfo "gateway started"; Serving (new_server cfg router);
      Log LevelInfo "shutting down"; ServerShutdown (10 * Second)] ++
      match r with Err _ => [Log LevelError "server shutdown"] | Ok _ => [] end),
      (TelemetryDown err :: match err with Some _ => [Log LevelError "OTel shutdown"] | None => [] end).
    split_and!; [by destruct r, err|set_solver|set_solver|destruct r; set_solver| |done].
    right. exists sdk, err. eexists. split; [set_solver|]. split; [done|]. destruct err; set_solver.
Qed.

(** When the router cannot be built the process exits without shutting telemetry
    down: the providers are still running, so what they have buffered (the line
    that says why) is not sent. *)
Theorem failed_build_skips_flush (e : ending) (w : Otel.world) (cfg : GatewayConfig) (sdk : Otel.SDK) (w1 : Otel.world) (er : string)
    (Hw : Otel.fresh w) (Hc : Load file Unmarshal Getenv = inr cfg) (Hne : OTelEndpoint cfg ≠ EmptyString)
    (Ht : Otel.Setup lib (OTelEndpoint cfg) (intervals cfg) w = (Ok sdk, w1)) (Hb : Build.buildRouter env cfg = Err er) :
  (main e w).1 = [TelemetryUp sdk; Log LevelInfo "OTel enabled"; Log LevelError "failed to build router"; Exit 1] /\
  length (Otel.running (main e w).2) = (length (Otel.running w) + 3)%nat.
Proof using Type.
  destruct (Otel.Setup_Ok _ _ _ _ _ _ Hw Ht) as [H _].
  unfold main. rewrite Hc. unfold telemetry. rewrite decide_False, Ht, Hb by done. split; [done|]. simpl. by rewrite H, length_app.
Qed.
End Main.

(** ** Example *)

Definition sample_getenv (k : string) : string :=
  if decide (k = "JWT_PUBLIC_KEY_PATH") then "key.pem"
  else if decide (k = "OTEL_EXPORTER_OTLP_ENDPOINT") then "http://otel:4318/" else EmptyString.

Definition sample_unmarshal (text : string) : result GatewayConfig := Ok (sample five [catalog; orders]).

Definition reliable : Otel.library := Otel.mkLibrary (Ok tt) (fun _ _ => Ok tt) (Ok tt) (fun _ => None).

(** The environment in which no probe succeeds. *)
Definition down_env : Build.environment string string :=
  Build.mkEnv string string Observers.MetricsMW.sample_meter (fun _ => Ok "pem") Some (fun _ => Ok (Some "key")) (fun _ => Ok tt)
  (fun _ => []) ["orders"; "catalog"] (fun _ => []).

Notation sample_main env := (main env (Ok "text") sample_unmarshal sample_getenv reliable (Signalled (Ok tt)) Otel.idle).

Definition loaded : GatewayConfig :=
  match Load (Ok "text") sample_unmarshal sample_getenv with inr cfg => cfg | inl _ => sample five [] end.

Lemma idle_fresh : Otel.fresh Otel.idle.
Proof. apply Forall_nil_2. Qed.

Lemma loaded_eq : Load (Ok "text") sample_unmarshal sample_getenv = inr loaded.
Proof. vm_compute. reflexivity. Qed.

Lemma loaded_endpoint : OTelEndpoint loaded = "http://otel:4318/".
Proof. vm_compute. reflexivity. Qed.

Definition is_built {A} (r : result A) : bool := match r with Ok _ => true | Err _ => false end.

Lemma sample_built : is_built (Build.buildRouter Build.sample_env loaded) = true.
Proof. vm_compute. reflexivity. Qed.

Lemma down_not_built : is_built (Build.buildRouter down_env loaded) = false.
Proof. vm_compute. reflexivity. Qed.

Lemma sample_serving {Key I} (env : Build.environment Key I) router :
  Build.buildRouter env loaded = Ok router -> Serving (new_server loaded router) ∈ (sample_main env).1.
Proof.
  intros E. unfold main. rewrite loaded_eq. unfold telemetry. rewrite loaded_endpoint, decide_False by done.
  destruct (Otel.Setup _ _ _ _) as [[sdk|er] w] eqn:Es; [|discriminate Es]. rewrite E. unfold serve.
  destruct (flush _ _ _) as [down w']. cbn [fst]. apply elem_of_app. right. right. left.
Qed.

Lemma serves_validated_router_witness :
  exists router cfg, Build.buildRouter Build.sample_env cfg = Ok router /\
    Serving (new_server cfg router) ∈ (sample_main Build.sample_env).1 /\ 0 < MaxHeaderBytes cfg.
Proof.
  pose proof sample_built as Hb. destruct (Build.buildRouter Build.sample_env loaded) as [router|e] eqn:E; [|discriminate Hb].
  exists router, loaded. split; [exact E|]. split; [exact (sample_serving _ _ E)|].
  destruct (serves_validated_router Build.sample_env (Ok "text") sample_unmarshal sample_getenv reliable (Signalled (Ok tt)) Otel.idle
    (new_server loaded router) (sample_serving _ _ E)) as (_ & _ & _ & _ & _ & _ & H). exact H.
Defined.

Lemma sample_setup : is_ok (Otel.Setup reliable (OTelEndpoint loaded) (intervals loaded) Otel.idle).1 = true.
Proof. vm_compute. reflexivity. Qed.

Lemma stops_cleanly_witness :
  exists pre down, (sample_main Build.sample_env).1 = pre ++ down ++ [Exit 0] /\
    ServerShutdown (10 * Second) ∈ pre /\ Otel.running (sample_main Build.sample_env).2 = [].
Proof.
  pose proof sample_built as Hb. destruct (Build.buildRouter Build.sample_env loaded) as [router|e] eqn:E; [|discriminate Hb].
  destruct (stops_cleanly Build.sample_env (Ok "text") sample_unmarshal sample_getenv reliable (Ok tt) Otel.idle idle_fresh loaded router
    loaded_eq E (or_intror sample_setup)) as (pre & down & H1 & _ & H2 & _ & _ & H3).
  exists pre, down. split; [exact H1|]. split; [exact H2|exact H3].
Defined.

Lemma failed_build_skips_flush_witness :
  exists sdk, (sample_main down_env).1 =
    [TelemetryUp sdk; Log LevelInfo "OTel enabled"; Log LevelError "failed to build router"; Exit 1] /\
    length (Otel.running (sample_main down_env).2) = 3%nat.
Proof.
  pose proof down_not_built as Hb. destruct (Build.buildRouter down_env loaded) as [router|er] eqn:E; [discriminate Hb|].
  pose proof sample_setup as Hs. destruct (Otel.Setup reliable (OTelEndpoint loaded) (intervals loaded) Otel.idle) as [[sdk|e] w1] eqn:Es;
    [|discriminate Hs].
  assert (OTelEndpoint loaded ≠ EmptyString) as Hne by (rewrite loaded_endpoint; discriminate).
  exists sdk. exact (failed_build_skips_flush down_env (Ok "text") sample_unmarshal sample_getenv reliable (Signalled (Ok tt)) Otel.idle loaded
    sdk w1 er idle_fresh loaded_eq Hne Es E).
Defined.

End Process.
