(* ===== verification/Loadtest.v ===== *)
(** * The load test tools ([loadtest/token.go], [loadtest/cmd/gentoken/main.go],
      [loadtest/scenarios/user_flow.go])

    [Module Token] signs the tokens the gateway is tested with; [Module Duration]
    is the printing of a [time.Duration]; [Module UserFlow] the simulated users,
    the statistics they share and the interval report. The signing side of the
    JWT library is a parameter, as its parsing side is in [Auth]; so are PEM and
    PKCS#8 decoding, [http.NewRequest] and the client's round trip. *)

From Stdlib Require Import Ascii.
From stdpp Require Import pretty.
From S2P Require Import Prelude GoStrings Http Json Auth Upstream.
Import Http.

Module Token.
Import Auth.

Section Keys.
Context {Priv : Type}.
Variable pem_Decode : string -> option string.
(** [x509.ParsePKCS8PrivateKey]; [None]: a key that is not RSA. *)
Variable ParsePKCS8 : string -> result (option Priv).

Definition LoadPrivateKey (path : string) (file : result string) : result Priv :=
  let? data := file in
  match pem_Decode data with
  | None => Err ("no PEM block found in " +:+ path)
  | Some block =>
      let? key := ParsePKCS8 block in
      match key with None => Err "key is not RSA" | Some k => Ok k end
  end.
End Keys.

(** [token.SignedString(key)] *)
Class Signer (Priv : Type) := { SignedString : Token -> Priv -> result string }.

(** [time.Now().Add(time.Hour).Unix()], from nanoseconds since the epoch. *)
Definition expiry (now : Z) : Z := (now + Hour) / Second.

Definition newToken (subject : string) (roles : list string) (now : Z) : Token :=
  mkToken true "RS256"
    (Some {["sub" := JString subject; "roles" := JArray (map JString roles); "exp" := JNumber (expiry now)]}).

(** UTF-8, byte by byte: no overlong forms, no surrogates, nothing beyond U+10FFFF. *)
Definition byte_in (lo hi : Z) (c : ascii) : bool := (lo <=? code c) && (code c <=? hi).

Fixpoint valid_utf8 (s : string) : bool :=
  match s with
  | EmptyString => true
  | String a s1 =>
      if code a <? 128 then valid_utf8 s1
      else
        match s1 with
        | EmptyString => false
        | String b s2 =>
            if byte_in 194 223 a then byte_in 128 191 b && valid_utf8 s2
            else
              match s2 with
              | EmptyString => false
              | String c s3 =>
                  if byte_in 224 239 a then
                    byte_in (if code a =? 224 then 160 else 128) (if code a =? 237 then 159 else 191) b &&
                    byte_in 128 191 c && valid_utf8 s3
                  else
                    match s3 with
                    | EmptyString => false
                    | String d s4 =>
                        byte_in 240 244 a && byte_in (if code a =? 240 then 144 else 128) (if code a =? 244 then 143 else 191) b &&
                        byte_in 128 191 c && byte_in 128 191 d && valid_utf8 s4
                    end
              end
        end
  end.

(** Claims that JSON carries unchanged: text, lists of text, and integers that a
    float64 holds. *)
Definition is_text (v : any) : bool := match v with JString s => valid_utf8 s | _ => false end.

Definition json_stable (v : any) : bool :=
  match v with
  | JString s => valid_utf8 s
  | JNumber n => Z.abs n <=? 2 ^ 53
  | JArray l => forallb is_text l
  | _ => false
  end.

(** The library's documentation, of any token: what was signed with a private key
    parses to the same token, if the public key that the key function returns
    belongs to the private key, the token's own [alg] is one of the valid methods
    (and is the name of its signing method), the time is before the token's own
    [exp], and it has no [nbf]. *)
Class SignerLaws (Priv Key : Type) `{!Signer Priv, !JWT Key} (belongs : Priv -> Key -> Prop) (clock : Z) : Prop := {
  signed_parses : forall t m e k pub s keyfunc methods,
    SignedString t k = Ok s -> belongs k pub -> keyfunc t = Ok pub -> alg t ∈ methods ->
    method_rsa t = bool_decide (alg t ∈ ["RS256"; "RS384"; "RS512"]) ->
    token_claims t = Some m -> map_Forall (fun k v => valid_utf8 k && json_stable v = true) m ->
    m !! "exp" = Some (JNumber e) -> clock < e -> m !! "nbf" = None ->
    ParseWithClaims s keyfunc methods = Ok t;
}.

Definition SignToken {Priv} `{!Signer Priv} (key : Priv) (subject : string) (roles : list string) (now : Z) : result string :=
  SignedString (newToken subject roles now) key.

Inductive exited := Printed (out : string) | Failed (stderr : string).

(** [gentoken]'s [main], with the values of its flags. *)
Definition gentoken {Priv} `{!Signer Priv} pem_Decode (ParsePKCS8 : string -> result (option Priv)) (readFile : string -> result string)
    (keyPath sub : string) (now : Z) : exited :=
  match LoadPrivateKey pem_Decode ParsePKCS8 keyPath (readFile keyPath) with
  | Err e => Failed ("failed to load key: " +:+ e +:+ Json.newline)
  | Ok key =>
      match SignToken key sub ["admin"] now with
      | Err e => Failed ("failed to sign token: " +:+ e +:+ Json.newline)
      | Ok token => Printed token
      end
  end.

Lemma forallb_texts roles : forallb valid_utf8 roles = true -> forallb is_text (map JString roles) = true.
Proof. induction roles as [|x roles IH]; [done|]. simpl. intros H. bool2prop. by rewrite IH, andb_true_r. Qed.

(** C33. A token signed for the load test passes the gateway's authentication,
    until 3600 seconds after it was signed, under the public key that belongs to
    the signing key, and the request is handed on with exactly the signed subject
    and roles. The subject and the roles are valid UTF-8, and there is a role. *)
Theorem signed_token_is_accepted {Priv Key} `{!Signer Priv, !JWT Key} (belongs : Priv -> Key -> Prop) (clock : Z)
    (L : SignerLaws Priv Key belongs clock) (key : Priv) (pub : Key) (subject : string) (roles : list string) (now : Z) (s : string)
    (Hkey : belongs key pub) (Hs : SignToken key subject roles now = Ok s)
    (Hsub : valid_utf8 subject = true) (Hroles : forallb valid_utf8 roles = true) (Hsome : roles ≠ [])
    (Hnow : 0 <= now <= MaxInt) (Ht : clock < now / Second + 3600)
    {W} (RW : ResponseWriter W) (r : Request) (w : W) (Hr : Get (header r) "Authorization" = "Bearer " +:+ s) :
  forwarded (JWTAuth pub) RW r w = [WithContext (newClaimsContext (ctx r) (mkClaims subject roles)) r].
Proof.
  unfold forwarded, JWTAuth. rewrite (proj2 (CutPrefix_spec _ _ s) Hr). unfold parseAndValidateToken.
  assert (expiry now = now / Second + 3600) as He.
  { unfold expiry. change Hour with (3600 * Second). by rewrite Z.div_add. }
  assert (0 <= now / Second <= 9223372036) as Hd.
  { unfold MaxInt, two63, Second in *. split; [apply Z.div_pos; lia|]. apply Z.lt_succ_r. apply Z.div_lt_upper_bound; lia. }
  rewrite (signed_parses (newToken subject roles now)
      (default ∅ (token_claims (newToken subject roles now))) (expiry now) key pub s (keyFunc pub) ["RS256"] Hs Hkey);
    [|reflexivity|by left|reflexivity|reflexivity| |reflexivity|by rewrite He|reflexivity].
  - rewrite (proj2 (extractClaims_spec _ (mkClaims subject roles))); [done|]. eexists _, _. split_and!; done.
  - intros k v Hk. unfold newToken in Hk. cbn [token_claims default id] in Hk.
    apply lookup_insert_Some in Hk as [[<- <-]|[_ Hk]]; [done|].
    apply lookup_insert_Some in Hk as [[<- <-]|[_ Hk]]; [by apply forallb_texts|].
    apply lookup_singleton_Some in Hk as [<- <-]. simpl. apply Z.leb_le. lia.
Qed.

(** ** Example *)

Definition key_pair (k pub : string) : Prop := k = "private" /\ pub = "key".

(** Signs one token: that of [alice], expiring at second 3600, as [tok]. *)
Definition for_alice (t : Token) : bool :=
  method_rsa t && bool_decide (alg t = "RS256") &&
  match token_claims t with
  | Some m =>
      bool_decide (dom m = ({["sub"; "roles"; "exp"]} : gset string)) &&
      match m !! "sub", m !! "roles", m !! "exp" with
      | Some (JString sub), Some (JArray [JString role]), Some (JNumber e) =>
          bool_decide (sub = "alice") && bool_decide (role = "admin") && (e =? 3600)
      | _, _, _ => false
      end
  | None => false
  end.

Definition sample_signer : Signer string := {|
  SignedString t k := if for_alice t && bool_decide (k = "private") then Ok "tok" else Err "not signed" |}.

Definition sample_parser : JWT string := {|
  ParseWithClaims s keyfunc methods :=
    let t := newToken "alice" ["admin"] 0 in
    match keyfunc t with
    | Ok k => if bool_decide (s = "tok" /\ k = "key" /\ "RS256" ∈ methods) then Ok t else Err "signature is invalid"
    | Err e => Err e
    end |}.

Lemma for_alice_spec t : for_alice t = true -> t = newToken "alice" ["admin"] 0.
Proof.
  destruct t as [rsa a [m|]]; unfold for_alice; simpl; [|by rewrite andb_false_r].
  intros H. bool2prop. destruct rsa; [|done]. subst a. unfold newToken. do 2 f_equal.
  destruct (m !! "sub") as [[sub| | | | |]|] eqn:Es; try done.
  destruct (m !! "roles") as [[| | | |[|[role| | | | |] [|]]|]|] eqn:Er; try done.
  destruct (m !! "exp") as [[|e| | | |]|] eqn:Ee; try done. bool2prop. simplify_eq.
  apply map_eq. intros k. destruct (decide (k = "sub")) as [->|H1]; [by rewrite Es|].
  destruct (decide (k = "roles")) as [->|H2]; [by rewrite Er|]. destruct (decide (k = "exp")) as [->|H3]; [by rewrite Ee|].
  rewrite !lookup_insert_ne, lookup_singleton_ne by done. apply not_elem_of_dom. set_solver.
Qed.

Lemma sample_laws : @SignerLaws string string sample_signer sample_parser key_pair 100.
Proof.
  split. intros t m e k pub s keyfunc methods Hs [-> ->] Hk Hm _ _ _ _ _ _. revert Hs. simpl.
  destruct (for_alice t) eqn:E; [|done]. apply for_alice_spec in E. subst t. intros [= <-]. rewrite Hk.
  by rewrite bool_decide_true.
Qed.

Lemma signed_token_is_accepted_witness :
  @forwarded (@JWTAuth string sample_parser _ "key") response response_Writer (Auth.Sample.request "Bearer tok") new_response =
  [WithContext (newClaimsContext Background (mkClaims "alice" ["admin"])) (Auth.Sample.request "Bearer tok")].
Proof.
  apply (@signed_token_is_accepted string string sample_signer sample_parser key_pair 100 sample_laws "private" "key" "alice" ["admin"] 0 "tok"
    (conj eq_refl eq_refl)); try reflexivity; [discriminate|split; discriminate].
Defined.

End Token.

Module Duration.

(** [d.Truncate(m)] for a positive [m]: towards zero. *)
Definition Truncate (d m : Z) : Z := d - Z.rem d m.

Fixpoint zeros (n : nat) : string := match n with O => EmptyString | S n => "0" +:+ zeros n end.

(** [v] in at least [prec] digits. *)
Definition padded (prec : nat) (v : Z) : string := let s := Itoa v in zeros (prec - String.length s) +:+ s.

(** The digits of a fraction, without zeros at its end. *)
Fixpoint strip_zeros (s : string) : string :=
  match s with
  | EmptyString => EmptyString
  | String c s =>
      match strip_zeros s with
      | EmptyString => if code c =? 48 then EmptyString else String c EmptyString
      | t => String c t
      end
  end.

(** [fmtFrac] and [fmtInt]: [v / 10^prec] in decimal. *)
Definition decimal (v : Z) (prec : nat) : string :=
  let unit := 10 ^ Z.of_nat prec in
  let frac := strip_zeros (padded prec (v mod unit)) in
  Itoa (v / unit) +:+ match frac with EmptyString => EmptyString | _ => "." +:+ frac end.

Definition micro : string := String (byte 194) (String (byte 181) "s").

(** [d.String()] of a duration that is not negative. *)
Definition String_ (d : Z) : string :=
  if d =? 0 then "0s"
  else if d <? Microsecond then Itoa d +:+ "ns"
  else if d <? Millisecond then decimal d 3 +:+ micro
  else if d <? Second then decimal d 6 +:+ "ms"
  else
    let m := d / Minute in
    let s := decimal (d mod Minute) 9 +:+ "s" in
    if m =? 0 then s
    else let h := m / 60 in
         let s := Itoa (m mod 60) +:+ "m" +:+ s in
         if h =? 0 then s else Itoa h +:+ "h" +:+ s.

Example string_ms : String_ (Truncate 12345678 (100 * Microsecond)) = "12.3ms".
Proof. vm_compute. done. Qed.

Example string_min : String_ (75 * Second + 500 * Millisecond) = "1m15.5s".
Proof. vm_compute. done. Qed.

End Duration.

Module UserFlow.

(** ** Statistics *)

Record stats := mkStats { latencies : list Z; codes : gmap Z Z; errors : Z }.

Definition new_stats : stats := mkStats [] ∅ 0.

Definition record (code d : Z) (s : stats) : stats :=
  mkStats (latencies s ++ [d]) (<[code := int64 (default 0 (codes s !! code) + 1)]> (codes s)) (errors s).

Definition recordError (s : stats) : stats := mkStats (latencies s) (codes s) (int64 (errors s + 1)).

(** Taken together; [step] below separates the reading of the error counter from
    its reset. *)
Definition snapshot (s : stats) : (list Z * gmap Z Z * Z) * stats :=
  ((latencies s, codes s, errors s), new_stats).

(** ** One request *)

Section Requests.
(** [http.NewRequestWithContext], and [client.Do] with the time it takes. *)
Variable NewRequest : string -> string -> string -> result Request.
Variable Do : Request -> result Z * Z.

(** The request [doReq] sends. *)
Definition client_request (method url body token : string) : result Request :=
  let? req := NewRequest method url body in
  let h := header req in
  let h := if decide (body = EmptyString) then h else Set_ "Content-Type" "application/json" h in
  let h := if decide (token = EmptyString) then h else Set_ "Authorization" ("Bearer " +:+ token) h in
  Ok (WithHeader h req).

(** [ctx_err]: the context has ended when [client.Do] has returned an error. *)
Definition doReq (ctx_err : bool) (s : stats) (method url body token : string) : stats :=
  match client_request method url body token with
  | Err _ => recordError s
  | Ok req =>
      let '(resp, elapsed) := Do req in
      match resp with
      | Err _ => if ctx_err then s else recordError s
      | Ok code => record code elapsed s
      end
  end.

(** ** One user *)

(** What a round of a user meets: has the context ended at its start, the two
    random numbers ([rand.IntN(3)]), has it ended when a request fails, and which
    case of the final [select] fires. *)
Record round := mkRound {
  ended : bool;
  rand_product : Z;
  rand_quantity : Z;
  ended_req : nat -> bool;
  ended_think : bool;
}.

Definition order_body (productID quantity : Z) : string :=
  Json.Marshal (Json.JObject [("product_id", Json.JInt productID); ("quantity", Json.JInt quantity)]).

Definition user_round (gateway token : string) (x : round) (s : stats) : stats :=
  let s := doReq (ended_req x 0) s "GET" (gateway +:+ "/catalog/products") EmptyString EmptyString in
  let productID := rand_product x + 1 in
  let s := doReq (ended_req x 1) s "GET" (gateway +:+ "/catalog/products/" +:+ Itoa productID) EmptyString EmptyString in
  let body := order_body productID (rand_quantity x + 1) in
  doReq (ended_req x 2) s "POST" (gateway +:+ "/orders/orders") body token.

(** [rounds i] is the [i]-th round; [None]: still running after [fuel] rounds. *)
Fixpoint runUser (fuel i : nat) (gateway token : string) (rounds : nat -> round) (s : stats) : option stats :=
  match fuel with
  | O => None
  | S fuel =>
      let x := rounds i in
      if ended x then Some s
      else
        let s := user_round gateway token x s in
        if ended_think x then Some s else runUser fuel (S i) gateway token rounds s
  end.
End Requests.

(** ** The report *)

Fixpoint spaces (n : nat) : string := match n with O => EmptyString | S n => " " +:+ spaces n end.

(** The number of characters: continuation bytes of UTF-8 do not count. *)
Fixpoint runes (s : string) : nat :=
  match s with
  | EmptyString => 0
  | String c s => (if (128 <=? code c) && (code c <? 192) then 0 else 1) + runes s
  end.

(** [%8s] and [%-6s] *)
Definition pad_left (n : nat) (s : string) : string := spaces (n - runes s) +:+ s.
Definition pad_right (n : nat) (s : string) : string := s +:+ spaces (n - runes s).

Definition Sort (l : list Z) : list Z := merge_sort Z.le l.

(** [n*p/100] in 64 bits. *)
Definition percentile_index (n p : Z) : Z := Z.quot (int64 (n * p)) 100.

(** Indexing panics outside the slice. *)
Definition percentile (sorted : list Z) (p : Z) : option string :=
  let i := percentile_index (Z.of_nat (length sorted)) p in
  if i <? 0 then None
  else (fun d => Duration.String_ (Duration.Truncate d (100 * Microsecond))) <$> sorted !! Z.to_nat i.

(** The codes, in the order in which the map is iterated. *)
Definition code_str (l : list (Z * Z)) : string :=
  Join " " (map (fun '(code, count) => Itoa code +:+ ":" +:+ Itoa count) l).

Inductive printed := Nothing | Line (s : string) | IndexPanic.

(** [printInterval]: [order] is the iteration order of the map, [now] the time
    as [15:04]. *)
Definition printInterval (order : list (Z * Z) -> list (Z * Z)) (now : string) (s : stats) : printed * stats :=
  let '((latencies, codes, errs), s) := snapshot s in
  if (length latencies =? 0)%nat && (errs =? 0) then (Nothing, s)
  else
    let sorted := Sort latencies in
    let line p50 p95 p99 :=
      Line (pad_right 6 now +:+ "  " +:+ pad_left 7 (Itoa (Z.of_nat (length latencies))) +:+ "  " +:+ pad_left 8 p50 +:+ "  " +:+
            pad_left 8 p95 +:+ "  " +:+ pad_left 8 p99 +:+ "  " +:+ pad_left 6 (Itoa errs) +:+ "  " +:+
            code_str (order (map_to_list codes)) +:+ Json.newline) in
    if (length latencies =? 0)%nat then (line "-" "-" "-", s)
    else match percentile sorted 50, percentile sorted 95, percentile sorted 99 with
         | Some p50, Some p95, Some p99 => (line p50 p95 p99, s)
         | _, _, _ => (IndexPanic, s)
         end.

(** [reportLoop]: a report per tick until the context ends. *)
Inductive wake := Tick (now : string) | Done.

Fixpoint reportLoop (order : list (Z * Z) -> list (Z * Z)) (wakes : list wake) (s : stats) : list printed * stats :=
  match wakes with
  | [] | Done :: _ => ([], s)
  | Tick now :: wakes =>
      let '(p, s) := printInterval order now s in
      let '(ps, s) := reportLoop order wakes s in
      (p :: ps, s)
  end.

(** ** Start-up *)

Record flags := mkFlags { f_gateway : string; f_keyPath : string; f_users : Z; f_duration : Z; f_think : Z }.

Inductive started :=
| StartFailed (stderr : string)
| Started (stdout : string) (token : string).

(** The subject all simulated users share. *)
Definition test_subject : string := "550e8400-e29b-41d4-a716-446655440000".

Definition banner (f : flags) : string :=
  "Users: " +:+ Itoa (f_users f) +:+ " | Duration: " +:+ Duration.String_ (f_duration f) +:+ " | Think: " +:+
  Duration.String_ (f_think f) +:+ " | Target: " +:+ f_gateway f +:+ Json.newline +:+ Json.newline +:+
  pad_right 6 "TIME" +:+ "  " +:+ pad_left 7 "REQS" +:+ "  " +:+ pad_left 8 "P50" +:+ "  " +:+ pad_left 8 "P95" +:+ "  " +:+
  pad_left 8 "P99" +:+ "  " +:+ pad_left 6 "ERRS" +:+ "  " +:+ "STATUS CODES" +:+ Json.newline.

(** [main] up to the start of the users. *)
Definition scenario_main {Priv} `{!Token.Signer Priv} pem_Decode (ParsePKCS8 : string -> result (option Priv))
    (readFile : string -> result string) (f : flags) (now : Z) : started :=
  match Token.LoadPrivateKey pem_Decode ParsePKCS8 (f_keyPath f) (readFile (f_keyPath f)) with
  | Err e => StartFailed ("load key: " +:+ e +:+ Json.newline)
  | Ok key =>
      match Token.SignToken key test_subject ["admin"] now with
      | Err e => StartFailed ("sign token: " +:+ e +:+ Json.newline)
      | Ok token => Started (banner f) token
      end
  end.

Example sample_line :
  (printInterval id "12:00" (record 201 (3 * Millisecond) (record 200 (150 * Microsecond) (recordError new_stats)))).1 =
  Line ("12:00         2       3ms       3ms       3ms       1  201:1 200:1" +:+ Json.newline).
Proof. vm_compute. done. Qed.

(** ** Users stop *)

Section Stop.
Variable NewRequest : string -> string -> string -> result Request.
Variable Do : Request -> result Z * Z.

(** What was counted: responses and errors. *)
Definition counted (s : stats) : Z := Z.of_nat (length (latencies s)) + errors s.

Lemma doReq_counts b s method url body token :
  0 <= errors s < MaxInt ->
  let s' := doReq NewRequest Do b s method url body token in
  counted s <= counted s' <= counted s + 1 /\ errors s <= errors s' <= errors s + 1.
Proof using Type.
  intros He. assert (int64 (errors s + 1) = errors s + 1) as Hi by (apply int64_id; unfold in_int64, MinInt, MaxInt, two63 in *; lia).
  unfold doReq, counted, record, recordError. destruct (client_request _ _ _ _) as [req|]; simpl; [|lia].
  destruct (Do req) as [[code|e] d]; simpl; [rewrite length_app; simpl; lia|]. destruct b; simpl; lia.
Qed.

Lemma user_round_counts gateway token x s :
  0 <= errors s < MaxInt - 3 ->
  let s' := user_round NewRequest Do gateway token x s in
  counted s <= counted s' <= counted s + 3 /\ errors s <= errors s' <= errors s + 3.
Proof using Type.
  intros He. unfold user_round. cbv zeta.
  match goal with |- context [doReq _ _ (ended_req x 0) s ?m ?u ?b ?t] =>
    destruct (doReq_counts (ended_req x 0) s m u b t) as [? ?]; [lia|]; set (s1 := doReq _ _ (ended_req x 0) s m u b t) in * end.
  match goal with |- context [doReq _ _ (ended_req x 1) s1 ?m ?u ?b ?t] =>
    destruct (doReq_counts (ended_req x 1) s1 m u b t) as [? ?]; [lia|]; set (s2 := doReq _ _ (ended_req x 1) s1 m u b t) in * end.
  match goal with |- context [doReq _ _ (ended_req x 2) s2 ?m ?u ?b ?t] =>
    destruct (doReq_counts (ended_req x 2) s2 m u b t) as [? ?]; [lia|] end.
  lia.
Qed.

(** C35. A user returns: once the context has ended at the start of round [n], at
    the latest, it runs no further round, whatever the responses and waits were,
    and it has counted at most three requests per round. *)
Theorem users_stop (gateway token : string) (rounds : nat -> round) (n : nat) (s : stats)
    (Hend : ended (rounds n) = true) (Hs : 0 <= errors s /\ errors s + 3 * Z.of_nat n < MaxInt - 3) :
  exists s', (forall fuel, (n < fuel)%nat -> runUser NewRequest Do fuel 0 gateway token rounds s = Some s') /\
    counted s <= counted s' <= counted s + 3 * Z.of_nat n.
Proof using Type.
  assert (forall k i s, (i + k = n)%nat -> 0 <= errors s /\ errors s + 3 * Z.of_nat k < MaxInt - 3 ->
    exists s', (forall fuel, (k < fuel)%nat -> runUser NewRequest Do fuel i gateway token rounds s = Some s') /\
      counted s <= counted s' <= counted s + 3 * Z.of_nat k) as H; [|by apply (H n 0%nat)].
  clear s Hs. induction k as [|k IH]; intros i s Hi Hs.
  { exists s. split; [|lia]. intros [|fuel] ?; [lia|]. simpl. replace i with n by lia. by rewrite Hend. }
  destruct (ended (rounds i)) eqn:Ei.
  { exists s. split; [|lia]. intros [|fuel] ?; [lia|]. simpl. by rewrite Ei. }
  destruct (user_round_counts gateway token (rounds i) s) as [Hc He]; [lia|].
  set (s1 := user_round NewRequest Do gateway token (rounds i) s) in *.
  destruct (ended_think (rounds i)) eqn:Et.
  { exists s1. split; [|lia]. intros [|fuel] ?; [lia|]. simpl. by rewrite Ei, Et. }
  destruct (IH (S i) s1) as (s' & Hrun & Hc'); [lia..|]. exists s'. split; [|lia].
  intros [|fuel] ?; [lia|]. simpl. rewrite Ei, Et. apply Hrun. lia.
Qed.
End Stop.

(** ** The report is right *)

(** A slice of durations fits into the address space. *)
Definition fits (l : list Z) : Prop := Z.of_nat (length l) * 8 <= 2 ^ 48.

Lemma percentile_index_range n p : 0 < n -> n * 8 <= 2 ^ 48 -> 0 <= p < 100 ->
  0 <= percentile_index n p < n /\ percentile_index n p * 100 <= n * p < (percentile_index n p + 1) * 100.
Proof.
  intros Hn Hf Hp. unfold percentile_index. rewrite int64_id by (unfold in_int64, MinInt, MaxInt, two63; nia).
  rewrite Z.quot_div_nonneg by nia. pose proof (Z.div_mod (n * p) 100 ltac:(lia)). pose proof (Z.mod_pos_bound (n * p) 100 ltac:(lia)).
  split; nia.
Qed.

Lemma Sort_sorted l : StronglySorted Z.le (Sort l).
Proof. apply StronglySorted_merge_sort; apply _. Qed.

Lemma Sort_Permutation l : Sort l ≡ₚ l.
Proof. apply merge_sort_Permutation. Qed.

Lemma sorted_lookup (l : list Z) i j x y : StronglySorted Z.le l -> l !! i = Some x -> l !! j = Some y -> (i <= j)%nat -> x <= y.
Proof.
  intros Hs. revert i j. induction Hs as [|a l Hs IH Ha]; intros [|i] [|j]; simpl; try done; intros Hx Hy Hij; simplify_eq; try lia.
  - rewrite Forall_forall in Ha. apply Ha. by eapply list_elem_of_lookup_2.
  - apply (IH i j); [done..|lia].
Qed.

Lemma filter_Forall {A} (P : A -> Prop) `{!forall x, Decision (P x)} l : Forall P l -> filter P l = l.
Proof. induction 1 as [|x l Hx _ IH]; [done|]. by rewrite filter_cons, decide_True, IH. Qed.

(** At least [i + 1] elements are not above the one at position [i]. *)
Lemma sorted_rank (l : list Z) (i : nat) (x : Z) :
  StronglySorted Z.le l -> l !! i = Some x -> (i < length (filter (fun y => (y <= x)%Z) l))%nat.
Proof.
  intros Hs Hi. rewrite <- (take_drop (S i) l), filter_app, length_app, filter_Forall.
  - rewrite length_take. apply lookup_lt_Some in Hi. lia.
  - apply Forall_lookup. intros j y [Hj Hlt]%lookup_take_Some. apply (sorted_lookup l j i); [done..|lia].
Qed.

(** [d] is a [p]-th percentile of [l]. *)
Definition is_percentile (p : Z) (l : list Z) (d : Z) : Prop :=
  d ∈ l /\ p * Z.of_nat (length l) < 100 * Z.of_nat (length (filter (fun y => y <= d) l)).

Lemma percentile_spec l p : l ≠ [] -> fits l -> 0 <= p < 100 ->
  exists d, Sort l !! Z.to_nat (percentile_index (Z.of_nat (length l)) p) = Some d /\ is_percentile p l d /\
    percentile (Sort l) p = Some (Duration.String_ (Duration.Truncate d (100 * Microsecond))).
Proof.
  intros Hne Hf Hp. assert (0 < Z.of_nat (length l)) as Hn by (destruct l; [done|simpl; lia]).
  assert (length (Sort l) = length l) as Hlen by (by rewrite Sort_Permutation).
  destruct (percentile_index_range (Z.of_nat (length l)) p Hn Hf Hp) as [Hi Hb].
  destruct (lookup_lt_is_Some_2 (Sort l) (Z.to_nat (percentile_index (Z.of_nat (length l)) p))) as [d Hd]; [lia|].
  exists d. split; [done|]. split; [split|].
  - rewrite <- Sort_Permutation. by eapply list_elem_of_lookup_2.
  - apply sorted_rank in Hd; [|apply Sort_sorted]. rewrite Sort_Permutation in Hd. lia.
  - unfold percentile. rewrite Hlen, Hd. by rewrite (proj2 (Z.ltb_ge _ 0)) by lia.
Qed.

Lemma percentile_index_mono (l : list Z) p p' : fits l -> 0 <= p -> p <= p' -> p' < 100 ->
  (Z.to_nat (percentile_index (Z.of_nat (length l)) p) <= Z.to_nat (percentile_index (Z.of_nat (length l)) p'))%nat.
Proof.
  unfold fits, percentile_index. intros Hf H0 Hp H1. rewrite !int64_id by (unfold in_int64, MinInt, MaxInt, two63; nia).
  apply Z2Nat.inj_le; try (apply Z.quot_pos; nia). apply Z.quot_le_mono; nia.
Qed.

(** The report of an interval never indexes outside its slice; it shows the
    number of responses, and as its three columns a 50th, 95th and 99th
    percentile of exactly the recorded latencies, in order; the statistics are
    empty afterwards. Nothing is printed exactly when nothing was recorded. *)
Theorem report_is_right (order : list (Z * Z) -> list (Z * Z)) (now : string) (s : stats) (Hf : fits (latencies s)) :
  let '(out, s') := printInterval order now s in
  s' = new_stats /\
  (out = Nothing <-> latencies s = [] /\ errors s = 0) /\
  (latencies s ≠ [] -> exists d50 d95 d99 tail,
     is_percentile 50 (latencies s) d50 /\ is_percentile 95 (latencies s) d95 /\ is_percentile 99 (latencies s) d99 /\
     d50 <= d95 <= d99 /\
     let show d := pad_left 8 (Duration.String_ (Duration.Truncate d (100 * Microsecond))) in
     out = Line (pad_right 6 now +:+ "  " +:+ pad_left 7 (Itoa (Z.of_nat (length (latencies s)))) +:+ "  " +:+ show d50 +:+ "  " +:+
                 show d95 +:+ "  " +:+ show d99 +:+ "  " +:+ pad_left 6 (Itoa (errors s)) +:+ tail)).
Proof.
  unfold printInterval, snapshot. destruct (decide (latencies s = [])) as [E|E].
  { rewrite E. simpl. destruct (errors s =? 0) eqn:Ee; bool2prop; split_and!; try done; by split; [|intros []]. }
  assert ((length (latencies s) =? 0)%nat = false) as -> by (by destruct (latencies s)). cbn [andb].
  destruct (percentile_spec _ 50 E Hf) as (d50 & H1 & P1 & ->); [lia|].
  destruct (percentile_spec _ 95 E Hf) as (d95 & H2 & P2 & ->); [lia|].
  destruct (percentile_spec _ 99 E Hf) as (d99 & H3 & P3 & ->); [lia|].
  split_and!; [done|by split; [|intros []]|]. intros _. exists d50, d95, d99. eexists. split_and!; try done.
  - eapply sorted_lookup; [apply Sort_sorted|exact H1|exact H2|]. by apply percentile_index_mono.
  - eapply sorted_lookup; [apply Sort_sorted|exact H2|exact H3|]. by apply percentile_index_mono.
Qed.

(** ** Users and reports interleaved

    [record] and [snapshot] exclude each other by the mutex; [recordError] does
    not take it, so it can fall between the two accesses of [snapshot] to the
    counter. [recorded] and [failed] are what users have recorded so far,
    [reported] and [reported_errors] what reports have been given. *)

Record system := mkSystem {
  shared : stats;
  taking : option (list Z * gmap Z Z * Z);
  recorded : list (Z * Z);
  failed : Z;
  reported : list Z;
  reported_codes : Z -> Z;
  reported_errors : Z;
}.

Definition begin : system := mkSystem new_stats None [] 0 [] (fun _ => 0) 0.

Definition code_count (m : gmap Z Z) (c : Z) : Z := default 0 (m !! c).

Inductive step : system -> system -> Prop :=
| step_record code d s rec f rep rc re :
    step (mkSystem s None rec f rep rc re) (mkSystem (record code d s) None (rec ++ [(code, d)]) f rep rc re)
| step_error s t rec f rep rc re :
    step (mkSystem s t rec f rep rc re) (mkSystem (recordError s) t rec (f + 1) rep rc re)
| step_load s rec f rep rc re :
    step (mkSystem s None rec f rep rc re) (mkSystem (mkStats [] ∅ (errors s)) (Some (snapshot s).1) rec f rep rc re)
| step_reset s l m e rec f rep rc re :
    step (mkSystem s (Some (l, m, e)) rec f rep rc re)
         (mkSystem (mkStats (latencies s) (codes s) 0) None rec f (rep ++ l) (fun c => rc c + code_count m c) (re + e)).

Definition taken_latencies (y : system) : list Z := match taking y with Some (l, _, _) => l | None => [] end.
Definition taken_code (y : system) (c : Z) : Z := match taking y with Some (_, m, _) => code_count m c | None => 0 end.

(** Responses with status [c]. *)
Definition with_code (c : Z) (rec : list (Z * Z)) : Z := Z.of_nat (length (filter (fun p => p.1 = c) rec)).

Record conserved (y : system) : Prop := {
  c_latencies : map snd (recorded y) = reported y ++ taken_latencies y ++ latencies (shared y);
  c_codes : forall c, with_code c (recorded y) = reported_codes y c + taken_code y c + code_count (codes (shared y)) c;
  c_bounds : forall c, 0 <= reported_codes y c /\ 0 <= taken_code y c /\ 0 <= code_count (codes (shared y)) c;
  c_errors : 0 <= reported_errors y /\ 0 <= errors (shared y) /\
    match taking y with
    | Some (_, _, e) => 0 <= e <= errors (shared y) /\ reported_errors y + errors (shared y) <= failed y
    | None => reported_errors y + errors (shared y) <= failed y
    end;
}.

Lemma with_code_app c l k : with_code c (l ++ k) = with_code c l + with_code c k.
Proof. unfold with_code. rewrite filter_app, length_app. lia. Qed.

Lemma with_code_le c l : 0 <= with_code c l <= Z.of_nat (length l).
Proof. unfold with_code. pose proof (length_filter (fun p : Z * Z => p.1 = c) l). lia. Qed.

Lemma record_count code d s c : 0 <= code_count (codes s) c < MaxInt ->
  code_count (codes (record code d s)) c = code_count (codes s) c + with_code c [(code, d)].
Proof.
  unfold code_count, with_code. rewrite filter_cons, filter_nil. simpl. intros Hc. destruct (decide (code = c)) as [->|Hne].
  - rewrite lookup_insert_eq. simpl. apply int64_id. unfold in_int64, MinInt, MaxInt, two63 in *. lia.
  - rewrite lookup_insert_ne by done. simpl. lia.
Qed.

Lemma empty_count c : code_count ∅ c = 0.
Proof. unfold code_count. by rewrite lookup_empty. Qed.

Lemma step_conserved y y' :
  conserved y -> step y y' -> Z.of_nat (length (recorded y')) <= MaxInt -> failed y' <= MaxInt -> conserved y'.
Proof.
  intros [H1 H2 H3 H4] Hs Hr Hf. destruct Hs as [code d s rec f rep rc re|s t rec f rep rc re|s rec f rep rc re|s l m e rec f rep rc re];
    unfold taken_latencies, taken_code in *; cbn [taking shared recorded failed reported reported_codes reported_errors] in *;
    split; unfold taken_latencies, taken_code; cbn [taking shared recorded failed reported reported_codes reported_errors snapshot fst];
    try done; try (intros c; specialize (H2 c); specialize (H3 c)).
  - rewrite map_app, H1. simpl. by rewrite <- app_assoc.
  - rewrite length_app in Hr. simpl in Hr. pose proof (with_code_le c rec). rewrite with_code_app, record_count by lia. lia.
  - rewrite length_app in Hr. simpl in Hr. pose proof (with_code_le c rec). pose proof (with_code_le c [(code, d)]).
    rewrite record_count by lia. lia.
  - simpl. assert (int64 (errors s + 1) = errors s + 1) as ->.
    { apply int64_id. unfold in_int64, MinInt, MaxInt, two63 in *. destruct t as [[[? ?] ?]|]; lia. }
    destruct t as [[[? ?] ?]|]; lia.
  - rewrite H1. simpl. by rewrite app_nil_r.
  - simpl. rewrite empty_count. lia.
  - simpl. rewrite empty_count. lia.
  - simpl. lia.
  - rewrite H1. simpl. by rewrite <- app_assoc.
  - simpl. lia.
  - simpl. lia.
  - simpl. lia.
Qed.

Lemma step_grows y y' : step y y' -> (length (recorded y) <= length (recorded y'))%nat /\ failed y <= failed y'.
Proof. intros []; simpl; rewrite ?length_app; simpl; lia. Qed.

Lemma reachable_conserved y :
  rtc step begin y -> Z.of_nat (length (recorded y)) <= MaxInt -> failed y <= MaxInt -> conserved y.
Proof.
  revert y. apply (rtc_ind_r (fun y => Z.of_nat (length (recorded y)) <= MaxInt -> failed y <= MaxInt -> conserved y)); [by split|].
  intros x y _ Hxy IH Hr Hf. destruct (step_grows _ _ Hxy). apply (step_conserved x); [|done..]. apply IH; lia.
Qed.

(** However users and reports interleave: every response is reported exactly once
    or still waiting to be, in the order recorded, with its status code; and no
    more errors are reported than occurred. *)
Theorem reports_conserve (y : system) (Hrun : rtc step begin y)
    (Hr : Z.of_nat (length (recorded y)) <= MaxInt) (Hf : failed y <= MaxInt) :
  map snd (recorded y) = reported y ++ taken_latencies y ++ latencies (shared y) /\
  (forall c, with_code c (recorded y) = reported_codes y c + taken_code y c + code_count (codes (shared y)) c) /\
  reported_errors y + match taking y with Some (_, _, e) => e | None => errors (shared y) end <= failed y.
Proof.
  destruct (reachable_conserved y Hrun Hr Hf) as [H1 H2 _ H4].
  split_and!; [done..|]. destruct (taking y) as [[[l m] e]|]; lia.
Qed.

(** An error that occurs while a report is being taken can be lost: it is not in
    that report, and not in any later one. *)
Theorem errors_can_be_lost :
  exists y, rtc step begin y /\ failed y = 1 /\ taking y = None /\ reported_errors y = 0 /\ errors (shared y) = 0.
Proof.
  exists (mkSystem new_stats None [] 1 [] (fun c => 0 + code_count ∅ c) 0). split; [|done].
  eapply rtc_l; [apply step_load|]. eapply rtc_l; [apply step_error|]. eapply rtc_once. simpl. apply (step_reset (mkStats [] ∅ 1)).
Qed.

(** ** Orders of the simulated users *)

Lemma order_body_decodes p q : in_int64 p -> in_int64 q ->
  Orders.decodeOrder (order_body p q) = Some (Orders.mkCreate p q).
Proof.
  intros Hp Hq. unfold order_body. set (v := Json.JObject _).
  assert (Json.Decode (Json.Marshal v) = inr (v, EmptyString)) as E.
  { rewrite <- (append_nil_r (Json.Marshal v)). apply Json.Decode_Marshal; [|done|done].
    simpl. split_and!; try done; apply Json.Itoa_literal. }
  unfold Orders.decodeOrder. rewrite E. unfold v. simpl. unfold Orders.set_member. simpl. rewrite (Atoi_Itoa p) by done. simpl.
  by rewrite (Atoi_Itoa q) by done.
Qed.

(** Whatever the random numbers, the body a simulated user posts is read by the
    orders service as the order that was meant, and is valid. *)
Theorem flow_orders_are_valid (x : round) (Hp : 0 <= rand_product x < 3) (Hq : 0 <= rand_quantity x < 3) :
  let p := Orders.mkCreate (rand_product x + 1) (rand_quantity x + 1) in
  Orders.decodeOrder (order_body (rand_product x + 1) (rand_quantity x + 1)) = Some p /\ Orders.failures p = [].
Proof.
  split; [apply order_body_decodes; unfold in_int64, MinInt, MaxInt, two63; lia|].
  apply UpstreamLaws.failures_valid. simpl. lia.
Qed.

(** ** Examples *)

Definition sample_round (i : nat) : round := mkRound (3 <=? i)%nat 2 0 (fun _ => false) false.

Definition sample_Do (r : Request) : result Z * Z :=
  (if decide (Method r = "POST") then Err "timeout" else Ok 200, 5 * Millisecond).

Definition sample_New (method url body : string) : result Request :=
  Ok (mkRequest method url EmptyString ∅ 0 (mkBody body None) EmptyString EmptyString Background).

Lemma users_stop_witness :
  exists s', (forall fuel, (3 < fuel)%nat -> runUser sample_New sample_Do fuel 0 "http://gw" "tok" sample_round new_stats = Some s') /\
    counted s' = 9.
Proof.
  destruct (users_stop sample_New sample_Do "http://gw" "tok" sample_round 3 new_stats eq_refl) as (s' & H & _); [split; [discriminate|reflexivity]|].
  exists s'. split; [exact H|]. specialize (H 4%nat (le_n 4)). vm_compute in H. injection H as <-. reflexivity.
Defined.

Definition sample_stats : stats := record 201 (3 * Millisecond) (record 200 (150 * Microsecond) new_stats).

Lemma report_is_right_witness : exists d50 d99, is_percentile 50 (latencies sample_stats) d50 /\ is_percentile 99 (latencies sample_stats) d99 /\ d50 <= d99.
Proof.
  assert (fits (latencies sample_stats)) as Hf by (vm_compute; discriminate).
  pose proof (report_is_right id "12:00" sample_stats Hf) as H. destruct (printInterval id "12:00" sample_stats) as [out s'].
  destruct H as (_ & _ & H). destruct H as (d50 & d95 & d99 & tail & H1 & _ & H3 & [H4 H5] & _); [discriminate|].
  exists d50, d99. split; [exact H1|]. split; [exact H3|]. exact (Z.le_trans _ _ _ H4 H5).
Defined.

Lemma reports_conserve_witness : exists y, rtc step begin y /\ recorded y = [(200, 7)] /\ reported y = [] /\ latencies (shared y) = [7].
Proof.
  assert (rtc step begin (mkSystem (record 200 7 new_stats) None [(200, 7)] 0 [] (fun _ => 0) 0)) as Hr by (eapply rtc_once, (step_record 200 7)).
  eexists. split; [exact Hr|]. split; [reflexivity|]. split; [reflexivity|].
  destruct (reports_conserve _ Hr) as [H _]; [vm_compute; discriminate..|]. symmetry. exact H.
Defined.

Lemma flow_orders_are_valid_witness : Orders.failures (Orders.mkCreate 3 1) = [].
Proof.
  assert (0 <= rand_product (sample_round 0) < 3) as H1 by (split; [discriminate|reflexivity]).
  assert (0 <= rand_quantity (sample_round 0) < 3) as H2 by (split; [discriminate|reflexivity]).
  pose proof (flow_orders_are_valid (sample_round 0) H1 H2) as H. destruct H as [_ H]. exact H.
Defined.

End UserFlow.
