(* ===== verification/Scenario.v ===== *)
(** * A run of the load test ([loadtest/scenarios/user_flow.go], [main])

    [Loadtest.UserFlow] has the users, the shared statistics and the reports;
    here [main] runs them: the users and [reportLoop] are goroutines, [main] waits
    for the users, prints a last report and exits, which ends the process
    whatever [reportLoop] is doing. Taking a snapshot has the two steps of
    [UserFlow.step]; printing is a step of its own. *)

From S2P Require Import Prelude GoStrings Http Proxy Loadtest.
Import Http UserFlow.

Module Scenario.

(** The transport and the client of [main]. *)
Definition load_transport : Proxy.http_Transport :=
  Proxy.mkHttpTransport 0 0 500 500 (90 * Second) 0 0 false 0.

Definition client_Timeout : Z := 10 * Second.

(** Where a goroutine that prints reports stands: between reports, in
    [snapshot] with the mutex, with a snapshot it has not printed yet, gone. *)
Inductive printer :=
| Idle
| Taking (l : list Z)
| Printing (l : list Z)
| Gone.

(** [y] are the statistics; [active] users run; [ended] says whether the
    context has ended; [lines] are the latencies of each line printed. *)
Record process := mkProcess {
  y : system;
  active : Z;
  ended : bool;
  reporter : printer;
  main : printer;
  lines : list (list Z);
}.

(** The process once [main] has started the users and [reportLoop]. *)
Definition launch (users : Z) : process := mkProcess begin users false Idle Idle [].

Definition set_y (y : system) (p : process) : process :=
  mkProcess y (active p) (ended p) (reporter p) (main p) (lines p).

(** What can happen next. *)
Inductive event :=
| UserRecords (code d : Z)
| UserFails
| UserReturns
| ContextEnds
| ReporterTakes | ReporterResets | ReporterPrints | ReporterStops
| MainTakes | MainResets | MainPrints.

(** [s.record] needs the mutex, [s.recordError] does not. *)
Definition record_step (code d : Z) (y : system) : option system :=
  match taking y with
  | None => Some (mkSystem (record code d (shared y)) None (recorded y ++ [(code, d)]) (failed y) (reported y)
                    (reported_codes y) (reported_errors y))
  | Some _ => None
  end.

Definition error_step (y : system) : system :=
  mkSystem (recordError (shared y)) (taking y) (recorded y) (failed y + 1) (reported y) (reported_codes y) (reported_errors y).

(** [snapshot] up to the load of the error counter, and from its store on. *)
Definition load_step (y : system) : option (list Z * system) :=
  match taking y with
  | None => Some (latencies (shared y),
                  mkSystem (mkStats [] ∅ (errors (shared y))) (Some (snapshot (shared y)).1) (recorded y) (failed y) (reported y)
                    (reported_codes y) (reported_errors y))
  | Some _ => None
  end.

Definition reset_step (y : system) : option system :=
  match taking y with
  | Some (l, m, e) =>
      Some (mkSystem (mkStats (latencies (shared y)) (codes (shared y)) 0) None (recorded y) (failed y) (reported y ++ l)
              (fun c => reported_codes y c + code_count m c) (reported_errors y + e))
  | None => None
  end.

(** A step of the process. Users return only when the context has ended
    ([UserFlow.runUser]); [main] goes on when no user is left; nothing happens after
    [main] has returned. *)
Definition process_step (ev : event) (p : process) : option process :=
  match main p, ev with
  | Gone, _ => None
  | _, UserRecords code d =>
      if 0 <? active p then (fun y => set_y y p) <$> record_step code d (y p) else None
  | _, UserFails => if 0 <? active p then Some (set_y (error_step (y p)) p) else None
  | _, UserReturns =>
      if (0 <? active p) && ended p
      then Some (mkProcess (y p) (active p - 1) (ended p) (reporter p) (main p) (lines p)) else None
  | _, ContextEnds => Some (mkProcess (y p) (active p) true (reporter p) (main p) (lines p))
  | _, ReporterTakes =>
      match reporter p, load_step (y p) with
      | Idle, Some (l, y) => Some (mkProcess y (active p) (ended p) (Taking l) (main p) (lines p))
      | _, _ => None
      end
  | _, ReporterResets =>
      match reporter p, reset_step (y p) with
      | Taking l, Some y => Some (mkProcess y (active p) (ended p) (Printing l) (main p) (lines p))
      | _, _ => None
      end
  | _, ReporterPrints =>
      match reporter p with
      | Printing l => Some (mkProcess (y p) (active p) (ended p) Idle (main p) (lines p ++ [l]))
      | _ => None
      end
  | _, ReporterStops =>
      match reporter p with
      | Idle => if ended p then Some (mkProcess (y p) (active p) (ended p) Gone (main p) (lines p)) else None
      | _ => None
      end
  | Idle, MainTakes =>
      if active p =? 0 then
        match load_step (y p) with
        | Some (l, y) => Some (mkProcess y (active p) (ended p) (reporter p) (Taking l) (lines p))
        | None => None
        end
      else None
  | Taking l, MainResets =>
      (fun y => mkProcess y (active p) (ended p) (reporter p) (Printing l) (lines p)) <$> reset_step (y p)
  | Printing l, MainPrints => Some (mkProcess (y p) (active p) (ended p) (reporter p) Gone (lines p ++ [l]))
  | _, _ => None
  end.

Fixpoint exec (evs : list event) (p : process) : option process :=
  match evs with
  | [] => Some p
  | ev :: evs => match process_step ev p with Some p' => exec evs p' | None => None end
  end.

(** ** Every response is printed *)

(** The latencies a printer holds and has not printed. *)
Definition held (g : printer) : list Z :=
  match g with Taking l | Printing l => l | _ => [] end.

(** A printer in [snapshot] holds what the statistics say is being taken; once
    [main] has its snapshot, no user is left and nothing is recorded any more. *)
Record inv (p : process) : Prop := {
  i_mutex : match reporter p, main p with
            | Taking l, Taking _ => False
            | Taking l, _ | _, Taking l => exists m e, taking (y p) = Some (l, m, e)
            | _, _ => taking (y p) = None
            end;
  i_all : map snd (recorded (y p)) ≡ₚ concat (lines p) ++ held (reporter p) ++ held (main p) ++ latencies (shared (y p));
  i_active : 0 <= active p;
  i_last : main p ≠ Idle -> active p = 0 /\ latencies (shared (y p)) = [];
}.

Lemma scenario_inv_launch users : 0 <= users -> inv (launch users).
Proof. intros Hu. by split. Qed.

(** The statistics move as [UserFlow.step] allows. *)
Lemma scenario_step_refines ev p p' : process_step ev p = Some p' -> y p' = y p \/ UserFlow.step (y p) (y p').
Proof.
  intros H. destruct p as [[s t rec f rep rc re] a e rp mn ls].
  destruct mn; [..|done]; destruct ev; cbn in H; unfold record_step, load_step, reset_step in H; cbn in H;
    repeat case_match; simplify_eq/=; try (by left); right; constructor.
Qed.

Lemma scenario_inv_step ev p p' : inv p -> process_step ev p = Some p' -> inv p'.
Proof.
  intros [Hm Ha Hn Hl] H. destruct p as [[s t rec f rep rc re] a e rp mn ls]. cbn in *.
  destruct mn as [|lm|lm|]; [..|done]; destruct ev; cbn in H; unfold record_step, load_step, reset_step in H; cbn in H;
    repeat case_match; simplify_eq/=; bool2prop;
    constructor; cbn; try done; try lia; try (intros ?; split; naive_solver by lia);
    try (destruct rp; naive_solver).
  all: try (by eauto); try (exfalso; naive_solver).
  all: rewrite ?concat_app, ?map_app, Ha; simpl; rewrite ?app_nil_r, <- ?app_assoc; try done; solve_Permutation.
Qed.

Lemma scenario_inv_exec evs p p' : inv p -> exec evs p = Some p' -> inv p'.
Proof.
  revert p. induction evs as [|ev evs IH]; intros p Hinv; simpl; [by intros [= <-]|].
  destruct (process_step ev p) eqn:Hs; [|done]. apply IH. by eapply scenario_inv_step.
Qed.

Lemma exec_app evs1 evs2 p p1 : exec evs1 p = Some p1 -> exec (evs1 ++ evs2) p = exec evs2 p1.
Proof.
  revert p. induction evs1 as [|ev evs1 IH]; intros p; simpl; [by intros [= <-]|]. destruct (process_step ev p); [apply IH|done].
Qed.

Lemma exec_refines evs p p' : exec evs p = Some p' -> rtc UserFlow.step (y p) (y p').
Proof.
  revert p. induction evs as [|ev evs IH]; intros p; simpl; [by intros [= <-]|].
  destruct (process_step ev p) as [p1|] eqn:Hs; [|done]. intros H%IH.
  destruct (scenario_step_refines _ _ _ Hs) as [<-|?]; [done|]. by eapply rtc_l.
Qed.

(** C34. When the load test has ended, every response of every user is in exactly
    one printed line, unless [reportLoop] was still busy with a report: then the
    missing ones are those of that report. No user is left running. *)
Theorem final_report_is_complete (users : Z) (evs : list event) (p : process) (Husers : 0 <= users)
    (Hrun : exec evs (launch users) = Some p) (Hend : main p = Gone) :
  map snd (recorded (y p)) ≡ₚ concat (lines p) ++ held (reporter p) /\ active p = 0 /\
  (held (reporter p) = [] -> map snd (recorded (y p)) ≡ₚ concat (lines p)).
Proof.
  destruct (scenario_inv_exec _ _ _ (scenario_inv_launch users Husers) Hrun) as [_ Ha _ Hl]. rewrite Hend in *.
  destruct Hl as [H0 Hs]; [done|]. rewrite Hs in Ha. simpl in Ha. rewrite app_nil_r in Ha.
  split_and!; try done. intros Hh. by rewrite Hh, app_nil_r in Ha.
Qed.

(** ** The run can always end *)

Lemma can_free p : inv p -> main p = Idle -> exists evs p', exec evs p = Some p' /\ inv p' /\ main p' = Idle /\ taking (y p') = None.
Proof.
  intros Hinv Hi. pose proof (i_mutex _ Hinv) as Hm. rewrite Hi in Hm.
  destruct (reporter p) as [|l| |] eqn:Er; try (exists [], p; by split_and!).
  destruct Hm as (m & e & Ht).
  assert (exists p', process_step ReporterResets p = Some p' /\ main p' = Idle /\ taking (y p') = None) as (p' & Hs & Hi' & Ht').
  { unfold process_step, reset_step. rewrite Hi, Er, Ht. eexists. split; [done|]. by simpl. }
  exists [ReporterResets], p'. split_and!; try done; [simpl; by rewrite Hs|by eapply scenario_inv_step].
Qed.

Lemma can_drain n : forall p, inv p -> main p = Idle -> taking (y p) = None -> ended p = true -> active p = Z.of_nat n ->
  exists evs p', exec evs p = Some p' /\ main p' = Idle /\ taking (y p') = None /\ active p' = 0.
Proof.
  induction n as [|n IH]; intros p Hinv Hi Ht He Ha; [exists [], p; by split_and!|].
  assert (process_step UserReturns p = Some (mkProcess (y p) (active p - 1) (ended p) (reporter p) (main p) (lines p))) as Hs.
  { unfold process_step. rewrite Hi, He, (proj2 (Z.ltb_lt 0 (active p))) by lia. done. }
  destruct (IH _ (scenario_inv_step _ _ _ Hinv Hs)) as (evs & p' & H); simpl; try done; [lia|].
  exists (UserReturns :: evs), p'. simpl. by rewrite Hs.
Qed.

Lemma can_print p : main p = Idle -> taking (y p) = None -> active p = 0 ->
  exists evs p', exec evs p = Some p' /\ main p' = Gone.
Proof.
  intros Hi Ht Ha. exists [MainTakes; MainResets; MainPrints]. cbn [exec]. unfold process_step at 1. rewrite Hi, Ha.
  unfold load_step. rewrite Ht. cbn. eauto.
Qed.

(** The load test does not hang: whatever the users and [reportLoop] have
    done so far, wherever they stand, the run can be brought to its end, by the
    context ending, the users returning and [main] printing the last report. *)
Theorem run_can_end (users : Z) (evs : list event) (p : process) (Husers : 0 <= users)
    (Hrun : exec evs (launch users) = Some p) :
  exists evs' p', exec evs' p = Some p' /\ main p' = Gone.
Proof.
  pose proof (scenario_inv_exec _ _ _ (scenario_inv_launch users Husers) Hrun) as Hinv.
  destruct (main p) as [|l|l|] eqn:Hmain.
  - destruct (can_free p Hinv Hmain) as (e1 & p1 & H1 & Hinv1 & Hi1 & Ht1).
    set (p2 := mkProcess (y p1) (active p1) true (reporter p1) (main p1) (lines p1)).
    assert (process_step ContextEnds p1 = Some p2) as Hs by (unfold p2, process_step; by rewrite Hi1).
    pose proof (scenario_inv_step _ _ _ Hinv1 Hs) as Hinv2.
    destruct (can_drain (Z.to_nat (active p1)) p2 Hinv2) as (e2 & p3 & H2 & Hi3 & Ht3 & Ha3); try done.
    { simpl. pose proof (i_active _ Hinv1). lia. }
    destruct (can_print p3 Hi3 Ht3 Ha3) as (e3 & p4 & H3 & Hg).
    exists (e1 ++ ContextEnds :: e2 ++ e3), p4. split; [|done].
    rewrite (exec_app _ _ _ _ H1). simpl. rewrite Hs. by rewrite (exec_app _ _ _ _ H2).
  - pose proof (i_mutex _ Hinv) as Hm. rewrite Hmain in Hm.
    assert (exists m e, taking (y p) = Some (l, m, e)) as (m & e & Ht) by (by destruct (reporter p)).
    exists [MainResets; MainPrints]. cbn [exec]. unfold process_step at 1. rewrite Hmain. unfold reset_step. rewrite Ht. cbn. eauto.
  - exists [MainPrints]. cbn [exec]. unfold process_step. rewrite Hmain. eauto.
  - by exists [], p.
Qed.

(** [main] does not wait for [reportLoop]: a report taken when the test ends may
    never be printed, and its responses are in no line. *)
Theorem last_report_can_be_cut_off :
  exists p, exec [UserRecords 200 7; ReporterTakes; ReporterResets; ContextEnds; UserReturns; MainTakes; MainResets; MainPrints] (launch 1) = Some p /\
    main p = Gone /\ map snd (recorded (y p)) = [7] /\ concat (lines p) = [].
Proof. eexists. split; [vm_compute; reflexivity|]. vm_compute. done. Qed.

(** ** Examples *)

Definition short_run : list event :=
  [UserRecords 200 7; ReporterTakes; ReporterResets; UserRecords 201 9; ReporterPrints; ContextEnds; UserReturns; ReporterStops;
   MainTakes; MainResets; MainPrints].

Lemma short_run_ends :
  match exec short_run (launch 1) with
  | Some p => main p = Gone /\ lines p = [[7]; [9]] /\ held (reporter p) = []
  | None => False
  end.
Proof. vm_compute. done. Qed.

Lemma final_report_is_complete_witness :
  exists p, exec short_run (launch 1) = Some p /\ lines p = [[7]; [9]] /\ map snd (recorded (y p)) ≡ₚ concat (lines p).
Proof.
  pose proof short_run_ends as Hshort. destruct (exec short_run (launch 1)) as [p|] eqn:E; [|destruct Hshort].
  destruct Hshort as (H1 & H2 & H3). exists p. split; [reflexivity|]. split; [exact H2|].
  exact (proj2 (proj2 (final_report_is_complete 1 short_run p ltac:(lia) E H1)) H3).
Defined.

Lemma half_run_goes : is_Some (exec [UserRecords 200 7; ReporterTakes] (launch 3)).
Proof. vm_compute. eauto. Qed.

Lemma run_can_end_witness :
  exists evs' p' p, exec [UserRecords 200 7; ReporterTakes] (launch 3) = Some p /\ exec evs' p = Some p' /\ main p' = Gone.
Proof.
  destruct half_run_goes as [p E].
  destruct (run_can_end 3 [UserRecords 200 7; ReporterTakes] p ltac:(lia) E) as (evs' & p' & H).
  exists evs', p', p. split; [exact E|exact H].
Defined.

End Scenario.
