(* ===== verification/Compose.v ===== *)
(** * The gateway in front of the upstream services

    The handler chain of an authenticated route ([JWTAuth] of [Auth], the reverse
    proxy of [Proxy]) over a transport that delivers the request to the orders or
    the catalog service of [Upstream]. The network may lose the request or the
    answer, and the database may fail, at any point. *)

From Stdlib Require Import Ascii.
From S2P Require Import Prelude GoStrings Http Json Breaker Balancer Auth CacheMW Proxy Upstream.
Import Http.

Module Compose.
Import ReverseProxy.

(** What the network does to one round trip. *)
Inductive wire := Delivered | LostBefore (e : transport_error) | LostAfter (e : transport_error).

(** What the server makes of a handler's calls on its writer. *)
Definition answer (ops : list wop) : Response :=
  let w := play ops new_response in mkResp (client_status w) (client_header w) [sent_body w] false.

(** The bytes of a body that pass the gateway's limit. *)
Definition passed (b : RequestBody) : string :=
  match limit b with Some n => String.substring 0 (Z.to_nat n) (data b) | None => data b end.

(** The request as the upstream receives it. *)
Definition received (o : OutRequest) : Request := WithBody (mkBody (passed (Body (out o))) None) (out o).

Section Compose.
Context {L : Type} `{!LoadBalancer L}.

(** The proxy's objects, the service behind it, and the gateway's log. *)
Notation state := (Proxy.proxy_state L * (Service.state * list log_record))%type.

#[local] Instance state_lens : Lens state (Proxy.proxy_state L) := lens_fst.

Definition log : SlogLogger state := fun x s => (s.1, (s.2.1, s.2.2 ++ [x])).

Variable service : Request -> Service.state -> outcome * list wop * Service.state.
Variable network : OutRequest -> state -> wire.

(** The transport, with the service at its other end. A body over the limit is an
    error of the round trip, whatever the upstream has made of its beginning. *)
Definition trip (o : OutRequest) (s : state) : (transport_error + Response) * state :=
  match network o s with
  | LostBefore e => (inl e, s)
  | w =>
      let '(_, ops, svc) := service (received o) s.2.1 in
      let s := (s.1, (svc, s.2.2)) in
      match ReadAll (Body (out o)), w with
      | TooLarge _, _ => (inl MaxBytesError, s)
      | _, LostAfter e => (inl e, s)
      | _, _ => (inr (answer ops), s)
      end
  end.

Variable url_Parse : string -> option (string * string).
Variable Inject : Context -> Header -> Header.
Variable clock : state -> Z.
Variable error_text : transport_error -> string.

Definition now (s : state) : Z * state := (clock s, s).

Definition proxied : Handler state := Proxy.ServeHTTP url_Parse Inject now log error_text trip.

(** ** The service sees at most one request, with the verified user *)

Lemma ErrorHandler_service W RW req e (w : W) (s : state) :
  (Proxy.ErrorHandler now log error_text W RW req e w s).2.2.1 = s.2.1.
Proof using Type.
  unfold Proxy.ErrorHandler. destruct e; try done; destruct (Proxy.mustGetTargetFromContext _) as [v|u]; try done;
    destruct (Proxy.mustGetBreaker u s) as [v|b]; try done; simpl. by destruct timeout.
Qed.

Lemma ModifyResponse_service req res (s s' : state) : Proxy.ModifyResponse now req res s = inr s' -> s'.2.1 = s.2.1.
Proof using Type.
  unfold Proxy.ModifyResponse. destruct (Proxy.mustGetTargetFromContext _) as [v|u]; [done|].
  destruct (Proxy.mustGetBreaker u s) as [v|b]; [done|]. destruct (_ <=? _); by intros [= <-].
Qed.

Lemma trip_service o (s : state) : (trip o s).2.2.1 = s.2.1 \/ (trip o s).2.2.1 = (service (received o) s.2.1).2.
Proof using Type.
  unfold trip. destruct (network o s); [|by left|];
    destruct (service (received o) s.2.1) as [[out ops] svc]; right; by destruct (ReadAll _).
Qed.

Lemma Rewrite_unparseable u r : url_Parse u = None ->
  let req := WithContext (Proxy.newTargetContext (ctx r) u) r in
  Proxy.Rewrite url_Parse Inject req (outgoing req) = inl (PanicValue ("proxy: invalid upstream URL: " +:+ u)).
Proof using Type.
  intros Eu req. unfold Proxy.Rewrite. change (Proxy.mustGetTargetFromContext (ctx (outgoing req))) with (@inr panic string u).
  cbv iota. unfold Proxy.mustParseURL. by rewrite Eu.
Qed.

(** The service is as before, or has handled one request: [r] as the proxy sends it. *)
Definition reaches (r : Request) (svc svc' : Service.state) : Prop :=
  svc' = svc \/ exists u scheme host, svc' = (service (received (Proxy.out_request Inject u scheme host r)) svc).2.

Lemma relay_service u r {W} (RW : ResponseWriter W) (w : W) (s : state) :
  reaches r s.2.1
    (Proxy.proxy_ServeHTTP url_Parse Inject now log error_text trip W RW (WithContext (Proxy.newTargetContext (ctx r) u) r) w s).2.2.1.
Proof using Type.
  destruct (url_Parse u) as [[scheme host]|] eqn:Eu.
  2:{ left. unfold Proxy.proxy_ServeHTTP, ReverseProxy.ServeHTTP. rewrite Rewrite_unparseable by done. reflexivity. }
  rewrite (Proxy.relay_eq url_Parse Inject now log error_text trip u scheme host) by done.
  set (o := Proxy.out_request Inject u scheme host r).
  assert (forall x, x = s.2.1 \/ x = (service (received o) s.2.1).2 -> reaches r s.2.1 x) as Hcase
    by (intros x [->| ->]; [by left|right; by exists u, scheme, host]).
  apply Hcase. pose proof (trip_service o s) as Ht. destruct (trip o s) as [[e|res] s1]; simpl in Ht.
  { by rewrite ErrorHandler_service. }
  destruct (StatusCode res =? 101).
  - destruct (Proxy.ModifyResponse now (out o) res s1) as [v|s2] eqn:Em; [done|]. rewrite ErrorHandler_service.
    by rewrite (ModifyResponse_service _ _ _ _ Em).
  - cbv zeta. destruct (Proxy.ModifyResponse now (out o) _ s1) as [v|s2] eqn:Em; [done|].
    destruct (copyResponse _ _ _) as [ok w']. simpl. by rewrite (ModifyResponse_service _ _ _ _ Em).
Qed.

Lemma proxied_service r {W} (RW : ResponseWriter W) (w : W) (s : state) : reaches r s.2.1 (proxied W RW r w s).2.2.1.
Proof using Type.
  unfold proxied, Proxy.ServeHTTP. destruct (lb_Next (Proxy.lb (lget s))) as [[u|e] l]; [|by left].
  destruct (Proxy.mustGetBreaker u _) as [v|b]; [by left|]. unfold now at 1. cbv iota beta zeta.
  match goal with |- context [Breaker.Allow ?t b] => destruct (Breaker.Allow t b) as [[[]|e] b'] end; [|by left].
  match goal with |- context [Proxy.proxy_ServeHTTP _ _ _ _ _ _ W RW ?rr w ?s1] => exact (relay_service u r RW w s1) end.
Qed.

(** The upstream is told the subject of the verified claims. *)
Lemma out_header_user u r c : ctx_claims (ctx r) = Some c -> Get (Proxy.out_header Inject u r) "X-User" = Subject c.
Proof using Type.
  intros Hc. unfold Proxy.out_header, Proxy.injectUserHeaders, Auth.ClaimsFromContext. simpl. rewrite Hc. unfold finish_header.
  case_match; rewrite ?(Get_Set_ne "User-Agent" "X-User") by (vm_compute; discriminate);
    rewrite Get_Set_ne by (vm_compute; discriminate); apply Get_Set.
Qed.

(** ** What the client receives *)

(** A complete answer of status [c] with JSON body [v], on the server's writer. *)
Lemma json_on_fresh c (v : Json.json) h : informational c = false -> body_allowed c = true -> declared_length h = None ->
  let w := (w_Write (Json.Encode v) (w_WriteHeader c (w_set_header h new_response))).2 in
  client_status w = c /\ client_header w = h /\ sent_body w = Json.Encode v /\
  (w_Write (Json.Encode v) (w_WriteHeader c (w_set_header h new_response))).1 = (Z.of_nat (String.length (Json.Encode v)), None).
Proof using Type.
  intros Hi Hb Hl. cbn [w_Write w_WriteHeader w_set_header response_Writer]. unfold response_WriteHeader at 1 2 3 4. cbn [sent new_response].
  rewrite Hi. cbn [hdr]. rewrite Hl.
  rewrite (response_Write_started _ _ c h) by done. done.
Qed.

Definition json_type : Header := Set_ "Content-Type" "application/json" ∅.

Lemma answer_json c v : informational c = false -> body_allowed c = true ->
  answer (Service.writeJSON c v) = mkResp c json_type [Json.Encode v] false.
Proof using Type.
  intros Hi Hb. unfold answer, Service.writeJSON, play. cbn [foldl play1].
  destruct (json_on_fresh c v json_type Hi Hb eq_refl) as (H1 & H2 & H3 & _).
  change (write (Json.Encode v) (w_WriteHeader c (header_Set "Content-Type" "application/json" new_response)))
    with ((w_Write (Json.Encode v) (w_WriteHeader c (w_set_header json_type new_response))).2).
  by rewrite H1, H2, H3.
Qed.

Lemma error_status c m : informational c = false -> client_status (writeJSON c m new_response) = c.
Proof using Type.
  intros Hi. unfold writeJSON, write. cbn [w_Write w_WriteHeader response_Writer]. unfold response_WriteHeader at 1. cbn [sent header_Set w_set_header response_Writer new_response].
  rewrite Hi. unfold response_Write, response_WriteHeader, client_status. cbn [sent]. repeat (case_match; simplify_eq/=; try done).
Qed.

Lemma ErrorHandler_status req e (s : state) :
  let '(o, w, _) := Proxy.ErrorHandler now log error_text response response_Writer req e new_response s in
  o = Return -> client_status w ≠ 200.
Proof using Type.
  unfold Proxy.ErrorHandler. destruct e; try (intros _; rewrite error_status by done; discriminate);
    destruct (Proxy.mustGetTargetFromContext _) as [v|u]; try done; destruct (Proxy.mustGetBreaker u s) as [v|b]; try done; simpl;
    try (intros _; rewrite error_status by done; discriminate).
  destruct timeout; intros _; rewrite error_status by done; discriminate.
Qed.

(** If the service answers [r] with JSON of status 200 or 500, whichever upstream
    it is sent to, a client that receives 200 receives that JSON. *)
Section Relayed.
Variable r : Request.
Variable s0 : state.
Variable Q : Json.json -> Prop.
Hypothesis Hservice : forall u scheme host,
  exists c v, (service (received (Proxy.out_request Inject u scheme host r)) s0.2.1).1.2 = Service.writeJSON c v /\
    (c = 200 /\ Q v \/ c = 500).

Definition delivers (x : outcome * response * state) : Prop :=
  let '(o, w, _) := x in o = Return -> client_status w = 200 -> exists v, Q v /\ sent_body w = Json.Encode v.

Lemma delivers_error c m (s : state) : informational c = false -> c ≠ 200 -> delivers (Return, writeJSON c m new_response, s).
Proof using Type. intros Hi Hc _ H. by rewrite error_status in H. Qed.

Lemma relay_delivers u (s : state) : s.2.1 = s0.2.1 ->
  delivers (Proxy.proxy_ServeHTTP url_Parse Inject now log error_text trip response _
    (WithContext (Proxy.newTargetContext (ctx r) u) r) new_response s).
Proof using Type*.
  intros Hs. destruct (url_Parse u) as [[scheme host]|] eqn:Eu.
  2:{ unfold Proxy.proxy_ServeHTTP, ReverseProxy.ServeHTTP. by rewrite Rewrite_unparseable. }
  rewrite (Proxy.relay_eq url_Parse Inject now log error_text trip u scheme host) by done.
  set (o := Proxy.out_request Inject u scheme host r).
  assert (match trip o s with (inl _, _) => True | (inr res, _) => exists c v, res = mkResp c json_type [Json.Encode v] false /\ (c = 200 /\ Q v \/ c = 500) end) as Ht.
  { unfold trip. rewrite Hs. destruct (Hservice u scheme host) as (c & v & E & Hcv). fold o in E.
    assert (informational c = false /\ body_allowed c = true) as [Hi Hb] by (destruct Hcv as [[-> _]| ->]; done).
    destruct (network o s); try done; destruct (service _ _) as [[out ops] svc]; simpl in E; subst ops;
      destruct (ReadAll _); try done; exists c, v; by rewrite answer_json. }
  destruct (trip o s) as [[e|res] s1].
  { pose proof (ErrorHandler_status (out o) e s1) as H. destruct (Proxy.ErrorHandler _ _ _ _ _ _ _ _ _) as [[o' w'] s'].
    intros Ho Hst. by destruct (H Ho). }
  destruct Ht as (c & v & -> & Hcv). assert (informational c = false /\ body_allowed c = true /\ (c =? 101) = false) as (Hi & Hb & H101)
    by (destruct Hcv as [[-> _]| ->]; done).
  cbn [StatusCode resp_header chunks broken]. rewrite H101. cbv zeta. destruct (Proxy.ModifyResponse _ _ _ _) as [p|s2]; [by intros|].
  change (play (CacheMW.CacheMW.header_ops (removeHopByHopHeaders json_type)) new_response) with (w_set_header json_type new_response).
  destruct (json_on_fresh c v json_type Hi Hb eq_refl) as (H1 & H2 & H3 & H4). cbn [copyResponse].
  destruct (w_Write (Json.Encode v) _) as [[n err] w']. simpl in H1, H2, H3, H4. injection H4 as -> ->. rewrite Z.eqb_refl.
  cbn [copyResponse negb]. intros _ Hst. exists v. split; [|done]. destruct Hcv as [[_ ?]| ->]; [done|]. by rewrite H1 in Hst.
Qed.

Lemma proxied_delivers : delivers (proxied response _ r new_response s0).
Proof using Type*.
  unfold proxied, Proxy.ServeHTTP. destruct (lb_Next (Proxy.lb (lget s0))) as [[u|e] l]; [|by apply delivers_error].
  destruct (Proxy.mustGetBreaker u _) as [v|b]; [by intros|]. unfold now at 1. cbv iota beta zeta.
  match goal with |- context [Breaker.Allow ?t b] => destruct (Breaker.Allow t b) as [[[]|e] b'] end; [|by apply delivers_error].
  by apply relay_delivers.
Qed.
End Relayed.

End Compose.

(** ** Orders behind the gateway *)

Section Orders.
Context {L : Type} `{!LoadBalancer L} {Key : Type} {JW : Auth.JWT Key} {JL : Auth.JWTLaws Key}.
Context {PG : Store.Postgres} {PGL : Store.PostgresLaws} {VA : Orders.Validator} {VAL : Orders.ValidatorLaws}.
Variable time_text : Z -> string.
Variable decode_error : string -> string.
Variable redirect : Request -> list wop.
Variable driver : Request -> Service.state -> Store.Driver.
Variable url_Parse : string -> option (string * string).
Variable Inject : Context -> Header -> Header.
Variable error_text : transport_error -> string.

Notation state := (Proxy.proxy_state L * (Service.state * list log_record))%type.
Variable network : OutRequest -> state -> wire.
Variable clock : state -> Z.

Definition orders_service (r : Request) (s : Service.state) : outcome * list wop * Service.state :=
  Orders.orders_mux time_text decode_error redirect (driver r s) r s.

Definition orders_route (publicKey : Key) : Handler state :=
  Auth.JWTAuth publicKey (proxied orders_service network url_Parse Inject clock error_text).

(** Every order that a request through the gateway adds belongs to the subject of
    a token that verifies under the gateway's public key and that this request
    carried: no header a client sends makes the orders service book for someone
    else, whatever the network, the database and the upstreams do. *)
Theorem orders_belong_to_verified_users (publicKey : Key) (r : Request) (s : state) {W} (RW : ResponseWriter W) (w : W) (o : Store.order)
    (Hnew : o ∈ Store.orders (Service.tables (orders_route publicKey W RW r w s).2.2.1)) :
  o ∈ Store.orders (Service.tables s.2.1) \/
  exists tokenStr t c, Get (header r) "Authorization" = "Bearer " +:+ tokenStr /\
    Auth.verified publicKey tokenStr t /\ Auth.token_identity t c /\ Store.uuid_in (Subject c) = Ok (Store.UserID o).
Proof.
  unfold orders_route, Auth.JWTAuth in Hnew.
  destruct (CutPrefix (Get (header r) "Authorization") "Bearer ") as [tokenStr|] eqn:Ecut; [|by left].
  destruct (Auth.parseAndValidateToken tokenStr publicKey) as [t|e] eqn:Ep; [|by left].
  destruct (Auth.extractClaims t) as [c|e] eqn:Ec; [|by left].
  set (r' := WithContext (Auth.newClaimsContext (ctx r) c) r) in *.
  destruct (proxied_service orders_service network url_Parse Inject clock error_text r' RW w s) as [H|(u & scheme & host & H)];
    rewrite H in Hnew; [by left|].
  set (q := received (Proxy.out_request Inject u scheme host r')) in *.
  destruct (UpstreamLaws.orders_mux_adds time_text decode_error redirect (driver q s.2.1) q s.2.1) as [E|[x Hx]].
  - left. unfold orders_service in Hnew. by rewrite E in Hnew.
  - unfold orders_service in Hnew. rewrite (UpstreamLaws.pl_tables _ _ _ _ _ _ Hx) in Hnew. simpl in Hnew.
    apply elem_of_app in Hnew as [?| ->%list_elem_of_singleton]; [by left|right]. exists tokenStr, t, c.
    destruct (Auth.parse_sound _ _ _ _ Ep) as (_ & k & Hk & Hver). unfold Auth.keyFunc in Hk. destruct (Auth.method_rsa t); simplify_eq.
    split_and!; [by apply CutPrefix_spec|done|by apply Auth.extractClaims_spec|].
    rewrite <- (UpstreamLaws.pl_user _ _ _ _ _ _ Hx). f_equal. symmetry. exact (out_header_user Inject u r' c eq_refl).
Qed.

(** C3. A client that is answered 200 to [GET /orders] receives exactly the orders of
    the subject of its own verified token, whatever [X-User] header it sent. *)
Theorem clients_read_their_own_orders (publicKey : Key) (r : Request) (s : state) (Hm : Method r = "GET") (Hp : Path r = "/orders") :
  let '(o, w, _) := orders_route publicKey response _ r new_response s in
  o = Return -> client_status w = 200 ->
  exists tokenStr t c u l, Get (header r) "Authorization" = "Bearer " +:+ tokenStr /\
    Auth.verified publicKey tokenStr t /\ Auth.token_identity t c /\ Store.uuid_in (Subject c) = Ok u /\
    l ≡ₚ filter (fun o => Store.UserID o = u) (Store.orders (Service.tables s.2.1)) /\
    sent_body w = Json.Encode (Orders.orders_json time_text l).
Proof.
  unfold orders_route, Auth.JWTAuth.
  destruct (CutPrefix (Get (header r) "Authorization") "Bearer ") as [tokenStr|] eqn:Ecut; [|intros _ H; by rewrite error_status in H].
  destruct (Auth.parseAndValidateToken tokenStr publicKey) as [t|e] eqn:Ep; [|intros _ H; by rewrite error_status in H].
  destruct (Auth.extractClaims t) as [c|e] eqn:Ec; [|intros _ H; by rewrite error_status in H].
  set (r' := WithContext (Auth.newClaimsContext (ctx r) c) r).
  pose proof (proxied_delivers orders_service network url_Parse Inject clock error_text r' s
    (fun v => exists u l, Store.uuid_in (Subject c) = Ok u /\
       l ≡ₚ filter (fun o => Store.UserID o = u) (Store.orders (Service.tables s.2.1)) /\ v = Orders.orders_json time_text l)) as H.
  unfold delivers in H. destruct (proxied _ _ _ _ _ _ _ _ _ _ _) as [[o w] s'].
  intros Ho Hst. destruct H as (v & (u & l & Hu & Hl & ->) & Hbody); [|done|done|].
  - intros u scheme host.
    destruct (UpstreamLaws.get_answers time_text decode_error redirect (driver (received (Proxy.out_request Inject u scheme host r')) s.2.1)
      (received (Proxy.out_request Inject u scheme host r')) s.2.1) as (st & v & E & H); [done..|].
    exists st, v. split; [exact E|]. destruct H as [(-> & u' & l & Hu & Hl & Hv)| ->]; [left|by right].
    split; [done|]. exists u', l. split_and!; [|done|done]. rewrite <- Hu. f_equal. symmetry. exact (out_header_user Inject u r' c eq_refl).
  - exists tokenStr, t, c, u, l. destruct (Auth.parse_sound _ _ _ _ Ep) as (_ & k & Hk & Hver).
    unfold Auth.keyFunc in Hk. destruct (Auth.method_rsa t); simplify_eq.
    split_and!; try done; [by apply CutPrefix_spec|by apply Auth.extractClaims_spec].
Qed.
End Orders.

(** ** Examples: one upstream, a breaker that opens after three failures *)

Module ComposeSample.
Import Proxy.Sample UpstreamSample.

Definition initial : Proxy.proxy_state (RoundRobin.RoundRobin * Health.Checker) * (Service.state * list log_record) :=
  (Proxy.mkProxy balancer {[upstream := Breaker.NewBreaker 3 (10 * Second)]}, (UpstreamSample.start, [])).

Definition reliable (o : OutRequest) (s : Proxy.proxy_state (RoundRobin.RoundRobin * Health.Checker) * (Service.state * list log_record)) : wire :=
  Delivered.

Definition client (method path body authorization : string) (n : option Z) : Request :=
  mkRequest method path EmptyString (Set_ "X-User" "00000000-0000-0000-0000-000000000000" (Set_ "Authorization" authorization ∅))
    (-1) (mkBody body n) "gw" "10.0.0.1:4711" Background.

(** A token library that accepts one token, for [user]. *)
Definition user_token : Auth.Token :=
  Auth.mkToken true "RS256" (Some {["sub" := Auth.JString user; "roles" := Auth.JArray [Auth.JString "admin"]]}).

#[export] Instance user_jwt : Auth.JWT string := {|
  Auth.ParseWithClaims s keyfunc methods :=
    match keyfunc user_token with
    | Ok k => if bool_decide (s = "tok" /\ k = "key" /\ "RS256" ∈ methods) then Ok user_token else Err "signature is invalid"
    | Err e => Err e
    end |}.

#[export] Instance user_jwt_laws : Auth.JWTLaws string.
Proof.
  refine {| Auth.verified k s t := k = "key" /\ s = "tok" /\ t = user_token |}.
  intros s keyfunc methods t. simpl. destruct (keyfunc user_token) as [k|e] eqn:E; [|done].
  case_bool_decide as H; intros [= <-]. destruct H as (-> & -> & H). split; [done|eauto].
Defined.

Notation route := (orders_route Itoa id (fun _ => []) (fun _ _ => Store.sound 7) parse inject etext reliable (fun _ => 0) "key").

Definition after_post : response * (Proxy.proxy_state (RoundRobin.RoundRobin * Health.Checker) * (Service.state * list log_record)) :=
  let '(_, w, s) := route response _ (client "POST" "/orders" two_hubs "Bearer tok" None) new_response initial in (w, s).

Definition booked : Store.order := Store.mkOrder 1 (map_bytes lower_byte user) 2 2 9998 7.

Lemma orders_belong_to_verified_users_witness :
  client_status after_post.1 = 201 /\ exists t c, Auth.token_identity t c /\ Store.uuid_in (Subject c) = Ok (Store.UserID booked).
Proof.
  split; [vm_compute; reflexivity|].
  assert (booked ∈ Store.orders (Service.tables (route response _ (client "POST" "/orders" two_hubs "Bearer tok" None) new_response initial).2.2.1)) as Hin.
  { assert (Store.orders (Service.tables (route response _ (client "POST" "/orders" two_hubs "Bearer tok" None) new_response initial).2.2.1) = [booked])
      as -> by (vm_compute; reflexivity). apply list_elem_of_singleton. reflexivity. }
  destruct (orders_belong_to_verified_users Itoa id (fun _ => []) (fun _ _ => Store.sound 7) parse inject etext reliable (fun _ => 0) "key"
    (client "POST" "/orders" two_hubs "Bearer tok" None) initial response_Writer new_response booked Hin)
    as [H|(tokenStr & t & c & _ & _ & H1 & H2)]; [apply not_elem_of_nil in H; destruct H|].
  exists t, c. split; [exact H1|exact H2].
Defined.

Lemma clients_read_their_own_orders_witness :
  exists c u l, Auth.token_identity user_token c /\ Store.uuid_in (Subject c) = Ok u /\ l ≡ₚ filter (fun o => Store.UserID o = u) [booked] /\
    length l = 1%nat.
Proof.
  pose proof (clients_read_their_own_orders Itoa id (fun _ => []) (fun _ _ => Store.sound 7) parse inject etext reliable (fun _ => 0) "key"
    (client "GET" "/orders" EmptyString "Bearer tok" None) after_post.2 eq_refl eq_refl) as H.
  destruct (route response _ (client "GET" "/orders" EmptyString "Bearer tok" None) new_response after_post.2) as [[o w] s'] eqn:E.
  vm_compute in E. injection E as <- <- _. destruct (H eq_refl eq_refl) as (tokenStr & t & c & u & l & _ & (_ & _ & ->) & Hid & Hu & Hl & _).
  assert (Store.orders (Service.tables after_post.2.2.1) = [booked]) as Ho by (vm_compute; reflexivity). rewrite Ho in Hl.
  exists c, u, l. split; [exact Hid|]. split; [exact Hu|]. split; [exact Hl|]. rewrite Hl.
  destruct Hid as (m & raw & Hm & Hsub & _). injection Hm as <-. change (Some (Auth.JString user) = Some (Auth.JString (Subject c))) in Hsub.
  injection Hsub as Hsub. rewrite <- Hsub in Hu. vm_compute in Hu. injection Hu as <-. vm_compute. reflexivity.
Defined.

(** A body over the limit, sent without a declared length, whose beginning is a
    complete order: the client is told 413 although the order has been booked. *)
Example oversized_order_is_booked :
  let '(_, w, s) := route response _ (client "POST" "/orders" two_hubs "Bearer tok" (Some 33)) new_response initial in
  client_status w = 413 /\ Store.orders (Service.tables s.2.1) = [booked].
Proof. vm_compute. done. Qed.

Notation catalog_route := (proxied (Catalog.catalog_mux Itoa (fun _ => []) (Store.sound 7)) reliable parse inject (fun _ => 0) etext).

Definition get (path : string) (s : Proxy.proxy_state (RoundRobin.RoundRobin * Health.Checker) * (Service.state * list log_record)) :
    Z * (Proxy.proxy_state (RoundRobin.RoundRobin * Health.Checker) * (Service.state * list log_record)) :=
  let '(_, w, s) := catalog_route response _ (client "GET" path EmptyString EmptyString None) new_response s in (client_status w, s).

(** An identifier that is no number is answered 500, which the gateway takes for a
    failure of the upstream: three such requests, which any client may send, open
    the breaker, and the next request for an existing product is refused. *)
Example bad_ids_open_the_breaker :
  let '(c0, _) := get "/products/1" initial in
  let '(c1, s) := get "/products/latest" initial in
  let '(c2, s) := get "/products/latest" s in
  let '(c3, s) := get "/products/latest" s in
  let '(c4, _) := get "/products/1" s in
  [c0; c1; c2; c3; c4] = [200; 500; 500; 500; 503].
Proof. vm_compute. done. Qed.

End ComposeSample.

End Compose.
