(* ===== verification/EndToEnd.v ===== *)
(** * The whole gateway in front of the orders service

    [Compose] puts authentication and the reverse proxy in front of a service;
    here the request passes everything [buildRouter] installs: the global
    middlewares, the routing, and the chain of the service (authentication,
    roles, rate limit, cache, compression, prefix). One lemma per layer says that
    the layer changes the protected part of the state only through the handler
    it wraps; the theorem composes them. *)

From Stdlib Require Import Ascii.
From S2P Require Import Prelude GoStrings Http Breaker Balancer Auth Guards Observers Compress CacheMW Proxy Config Upstream Router Compose.
Import Http.

Module EndToEnd.
Import ReverseProxy Config Build Gateway.

(** ** Effects of handlers *)

(** Whatever the writer and the state, a request in [R] moves the part [core]
    of the state as [E] allows. *)
Definition effect {S C} (core : S -> C) (R : Request -> Prop) (E : Request -> C -> C -> Prop) (h : Handler S) : Prop :=
  forall W (RW : ResponseWriter W) r (w : W) s, R r -> E r (core s) (core (h W RW r w s).2).

Lemma effect_weaken {S C} (core : S -> C) (R R' : Request -> Prop) (E E' : Request -> C -> C -> Prop) (h : Handler S) :
  (forall r, R' r -> R r) -> (forall r c c', R' r -> E r c c' -> E' r c c') -> effect core R E h -> effect core R' E' h.
Proof. intros HR HE H W RW r w s Hr. apply HE; [done|]. apply H. by apply HR. Qed.

Section Layers.
Context {S C : Type} (core : S -> C) (R : Request -> Prop) (E : Request -> C -> C -> Prop).
(** A request that changes nothing is always allowed. *)
Hypothesis E_refl : forall r c, E r c c.

Lemma effect_recoverer log h :
  (forall x s, core (log x s) = core s) -> effect core R E h -> effect core R E (RecovererMW.Recoverer log h).
Proof using Type.
  intros Hlog H W RW r w s Hr. unfold RecovererMW.Recoverer. pose proof (H W RW r w s Hr) as He.
  destruct (h W RW r w s) as [[[|v] w'] s']; simpl in *; [done|]. by rewrite Hlog.
Qed.

Lemma effect_logger now log h :
  (forall s, core (now s).2 = core s) -> (forall x s, core (log x s) = core s) ->
  effect core R E h -> effect core R E (LoggerMW.Logger now log h).
Proof using Type.
  intros Hnow Hlog H W RW r w s Hr. unfold LoggerMW.Logger. rewrite <- (Hnow s). destruct (now s) as [t s1]. simpl.
  pose proof (H _ (@LoggerMW.loggerWriter_Writer W RW) r (LoggerMW.mkLoggerWriter w StatusOK 0) s1 Hr) as He.
  destruct (h _ _ _ _ _) as [[[|v] w'] s']; simpl in *; [|done]. rewrite <- (Hnow s') in He.
  destruct (now s') as [t' s2]. simpl in *. by rewrite Hlog.
Qed.

Lemma effect_metrics {I} now emit routePattern (m : MetricsMW.Metrics I) h :
  (forall s, core (now s).2 = core s) -> (forall i x l s, core (emit i x l s) = core s) ->
  effect core R E h -> effect core R E (MetricsMW.Middleware_ now emit routePattern m h).
Proof using Type.
  intros Hnow Hemit H W RW r w s Hr. unfold MetricsMW.Middleware_. rewrite <- (Hnow s). destruct (now s) as [t s1]. simpl.
  pose proof (H _ (@MetricsMW.metricsWriter_Writer W RW) r (MetricsMW.mkMetricsWriter w StatusOK) s1 Hr) as He.
  destruct (h _ _ _ _ _) as [[[|v] w'] s']; simpl in *; [|done]. rewrite <- (Hnow s') in He.
  destruct (now s') as [t' s2]. simpl in *. by rewrite !Hemit.
Qed.

Lemma effect_concurrency `{!Lens S Z} limit h :
  (forall (z : Z) s, core (lset z s) = core s) ->
  effect core R E h -> effect core R E (ConcurrencyLimitMW.ConcurrencyLimit limit h).
Proof using E_refl.
  intros Hsem H W RW r w s Hr. unfold ConcurrencyLimitMW.ConcurrencyLimit. case_match; [by apply H|].
  case_match; [|apply E_refl]. pose proof (H W RW r w (lset (lget s + 1) s) Hr) as He. rewrite Hsem in He.
  destruct (h _ _ _ _ _) as [[o w'] s']. simpl in *. by rewrite Hsem.
Qed.

Lemma effect_ratelimit limiter keyFunc log h :
  (forall k s, core (limiter k s).2 = core s) -> (forall x s, core (log x s) = core s) ->
  effect core R E h -> effect core R E (RateLimitMW.RateLimit limiter keyFunc log h).
Proof using E_refl.
  intros Hlim Hlog H W RW r w s Hr. unfold RateLimitMW.RateLimit. rewrite <- (Hlim (keyFunc r) s).
  destruct (limiter (keyFunc r) s) as [[[]|e] s']; simpl; [by apply H|apply E_refl|].
  rewrite <- (Hlog (mkLog LevelError "rate limiter error, failing open" [("key", AString (keyFunc r)); ("error", AString e)]) s').
  by apply H.
Qed.

Lemma effect_compress {G} `{!Gzip G} D (g : G) minSize h :
  effect core R E h -> effect core R E (CompressMW.Compress D g minSize h).
Proof using Type.
  intros H W RW r w s Hr. unfold CompressMW.Compress. case_match; [by apply H|].
  pose proof (H _ (CompressMW.compressWriter_Writer (G := G) D) r
    (CompressMW.mkCompressWriter (header_Add "Vary" "Accept-Encoding" w) g None false minSize false false EmptyString 0) s Hr) as He.
  by destruct (h _ _ _ _ _) as [[[|v] w'] s'].
Qed.

Lemma effect_cache {U : Unicode} (LC : Lens S CacheMW.cache_state) now sf_panic TTL h :
  (forall s, core (now s).2 = core s) -> (forall (c : CacheMW.cache_state) s, core (lset c s) = core s) ->
  effect core R E h -> effect core R E (CacheMW.Cache now sf_panic TTL h).
Proof using E_refl.
  intros Hnow Hset H W RW r w s Hr. unfold CacheMW.Cache.
  assert (forall s0, E r (core s0) (core (CacheMW.fillCache now h TTL r s0).2)) as Hfill.
  { intros s0. pose proof (H _ CacheMW.captureWriter_Writer r (CacheMW.mkCapture 0 ∅ EmptyString) s0 Hr) as He.
    destruct (h _ _ _ _ s0) as [[o cw] s1] eqn:Eh. rewrite (CacheMW.fillCache_eq now h TTL r s0 _ _ _ Eh).
    destruct o; [|done]. case_match; [|done]. unfold CacheMW.filed. simpl. by rewrite Hset, Hnow, Hset. }
  assert (forall s0, E r (core s0)
    (core (match CacheMW.fillCache now h TTL r s0 with
           | (inl v, s) => (Panic (sf_panic v), w, s)
           | (inr res, s) => (Return, CacheMW.respond r res w, s)
           end).2)) as Hmiss.
  { intros s0. specialize (Hfill s0). by destruct (CacheMW.fillCache now h TTL r s0) as [[] s1]. }
  destruct (_ && _); [by apply H|]. destruct (bool_decide _); [by apply H|].
  set (key := CacheMW.buildKey r _). destruct (bool_decide _); [apply Hmiss|].
  unfold CacheMW.lookup_lru. assert (core (now s).2 = core s) as Hs by apply Hnow. destruct (now s) as [t s1]. simpl in Hs.
  destruct (Lru.LRU.Get t key _) as [[e|] l]; simpl; rewrite <- Hs.
  - rewrite Hset. apply E_refl.
  - rewrite <- (Hset (CacheMW.mkCache l (CacheMW.vary (lget s1))) s1). apply Hmiss.
Qed.

(** Layers that pass on another request. *)

Lemma effect_requestid read h :
  (forall s, core (read s).2 = core s) ->
  (forall c r, R r -> R (WithContext c r)) -> (forall x r c c', E (WithContext x r) c c' -> E r c c') ->
  effect core R E h -> effect core R E (RequestIDMW.RequestID read h).
Proof using E_refl.
  intros Hread RC EC H W RW r w s Hr. unfold RequestIDMW.RequestID. rewrite <- (Hread s). destruct (read s) as [x s1]. simpl.
  destruct (RequestIDMW.newUUID x) as [u|e]; [|apply E_refl]. eapply EC, H. by apply RC.
Qed.

Lemma effect_tracing {Span} (t : TracingMW.Tracer S Span) h :
  (forall c n k s, core (TracingMW.Start t c n k s).2 = core s) ->
  (forall x l s, core (TracingMW.SetAttributes t x l s) = core s) ->
  (forall x l s, core (TracingMW.SetStatusError t x l s) = core s) ->
  (forall x s, core (TracingMW.End_ t x s) = core s) ->
  (forall c r, R r -> R (WithContext c r)) -> (forall x r c c', E (WithContext x r) c c' -> E r c c') ->
  effect core R E h -> effect core R E (TracingMW.Tracing t h).
Proof using Type.
  intros Hstart Hattr Herr Hend RC EC H W RW r w s Hr. unfold TracingMW.Tracing.
  rewrite <- (Hstart (TracingMW.Extract t (ctx r) (header r)) "request" TracingMW.SpanKindServer s).
  destruct (TracingMW.Start _ _ _ _ _) as [[c span] s1]. simpl.
  pose proof (H _ (@TracingMW.tracingWriter_Writer W RW) (WithContext c r) (TracingMW.mkTracingWriter w StatusOK) s1 (RC c r Hr)) as He.
  apply EC in He. destruct (h _ _ _ _ _) as [[o w'] s']. simpl in *. rewrite Hend.
  destruct o; [|done]. unfold TracingMW.annotate. case_match; by rewrite ?Herr, Hattr.
Qed.

Lemma effect_maxbody limit h :
  (forall b r, R r -> R (WithBody b r)) -> (forall b r c c', E (WithBody b r) c c' -> E r c c') ->
  effect core R E h -> effect core R E (MaxBodyMW.MaxBody limit h).
Proof using E_refl.
  intros RB EB H W RW r w s Hr. unfold MaxBodyMW.MaxBody. case_match; [apply E_refl|]. eapply EB, H. by apply RB.
Qed.

Lemma effect_strip prefix h :
  (forall p r, R r -> R (WithPath p r)) -> (forall p r c c', E (WithPath p r) c c' -> E r c c') ->
  effect core R E h -> effect core R E (StripPrefix prefix h).
Proof using E_refl.
  intros RP EP H W RW r w s Hr. unfold StripPrefix. case_match; [|apply E_refl]. eapply EP, H. by apply RP.
Qed.
End Layers.

(** ** What a request may do to the orders *)

Section Orders.
Context {U : Unicode} {L : Type} `{!LoadBalancer L} {Key : Type} {JW : Auth.JWT Key} {JL : Auth.JWTLaws Key}.
Context {PG : Store.Postgres} {PGL : Store.PostgresLaws} {VA : Orders.Validator} {VAL : Orders.ValidatorLaws}.
Context {G : Type} `{!Gzip G} {S Span I : Type}.
(** The gateway's state has the semaphore and, for the orders service, the
    proxy's objects with the service at the other end of the network. *)
Notation far := (Proxy.proxy_state L * (Service.state * list log_record))%type.
Context {LZ : Lens S Z} {LF : Lens S far} {LFL : LensLaws S far}.

Definition database (s : S) : Service.state := (lget (A := far) s).2.1.

(** A handler that works on the orders service's part of the state. *)
Definition at_far (h : Handler far) : Handler S := fun W RW r w s =>
  let '(o, w, p) := h W RW r w (lget s) in (o, w, lset p s).

(** At most one order is added: for a subject in [who], of an existing product
    and at its price. *)
Definition books (who : string -> Prop) (c c' : Service.state) : Prop :=
  Store.orders (Service.tables c') = Store.orders (Service.tables c) \/
  exists o sub, who sub /\ Store.orders (Service.tables c') = Store.orders (Service.tables c) ++ [o] /\
    Store.uuid_in sub = Ok (Store.UserID o) /\ UpstreamLaws.order_ok (Store.products (Service.tables c)) o.

Lemma books_refl who c : books who c c.
Proof using Type. by left. Qed.

Lemma books_mono (who who' : string -> Prop) c c' :
  (forall sub, who sub -> who' sub) -> books who c c' -> books who' c c'.
Proof using Type. intros H [E|(o & sub & Hs & E)]; [by left|right]. exists o, sub. naive_solver. Qed.

(** The subject the context names, if its claims satisfy [P]. *)
Definition for_claims (P : Claims -> Prop) (r : Request) : Service.state -> Service.state -> Prop :=
  books (fun sub => exists cl, ctx_claims (ctx r) = Some cl /\ P cl /\ sub = Subject cl).

(** The subject of a verified token the request carries, if its claims satisfy [P]. *)
Definition for_token (k : Key) (P : Claims -> Prop) (r : Request) : Service.state -> Service.state -> Prop :=
  books (fun sub => exists tok t cl, Get (header r) "Authorization" = "Bearer " +:+ tok /\ Auth.verified k tok t /\
    Auth.token_identity t cl /\ P cl /\ sub = Subject cl).

Definition has_claims (r : Request) : Prop := is_Some (ctx_claims (ctx r)).

Definition permitted (roles : list string) (cl : Claims) : Prop :=
  roles = [] \/ exists role, role ∈ roles /\ role ∈ Roles cl.

Lemma effect_roles (core : S -> Service.state) (R : Request -> Prop) roles h :
  effect core R (for_claims (fun _ => True)) h ->
  effect core R (for_claims (permitted roles)) (Auth.RequireAnyRole roles h).
Proof using Type.
  intros H W RW r w s Hr. unfold Auth.RequireAnyRole, Auth.ClaimsFromContext.
  destruct (ctx_claims (ctx r)) as [cl|] eqn:Hc; [|apply books_refl].
  destruct (existsb _ roles) eqn:Ex; [|apply books_refl].
  apply existsb_exists in Ex as (role & Hin%list_elem_of_In & Hro%bool_decide_eq_true).
  eapply books_mono; [|by apply H]. intros sub (cl' & Hc' & _ & ->). simplify_eq.
  exists cl. split_and!; try done. right. eauto.
Qed.

Lemma effect_jwt (core : S -> Service.state) k P h :
  effect core has_claims (for_claims P) h ->
  effect core (fun _ => True) (for_token k P) (Auth.JWTAuth k h).
Proof using Type.
  intros H W RW r w s _. unfold Auth.JWTAuth.
  destruct (CutPrefix (Get (header r) "Authorization") "Bearer ") as [tok|] eqn:Ecut; [|apply books_refl].
  destruct (Auth.parseAndValidateToken tok k) as [t|e] eqn:Ep; [|apply books_refl].
  destruct (Auth.extractClaims t) as [cl|e] eqn:Ec; [|apply books_refl].
  destruct (Auth.parse_sound _ _ _ _ Ep) as (_ & k' & Hk & Hver). unfold Auth.keyFunc in Hk.
  destruct (Auth.method_rsa t); simplify_eq.
  eapply books_mono; [|apply H; by eexists]. intros sub (cl' & [= <-] & HP & ->). exists tok, t, cl.
  split_and!; try done; [by apply CutPrefix_spec|by apply Auth.extractClaims_spec].
Qed.

Variable time_text : Z -> string.
Variable decode_error : string -> string.
Variable redirect : Request -> list wop.
Variable driver : Request -> Service.state -> Store.Driver.
Variable url_Parse : string -> option (string * string).
Variable Inject : Context -> Header -> Header.
Variable error_text : transport_error -> string.
Variable network : OutRequest -> far -> Compose.wire.
Variable clock : far -> Z.

(** The reverse proxy of the orders service, with the service behind it. *)
Definition orders_proxy : Handler S :=
  at_far (Compose.proxied (Compose.orders_service time_text decode_error redirect driver)
            network url_Parse Inject clock error_text).

Lemma effect_orders_proxy : effect database has_claims (for_claims (fun _ => True)) orders_proxy.
Proof using All.
  intros W RW r w s [cl Hcl]. unfold orders_proxy, at_far, database.
  pose proof (Compose.proxied_service (Compose.orders_service time_text decode_error redirect driver)
    network url_Parse Inject clock error_text r RW w (lget s)) as Hp.
  destruct (Compose.proxied _ _ _ _ _ _ W RW r w (lget s)) as [[o w'] p]. simpl in *. rewrite lget_lset.
  destruct Hp as [->|(u & scheme & host & ->)]; [apply books_refl|].
  set (q := Compose.received _). unfold Compose.orders_service.
  destruct (UpstreamLaws.orders_mux_adds time_text decode_error redirect (driver q (lget s).2.1) q (lget s).2.1) as [E|[x Hx]]; [by left|].
  right. exists x, (Subject cl). split_and!; [by exists cl| | |].
  - by rewrite (UpstreamLaws.pl_tables _ _ _ _ _ _ Hx).
  - rewrite <- (UpstreamLaws.pl_user _ _ _ _ _ _ Hx). f_equal. symmetry. exact (Compose.out_header_user Inject u r cl Hcl).
  - exact (UpstreamLaws.pl_ok _ _ _ _ _ _ Hx).
Qed.

(** ** The gateway *)

Variable now : S -> Z * S.
Variable log : SlogLogger S.
Variable read : S -> result (list Z) * S.
Variable tracer : TracingMW.Tracer S Span.
Variable m : MetricsMW.Metrics I.
Variable emit : I -> MetricsMW.measurement -> list (string * string) -> S -> S.
Variable routePattern : Request -> S -> string.
Variable DetectContentType : string -> string.
Variable pooled : G.
Variable sf_panic : panic -> panic.
Variable route : Request -> target.
Variable cfg : GatewayConfig.
Variable services : list (built_service Key * @service_objects S).
Variable edgeLimiter : RateLimitMW.Limiter S.
(** The place of the orders service. *)
Variable i : nat.

(** The other objects of the gateway are elsewhere in the state: no limiter, no
    cache and no other service's proxy has the database of the orders service. *)
Record elsewhere : Prop := {
  e_observers : observers_keep_core database now log read tracer emit;
  e_edge : forall k s, database (edgeLimiter k s).2 = database s;
  e_limiter : forall j b o, services !! j = Some (b, o) -> forall k s, database (so_limiter o k s).2 = database s;
  e_cache : forall j b o, services !! j = Some (b, o) ->
    forall c s, database (@lset _ _ (so_cache o) c s) = database s;
  e_proxy : forall j b o, services !! j = Some (b, o) -> j ≠ i ->
    forall W (RW : ResponseWriter W) r (w : W) s, database (so_proxy o W RW r w s).2 = database s;
}.

Hypothesis Helse : elsewhere.

(** Rate limit, cache, compression and prefix around the proxy of a service. *)
Lemma effect_inner (R : Request -> Prop) (E : Request -> Service.state -> Service.state -> Prop) j b o :
  (forall r c, E r c c) -> (forall p r, R r -> R (WithPath p r)) -> (forall p r c c', E (WithPath p r) c c' -> E r c c') ->
  services !! j = Some (b, o) -> effect database R E (so_proxy o) ->
  effect database R E (inner_chain now log DetectContentType pooled sf_panic cfg b o).
Proof using Helse.
  intros E_refl RP EP Hj H. destruct Helse as [[] _ Hlim Hcache _]. unfold inner_chain.
  assert (effect database R E (StripPrefix (Prefix (bs_config b)) (so_proxy o))) as H1 by (by apply effect_strip).
  assert (forall h, effect database R E h -> effect database R E
    (if Enabled (Compression cfg) then CompressMW.Compress DetectContentType pooled (MinBytes (Compression cfg)) h else h)) as H2.
  { intros h Hh. case_match; [by apply effect_compress|done]. }
  specialize (H2 _ H1). clear H1.
  assert (forall h, effect database R E h -> effect database R E
    (match Config.Cache (bs_config b) with
     | Some cc => @CacheMW.Cache _ S (so_cache o) now sf_panic (TTL cc) h | None => h end)) as H3.
  { intros h Hh. destruct (Config.Cache (bs_config b)); [|exact Hh]. apply effect_cache; try done. by apply (Hcache j b). }
  specialize (H3 _ H2). clear H2. destruct (bs_limiter b) as [[? kf]|]; [|done].
  apply effect_ratelimit; try done. by apply (Hlim j b).
Qed.

Definition untouched (r : Request) (c c' : Service.state) : Prop := c' = c.

(** Any other service leaves the database alone. *)
Lemma effect_other j b o :
  services !! j = Some (b, o) -> j ≠ i ->
  effect database (fun _ => True) untouched (service_chain now log DetectContentType pooled sf_panic cfg b o).
Proof using Helse.
  intros Hj Hne.
  assert (effect database (fun _ => True) untouched (inner_chain now log DetectContentType pooled sf_panic cfg b o)) as H.
  { apply (effect_inner _ _ j); try done. intros W RW r w s _. by apply (e_proxy Helse j b). }
  assert (forall h, effect database (fun _ => True) untouched h -> effect database (fun _ => True) untouched
    (if bool_decide (RequiredRoles (bs_config b) ≠ []) then Auth.RequireAnyRole (RequiredRoles (bs_config b)) h else h)) as H2.
  { intros h Hh. case_match; [|done]. intros W RW r w s _. unfold Auth.RequireAnyRole.
    destruct (Auth.ClaimsFromContext _) as [cl|]; [|done]. destruct (existsb _ _); [by apply Hh|done]. }
  specialize (H2 _ H). unfold service_chain. destruct (Config.Auth (bs_config b)); [|exact H2].
  destruct (bs_key b) as [k|]; [|by intros W RW r w s _]. intros W RW r w s _. unfold Auth.JWTAuth. destruct (CutPrefix _ _) as [tok|]; [|done].
  destruct (Auth.parseAndValidateToken _ _) as [t|e]; [|done]. destruct (Auth.extractClaims t) as [cl|e]; [|done].
  exact (H2 W RW (WithContext (Auth.newClaimsContext (ctx r) cl) r) w s Logic.I).
Qed.

(** The chain of the orders service, with authentication. *)
Lemma effect_service b o k :
  services !! i = Some (b, o) -> so_proxy o = orders_proxy ->
  Config.Auth (bs_config b) = true -> bs_key b = Some k ->
  effect database (fun _ => True) (for_token k (permitted (RequiredRoles (bs_config b))))
    (service_chain now log DetectContentType pooled sf_panic cfg b o).
Proof using All.
  intros Hi Hproxy Ha Hk. unfold service_chain. rewrite Ha, Hk. apply effect_jwt.
  assert (effect database has_claims (for_claims (fun _ => True))
    (inner_chain now log DetectContentType pooled sf_panic cfg b o)) as H.
  { apply (effect_inner _ _ i); try done; [intros; apply books_refl|]. rewrite Hproxy. apply effect_orders_proxy. }
  case_bool_decide as Hr; [by apply effect_roles|].
  rewrite Hr. eapply effect_weaken; [| |exact H]; [done|].
  intros r c c' _. apply books_mono. intros sub (cl & ? & _ & ?). exists cl. split_and!; try done. by left.
Qed.

Lemma effect_dispatch b o k :
  services !! i = Some (b, o) -> so_proxy o = orders_proxy ->
  Config.Auth (bs_config b) = true -> bs_key b = Some k ->
  effect database (fun _ => True) (for_token k (permitted (RequiredRoles (bs_config b))))
    (dispatch now log DetectContentType pooled sf_panic route cfg services edgeLimiter).
Proof using All.
  intros Hi Hproxy Ha Hk W RW r w s _. unfold dispatch.
  assert (forall h : Handler S, (forall W (RW : ResponseWriter W) r (w : W) s, database (h W RW r w s).2 = database s) ->
    for_token k (permitted (RequiredRoles (bs_config b))) r (database s)
      (database (RateLimitMW.RateLimit edgeLimiter RateLimitMW.KeyByIP log h W RW r w s).2)) as Hedge.
  { intros h Hh. apply (effect_ratelimit database (fun _ => True) _); [intros; apply books_refl|apply (e_edge Helse)|
      apply (k_log _ _ _ _ _ _ (e_observers Helse))| |done]. intros W' RW' r' w' s' _. rewrite Hh. apply books_refl. }
  destruct (route r) as [|j| |]; try (by apply Hedge).
  destruct (services !! j) as [[b' o']|] eqn:Hj; [|by apply Hedge].
  destruct (decide (j = i)) as [->|Hne].
  - rewrite Hi in Hj. injection Hj as <- <-. by apply effect_service.
  - pose proof (effect_other j b' o' Hj Hne W RW r w s Logic.I) as Hu. unfold untouched in Hu. rewrite Hu. apply books_refl.
Qed.

Lemma effect_gateway b o k :
  services !! i = Some (b, o) -> so_proxy o = orders_proxy ->
  Config.Auth (bs_config b) = true -> bs_key b = Some k ->
  effect database (fun _ => True) (for_token k (permitted (RequiredRoles (bs_config b))))
    (gateway now log read tracer m emit routePattern DetectContentType pooled sf_panic route cfg services edgeLimiter).
Proof using All.
  intros Hi Hproxy Ha Hk. pose proof (effect_dispatch b o k Hi Hproxy Ha Hk) as H. unfold gateway.
  assert (forall r c, for_token k (permitted (RequiredRoles (bs_config b))) r c c) as Hrefl by (intros; apply books_refl).
  destruct (e_observers Helse).
  apply effect_recoverer, effect_requestid, effect_logger, effect_maxbody, effect_metrics, effect_tracing,
    effect_concurrency; done.
Qed.

(** C2. The whole gateway. One request, on whatever route, through every layer
    [buildRouter] installs, adds at most one order to the database behind the
    gateway. If it adds one, the request carried a token that verifies under the
    gateway's public key, whose claims have a role the service requires; the order
    belongs to the subject of that token, is for an existing product, and its
    total is the product's price times the quantity. *)
Theorem gateway_books_for_verified_users (b : built_service Key) (o : service_objects) (k : Key)
    (Hi : services !! i = Some (b, o)) (Hproxy : so_proxy o = orders_proxy)
    (Hauth : Config.Auth (bs_config b) = true) (Hkey : bs_key b = Some k)
    {W} (RW : ResponseWriter W) (r : Request) (w : W) (s : S) :
  let s' := (gateway now log read tracer m emit routePattern DetectContentType pooled sf_panic route cfg services edgeLimiter
               W RW r w s).2 in
  Store.orders (Service.tables (database s')) = Store.orders (Service.tables (database s)) \/
  exists x tok t cl, Store.orders (Service.tables (database s')) = Store.orders (Service.tables (database s)) ++ [x] /\
    Get (header r) "Authorization" = "Bearer " +:+ tok /\ Auth.verified k tok t /\ Auth.token_identity t cl /\
    permitted (RequiredRoles (bs_config b)) cl /\ Store.uuid_in (Subject cl) = Ok (Store.UserID x) /\
    UpstreamLaws.order_ok (Store.products (Service.tables (database s))) x.
Proof using All.
  destruct (effect_gateway b o k Hi Hproxy Hauth Hkey W RW r w s Logic.I)
    as [E|(x & sub & (tok & t & cl & H1 & H2 & H3 & H4 & ->) & E & Hu & Hok)]; [by left|right].
  exists x, tok, t, cl. by split_and!.
Qed.
End Orders.

(** ** Example: an order placed through the gateway *)

Module Sample.
Import Proxy.Sample UpstreamSample Compose.ComposeSample.

Notation far := (Proxy.proxy_state (RoundRobin.RoundRobin * Health.Checker) * (Service.state * list log_record))%type.
Definition state : Type := Z * far.

#[export] Instance sem_lens : Lens state Z := lens_fst.
#[export] Existing Instance CompressMW.sample_gzip.
#[export] Instance far_lens : Lens state far := {| lget s := s.2; lset p s := (s.1, p) |}.
#[export] Instance far_laws : LensLaws state far.
Proof. constructor; simpl; try done. by intros []. Qed.

Definition initial : state := (0, Compose.ComposeSample.initial).

Definition now (s : state) : Z * state := (0, s).
Definition nolog : SlogLogger state := fun _ s => s.
Definition random (s : state) : result (list Z) * state := (Ok RequestIDMW.sample_random, s).

Definition tracer : TracingMW.Tracer state unit := {|
  TracingMW.Extract c _ := c;
  TracingMW.Start c _ _ s := ((c, tt), s);
  TracingMW.SetAttributes _ _ s := s;
  TracingMW.SetStatusError _ _ s := s;
  TracingMW.End_ _ s := s;
|}.

Definition noemit (x : string) (v : MetricsMW.measurement) (l : list (string * string)) (s : state) : state := s.
Definition free_pass : RateLimitMW.Limiter state := fun _ s => (Ok true, s).

Definition objects : @service_objects state :=
  mkObjects free_pass {| lget _ := CacheMW.Sample.empty_cache; lset _ s := s |}
    (orders_proxy Itoa id (fun _ => []) (fun _ _ => Store.sound 7) parse inject etext reliable (fun _ => 0)).

Definition run (r : Request) : outcome * response * state :=
  gateway now nolog random tracer Gateway.Sample.metrics noemit (fun _ _ => EmptyString) (fun _ => EmptyString) EmptyString
    (fun v => v) (fun _ => TService 0) (normal sample_config) [(Gateway.Sample.orders_service, objects)] free_pass
    response _ r new_response initial.

End Sample.

Import Sample UpstreamSample Compose.ComposeSample.

Definition purchase : Request := client "POST" "/orders/orders" two_hubs "Bearer tok" None.

Lemma elsewhere_sample :
  elsewhere now nolog random tracer noemit [(Gateway.Sample.orders_service, objects)] free_pass 0.
Proof.
  constructor; [constructor; reflexivity|reflexivity|..].
  - intros j b o [_ [= <- <-]]%list_lookup_singleton_Some k s. reflexivity.
  - intros j b o [_ [= <- <-]]%list_lookup_singleton_Some c s. reflexivity.
  - by intros j b o [-> _]%list_lookup_singleton_Some.
Qed.

Lemma purchase_books : Store.orders (Service.tables (database (Sample.run purchase).2)) = [booked].
Proof. vm_compute. reflexivity. Qed.

Lemma gateway_books_for_verified_users_witness :
  exists cl, permitted ["admin"] cl /\ Store.uuid_in (Subject cl) = Ok (Store.UserID booked) /\ Store.TotalCents booked = 9998.
Proof.
  destruct (gateway_books_for_verified_users Itoa id (fun _ => []) (fun _ _ => Store.sound 7) Proxy.Sample.parse Proxy.Sample.inject
    Proxy.Sample.etext reliable (fun _ => 0) now nolog random tracer Gateway.Sample.metrics noemit (fun _ _ => EmptyString) (fun _ => EmptyString)
    EmptyString (fun v => v) (fun _ => TService 0) (normal sample_config) [(Gateway.Sample.orders_service, objects)] free_pass 0
    elsewhere_sample Gateway.Sample.orders_service objects "key" eq_refl eq_refl eq_refl eq_refl response_Writer purchase new_response Sample.initial)
    as [H|(x & tok & t & cl & H & _ & _ & _ & Hp & Hu & _)];
    fold (Sample.run purchase) in H; rewrite purchase_books in H; [discriminate H|].
  injection H as <-. exists cl. split; [exact Hp|]. split; [exact Hu|reflexivity].
Defined.

(** Without a token nothing is booked. *)
Example anonymous_purchase :
  let '(_, w, s) := Sample.run (client "POST" "/orders/orders" two_hubs EmptyString None) in
  client_status w = 401 /\ Store.orders (Service.tables (database s)) = [].
Proof. vm_compute. done. Qed.

End EndToEnd.
