(* ===== verification/Isolation.v ===== *)
(** * What a user observes of the orders of others

    Two states of the gateway with the orders service behind it that differ in
    nothing but the orders of other users are indistinguishable to a user: every
    sequence of requests is answered alike, byte for byte, and leaves the two
    states so related. One lemma per layer says that the layer respects a
    relation on states which the handler it wraps respects; the relation of
    [Section Orders] is an instance. *)

From Stdlib Require Import Ascii.
From S2P Require Import Prelude GoStrings Http Json Breaker Balancer Auth Guards Observers Compress CacheMW Proxy Config Upstream Router Compose EndToEnd.
Import Http.

Module Isolation.
Import ReverseProxy Config Build Gateway.

(** ** Handlers that respect a relation on states *)

(** Equal results and related states. *)
Definition agree {S A} (R : relation S) : relation (A * S) := prod_relation (=) R.

(** A request in [P] is answered alike in related states, on whatever writer. *)
Definition respects {S} (R : relation S) (P : Request -> Prop) (h : Handler S) : Prop :=
  forall W (RW : ResponseWriter W) r (w : W), P r -> Proper (R ==> agree R) (h W RW r w).

(** Run the same call in both states: equal results, related states. *)
Tactic Notation "both" constr(H) "as" simple_intropattern(res) ident(t1) ident(t2) ident(Ht) :=
  let E := fresh "E" in let a := fresh "a" in let a' := fresh "a'" in
  pose proof H as E; try (is_var H; clear H);
  lazymatch type of E with
  | agree _ ?x ?y => destruct x as [a t1], y as [a' t2]; destruct E as [E Ht]; simpl in E, Ht; subst a'; revert a; intros res
  end.

Section Layers.
Context {S : Type} (R : relation S) (P : Request -> Prop).

Lemma agree_ret {A} (a : A) s1 s2 : R s1 s2 -> agree R (a, s1) (a, s2).
Proof using Type. done. Qed.

Lemma respects_recoverer log h :
  (forall x, Proper (R ==> R) (log x)) -> respects R P h -> respects R P (RecovererMW.Recoverer log h).
Proof using Type.
  intros Hlog H W RW r w Hr s1 s2 Hs. unfold RecovererMW.Recoverer.
  both (H W RW r w Hr s1 s2 Hs) as [[|v] w'] t1 t2 Ht; apply agree_ret; [done|]. by apply Hlog.
Qed.

Lemma respects_logger now log h :
  Proper (R ==> agree R) now -> (forall x, Proper (R ==> R) (log x)) ->
  respects R P h -> respects R P (LoggerMW.Logger now log h).
Proof using Type.
  intros Hnow Hlog H W RW r w Hr s1 s2 Hs. unfold LoggerMW.Logger. both (Hnow s1 s2 Hs) as t t1 t2 Ht.
  both (H _ (@LoggerMW.loggerWriter_Writer W RW) r (LoggerMW.mkLoggerWriter w StatusOK 0) Hr _ _ Ht) as [[|v] w'] u1 u2 Hu;
    [|by apply agree_ret].
  both (Hnow _ _ Hu) as t' v1 v2 Hv. apply agree_ret. by apply Hlog.
Qed.

Lemma respects_metrics {I} now emit routePattern (m : MetricsMW.Metrics I) h :
  Proper (R ==> agree R) now -> (forall i x l, Proper (R ==> R) (emit i x l)) -> (forall r, Proper (R ==> (=)) (routePattern r)) ->
  respects R P h -> respects R P (MetricsMW.Middleware_ now emit routePattern m h).
Proof using Type.
  intros Hnow Hemit Hroute H W RW r w Hr s1 s2 Hs. unfold MetricsMW.Middleware_. both (Hnow s1 s2 Hs) as t t1 t2 Ht.
  both (H _ (@MetricsMW.metricsWriter_Writer W RW) r (MetricsMW.mkMetricsWriter w StatusOK) Hr _ _ Ht) as [[|v] w'] u1 u2 Hu;
    [|by apply agree_ret].
  both (Hnow _ _ Hu) as t' v1 v2 Hv. rewrite (Hroute r _ _ Hv). apply agree_ret. by repeat apply Hemit.
Qed.

Lemma respects_concurrency `{!Lens S Z} limit h :
  Proper (R ==> (=)) (lget (A := Z)) -> (forall z : Z, Proper (R ==> R) (lset z)) ->
  respects R P h -> respects R P (ConcurrencyLimitMW.ConcurrencyLimit limit h).
Proof using Type.
  intros Hget Hset H W RW r w Hr s1 s2 Hs. unfold ConcurrencyLimitMW.ConcurrencyLimit. case_match; [by apply H|].
  rewrite (Hget _ _ Hs). case_match; [|by apply agree_ret].
  both (H W RW r w Hr _ _ (Hset (lget s2 + 1) _ _ Hs)) as [o w'] t1 t2 Ht. rewrite (Hget _ _ Ht). apply agree_ret. by apply Hset.
Qed.

Lemma respects_ratelimit limiter keyFunc log h :
  (forall k, Proper (R ==> agree R) (limiter k)) -> (forall x, Proper (R ==> R) (log x)) ->
  respects R P h -> respects R P (RateLimitMW.RateLimit limiter keyFunc log h).
Proof using Type.
  intros Hlim Hlog H W RW r w Hr s1 s2 Hs. unfold RateLimitMW.RateLimit.
  both (Hlim (keyFunc r) s1 s2 Hs) as [[]|e] t1 t2 Ht; [by apply H|by apply agree_ret|]. apply H; [done|]. by apply Hlog.
Qed.

Lemma respects_compress {G} `{!Gzip G} D (g : G) minSize h :
  respects R P h -> respects R P (CompressMW.Compress D g minSize h).
Proof using Type.
  intros H W RW r w Hr s1 s2 Hs. unfold CompressMW.Compress. case_match; [by apply H|].
  both (H _ (CompressMW.compressWriter_Writer (G := G) D) r
    (CompressMW.mkCompressWriter (header_Add "Vary" "Accept-Encoding" w) g None false minSize false false EmptyString 0) Hr _ _ Hs)
    as [[|v] w'] t1 t2 Ht; by apply agree_ret.
Qed.

Section Cache.
Context {U : Unicode} (LC : Lens S CacheMW.cache_state) (now : S -> Z * S).
Hypothesis Hnow : Proper (R ==> agree R) now.
Hypothesis Hget : Proper (R ==> (=)) (lget (A := CacheMW.cache_state)).
Hypothesis Hset : forall c : CacheMW.cache_state, Proper (R ==> R) (lset c).

Lemma fill_respects h TTL r : P r -> respects R P h -> Proper (R ==> agree R) (CacheMW.fillCache now h TTL r).
Proof using Hnow Hget Hset.
  intros Hr H s1 s2 Hs. unfold CacheMW.fillCache.
  both (H _ CacheMW.captureWriter_Writer r (CacheMW.mkCapture 0 ∅ EmptyString) Hr _ _ Hs) as [[|v] cw] t1 t2 Ht; [|by apply agree_ret].
  destruct (CacheMW.parseVary _) as [vh va]. case_match; [by apply agree_ret|]. rewrite (Hget _ _ Ht).
  case_decide; both (Hnow _ _ (Hset (CacheMW.record (Http.Method r) (Http.Path r) vh (lget t2)) _ _ Ht)) as t u1 u2 Hu;
    rewrite (Hget _ _ Hu); apply agree_ret; by apply Hset.
Qed.

Lemma respects_cache sf_panic TTL h : respects R P h -> respects R P (CacheMW.Cache now sf_panic TTL h).
Proof using Hnow Hget Hset.
  intros H W RW r w Hr s1 s2 Hs. unfold CacheMW.Cache. destruct (_ && _); [by apply H|]. destruct (bool_decide _); [by apply H|].
  rewrite (Hget _ _ Hs). set (key := CacheMW.buildKey r _).
  assert (forall s1 s2, R s1 s2 -> agree R
    (match CacheMW.fillCache now h TTL r s1 with
     | (inl v, s) => (Panic (sf_panic v), w, s) | (inr res, s) => (Return, CacheMW.respond r res w, s) end)
    (match CacheMW.fillCache now h TTL r s2 with
     | (inl v, s) => (Panic (sf_panic v), w, s) | (inr res, s) => (Return, CacheMW.respond r res w, s) end)) as Hmiss.
  { intros a b Hab. both (fill_respects h TTL r Hr H a b Hab) as [v|res] t1 t2 Ht; by apply agree_ret. }
  destruct (bool_decide _); [by apply Hmiss|]. unfold CacheMW.lookup_lru. both (Hnow _ _ Hs) as t t1 t2 Ht.
  rewrite (Hget _ _ Ht). destruct (Lru.LRU.Get t key _) as [[e|] l]; [apply agree_ret|apply Hmiss]; by apply Hset.
Qed.
End Cache.

(** Layers that pass on another request. *)

Lemma respects_requestid read h :
  Proper (R ==> agree R) read -> (forall id r, P r -> P (WithContext (RequestIDMW.newContext (ctx r) id) r)) ->
  respects R P h -> respects R P (RequestIDMW.RequestID read h).
Proof using Type.
  intros Hread HP H W RW r w Hr s1 s2 Hs. unfold RequestIDMW.RequestID. both (Hread _ _ Hs) as x t1 t2 Ht.
  destruct (RequestIDMW.newUUID x) as [u|e]; [|by apply agree_ret]. apply H; auto.
Qed.

Lemma respects_tracing {Span} (t : TracingMW.Tracer S Span) h :
  (forall c n k, Proper (R ==> agree R) (TracingMW.Start t c n k)) ->
  (forall x l, Proper (R ==> R) (TracingMW.SetAttributes t x l)) ->
  (forall x l, Proper (R ==> R) (TracingMW.SetStatusError t x l)) ->
  (forall x, Proper (R ==> R) (TracingMW.End_ t x)) ->
  (forall c r, P r -> P (WithContext c r)) -> respects R P h -> respects R P (TracingMW.Tracing t h).
Proof using Type.
  intros Hstart Hattr Herr Hend HP H W RW r w Hr s1 s2 Hs. unfold TracingMW.Tracing.
  both (Hstart (TracingMW.Extract t (ctx r) (header r)) "request" TracingMW.SpanKindServer _ _ Hs) as [c span] t1 t2 Ht.
  both (H _ (@TracingMW.tracingWriter_Writer W RW) (WithContext c r) (TracingMW.mkTracingWriter w StatusOK) (HP c r Hr) _ _ Ht)
    as [o w'] u1 u2 Hu. apply agree_ret, Hend. destruct o; [|done]. unfold TracingMW.annotate. case_match; [apply Herr|]; by apply Hattr.
Qed.

Lemma respects_maxbody limit h :
  (forall b r, P r -> P (WithBody b r)) -> respects R P h -> respects R P (MaxBodyMW.MaxBody limit h).
Proof using Type.
  intros HP H W RW r w Hr s1 s2 Hs. unfold MaxBodyMW.MaxBody. case_match; [by apply agree_ret|]. apply H; auto.
Qed.

Lemma respects_strip prefix h :
  (forall p r, P r -> P (WithPath p r)) -> respects R P h -> respects R P (StripPrefix prefix h).
Proof using Type.
  intros HP H W RW r w Hr s1 s2 Hs. unfold StripPrefix. case_match; [|by apply agree_ret]. apply H; auto.
Qed.

Lemma respects_roles roles h : respects R P h -> respects R P (Auth.RequireAnyRole roles h).
Proof using Type.
  intros H W RW r w Hr s1 s2 Hs. unfold Auth.RequireAnyRole. destruct (Auth.ClaimsFromContext _); [|by apply agree_ret].
  case_match; [by apply H|by apply agree_ret].
Qed.

Lemma respects_jwt {Key} {JW : Auth.JWT Key} (Pin : Request -> Prop) k h :
  (forall r tok t cl, P r -> CutPrefix (Get (header r) "Authorization") "Bearer " = Some tok ->
     Auth.parseAndValidateToken tok k = Ok t -> Auth.extractClaims t = Ok cl ->
     Pin (WithContext (Auth.newClaimsContext (ctx r) cl) r)) ->
  respects R Pin h -> respects R P (Auth.JWTAuth k h).
Proof using Type.
  intros HP H W RW r w Hr s1 s2 Hs. unfold Auth.JWTAuth.
  destruct (CutPrefix _ _) as [tok|] eqn:E1; [|by apply agree_ret].
  destruct (Auth.parseAndValidateToken tok k) as [t|e] eqn:E2; [|by apply agree_ret].
  destruct (Auth.extractClaims t) as [cl|e] eqn:E3; [|by apply agree_ret]. apply H; eauto.
Qed.

Section Proxy.
Context {L : Type} `{!LoadBalancer L} {LP : Lens S (Proxy.proxy_state L)}.
Variable url_Parse : string -> option (string * string).
Variable Inject : Context -> Header -> Header.
Variable now : S -> Z * S.
Variable log : SlogLogger S.
Variable error_text : transport_error -> string.
Variable RoundTrip : OutRequest -> S -> (transport_error + Response) * S.
Hypothesis Hget : Proper (R ==> (=)) (lget (A := Proxy.proxy_state L)).
Hypothesis Hset : forall p : Proxy.proxy_state L, Proper (R ==> R) (lset p).
Hypothesis Hnow : Proper (R ==> agree R) now.
Hypothesis Hlog : forall x, Proper (R ==> R) (log x).

Lemma mustGetBreaker_proper u : Proper (R ==> (=)) (Proxy.mustGetBreaker u).
Proof using Hget. intros s1 s2 Hs. unfold Proxy.mustGetBreaker. by rewrite (Hget _ _ Hs). Qed.

Lemma put_breaker_proper u b : Proper (R ==> R) (Proxy.put_breaker u b).
Proof using Hget Hset. intros s1 s2 Hs. unfold Proxy.put_breaker. rewrite (Hget _ _ Hs). by apply Hset. Qed.

Lemma ErrorHandler_respects W (RW : ResponseWriter W) req e (w : W) :
  Proper (R ==> agree R) (Proxy.ErrorHandler now log error_text W RW req e w).
Proof using Hget Hset Hnow Hlog.
  intros s1 s2 Hs. unfold Proxy.ErrorHandler.
  destruct e; try (by apply agree_ret); destruct (Proxy.mustGetTargetFromContext _) as [v|u]; try (by apply agree_ret);
    rewrite (mustGetBreaker_proper _ _ _ Hs); destruct (Proxy.mustGetBreaker u s2) as [v|b]; try (by apply agree_ret);
    both (Hnow _ _ Hs) as t t1 t2 Ht; destruct (Proxy.classifyProxyError _); apply agree_ret, Hlog; by apply put_breaker_proper.
Qed.

Lemma ModifyResponse_respects req res s1 s2 : R s1 s2 ->
  match Proxy.ModifyResponse now req res s1, Proxy.ModifyResponse now req res s2 with
  | inl v1, inl v2 => v1 = v2
  | inr t1, inr t2 => R t1 t2
  | _, _ => False
  end.
Proof using Hget Hset Hnow.
  intros Hs. unfold Proxy.ModifyResponse. destruct (Proxy.mustGetTargetFromContext _) as [v|u]; [done|].
  rewrite (mustGetBreaker_proper _ _ _ Hs). destruct (Proxy.mustGetBreaker u s2) as [v|b]; [done|].
  destruct (500 <=? StatusCode res); [both (Hnow _ _ Hs) as t t1 t2 Ht|]; by apply put_breaker_proper.
Qed.

(** Round trips for the requests in [P] are the same in related states. *)
Definition trips_alike : Prop :=
  forall r u scheme host, P r -> Proper (R ==> agree R) (RoundTrip (Proxy.out_request Inject u scheme host r)).

Lemma relay_respects u W (RW : ResponseWriter W) r (w : W) : trips_alike -> P r ->
  Proper (R ==> agree R)
    (Proxy.proxy_ServeHTTP url_Parse Inject now log error_text RoundTrip W RW (WithContext (Proxy.newTargetContext (ctx r) u) r) w).
Proof using Hget Hset Hnow Hlog.
  intros Htrip Hr s1 s2 Hs. destruct (url_Parse u) as [[scheme host]|] eqn:Eu.
  2:{ unfold Proxy.proxy_ServeHTTP, ReverseProxy.ServeHTTP. rewrite Compose.Rewrite_unparseable by done. by apply agree_ret. }
  rewrite !(Proxy.relay_eq url_Parse Inject now log error_text RoundTrip u scheme host) by done. cbv zeta.
  both (Htrip r u scheme host Hr _ _ Hs) as [e|res] t1 t2 Ht; [by apply ErrorHandler_respects|].
  destruct (StatusCode res =? 101);
    match goal with |- context [Proxy.ModifyResponse now ?q ?x t1] => pose proof (ModifyResponse_respects q x _ _ Ht) as Hm end;
    repeat (case_match; try done); subst; try by apply agree_ret. by apply ErrorHandler_respects.
Qed.

Lemma respects_proxy : trips_alike ->
  respects R P (Proxy.ServeHTTP url_Parse Inject now log error_text RoundTrip).
Proof using Hget Hset Hnow Hlog.
  intros Htrip W RW r w Hr s1 s2 Hs. unfold Proxy.ServeHTTP. rewrite (Hget _ _ Hs).
  destruct (lb_Next (Proxy.lb (lget s2))) as [[u|e] l];
    assert (R (lset (Proxy.mkProxy l (Proxy.breakers (lget s2))) s1) (lset (Proxy.mkProxy l (Proxy.breakers (lget s2))) s2)) as Hl
      by (by apply Hset); [|by apply agree_ret].
  rewrite (mustGetBreaker_proper _ _ _ Hl). destruct (Proxy.mustGetBreaker u _) as [v|b]; [by apply agree_ret|].
  both (Hnow _ _ Hl) as t t1 t2 Ht. destruct (Breaker.Allow t b) as [[[]|e] b'];
    [apply relay_respects; try done|apply agree_ret]; by apply put_breaker_proper.
Qed.
End Proxy.
End Layers.

(** ** The orders service *)

Section Service.
Import Store.
Context {PG : Postgres} {VA : Orders.Validator}.
Variable u : string.

Definition own : list order -> list order := filter (fun o => UserID o = u).

(** Tables, and states of the service, that differ in the orders of other users only. *)
Record tables_alike (t1 t2 : Tables) : Prop := {
  ta_products : products t1 = products t2;
  ta_orders : own (orders t1) = own (orders t2);
  ta_seq : order_seq t1 = order_seq t2;
}.

Definition alike (s1 s2 : Service.state) : Prop :=
  tables_alike (Service.tables s1) (Service.tables s2) /\ Service.logged s1 = Service.logged s2.

#[export] Instance tables_alike_equiv : Equivalence tables_alike.
Proof using Type. split; [by intros t; split|by intros t1 t2 []; split|]. intros t1 t2 t3 [] []. split; congruence. Qed.

#[export] Instance alike_equiv : Equivalence alike.
Proof using Type.
  split; [by intros s; split|by intros s1 s2 [H1 H2]; split|]. intros s1 s2 s3 [H1 H2] [H3 H4]. split; [by etransitivity|congruence].
Qed.

#[export] Instance logger_alike x : Proper (alike ==> alike) (Service.logger x).
Proof using Type. intros s1 s2 [H1 H2]. split; [done|]. simpl. by rewrite H2. Qed.

#[export] Instance with_tables_alike : Proper (tables_alike ==> alike ==> alike) Service.with_tables.
Proof using Type. intros t1 t2 Ht s1 s2 [H1 H2]. by split. Qed.

Lemma insert_order_alike d user pid q :
  Proper (tables_alike ==> agree tables_alike) (insert_order d user pid q).
Proof using Type.
  intros t1 t2 [Hp Ho Hs]. unfold insert_order. rewrite Hp, Hs.
  repeat (case_match; try (by split)). split; [done|split; [done| |done]]. simpl. unfold own in *. by rewrite !filter_app, Ho.
Qed.

Lemma query_insert_alike d user p : Proper (tables_alike ==> agree tables_alike) (Orders.query_insert d user p).
Proof using Type.
  intros t1 t2 Ht. unfold Orders.query_insert. destruct (fails d); [by apply agree_ret|].
  both (insert_order_alike d user (Orders.ProductID p) (Orders.Quantity p) _ _ Ht) as [rows|e] v1 v2 Hv; by apply agree_ret.
Qed.

Lemma list_rows_alike {A} m1 m2 m3 rows (answer : list A -> Json.json) :
  Proper (alike ==> agree alike) (Service.list_rows m1 m2 m3 rows answer).
Proof using Type.
  intros s1 s2 Hs. unfold Service.list_rows. repeat case_match; apply agree_ret; unfold Service.logger_Error; by rewrite ?Hs.
Qed.

Variable time_text : Z -> string.
Variable decode_error : string -> string.
Variable redirect : Request -> list wop.

Lemma post_orders_alike d vs r : Proper (alike ==> agree alike) (Orders.post_orders decode_error d vs r).
Proof using Type.
  intros s1 s2 Hs. unfold Orders.post_orders, Service.logger_Error. destruct (Orders.decodeOrder _) as [p|]; [|apply agree_ret; by rewrite Hs].
  destruct (Orders.Struct p) as [|[f t] fs|e]; [|apply agree_ret; by rewrite Hs|by apply agree_ret].
  both (query_insert_alike d (Get (header r) "X-User") p _ _ (proj1 Hs)) as row t1 t2 Ht.
  destruct row as [[id total]| |e]; apply agree_ret; by rewrite Ht, Hs.
Qed.

(** The rows of a user come in an order that the rows of others have no part in.
    SQL leaves the order open; the two runs are compared for the same choice. *)
Definition rows_in_step : Prop := forall l1 l2, own l1 = own l2 -> own (heap_order l1) = own (heap_order l2).

(** A name that denotes no user but [u]. *)
Definition names_only (x : string) : Prop := forall v, uuid_in x = Ok v -> v = u.

Hypothesis Hrows : rows_in_step.

Lemma select_orders_alike user t1 t2 : names_only user -> tables_alike t1 t2 -> select_orders user t1 = select_orders user t2.
Proof using Hrows.
  intros Hu [_ Ho _]. unfold select_orders. destruct (uuid_in user) as [v|e] eqn:E; [|done]. rewrite (Hu v E). simpl. f_equal.
  by apply Hrows.
Qed.

Lemma mux_respects {S} (R : relation S) routes r s1 s2 :
  Forall (fun route => forall vs, agree R (route.2 vs r s1) (route.2 vs r s2)) routes -> R s1 s2 ->
  agree R (ServeMux.ServeHTTP redirect routes r s1) (ServeMux.ServeHTTP redirect routes r s2).
Proof using Type.
  intros Hr Hs. unfold ServeMux.ServeHTTP. destruct (_ || _); [|by apply agree_ret].
  destruct (ServeMux.find_route routes (Http.Method r) (Http.Path r)) as [h|] eqn:E; [|case_match; by apply agree_ret].
  induction Hr as [|[p h'] routes Hh Hr IH]; simpl in E; [done|].
  destruct (ServeMux.match_path p (Http.Path r)); [|auto]. destruct (ServeMux.method_matches _ _); [|auto]. by injection E as <-.
Qed.

Lemma orders_mux_alike d r : names_only (Get (header r) "X-User") ->
  Proper (alike ==> agree alike) (Orders.orders_mux time_text decode_error redirect d r).
Proof using Hrows.
  intros Hu s1 s2 Hs. apply mux_respects; [|done]. rewrite !Forall_cons. split_and!; [..|done]; intros vs; simpl.
  - by apply agree_ret.
  - unfold Orders.get_orders. rewrite (select_orders_alike _ _ _ Hu (proj1 Hs)). by apply list_rows_alike.
  - by apply post_orders_alike.
Qed.
End Service.

(** ** The gateway in front of it *)

Section Orders.
Context {U : Unicode} {L : Type} `{!LoadBalancer L} {Key : Type} {JW : Auth.JWT Key}.
Context {PG : Store.Postgres} {VA : Orders.Validator} {G : Type} `{!Gzip G} {S Span I : Type}.
Notation far := (Proxy.proxy_state L * (Service.state * list log_record))%type.
Context {LZ : Lens S Z} {LF : Lens S far} {LFL : LensLaws S far}.
(** The user who observes. *)
Variable u : string.

(** Proxy, service and log that differ in the orders of other users only. *)
Definition sees (x1 x2 : far) : Prop := x1.1 = x2.1 /\ alike u x1.2.1 x2.2.1 /\ x1.2.2 = x2.2.2.

(** So do the states of the whole gateway, which are otherwise equal. *)
Definition view (s1 s2 : S) : Prop := sees (lget s1) (lget s2) /\ s2 = lset (lget s2) s1.

#[export] Instance sees_equiv : Equivalence sees.
Proof using Type.
  unfold sees. split; [done|intros x y (H1 & H2 & H3); by split_and!|].
  intros x y z (H1 & H2 & H3) (H4 & H5 & H6). split_and!; [congruence|by etransitivity|congruence].
Qed.

#[export] Instance view_equiv : Equivalence view.
Proof using LFL.
  split.
  - intros s. split; [done|]. by rewrite lset_lget.
  - intros s1 s2 [H1 H2]. split; [done|]. by rewrite H2, lset_lset, lset_lget.
  - intros s1 s2 s3 [H1 H2] [H3 H4]. split; [by etransitivity|]. rewrite H4 at 1. by rewrite H2, lset_lset.
Qed.

(** A call that has no part in proxy and service. *)
Definition blind {A} (f : S -> A * S) : Prop := forall (p : far) s, f (lset p s) = ((f s).1, lset p (f s).2).
Definition passive (f : S -> S) : Prop := forall (p : far) s, f (lset p s) = lset p (f s).
Definition reads_elsewhere {A} (f : S -> A) : Prop := forall (p : far) s, f (lset p s) = f s.

Lemma passive_view f : passive f -> Proper (view ==> view) f.
Proof using LFL.
  intros Hf s1 s2 [H1 H2]. assert (forall s, lget (f s) = (lget s : far)) as Hg
    by (intros s; rewrite <- (lset_lget s) at 1; by rewrite Hf, lget_lset).
  split; rewrite !Hg; [done|]. rewrite H2 at 1. apply Hf.
Qed.

Lemma blind_view {A} (f : S -> A * S) : blind f -> Proper (view ==> agree view) f.
Proof using LFL.
  intros Hf s1 s2 Hs. split.
  - rewrite (proj2 Hs). by rewrite Hf.
  - apply (passive_view (fun s => (f s).2)); [|done]. intros p s. by rewrite Hf.
Qed.

Lemma reads_view {A} (f : S -> A) : reads_elsewhere f -> Proper (view ==> (=)) f.
Proof using Type. intros Hf s1 s2 [_ ->]. by rewrite Hf. Qed.

Variable time_text : Z -> string.
Variable decode_error : string -> string.
Variable redirect : Request -> list wop.
Variable driver : Request -> Service.state -> Store.Driver.
Variable url_Parse : string -> option (string * string).
Variable Inject : Context -> Header -> Header.
Variable error_text : transport_error -> string.
Variable network : OutRequest -> far -> Compose.wire.
Variable clock : far -> Z.

(** Neither the faults of database and network nor the clock depend on the
    orders of others. *)
Record environment_blind : Prop := {
  n_rows : rows_in_step u;
  n_driver : forall r, Proper (alike u ==> (=)) (driver r);
  n_network : forall o, Proper (sees ==> (=)) (network o);
  n_clock : Proper (sees ==> (=)) clock;
}.

Hypothesis Henv : environment_blind.

(** The verified claims of the request name [u]. *)
Definition claims_name (r : Request) : Prop := exists cl, ctx_claims (ctx r) = Some cl /\ names_only u (Subject cl).

Notation service := (Compose.orders_service time_text decode_error redirect driver).

Lemma service_alike q : names_only u (Get (header q) "X-User") -> Proper (alike u ==> agree (alike u)) (service q).
Proof using Henv.
  intros Hu s1 s2 Hs. unfold Compose.orders_service. rewrite (n_driver Henv q _ _ Hs).
  by apply orders_mux_alike; [apply (n_rows Henv)|..].
Qed.

Lemma trip_sees : trips_alike (S := far) sees claims_name Inject (Compose.trip service network).
Proof using Henv.
  intros r v scheme host (cl & Hcl & Hu) x1 x2 Hx. unfold Compose.trip. rewrite (n_network Henv _ _ _ Hx). destruct Hx as (H1 & H2 & H3).
  set (o := Proxy.out_request Inject v scheme host r).
  assert (agree (alike u) (service (Compose.received o) x1.2.1) (service (Compose.received o) x2.2.1)) as Hserv.
  { apply service_alike; [|done]. intros x Hxu. apply Hu. rewrite <- Hxu. f_equal. symmetry. exact (Compose.out_header_user Inject v r cl Hcl). }
  destruct (network o x2); [|by apply agree_ret|]; both Hserv as [oc ops] t1 t2 Ht; destruct (ReadAll _); by apply agree_ret.
Qed.

Lemma orders_proxy_respects :
  respects view claims_name
    (EndToEnd.orders_proxy time_text decode_error redirect driver url_Parse Inject error_text network clock).
Proof using Henv LFL.
  intros W RW r w Hr s1 s2 [H1 H2]. unfold EndToEnd.orders_proxy, EndToEnd.at_far.
  assert (agree sees
    (Compose.proxied service network url_Parse Inject clock error_text W RW r w (lget s1))
    (Compose.proxied service network url_Parse Inject clock error_text W RW r w (lget s2))) as Hp.
  { apply (respects_proxy sees claims_name); try done.
    - intros x y (Hx & _). exact Hx.
    - intros p x y (_ & Hy). by split.
    - intros x y Hxy. split; [|done]. by apply (n_clock Henv).
    - intros e x y (Hx & Hy & Hz). split_and!; simpl; try done. by rewrite Hz.
    - apply trip_sees. }
  both Hp as [o w'] p1 p2 Hpp. apply agree_ret. split; rewrite !lget_lset; [done|]. by rewrite H2, !lset_lset.
Qed.

Variable now : S -> Z * S.
Variable log : SlogLogger S.
Variable read : S -> result (list Z) * S.
Variable tracer : TracingMW.Tracer S Span.
Variable m : MetricsMW.Metrics I.
Variable emit : I -> MetricsMW.measurement -> list (string * string) -> S -> S.
Variable routePattern : Request -> S -> string.
Variable DetectContentType : string -> string.
Variable pooled : G.
Variable sf_panic : panic -> panic.
Variable route : Request -> target.
Variable cfg : GatewayConfig.
Variable services : list (built_service Key * @service_objects S).
Variable edgeLimiter : RateLimitMW.Limiter S.
(** The place of the orders service. *)
Variable i : nat.

(** The other objects of the gateway are elsewhere in the state; the handlers of
    other services, which may read the same database, do not tell the states
    apart. *)
Record others_blind : Prop := {
  o_now : blind now;
  o_log : forall x, passive (log x);
  o_read : blind read;
  o_emit : forall x v l, passive (emit x v l);
  o_route : forall r, reads_elsewhere (routePattern r);
  o_start : forall c n k, blind (TracingMW.Start tracer c n k);
  o_attrs : forall x l, passive (TracingMW.SetAttributes tracer x l);
  o_error : forall x l, passive (TracingMW.SetStatusError tracer x l);
  o_end : forall x, passive (TracingMW.End_ tracer x);
  o_sem : reads_elsewhere (lget (A := Z)) /\ forall z : Z, passive (lset z);
  o_edge : forall k, blind (edgeLimiter k);
  o_limiter : forall j b o, services !! j = Some (b, o) -> forall k, blind (so_limiter o k);
  o_cache : forall j b o, services !! j = Some (b, o) ->
    reads_elsewhere (@lget _ _ (so_cache o)) /\ forall c, passive (@lset _ _ (so_cache o) c);
  o_proxy : forall j b o, services !! j = Some (b, o) -> j ≠ i -> respects view (fun _ => True) (so_proxy o);
}.

Hypothesis Hothers : others_blind.

Lemma log_view x : Proper (view ==> view) (log x).
Proof using LFL Hothers. apply passive_view, (o_log Hothers). Qed.

(** Rate limit, cache, compression and prefix around the proxy of a service. *)
Lemma respects_inner (P : Request -> Prop) j b o :
  (forall p r, P r -> P (WithPath p r)) -> services !! j = Some (b, o) -> respects view P (so_proxy o) ->
  respects view P (inner_chain now log DetectContentType pooled sf_panic cfg b o).
Proof using LFL Hothers.
  intros HP Hj H. apply (respects_strip view P (Prefix (bs_config b))) in H; [|done]. unfold inner_chain.
  assert (respects view P (if Enabled (Compression cfg)
    then CompressMW.Compress DetectContentType pooled (MinBytes (Compression cfg)) (StripPrefix (Prefix (bs_config b)) (so_proxy o))
    else StripPrefix (Prefix (bs_config b)) (so_proxy o))) as H2 by (case_match; [by apply respects_compress|done]).
  set (h2 := if Enabled (Compression cfg) then _ else _) in *. clearbody h2.
  assert (respects view P (match Config.Cache (bs_config b) with
    | Some cc => @CacheMW.Cache _ S (so_cache o) now sf_panic (TTL cc) h2 | None => h2 end)) as H3.
  { destruct (Config.Cache (bs_config b)); [|exact H2]. destruct (o_cache Hothers j b o Hj) as [Hg Hs]. apply respects_cache; [..|done].
    - apply blind_view, (o_now Hothers).
    - by apply reads_view.
    - intros c. by apply passive_view. }
  destruct (bs_limiter b) as [[? kf]|]; [|done]. apply respects_ratelimit; [|apply log_view|done].
  intros k. by apply blind_view, (o_limiter Hothers j b).
Qed.

Lemma respects_roles_of (P : Request -> Prop) roles h : respects view P h ->
  respects view P (if bool_decide (roles ≠ []) then Auth.RequireAnyRole roles h else h).
Proof using Type. intros H. case_match; [by apply respects_roles|done]. Qed.

Lemma respects_other j b o :
  services !! j = Some (b, o) -> j ≠ i ->
  respects view (fun _ => True) (service_chain now log DetectContentType pooled sf_panic cfg b o).
Proof using LFL Hothers.
  intros Hj Hne. pose proof (respects_inner (fun _ => True) j b o ltac:(done) Hj (o_proxy Hothers j b o Hj Hne)) as H.
  apply (respects_roles_of _ (RequiredRoles (bs_config b))) in H. unfold service_chain.
  destruct (Config.Auth (bs_config b)); [|exact H]. destruct (bs_key b) as [k|].
  - by eapply respects_jwt; [|exact H].
  - intros W RW r w _ s1 s2 Hs. by apply agree_ret.
Qed.

(** Whoever the request authenticates as under [k] is [u]. *)
Definition authenticates (k : Key) (r : Request) : Prop := forall tok t cl,
  CutPrefix (Get (header r) "Authorization") "Bearer " = Some tok ->
  Auth.parseAndValidateToken tok k = Ok t -> Auth.extractClaims t = Ok cl -> names_only u (Subject cl).

Section OrdersRoute.
Variable b : built_service Key.
Variable o : @service_objects S.
Variable k : Key.
Hypothesis Hi : services !! i = Some (b, o).
Hypothesis Hproxy :
  so_proxy o = EndToEnd.orders_proxy time_text decode_error redirect driver url_Parse Inject error_text network clock.
Hypothesis Hauth : Config.Auth (bs_config b) = true.
Hypothesis Hkey : bs_key b = Some k.

Lemma respects_service :
  respects view (authenticates k) (service_chain now log DetectContentType pooled sf_panic cfg b o).
Proof using All.
  unfold service_chain. rewrite Hauth, Hkey. apply (respects_jwt _ _ claims_name).
  - intros r tok t cl Hr E1 E2 E3. exists cl. split; [done|]. by apply (Hr tok t).
  - apply respects_roles_of, (respects_inner _ i); [done|exact Hi|]. rewrite Hproxy. apply orders_proxy_respects.
Qed.

Lemma respects_dispatch :
  respects view (authenticates k)
    (dispatch now log DetectContentType pooled sf_panic route cfg services edgeLimiter).
Proof using All.
  intros W RW r w Hr s1 s2 Hs. unfold dispatch.
  assert (forall h : Handler S, respects view (fun _ => True) h -> agree view
    (RateLimitMW.RateLimit edgeLimiter RateLimitMW.KeyByIP log h W RW r w s1)
    (RateLimitMW.RateLimit edgeLimiter RateLimitMW.KeyByIP log h W RW r w s2)) as Hedge.
  { intros h Hh. apply (respects_ratelimit view (fun _ => True)); [|apply log_view|done..].
    intros x. by apply blind_view, (o_edge Hothers). }
  destruct (route r) as [|j| |]; try (by apply Hedge).
  destruct (services !! j) as [[b' o']|] eqn:Hj; [|by apply Hedge].
  destruct (decide (j = i)) as [->|Hne].
  - rewrite Hi in Hj. injection Hj as <- <-. by apply respects_service.
  - by apply (respects_other j).
Qed.

Notation run := (gateway now log read tracer m emit routePattern DetectContentType pooled sf_panic route cfg services edgeLimiter).

Lemma respects_gateway : respects view (authenticates k) run.
Proof using All.
  pose proof respects_dispatch as H. pose proof log_view as Hlog. destruct (o_sem Hothers) as [Hg Hz].
  pose proof (blind_view _ (o_now Hothers)) as Hnow. unfold gateway.
  apply respects_recoverer; [done|]. apply respects_requestid; [apply blind_view, (o_read Hothers)|done|].
  apply respects_logger; [done..|]. apply respects_maxbody; [done|].
  apply respects_metrics; [done|intros; apply passive_view, (o_emit Hothers)|intros; apply reads_view, (o_route Hothers)|].
  apply respects_tracing; [intros; apply blind_view, (o_start Hothers)|intros; apply passive_view..|done|].
  - apply (o_attrs Hothers).
  - apply (o_error Hothers).
  - apply (o_end Hothers).
  - apply respects_concurrency; [by apply reads_view|intros; by apply passive_view|done].
Qed.

(** Requests one after the other, each on a fresh connection, and their answers. *)
Fixpoint session (rs : list Request) (s : S) : list (outcome * response) * S :=
  match rs with
  | [] => ([], s)
  | r :: rs =>
      let '(x, s) := run response _ r new_response s in
      let '(xs, s) := session rs s in (x :: xs, s)
  end.

(** C4. Through the whole gateway a user cannot observe the orders of others. Take
    two states that differ only in the orders of other users: any sequence of
    requests, on whatever routes and with whatever headers and bodies, that
    authenticate as no one but this user, receives in both exactly the same
    answers, status, header and body; and the states still differ in nothing else,
    so neither the caches, the breakers, the limiters nor the logs tell them
    apart. *)
Theorem orders_of_others_unobservable (rs : list Request) (s1 s2 : S)
    (Hrs : Forall (authenticates k) rs) (Hs : view s1 s2) :
  (session rs s1).1 = (session rs s2).1 /\ view (session rs s1).2 (session rs s2).2.
Proof using All.
  change (agree view (session rs s1) (session rs s2)). revert s1 s2 Hs.
  induction Hrs as [|r rs Hr Hrs' IH]; intros s1 s2 Hs; [by apply agree_ret|]. cbn [session].
  both (respects_gateway response _ r new_response Hr s1 s2 Hs) as x t1 t2 Ht.
  both (IH _ _ Ht) as xs v1 v2 Hv. by apply agree_ret.
Qed.
End OrdersRoute.
End Orders.

(** ** Example: the same session beside an order of somebody else *)

Module Sample.
Import Proxy.Sample UpstreamSample Compose.ComposeSample EndToEnd.Sample.

Definition me : string := map_bytes lower_byte user.

Definition foreign : Store.order := Store.mkOrder 3 "00000000-0000-0000-0000-000000000000" 1 1 12999 5.
Definition mine : Store.order := Store.mkOrder 2 me 3 1 3499 4.

(** The gateway in front of a database with these orders. *)
Definition holding (l : list Store.order) : EndToEnd.Sample.state :=
  (0, ((EndToEnd.Sample.initial).2.1, (Service.mkState (Store.mkTables (Store.products migrated) l 4) [], []))).

Definition visit (rs : list Request) (s : EndToEnd.Sample.state) : list (outcome * response) * EndToEnd.Sample.state :=
  session EndToEnd.Sample.now nolog random EndToEnd.Sample.tracer Gateway.Sample.metrics noemit (fun _ _ => EmptyString) (fun _ => EmptyString) EmptyString
    (fun v => v) (fun _ => TService 0) (normal sample_config) [(Gateway.Sample.orders_service, objects)] free_pass rs s.

(** An order, the list of orders, and a request without a token. *)
Definition requests : list Request :=
  [client "POST" "/orders/orders" two_hubs "Bearer tok" None; client "GET" "/orders/orders" EmptyString "Bearer tok" None;
   client "GET" "/orders/orders" EmptyString EmptyString None].
End Sample.

Import Sample UpstreamSample Compose.ComposeSample EndToEnd.Sample.

Lemma rows_in_step_sample : rows_in_step me.
Proof.
  intros l1 l2 H. unfold own, Store.heap_order in *. simpl.
  assert (forall l : list Store.order, rev l = list.reverse l) as Hrev by (intros l; apply rev_alt).
  by rewrite !Hrev, !filter_reverse, H.
Qed.

Lemma environment_blind_sample : environment_blind (L := RoundRobin.RoundRobin * Health.Checker) me (fun _ _ => Store.sound 7) reliable (fun _ => 0).
Proof. constructor; [apply rows_in_step_sample|done..]. Qed.

Lemma others_blind_sample :
  others_blind me EndToEnd.Sample.now nolog random EndToEnd.Sample.tracer noemit (fun _ _ => EmptyString) [(Gateway.Sample.orders_service, objects)] free_pass 0.
Proof.
  constructor; try (intros; done).
  - intros j b o [_ [= <- <-]]%list_lookup_singleton_Some k p s. done.
  - intros j b o [_ [= <- <-]]%list_lookup_singleton_Some. done.
  - by intros j b o [-> _]%list_lookup_singleton_Some.
Qed.

Lemma requests_authenticate : Forall (authenticates me "key") requests.
Proof.
  unfold requests. rewrite !Forall_cons. split_and!; [..|done]; intros tok t cl E1 E2 E3 v Hv; vm_compute in E1; try discriminate E1;
    injection E1 as <-; vm_compute in E2; injection E2 as <-; vm_compute in E3; injection E3 as <-; vm_compute in Hv; by injection Hv as <-.
Qed.

Lemma visit_statuses : map (fun x => client_status x.2) (visit requests (holding [mine])).1 = [201; 200; 401].
Proof. vm_compute. reflexivity. Qed.

Lemma orders_of_others_unobservable_witness :
  map (fun x => client_status x.2) (visit requests (holding [foreign; mine])).1 = [201; 200; 401] /\
  (visit requests (holding [foreign; mine])).1 = (visit requests (holding [mine])).1.
Proof.
  destruct (orders_of_others_unobservable me Itoa id (fun _ => []) (fun _ _ => Store.sound 7) Proxy.Sample.parse Proxy.Sample.inject
    Proxy.Sample.etext reliable (fun _ => 0) environment_blind_sample EndToEnd.Sample.now nolog random EndToEnd.Sample.tracer Gateway.Sample.metrics noemit
    (fun _ _ => EmptyString) (fun _ => EmptyString) EmptyString (fun v => v) (fun _ => TService 0) (normal sample_config)
    [(Gateway.Sample.orders_service, objects)] free_pass 0 others_blind_sample Gateway.Sample.orders_service objects "key"
    eq_refl eq_refl eq_refl eq_refl requests (holding [foreign; mine]) (holding [mine]) requests_authenticate) as [H _].
  - split; [|reflexivity]. split; [reflexivity|]. split; [|reflexivity]. split; [|reflexivity].
    split; [reflexivity|vm_compute; reflexivity|reflexivity].
  - split; [|exact H]. change (visit requests (holding [foreign; mine])).1 with
      (session EndToEnd.Sample.now nolog random EndToEnd.Sample.tracer Gateway.Sample.metrics noemit (fun _ _ => EmptyString) (fun _ => EmptyString) EmptyString
        (fun v => v) (fun _ => TService 0) (normal sample_config) [(Gateway.Sample.orders_service, objects)] free_pass requests (holding [foreign; mine])).1.
    rewrite H. exact visit_statuses.
Defined.

End Isolation.
