(* ===== verification/Uncached.v ===== *)
(** * Orders are never cached

    The orders service says nothing about caching, and its requests carry a token.
    Through the whole gateway no answer of it is stored, whoever asks and whatever
    the answer is: the cache in front of the service does not gain an entry. Two
    kinds of lemma, one per layer: a layer does not write a [Cache-Control] field
    unless the handler inside does, and it changes the cache only through that
    handler. *)

From Stdlib Require Import Ascii.
From S2P Require Import Prelude Lru GoStrings Http Json Breaker Balancer Auth Guards Observers Compress CacheMW Proxy Config Upstream Router Compose EndToEnd.
Import Http.

Module Uncached.
Import ReverseProxy Config Build Gateway EndToEnd.

(** ** Handlers that do not write a header field *)

Section Silent.
(** The field. *)
Variable K : string.

(** No key of the map denotes the field. *)
Definition lacks (h : Header) : Prop := map_Forall (fun k _ => CanonicalHeaderKey k ≠ CanonicalHeaderKey K) h.

Lemma lacks_Values h : lacks h -> Values h K = [].
Proof using Type.
  intros H. unfold Values. destruct (h !! CanonicalHeaderKey K) as [vs|] eqn:E; [|done].
  destruct (H _ _ E). apply CanonicalHeaderKey_idem.
Qed.

Lemma lacks_insert k vs h : CanonicalHeaderKey k ≠ CanonicalHeaderKey K -> lacks h -> lacks (<[k := vs]> h).
Proof using Type. intros Hk H. by apply map_Forall_insert_2. Qed.

Lemma lacks_delete k h : lacks h -> lacks (delete k h).
Proof using Type. intros H. by apply map_Forall_delete. Qed.

(** Calls on a writer that do not write the field. *)
Definition op_lacks (o : wop) : Prop :=
  match o with HSet k _ | HAdd k _ => CanonicalHeaderKey k ≠ CanonicalHeaderKey K | _ => True end.

(** A property of a writer that holds as long as the field is not written. *)
Record guarded {W} {RW : ResponseWriter W} (Inv : W -> Prop) : Prop := {
  g_lacks : forall w, Inv w -> lacks (w_header w);
  g_header : forall h w, Inv w -> lacks h -> Inv (w_set_header h w);
  g_head : forall c w, Inv w -> Inv (w_WriteHeader c w);
  g_body : forall b w, Inv w -> Inv (w_Write b w).2;
}.

Section Guarded.
Context {W : Type} {RW : ResponseWriter W} (Inv : W -> Prop).
Hypothesis HG : guarded Inv.

Lemma guarded_play1 o w : op_lacks o -> Inv w -> Inv (play1 o w).
Proof using HG.
  intros Ho Hw. pose proof (g_lacks _ HG w Hw) as Hl.
  destruct o as [k v|k v|k|c|b]; simpl in *; [..|by apply (g_head _ HG)|by apply (g_body _ HG)]; apply (g_header _ HG); try done.
  - apply lacks_insert; [|done]. by rewrite CanonicalHeaderKey_idem.
  - apply lacks_insert; [|done]. by rewrite CanonicalHeaderKey_idem.
  - by apply lacks_delete.
Qed.

Lemma guarded_play ops w : Forall op_lacks ops -> Inv w -> Inv (play ops w).
Proof using HG.
  intros Hops. revert w. induction Hops as [|o ops Ho Hops IH]; intros w Hw; [done|]. rewrite play_cons. by apply IH, guarded_play1.
Qed.

Lemma guarded_copy parts broken w : Inv w -> Inv (copyResponse parts broken w).2.
Proof using HG.
  revert w. induction parts as [|b parts IH]; intros w Hw; [done|]. simpl. pose proof (g_body _ HG b w Hw) as H.
  destruct (w_Write b w) as [[n [e|]] w']; simpl in *; [done|]. case_match; [by apply IH|done].
Qed.

Lemma guarded_emit out w : Inv w -> Inv (CompressMW.emit out w).2.
Proof using HG.
  revert w. induction out as [|b out IH]; intros w Hw; [done|]. simpl. pose proof (g_body _ HG b w Hw) as H.
  destruct (w_Write b w) as [[n [e|]] w']; simpl in *; [done|]. by apply IH.
Qed.
End Guarded.

(** The field is not written to the writer, whatever it is. *)
Definition silent {S} (P : Request -> Prop) (h : Handler S) : Prop :=
  forall W (RW : ResponseWriter W) (Inv : W -> Prop), guarded Inv -> forall r w s, P r -> Inv w -> Inv (h W RW r w s).1.2.
End Silent.

(** ** The layers between cache and service *)

Notation CC := "Cache-Control".

Ltac other_field := vm_compute; discriminate.

Lemma json_ops_lack c m : Forall (op_lacks CC) (json_ops c m).
Proof. repeat constructor. other_field. Qed.

Lemma guarded_json {W} {RW : ResponseWriter W} (Inv : W -> Prop) c m w : guarded CC Inv -> Inv w -> Inv (writeJSON c m w).
Proof. intros HG Hw. rewrite writeJSON_play. apply (guarded_play CC Inv HG); [apply json_ops_lack|done]. Qed.

Section Between.
Context {S : Type} (P : Request -> Prop).

Lemma silent_strip prefix (h : Handler S) :
  (forall p r, P r -> P (WithPath p r)) -> silent CC P h -> silent CC P (StripPrefix prefix h).
Proof using Type.
  intros HP H W RW Inv HG r w s Hr Hw. unfold StripPrefix. case_match; [by apply H; auto|].
  unfold NotFound. simpl. apply (guarded_play1 CC Inv HG (WBody _)); [done|].
  apply (guarded_play CC Inv HG [HDel _; HSet _ _; HSet _ _; WHead _]); [|done]. repeat constructor; other_field.
Qed.

Section Compressed.
Context {G : Type} `{!Gzip G} (D : string -> string) {W : Type} {RW : ResponseWriter W} (Inv : W -> Prop).
Hypothesis HG : guarded CC Inv.
Notation cw_inv := (fun cw : CompressMW.compressWriter G W => Inv (CompressMW.inner cw)).

Lemma zip_out_inv out cw : cw_inv cw -> Inv (CompressMW.zip_out out cw).2.
Proof using HG. intros Hw. unfold CompressMW.zip_out. destruct (CompressMW.bound cw); [by apply (guarded_emit CC Inv HG)|done]. Qed.

Lemma gzip_Write_inv b cw : cw_inv cw -> cw_inv (CompressMW.gzip_Write b cw).2.
Proof using HG.
  intros Hw. unfold CompressMW.gzip_Write. destruct (CompressMW.gz_err cw); [done|]. destruct (gz_Write b _) as [out g].
  pose proof (zip_out_inv out _ Hw) as H. by destruct (CompressMW.zip_out out _) as [err w'].
Qed.

Lemma flush_inv cw : cw_inv cw -> cw_inv (CompressMW.flushBuffered cw).
Proof using HG.
  intros Hw. unfold CompressMW.flushBuffered. simpl.
  pose proof (g_head _ _ HG (if CompressMW.statusCode cw =? 0 then StatusOK else CompressMW.statusCode cw) _ Hw) as Hh.
  destruct (CompressMW.compress cw); simpl; [by apply gzip_Write_inv|by apply (g_body _ _ HG)].
Qed.

Lemma decide_inv cw : cw_inv cw -> cw_inv (CompressMW.decide_ D cw).
Proof using HG.
  intros Hw. unfold CompressMW.decide_. set (cw1 := if bool_decide _ then _ else _).
  assert (Inv (CompressMW.inner cw1)) as H1 by (unfold cw1; repeat case_match; done).
  destruct (CompressMW.compress cw1); [|done]. simpl.
  apply (guarded_play CC Inv HG [HSet _ _; HDel _]); [|done]. repeat constructor. other_field.
Qed.

Lemma compress_guarded : guarded (RW := CompressMW.compressWriter_Writer D) CC cw_inv.
Proof using HG.
  constructor; simpl.
  - intros cw Hw. by apply (g_lacks _ _ HG).
  - intros h cw Hw Hh. by apply (g_header _ _ HG).
  - done.
  - intros b cw Hw. unfold CompressMW.cw_Write. destruct (CompressMW.wroteHead cw).
    + destruct (CompressMW.compress cw); [by apply gzip_Write_inv|]. pose proof (g_body _ _ HG b _ Hw) as H.
      by destruct (w_Write b _) as [res w'].
    + simpl. case_match; [done|]. simpl. by apply flush_inv, decide_inv.
Qed.

Lemma finish_inv cw : cw_inv cw -> cw_inv (CompressMW.finish cw).2.
Proof using HG.
  intros Hw. unfold CompressMW.finish. set (cw1 := if negb _ then _ else _).
  assert (Inv (CompressMW.inner cw1)) as H1 by (unfold cw1; case_match; [by apply flush_inv|done]).
  destruct (CompressMW.compress cw1); [|done]. unfold CompressMW.gzip_Close. destruct (CompressMW.gz_err cw1); [done|].
  destruct (gz_Close _) as [out g]. pose proof (zip_out_inv out _ H1) as H. by destruct (CompressMW.zip_out out _) as [err w'].
Qed.
End Compressed.

Lemma silent_compress {G} `{!Gzip G} D (g : G) minSize (h : Handler S) :
  silent CC P h -> silent CC P (CompressMW.Compress D g minSize h).
Proof using Type.
  intros H W RW Inv HG r w s Hr Hw. unfold CompressMW.Compress.
  assert (Inv (header_Add "Vary" "Accept-Encoding" w)) as Hv by (apply (guarded_play1 CC Inv HG (HAdd _ _)); [other_field|done]).
  case_match; [by apply H|].
  pose proof (H _ _ _ (compress_guarded (G := G) D Inv HG) r
    (CompressMW.mkCompressWriter (header_Add "Vary" "Accept-Encoding" w) g None false minSize false false EmptyString 0) s Hr Hv) as Hc.
  destruct (h _ _ _ _ _) as [[[|v] cw] s']; simpl in *; [by apply finish_inv|done].
Qed.

Section Proxy.
Context {L : Type} `{!LoadBalancer L} {LP : Lens S (Proxy.proxy_state L)}.
Variable url_Parse : string -> option (string * string).
Variable Inject : Context -> Header -> Header.
Variable now : S -> Z * S.
Variable log : SlogLogger S.
Variable error_text : transport_error -> string.
Variable RoundTrip : OutRequest -> S -> (transport_error + Response) * S.
(** The upstream does not send the field. *)
Hypothesis Htrip : forall o s, match (RoundTrip o s).1 with inr res => lacks CC (resp_header res) | inl _ => True end.

Lemma lacks_hop h : lacks CC h -> lacks CC (removeHopByHopHeaders h).
Proof using Type.
  unfold removeHopByHopHeaders. assert (forall l h, lacks CC h -> lacks CC (foldl (fun h t => Del t h) h l)) as H.
  { induction l as [|k l IH]; intros h0 Hh; [done|]. simpl. by apply IH, lacks_delete. }
  intros Hh. by apply H, H.
Qed.

Lemma header_ops_lack h : lacks CC h -> Forall (op_lacks CC) (CacheMW.header_ops h).
Proof using Type.
  intros Hh. unfold CacheMW.header_ops. apply Forall_concat, Forall_fmap, Forall_forall. intros [k vs] Hin%elem_of_map_to_list. simpl.
  apply Forall_fmap, Forall_forall. intros v _. exact (Hh k vs Hin).
Qed.

Lemma ErrorHandler_silent {W} {RW : ResponseWriter W} (Inv : W -> Prop) req e w s : guarded CC Inv -> Inv w ->
  Inv (Proxy.ErrorHandler now log error_text W RW req e w s).1.2.
Proof using Type.
  intros HG Hw. unfold Proxy.ErrorHandler. pose proof (fun c m => guarded_json Inv c m w HG Hw) as Hj.
  destruct e; try (by apply Hj); destruct (Proxy.mustGetTargetFromContext _) as [v|u]; try done;
    destruct (Proxy.mustGetBreaker u s) as [v|b]; try done; destruct (now s) as [t s1]; destruct (Proxy.classifyProxyError _); apply Hj.
Qed.

Lemma silent_proxy : silent CC P (Proxy.ServeHTTP url_Parse Inject now log error_text RoundTrip).
Proof using Htrip.
  intros W RW Inv HG r w s Hr Hw. unfold Proxy.ServeHTTP. destruct (lb_Next _) as [[u|e] l]; [|by apply guarded_json].
  destruct (Proxy.mustGetBreaker u _) as [v|b]; [done|]. destruct (now _) as [t s1]. destruct (Breaker.Allow t b) as [[[]|e] b'];
    [|by apply guarded_json]. unfold Proxy.proxy_ServeHTTP, ReverseProxy.ServeHTTP. destruct (Proxy.Rewrite _ _ _ _) as [v|o]; [done|].
  set (o' := mkOut _ _ _). set (s2 := Proxy.put_breaker _ _ _). pose proof (Htrip o' s2) as Ht.
  destruct (RoundTrip o' s2) as [[e|res] s3]; simpl in Ht; [by apply ErrorHandler_silent|]. destruct (StatusCode res =? 101).
  - destruct (Proxy.ModifyResponse _ _ _ _); [done|]. by apply ErrorHandler_silent.
  - destruct (Proxy.ModifyResponse _ _ _ _); [done|]. cbn [chunks broken StatusCode resp_header].
    match goal with |- context [copyResponse ?a ?b ?w'] => assert (Inv w') as Hw' end.
    { apply (g_head _ _ HG), (guarded_play CC Inv HG); [|done]. by apply header_ops_lack, lacks_hop. }
    pose proof (guarded_copy CC Inv HG (chunks res) (broken res) _ Hw') as Hc. by destruct (copyResponse _ _ _).
Qed.
End Proxy.
End Between.

(** ** The orders service *)

Definition response_lacks (w : response) : Prop :=
  lacks CC (hdr w) /\ match sent w with Some (_, h) => lacks CC h | None => True end.

Lemma response_guarded : guarded CC response_lacks.
Proof.
  assert (forall c w, response_lacks w -> response_lacks (response_WriteHeader c w)) as Hhead.
  { intros c w [H1 H2]. unfold response_WriteHeader. destruct (sent w) as [x|] eqn:E; [split; [done|by rewrite E]|].
    case_match; [split; [done|by rewrite E]|]. by split. }
  constructor.
  - by intros w [].
  - intros h w [H1 H2] Hh. by split.
  - exact Hhead.
  - intros b w Hw%(Hhead StatusOK). simpl. unfold response_Write. set (w1 := response_WriteHeader StatusOK w) in *.
    assert (forall n l, response_lacks (mkResponse (hdr w1) (sent w1) (declared w1) n l)) as H by done. clearbody w1.
    destruct (_ =? 0); [done|]. destruct (negb _); [done|]. destruct (declared w1); [case_match|]; apply H.
Qed.

Lemma answer_lacks ops : Forall (op_lacks CC) ops -> lacks CC (resp_header (Compose.answer ops)).
Proof.
  intros H. destruct (guarded_play CC response_lacks response_guarded ops new_response H) as [H1 H2]; [by split|].
  unfold Compose.answer, client_header. simpl. destruct (sent _) as [[c h]|]; done.
Qed.

Section Service.
Context {PG : Store.Postgres} {VA : Orders.Validator}.
Variable time_text : Z -> string.
Variable decode_error : string -> string.
Variable redirect : Request -> list wop.
(** The multiplexer's redirect sets [Location] and [Content-Type]. *)
Hypothesis Hredirect : forall r, Forall (op_lacks CC) (redirect r).

Lemma json_lacks c v : Forall (op_lacks CC) (Service.writeJSON c v).
Proof using Type. repeat constructor. other_field. Qed.

Lemma Error_lacks m c : Forall (op_lacks CC) (ServeMux.Error_ops m c).
Proof using Type. repeat constructor; other_field. Qed.

Lemma mux_lacks {S} routes r (s : S) :
  Forall (fun route => forall vs, Forall (op_lacks CC) (route.2 vs r s).1.2) routes ->
  Forall (op_lacks CC) (ServeMux.ServeHTTP redirect routes r s).1.2.
Proof using Hredirect.
  intros Hr. unfold ServeMux.ServeHTTP. destruct (_ || _); [|apply Hredirect].
  destruct (ServeMux.find_route routes (Http.Method r) (Http.Path r)) as [h|] eqn:E.
  - induction Hr as [|[p h'] routes Hh Hr IH]; simpl in E; [done|].
    destruct (ServeMux.match_path p (Http.Path r)); [|auto]. destruct (ServeMux.method_matches _ _); [|auto]. by injection E as <-.
  - case_match; [apply Error_lacks|]. constructor; [other_field|apply Error_lacks].
Qed.

Lemma orders_mux_lacks d r s : Forall (op_lacks CC) (Orders.orders_mux time_text decode_error redirect d r s).1.2.
Proof using Hredirect.
  apply mux_lacks. rewrite !Forall_cons. split_and!; [..|done]; intros vs; cbn [snd].
  - by repeat constructor.
  - unfold Orders.get_orders, Service.list_rows. repeat case_match; apply json_lacks.
  - unfold Orders.post_orders. destruct (Orders.decodeOrder _) as [p|]; [|apply json_lacks].
    destruct (Orders.Struct p) as [|[f t] fs|e]; try apply json_lacks.
    destruct (Orders.query_insert _ _ _ _) as [[[id total]| |e] t]; apply json_lacks.
Qed.
End Service.

(** ** The cache in front of it *)

(** Nothing is added: what is stored was stored before. *)
Definition no_more (c c' : CacheMW.cache_state) : Prop :=
  LRU.index (CacheMW.lru c') ⊆ LRU.index (CacheMW.lru c) /\ LRU.values (CacheMW.lru c') ⊆ LRU.values (CacheMW.lru c) /\
  CacheMW.vary c' = CacheMW.vary c.

Lemma no_more_refl c : no_more c c.
Proof. done. Qed.

Lemma Get_no_more t k l v : no_more (CacheMW.mkCache l v) (CacheMW.mkCache (LRU.Get t k l).2 v).
Proof.
  unfold no_more, LRU.Get. cbn [CacheMW.lru CacheMW.vary]. destruct (LRU.index l !! k) as [el|]; [|done].
  destruct (LRU.values l !! el) as [it|] eqn:E; [|done]. case_match; [|done]. cbn [snd]. unfold LRU.removeElement. rewrite E.
  split_and!; [apply delete_subseteq..|done].
Qed.

Definition with_token (r : Request) : Prop := Get (header r) "Authorization" ≠ EmptyString.

(** A request with a token to a service that says nothing about caching: its
    answer is not stored. *)
Lemma effect_own_cache {U : Unicode} {S} (LC : Lens S CacheMW.cache_state) {LCL : LensLaws S CacheMW.cache_state} now sf_panic TTL (h : Handler S) :
  (forall s, lget (A := CacheMW.cache_state) (now s).2 = lget s) -> silent CC with_token h ->
  effect (lget (A := CacheMW.cache_state)) with_token (fun _ c c' => c' = c) h ->
  effect (lget (A := CacheMW.cache_state)) with_token (fun _ => no_more) (CacheMW.Cache now sf_panic TTL h).
Proof.
  intros Hnow Hs He W RW r w s Hr. unfold CacheMW.Cache.
  assert (forall s0, lget (CacheMW.fillCache now h TTL r s0).2 = lget (A := CacheMW.cache_state) s0) as Hfill.
  { intros s0. pose proof (He _ CacheMW.captureWriter_Writer r (CacheMW.mkCapture 0 ∅ EmptyString) s0 Hr) as Hc.
    pose proof (Hs _ CacheMW.captureWriter_Writer (fun cw => lacks CC (CacheMW.cheader cw)) ltac:(by constructor) r
      (CacheMW.mkCapture 0 ∅ EmptyString) s0 Hr ltac:(by apply map_Forall_empty)) as Hl.
    destruct (h _ _ _ _ s0) as [[o cw] s1] eqn:Eh. rewrite (CacheMW.fillCache_eq now h TTL r s0 _ _ _ Eh). simpl in *.
    destruct o; [|done]. assert (CacheMW.storable cw r = false) as ->; [|done].
    assert (Get (CacheMW.cheader cw) CC = EmptyString) as Hcc by (unfold Get; by rewrite (lacks_Values CC _ Hl)).
    unfold CacheMW.storable, CacheMW.cacheableResponse. rewrite Hcc.
    change (CacheMW.parseCacheControl EmptyString) with (∅ : gmap string string). rewrite (bool_decide_true (_ ≠ _)) by exact Hr.
    by repeat case_match. }
  assert (forall s0, no_more (lget s) (lget s0) -> no_more (lget s)
    (lget (match CacheMW.fillCache now h TTL r s0 with
           | (inl v, s) => (Panic (sf_panic v), w, s) | (inr res, s) => (Return, CacheMW.respond r res w, s) end).2)) as Hmiss.
  { intros s0 H0. specialize (Hfill s0). destruct (CacheMW.fillCache now h TTL r s0) as [[] s1]; simpl in *; by rewrite Hfill. }
  destruct (_ && _); [rewrite (He W RW r w s Hr); apply no_more_refl|].
  destruct (bool_decide _); [rewrite (He W RW r w s Hr); apply no_more_refl|].
  set (key := CacheMW.buildKey r _). destruct (bool_decide _); [apply Hmiss, no_more_refl|].
  unfold CacheMW.lookup_lru. pose proof (Hnow s) as Hn. destruct (now s) as [t s1]. simpl in Hn. rewrite Hn.
  pose proof (Get_no_more t key (CacheMW.lru (lget s)) (CacheMW.vary (lget s))) as Hg.
  assert (CacheMW.mkCache (CacheMW.lru (lget s)) (CacheMW.vary (lget s)) = lget s) as Heta by (by destruct (lget s)). rewrite Heta in Hg.
  destruct (LRU.Get t key _) as [[e|] l]; simpl in *; [by rewrite lget_lset|]. apply Hmiss. by rewrite lget_lset.
Qed.

(** ** The whole gateway *)

Section Orders.
Context {U : Unicode} {L : Type} `{!LoadBalancer L} {Key : Type} {JW : Auth.JWT Key}.
Context {PG : Store.Postgres} {VA : Orders.Validator} {G : Type} `{!Gzip G} {S Span I : Type}.
Notation far := (Proxy.proxy_state L * (Service.state * list log_record))%type.
Context {LZ : Lens S Z} {LF : Lens S far}.

Variable time_text : Z -> string.
Variable decode_error : string -> string.
Variable redirect : Request -> list wop.
Variable driver : Request -> Service.state -> Store.Driver.
Variable url_Parse : string -> option (string * string).
Variable Inject : Context -> Header -> Header.
Variable error_text : transport_error -> string.
Variable network : OutRequest -> far -> Compose.wire.
Variable clock : far -> Z.
Hypothesis Hredirect : forall r, Forall (op_lacks CC) (redirect r).

Notation orders_proxy := (EndToEnd.orders_proxy time_text decode_error redirect driver url_Parse Inject error_text network clock).

Lemma orders_proxy_silent P : silent CC P orders_proxy.
Proof using Hredirect.
  intros W RW Inv HG r w s Hr Hw. unfold EndToEnd.orders_proxy, at_far.
  assert (forall o s, match (Compose.trip (L := L) (Compose.orders_service time_text decode_error redirect driver) network o s).1 with
    | inr res => lacks CC (resp_header res) | inl _ => True end) as Htrip.
  { intros o x. unfold Compose.trip, Compose.orders_service. set (q := Compose.received o).
    pose proof (orders_mux_lacks time_text decode_error redirect Hredirect (driver q x.2.1) q x.2.1) as Ha.
    destruct (network o x); [|done|]; destruct (Orders.orders_mux _ _ _ _ _ _) as [[oc ops] t]; simpl in Ha;
      destruct (ReadAll _); try done; by apply answer_lacks. }
  pose proof (silent_proxy P (LP := Compose.state_lens) url_Parse Inject (Compose.now clock) Compose.log error_text _ Htrip
    W RW Inv HG r w (lget s) Hr Hw) as H. unfold Compose.proxied. by destruct (Proxy.ServeHTTP _ _ _ _ _ _ _ _ _ _ _) as [[o w'] p].
Qed.

Variable now : S -> Z * S.
Variable log : SlogLogger S.
Variable read : S -> result (list Z) * S.
Variable tracer : TracingMW.Tracer S Span.
Variable m : MetricsMW.Metrics I.
Variable emit : I -> MetricsMW.measurement -> list (string * string) -> S -> S.
Variable routePattern : Request -> S -> string.
Variable DetectContentType : string -> string.
Variable pooled : G.
Variable sf_panic : panic -> panic.
Variable route : Request -> target.
Variable cfg : GatewayConfig.
Variable services : list (built_service Key * @service_objects S).
Variable edgeLimiter : RateLimitMW.Limiter S.
(** The orders service and its cache. *)
Variable i : nat.
Variable b : built_service Key.
Variable o : @service_objects S.
Variable k : Key.
Hypothesis Hi : services !! i = Some (b, o).
Hypothesis Hproxy : so_proxy o = orders_proxy.
Hypothesis Hauth : Config.Auth (bs_config b) = true.
Hypothesis Hkey : bs_key b = Some k.

Definition cache_of (s : S) : CacheMW.cache_state := @lget _ _ (so_cache o) s.

(** The other objects of the gateway are not in this cache: services have caches
    of their own. *)
Record outside : Prop := {
  x_laws : @LensLaws _ _ (so_cache o);
  x_observers : observers_keep_core cache_of now log read tracer emit;
  x_edge : forall x s, cache_of (edgeLimiter x s).2 = cache_of s;
  x_far : forall (p : far) s, cache_of (lset p s) = cache_of s;
  x_limiter : forall j b' o', services !! j = Some (b', o') -> forall x s, cache_of (so_limiter o' x s).2 = cache_of s;
  x_cache : forall j b' o', services !! j = Some (b', o') -> j ≠ i -> forall c s, cache_of (@lset _ _ (so_cache o') c s) = cache_of s;
  x_proxy : forall j b' o', services !! j = Some (b', o') -> j ≠ i ->
    forall W (RW : ResponseWriter W) r (w : W) s, cache_of (so_proxy o' W RW r w s).2 = cache_of s;
}.

Hypothesis Hout : outside.
Notation same := (fun (_ : Request) (c c' : CacheMW.cache_state) => c' = c).
Notation adds_none := (fun _ : Request => no_more).

Lemma effect_auth (R Rin : Request -> Prop) key h :
  (forall r tok cl, R r -> CutPrefix (Get (header r) "Authorization") "Bearer " = Some tok ->
     Rin (WithContext (Auth.newClaimsContext (ctx r) cl) r)) ->
  effect cache_of Rin adds_none h -> effect cache_of R adds_none (Auth.JWTAuth key h).
Proof using Type.
  intros HR H W RW r w s Hr. unfold Auth.JWTAuth. destruct (CutPrefix _ _) as [tok|] eqn:E; [|apply no_more_refl].
  destruct (Auth.parseAndValidateToken tok key) as [t|e]; [|apply no_more_refl].
  destruct (Auth.extractClaims t) as [cl|e]; [|apply no_more_refl]. apply (H W RW (WithContext _ r)). by apply (HR r tok).
Qed.

Lemma effect_role_check (R : Request -> Prop) roles h : effect cache_of R adds_none h ->
  effect cache_of R adds_none (if bool_decide (roles ≠ []) then Auth.RequireAnyRole roles h else h).
Proof using Type.
  intros H. case_match; [|done]. intros W RW r w s Hr. unfold Auth.RequireAnyRole.
  destruct (Auth.ClaimsFromContext _); [|apply no_more_refl]. destruct (existsb _ _); [by apply H|apply no_more_refl].
Qed.

(** The chain of the orders service behind authentication. *)
Lemma effect_orders_inner :
  effect cache_of with_token adds_none (inner_chain now log DetectContentType pooled sf_panic cfg b o).
Proof using All.
  destruct Hout as [Hlaws [] _ Hfar Hlim _ _]. unfold inner_chain.
  assert (effect cache_of with_token same (StripPrefix (Prefix (bs_config b)) (so_proxy o)) /\
          silent CC with_token (StripPrefix (Prefix (bs_config b)) (so_proxy o))) as [He Hs].
  { split; [apply effect_strip; try done|apply silent_strip; [done|]]; rewrite Hproxy; [|apply orders_proxy_silent].
    intros W RW r w s _. unfold EndToEnd.orders_proxy, at_far. destruct (Compose.proxied _ _ _ _ _ _ _ _ _ _ _) as [[oc w'] p]. apply Hfar. }
  set (h1 := StripPrefix _ _) in *. clearbody h1.
  assert (effect cache_of with_token same (if Enabled (Compression cfg) then CompressMW.Compress DetectContentType pooled (MinBytes (Compression cfg)) h1 else h1) /\
          silent CC with_token (if Enabled (Compression cfg) then CompressMW.Compress DetectContentType pooled (MinBytes (Compression cfg)) h1 else h1))
    as [He2 Hs2] by (case_match; [split; [by apply effect_compress|by apply silent_compress]|done]).
  set (h2 := if Enabled (Compression cfg) then _ else _) in *. clearbody h2.
  assert (effect cache_of with_token adds_none (match Config.Cache (bs_config b) with
    | Some cc => @CacheMW.Cache _ S (so_cache o) now sf_panic (TTL cc) h2 | None => h2 end)) as H3.
  { destruct (Config.Cache (bs_config b)); [by apply (effect_own_cache (so_cache o))|].
    eapply effect_weaken; [| |exact He2]; [done|]. intros r c c' _ ->. apply no_more_refl. }
  destruct (bs_limiter b) as [[? kf]|]; [|done]. apply effect_ratelimit; try done. by apply (Hlim i b).
Qed.

Lemma effect_orders_service :
  effect cache_of (fun _ => True) adds_none (service_chain now log DetectContentType pooled sf_panic cfg b o).
Proof using All.
  unfold service_chain. rewrite Hauth, Hkey. eapply (effect_auth _ with_token).
  - intros r tok cl _ E Hnil. change (Get (header r) "Authorization" = EmptyString) in Hnil. by rewrite Hnil in E.
  - apply effect_role_check, effect_orders_inner.
Qed.

(** The chains of the others. *)
Lemma effect_other_service j b' o' : services !! j = Some (b', o') -> j ≠ i ->
  effect cache_of (fun _ => True) adds_none (service_chain now log DetectContentType pooled sf_panic cfg b' o').
Proof using Hout.
  intros Hj Hne. destruct Hout as [Hlaws [] _ _ Hlim Hcache Hprox].
  assert (effect cache_of (fun _ => True) adds_none (inner_chain now log DetectContentType pooled sf_panic cfg b' o')) as H.
  { unfold inner_chain.
    assert (effect cache_of (fun _ => True) adds_none (StripPrefix (Prefix (bs_config b')) (so_proxy o'))) as H1.
    { apply effect_strip; try done. intros W RW r w s _. rewrite (Hprox j b' o' Hj Hne). apply no_more_refl. }
    set (h1 := StripPrefix _ _) in *. clearbody h1.
    assert (effect cache_of (fun _ => True) adds_none (if Enabled (Compression cfg)
      then CompressMW.Compress DetectContentType pooled (MinBytes (Compression cfg)) h1 else h1)) as H2
      by (case_match; [by apply effect_compress|done]).
    set (h2 := if Enabled (Compression cfg) then _ else _) in *. clearbody h2.
    assert (effect cache_of (fun _ => True) adds_none (match Config.Cache (bs_config b') with
      | Some cc => @CacheMW.Cache _ S (so_cache o') now sf_panic (TTL cc) h2 | None => h2 end)) as H3.
    { destruct (Config.Cache (bs_config b')); [|done]. apply effect_cache; try done. by apply (Hcache j b'). }
    destruct (bs_limiter b') as [[? kf]|]; [|done]. apply effect_ratelimit; try done. by apply (Hlim j b'). }
  apply (effect_role_check _ (RequiredRoles (bs_config b'))) in H. unfold service_chain.
  destruct (Config.Auth (bs_config b')); [|exact H]. destruct (bs_key b') as [k'|]; [by eapply effect_auth; [|exact H]|].
  intros W RW r w s _. apply no_more_refl.
Qed.

(** C5. The answers of the orders service are not cached. Whatever request passes
    the whole gateway, to whatever service, the cache in front of the orders
    service gains nothing: an entry it holds afterwards it held before. A cache
    that starts empty stays empty, so no user is ever served the stored orders of
    another. *)
Theorem orders_never_cached {W} (RW : ResponseWriter W) (r : Request) (w : W) (s : S) :
  let s' := (gateway now log read tracer m emit routePattern DetectContentType pooled sf_panic route cfg services edgeLimiter
               W RW r w s).2 in
  LRU.index (CacheMW.lru (cache_of s')) ⊆ LRU.index (CacheMW.lru (cache_of s)) /\
  LRU.values (CacheMW.lru (cache_of s')) ⊆ LRU.values (CacheMW.lru (cache_of s)).
Proof using All.
  assert (effect cache_of (fun _ => True) adds_none
    (dispatch now log DetectContentType pooled sf_panic route cfg services edgeLimiter)) as Hd.
  { intros W' RW' r' w' s0 _. unfold dispatch. destruct (x_observers Hout).
    assert (forall h : Handler S, (forall W (RW : ResponseWriter W) r (w : W) s, (h W RW r w s).2 = s) ->
      no_more (cache_of s0) (cache_of (RateLimitMW.RateLimit edgeLimiter RateLimitMW.KeyByIP log h W' RW' r' w' s0).2)) as Hedge.
    { intros h Hh. apply (effect_ratelimit cache_of (fun _ => True) adds_none); try done; [apply (x_edge Hout)|].
      intros ? ? ? ? ? _. by rewrite Hh. }
    destruct (route r') as [|j| |]; try (by apply Hedge).
    destruct (services !! j) as [[b' o']|] eqn:Hj; [|by apply Hedge]. destruct (decide (j = i)) as [->|Hne].
    - rewrite Hi in Hj. injection Hj as <- <-. by apply effect_orders_service.
    - by apply (effect_other_service j). }
  assert (effect cache_of (fun _ => True) adds_none (gateway now log read tracer m emit routePattern DetectContentType pooled sf_panic
    route cfg services edgeLimiter)) as H.
  { destruct (x_observers Hout). unfold gateway. apply effect_recoverer, effect_requestid, effect_logger, effect_maxbody, effect_metrics,
      effect_tracing, effect_concurrency; done. }
  destruct (H W RW r w s Logic.I) as (H1 & H2 & _). done.
Qed.
End Orders.

(** ** Example: a cached route in front of the orders *)

Module Sample.
Import Proxy.Sample UpstreamSample Compose.ComposeSample EndToEnd.Sample.

Notation state := (EndToEnd.Sample.state * CacheMW.cache_state)%type.

#[export] Instance cache_lens : Lens state CacheMW.cache_state := {| lget s := s.2; lset c s := (s.1, c) |}.
#[export] Instance cache_laws : LensLaws state CacheMW.cache_state.
Proof. constructor; simpl; try done. by intros []. Qed.

#[export] Instance cached_sem : Lens state Z := {| lget s := s.1.1; lset z s := ((z, s.1.2), s.2) |}.
Notation far := (Proxy.proxy_state (RoundRobin.RoundRobin * Health.Checker) * (Service.state * list log_record))%type.
#[export] Instance cached_far : Lens state far := {| lget s := s.1.2; lset p s := ((s.1.1, p), s.2) |}.

(** The orders service of the other examples, with a cache. *)
Definition config : ServiceConfig :=
  let c := bs_config Gateway.Sample.orders_service in
  mkService (Name c) (Prefix c) (Upstreams c) (Config.Auth c) (RequiredRoles c) (SvcRateLimit c) (Some (mkServiceCache Minute 100 1000)).

Definition cached_service : built_service string :=
  mkBuilt config (Some "key") None None (bs_handler Gateway.Sample.orders_service).

Definition now (s : state) : Z * state := (0, s).
Definition nolog : SlogLogger state := fun _ s => s.
Definition random (s : state) : result (list Z) * state := (Ok RequestIDMW.sample_random, s).

Definition tracer : TracingMW.Tracer state unit := {|
  TracingMW.Extract c _ := c;
  TracingMW.Start c _ _ s := ((c, tt), s);
  TracingMW.SetAttributes _ _ s := s;
  TracingMW.SetStatusError _ _ s := s;
  TracingMW.End_ _ s := s;
|}.

Definition noemit (x : string) (v : MetricsMW.measurement) (l : list (string * string)) (s : state) : state := s.
Definition free_pass : RateLimitMW.Limiter state := fun _ s => (Ok true, s).

Definition objects : @service_objects state :=
  mkObjects free_pass cache_lens
    (EndToEnd.orders_proxy Itoa id (fun _ => []) (fun _ _ => Store.sound 7) parse inject etext reliable (fun _ => 0)).

Definition begin : state := (EndToEnd.Sample.initial, CacheMW.Sample.empty_cache).

Definition run (r : Request) : outcome * response * state :=
  gateway now nolog random tracer Gateway.Sample.metrics noemit (fun _ _ => EmptyString) (fun _ => EmptyString) EmptyString
    (fun v => v) (fun _ => TService 0) (normal sample_config) [(cached_service, objects)] free_pass
    response _ r new_response begin.
End Sample.

Import Sample UpstreamSample Compose.ComposeSample.
#[local] Existing Instance CompressMW.sample_gzip.

Definition list_orders : Request := client "GET" "/orders/orders" EmptyString "Bearer tok" None.

Lemma outside_sample :
  outside (L := RoundRobin.RoundRobin * Health.Checker) now nolog random tracer noemit [(cached_service, objects)] free_pass 0 objects.
Proof.
  constructor; [exact cache_laws|constructor; reflexivity|reflexivity|reflexivity|..].
  - intros j b o [_ [= <- <-]]%list_lookup_singleton_Some k s. reflexivity.
  - by intros j b o [-> _]%list_lookup_singleton_Some.
  - by intros j b o [-> _]%list_lookup_singleton_Some.
Qed.

Lemma list_orders_answered : client_status (Sample.run list_orders).1.2 = 200.
Proof. vm_compute. reflexivity. Qed.

Lemma begins_empty : LRU.index (CacheMW.lru (cache_of objects begin)) = ∅.
Proof. reflexivity. Qed.

Lemma orders_never_cached_witness :
  client_status (Sample.run list_orders).1.2 = 200 /\ LRU.index (CacheMW.lru (cache_of objects (Sample.run list_orders).2)) ⊆ ∅.
Proof.
  split; [exact list_orders_answered|]. rewrite <- begins_empty.
  destruct (orders_never_cached Itoa id (fun _ => []) (fun _ _ => Store.sound 7) Proxy.Sample.parse Proxy.Sample.inject
    Proxy.Sample.etext reliable (fun _ => 0) (fun _ => Forall_nil_2 _) now nolog random tracer Gateway.Sample.metrics noemit (fun _ _ => EmptyString)
    (fun _ => EmptyString) EmptyString (fun v => v) (fun _ => TService 0) (normal sample_config) [(cached_service, objects)] free_pass 0
    cached_service objects "key" eq_refl eq_refl eq_refl eq_refl outside_sample response_Writer list_orders new_response begin) as [H _].
  exact H.
Defined.

End Uncached.
